(* ===== verification/_CoqProject ===== *)
-Q . S2P
Prelude.v
GoNet.v
GoText.v
GoFields.v
GoBinary.v
GoBase64.v
ProtoAad.v
ProtoHandshake.v
ProtoSession.v
ProtoAead.v
ProtoPunch.v
Update.v
UpdateThms.v
RelayText.v
StunCandidates.v
GoFloat.v
Ratelimit.v
RatelimitThms.v
Limits.v
RelaySession.v
RelayServer.v
RelayLoop.v
RelaySessionInv.v
RelaySessionThms.v
RelaySessionQuota.v
RelayServerThms.v
RelayLoopThms.v
RelaySessionGrace.v
RelaySessionExpiry.v
RelaySessionJoin.v
RelayTraffic.v
RelaySessionConflict.v
AgentReplay.v
AgentDaemon.v
AgentDaemonThms.v
P2pStun.v
P2pTunnel.v
P2pTunnelThms.v
P2pRelay.v
P2pRelayThms.v
McpBridge.v
McpBridgeThms.v
AgentWinargs.v
AgentTransfer.v
AgentTruncate.v
AgentOemtext.v
AgentSandbox.v
AgentSandboxThms.v
AgentFile.v
HelpTransfer.v
HelpTransferThms.v
AgentExec.v
CryptoTofu.v
CryptoTofuThms.v
P2pManager.v
P2pManagerThms.v
P2pManagerClose.v
HelpConnect.v
HelpConnectThms.v
ShareP2p.v
ShareP2pThms.v
ShareP2pSession.v
GoFlag.v
UpgradeFlags.v
UpgradeFlagsThms.v
GuiUpgradeText.v
UpgradeWorld.v
GuiUpgrade.v
UpgradeWorldThms.v
GuiUpgradeThms.v
GuiUpgradeRuns.v
GuiProbeThms.v
GuiServer.v
GuiServerThms.v
GuiServerRuns.v
GuiEvents.v
GuiMcp.v
GuiMcpThms.v
GuiPreview.v
GuiPreviewThms.v
