(* ===== verification/Prelude.v ===== *)
(** * remote-assist-tool: verification library (root file)

    ** The program

    A person who needs help runs [remote share] and gets an assistance code from
    a relay; a helper runs the MCP server of [remote help], joins with the code,
    and lets an AI assistant call tools on the other machine: run a command, read
    and write files.  The relay pairs the two ends and passes their messages on;
    the ends seal tool calls between themselves with a key derived from the code,
    and move to a direct UDP tunnel when they can punch one through their NATs.

    All names below are of src/, all files of this library.  A Go string is a
    list of bytes ([gostring]); machine integers are [Z] with [wrap] where the
    width matters; maps are [gmap]; errors are values of [result]; a shared
    object is an index into a heap where aliasing matters (the sessions of the
    relay, the buckets of the limiter), and a goroutine is a program counter and
    a step function where interleaving does.

    ** The parts and their files

    - The language and its library: [GoNet] (package net), [GoText] (UTF-8,
      strings, strconv), [GoFields] (lines and fields), [GoBinary], [GoBase64],
      [GoFloat] (float64, Duration), [GoFlag] (package flag).  Record update, machine integers and the
      generic lemmas are in this file.
    - Relay (internal/relay).  [RelaySession]: session.go, the session table with
      its four indexes, timers and grace periods, one definition per method.
      [RelayServer]: server.go, connections, limiters and message handlers, in a
      monad of state and output.  [RelayLoop]: the whole relay as a machine whose
      events are the goroutines' doings.  [RelayText]: sanitize.go, code.go,
      update_notice.go.  [Limits], [Ratelimit]: limits.go, internal/ratelimit.
    - Tool channel (internal/proto, internal/agent, internal/mcp).  [ProtoAad],
      [ProtoHandshake], [ProtoSession], [ProtoAead]: versions, keys, what a
      ciphertext is bound to, sealing.  [AgentReplay]: the window of request
      numbers.  [AgentDaemon]: agent.go, admission and answers.  [McpBridge]:
      bridge.go, calls and streams of the helper.
    - Tools (internal/agent).  [AgentSandbox], [AgentFile], [AgentExec],
      [AgentTruncate], [AgentOemtext], [AgentTransfer], [AgentWinargs].
    - Direct connection (internal/p2p).  [P2pStun], [StunCandidates]: STUN.
      [ProtoPunch]: authenticated punch packets.  [P2pManager]: manager.go, the
      negotiation.  [P2pTunnel]: tunnel.go, the reliable tunnel.  [P2pRelay]:
      stun_server.go, the UDP relay that stands in for it.
    - Ends (internal/client, internal/crypto).  [HelpConnect]: connect, reconnect,
      upgrade and way back of the helper.  [HelpTransfer]: upload and download
      with resumption.  [ShareP2p]: the rounds of the share.  [CryptoTofu]: the
      pinned certificates.  [Update]: the new-version notice.
    - Upgrade of a running share (internal/gui/upgrade.go, internal/upgradeflags,
      cmd/remote).  [UpgradeFlags]: what is read off the old command line and the
      new one that is made of it.  [GuiUpgradeText]: versions, executables, the
      probe.  [UpgradeWorld]: the remote machine and the commands stage, commit,
      rollback and replace, one system call after the other.  [GuiUpgrade]:
      handleUpgrade.
    - GUI (internal/gui).  [GuiServer]: server.go, who is let in, connect,
      disconnect, the guard of the child and the broadcasts, as goroutines.
      [GuiMcp]: mcpclient.go, calls and streams of the child.  [GuiPreview]: the
      cache of image previews.  [GuiEvents]: what an EventSource makes of the
      broadcasts.

    They interact as the code does.  [RelayServer] calls the session table and the
    limiters; [HelpTransfer] calls the file tools of [AgentFile] through a lossy
    network; [McpBridgeThms] composes the bridge with the daemon and the sealing;
    [P2pRelayThms] carries a tunnel of [P2pTunnel] over the UDP relay;
    [HelpConnect] and [ShareP2p] use the sessions of [ProtoSession] and the modes
    of [P2pManager]; [GuiUpgrade] runs the commands of [UpgradeWorld] through a
    connection that can be lost at every call, and these make the arguments of the
    new share with [UpgradeFlags]; [GuiServer] shares its fields with [GuiUpgrade]
    and has the upgrade as one of its goroutines.

    ** What is proved

    - Relay: the indexes always describe the same open sessions
      ([RelaySessionThms.reachable_tables_agree]); limits hold in every history
      ([RelayLoopThms.relay_within_limits]); traffic stays within a session
      ([RelayTraffic.traffic_isolated]); a message out of turn ends the connection;
      joins succeed or fail as they should, and refusals do not tell codes apart; a
      code survives a disconnection for its grace ([RelaySessionGrace]); expiry is
      exact ([RelaySessionExpiry]); the data plane is shut until it is activated.
    - Tool channel: nothing runs unasked and nothing twice
      ([AgentDaemonThms.calls_authentic_and_once]); a call composes to what the
      tool returned ([McpBridgeThms.call_roundtrip]); a stream is complete or fails;
      the bitmap refines a window over sets ([AgentReplay]); a downgrade is noticed
      ([ProtoSession.downgrade_detected]).
    - Tunnel: what is read is a prefix of what was written, over any network
      ([P2pTunnelThms.tunnel_reads_prefix]); the UDP relay is isolated per session
      ([P2pRelayThms]); an unauthenticated packet convinces nobody
      ([P2pManagerClose.connected_by_peer]); [Close] ends every goroutine and leaves
      nothing behind.
    - Ends: transfers that report success have copied the file ([HelpTransferThms]);
      reconnections go where they were meant to ([HelpConnectThms]); old rounds of
      the share wind down and keep off the new one ([ShareP2pThms],
      [ShareP2pSession]); a pinned relay is only accepted with its certificate
      ([CryptoTofuThms.pin_holds]).
    - Upgrade: the old share runs until a new one has answered and been checked,
      whatever is lost or killed ([GuiUpgradeThms.upgrade_make_before_break]); the
      old executable can be had back ([GuiUpgradeThms.windows_exe_recoverable],
      [GuiUpgradeThms.linux_exe_whole]); the probe reads a process as it is
      ([GuiProbeThms]); the new share runs with the old one's settings
      ([UpgradeFlagsThms.upgrade_keeps_settings]).
    - GUI: no child is ever forgotten when connects do not overlap
      ([GuiServerThms.no_child_left_behind]), a disconnection lasts
      ([GuiServerThms.disconnect_lasts]), a lost connection comes back
      ([GuiServerRuns.lost_connection_returns]); a call gets its own response after
      its own stream ([GuiMcpThms.response_after_stream]), readLoop never waits and
      never sends on a closed queue ([GuiMcpThms.reader_never_stuck]), the end of
      the child wakes every call ([GuiMcpThms.exit_wakes_calls]); nothing but the
      page is served without the token ([GuiServerThms.api_guarded]); the preview
      cache only holds files under their MD5 ([GuiPreviewThms.preview_cache_sound]).
    - Tools: paths below the root ([AgentSandboxThms]), truncation at characters,
      exact output of commands, command lines Windows reads back.
    - Where the code does not keep what it promises, a theorem gives the run:
      [HelpTransferThms.upload_keeps_old_file], [AgentSandboxThms.dangling_link_escapes],
      [AgentTruncate.bounded_stream_peak], [P2pManagerClose.fallback_then_tunnel],
      [P2pTunnelThms.tunnel_stalls], [ShareP2pSession.old_round_replaces_session],
      [UpgradeFlagsThms.one_dash_passes], [GuiUpgradeRuns.new_share_left_behind],
      [GuiServerRuns.disconnect_undone], [GuiServerRuns.overlapping_connects_leak],
      [GuiEvents.states_not_dispatched], [GuiPreviewThms.waiter_inherits_cancellation]
      and others named beside the definitions they are about.

    ** Fuel, and what is assumed

    Loops that draw random numbers take the list of draws and return [None] when
    it runs out; the theorems say what happens when they return, and
    [RelayTraffic.tool_throttle_ends] and its like give draws or clock readings
    that suffice.  Retries of [HelpTransfer] have the bounds of the code as fuel.
    The window of [AgentReplay] clears at most 1024 bits, which is its fuel.
    [ShareP2pThms.drive] takes 21 steps, the height of a goroutine's program.
    The waits of an upgrade have the number of ticks of their deadline as fuel,
    and a list of fates, one for each system call, that goes on with calls that
    work when it is exhausted.  The theorems on runs of [GuiServer] suppose fewer
    than 2^64 steps, so that the generation of the connection does not come round.

    Code that is not under src/ is a parameter: XChaCha20-Poly1305 ([Aead],
    [AeadLaws]), HKDF, HMAC-SHA256, SHA-256, deflate, JSON of punch packets,
    [EvalSymlinks], [ResolveUDPAddr], [unicode.ToLower], the console functions of
    Windows, random sources and clocks.  The laws asked of them are those their
    documentation states (what is sealed opens; a decoder undoes its encoder), and
    each theorem that needs them has an instance where they hold.

    ** What is not modelled

    Sockets, TLS and QUIC dialling, JSON framing, the log and the console; HTTP,
    the page of the GUI; the dispatch of commands, services; calls into the
    operating system (clipboard, lock files, elevation, process groups).  These are input and
    output around the parts above.  Left for later: the loops of grep, tail_log and
    process_list, the MCP server's dispatch, the progress line of a transfer, the
    race of STUN servers, the loop of [ShareMode.Run] with its delays, and SSH
    forwarding. *)

From stdpp Require Export base gmap strings list fin_maps.
From Stdlib Require Export ZArith Lia.

(** ** Notations of the library, in a scope of their own *)

Declare Scope go_scope.
Delimit Scope go_scope with go.

(** ** Field update

    Go assigns to fields of structs.  [Eta R] is the eta expansion of a
    record, from which the update of any one field is derived. *)

Class Eta (R : Type) := eta : R → R.
Class SetField {R T : Type} (proj : R → T) := set_field : T → R → R.
#[global] Hint Mode SetField - - ! : typeclass_instances.
Arguments set_field {R T} proj {_} _ _.

Ltac derive_setter :=
  match goal with
  | |- @SetField ?R ?T ?proj =>
      let v := fresh "v" in
      let r := fresh "r" in
      refine (fun (v : T) (r : R) => _);
      let i := constr:(ltac:(typeclasses eauto) : Eta R) in
      let e := eval hnf in i in
      let b := eval cbv beta delta [eta] in (e r) in
      let f := eval pattern (proj r) in b in
      match f with
      | ?g _ => let t := eval cbv beta in (g v) in exact t
      end
  end.
#[export] Hint Extern 0 (@SetField _ _ _) => derive_setter : typeclass_instances.

Notation "r <| f := v |>" := (set_field f v r)
  (at level 1, left associativity, f at level 1, v at level 200,
   format "r  <| f  :=  v |>") : go_scope.
#[global] Open Scope go_scope.

(** ** Errors as values *)

Inductive result (E A : Type) : Type :=
| Ok (a : A)
| Err (e : E).
Arguments Ok {E A} a.
Arguments Err {E A} e.

Definition is_ok {E A : Type} (r : result E A) : bool :=
  match r with Ok _ => true | Err _ => false end.

(** ** Machine integers

    [wrap w z] is the value an unsigned [w]-bit integer keeps of [z]. *)

Definition wrap (w : Z) (z : Z) : Z := (z mod 2 ^ w)%Z.

Lemma wrap_small (w z : Z) : (0 ≤ z < 2 ^ w)%Z → wrap w z = z.
Proof. apply Z.mod_small. Qed.

Lemma wrap_range (w z : Z) : (0 ≤ w)%Z → (0 ≤ wrap w z < 2 ^ w)%Z.
Proof. intros. apply Z.mod_pos_bound. lia. Qed.

(** ** Time: nanoseconds since the Unix epoch; [time_zero] is [time.Time{}] *)

Definition Second : Z := 1000000000.
Definition Minute : Z := 60 * Second.
Definition time_zero : Z := -62135596800 * Second.

(** ** Tactics *)

(** Case analysis on the scrutinee of the goal's, or a hypothesis', branches. *)
Ltac go_case :=
  match goal with
  | |- context [match ?x with _ => _ end] => destruct x eqn:?
  | H : context [match ?x with _ => _ end] |- _ => destruct x eqn:?
  end.
Ltac inv H := inversion H; subst; clear H.
Ltac go_solve := simplify_eq/=; try done; try lia; try congruence.

(** Decides a closed proposition. *)
Ltac by_compute := match goal with |- ?P => apply (bool_decide_unpack P) end; by vm_compute.

(** [lia] with divisions by constants. *)
Ltac zdiv := Z.div_mod_to_equations; lia.

(** What a computed value shows of the result it stands for. *)
Lemma fmap_value {A B : Type} (o : option A) (f : A → B) (a : A) (b : B) :
  o = Some a → f <$> o = Some b → f a = b.
Proof. by intros -> [= <-]. Qed.

(** ** Hint databases

    [relay] carries the lemmas that discharge invariants of the relay's tables. *)
Create HintDb relay.

(** ** Lemmas on finite maps shared by the components *)

Section map_lemmas.
Context `{Countable K} {A : Type} (P : K * A → Prop) `{!∀ x, Decision (P x)}.

Lemma size_filter_insert (m : gmap K A) k v :
  m !! k = None → size (filter P (<[k:=v]> m)) = ((if decide (P (k, v)) then 1 else 0) + size (filter P m))%nat.
Proof.
  intros Hk. rewrite map_filter_insert. destruct (decide _); [|by rewrite delete_id].
  rewrite map_size_insert_None; [done|]. apply map_lookup_filter_None. by left.
Qed.

Lemma size_filter_delete (m : gmap K A) k v :
  m !! k = Some v → size (filter P m) = ((if decide (P (k, v)) then 1 else 0) + size (filter P (delete k m)))%nat.
Proof.
  intros Hk. rewrite <- (insert_delete_id m k v Hk) at 1. rewrite size_filter_insert; [done|]. apply lookup_delete_eq.
Qed.

(** Replacing a value by one the filter treats alike. *)
Lemma size_filter_replace (m : gmap K A) k v w :
  m !! k = Some v → (P (k, w) ↔ P (k, v)) → size (filter P (<[k:=w]> m)) = size (filter P m).
Proof.
  intros Hk HP. rewrite (size_filter_delete m k v Hk), <- insert_delete_eq.
  rewrite size_filter_insert by apply lookup_delete_eq.
  destruct (decide (P (k, w))), (decide (P (k, v))); naive_solver.
Qed.
End map_lemmas.

(** ** Bits

    Disjoint bit fields add up. *)

Lemma land_high_low a b k : (0 ≤ k)%Z → (0 ≤ b < 2 ^ k)%Z → Z.land (a * 2 ^ k) b = 0%Z.
Proof.
  intros Hk Hb. apply Z.bits_inj'. intros n Hn. rewrite Z.land_spec, Z.bits_0.
  destruct (Z.lt_ge_cases n k) as [Hlt|Hge].
  - by rewrite Z.mul_pow2_bits_low.
  - assert (Z.testbit b n = false) as ->; [|apply andb_false_r].
    destruct (Z.eq_dec b 0) as [->|Hne]; [apply Z.bits_0|].
    apply Z.bits_above_log2; [lia|]. apply Z.log2_lt_pow2; [lia|].
    eapply Z.lt_le_trans; [apply Hb|]. apply Z.pow_le_mono_r; lia.
Qed.

Lemma lor_high_low a b k : (0 ≤ k)%Z → (0 ≤ b < 2 ^ k)%Z → Z.lor (a * 2 ^ k) b = (a * 2 ^ k + b)%Z.
Proof.
  intros Hk Hb. pose proof (land_high_low a b k Hk Hb) as E.
  rewrite <- Z.lxor_lor by done. symmetry. by apply Z.add_nocarry_lxor.
Qed.

Lemma shiftl_lor a b k : (0 ≤ k)%Z → (0 ≤ b < 2 ^ k)%Z → Z.lor (Z.shiftl a k) b = (a * 2 ^ k + b)%Z.
Proof. intros Hk Hb. rewrite Z.shiftl_mul_pow2 by done. by apply lor_high_low. Qed.

Lemma land_low a k : (0 ≤ k)%Z → Z.land a (2 ^ k - 1) = (a mod 2 ^ k)%Z.
Proof. intros Hk. rewrite <- Z.land_ones by done. by rewrite Z.ones_equiv. Qed.

(** ** Sums over the goroutines of a system *)

Definition total {A} (f : A → nat) (l : list A) : nat := sum_list_with f l.

Arguments total : simpl never.

Lemma total_app {A} (f : A → nat) l x : total f (l ++ [x]) = (total f l + f x)%nat.
Proof. unfold total. rewrite sum_list_with_app. simpl. lia. Qed.

Lemma total_insert {A} (f : A → nat) l i x y :
  l !! i = Some x → (total f (<[i := y]> l) + f x = total f l + f y)%nat.
Proof.
  unfold total. revert i. induction l as [|z l IH]; intros [|i]; simpl; try done.
  - intros [= ->]. lia.
  - intros H. specialize (IH i H). lia.
Qed.
