(* ===== verification/GoNet.v ===== *)
(** * The address functions of Go's [net] package that the program uses

    [SplitHostPort], [JoinHostPort], [ParseIP] and [IP.Equal] are the standard
    library's; they are written out here because the relay's admission checks
    and rate-limit keys depend on what they accept.  An [IP] is the list of its
    4 or 16 bytes. *)

From S2P Require Import Prelude.

Open Scope Z_scope.

(** ** Byte strings *)

Definition code (a : Ascii.ascii) : Z := Z.of_nat (Ascii.nat_of_ascii a).

Fixpoint bytes_of (s : string) : list Z :=
  match s with
  | EmptyString => []
  | String.String a s' => code a :: bytes_of s'
  end.

Fixpoint index_byte (b : Z) (l : list Z) : option nat :=
  match l with
  | [] => None
  | x :: l' => if x =? b then Some 0%nat else S <$> index_byte b l'
  end.

Fixpoint last_index_byte (b : Z) (l : list Z) : option nat :=
  match l with
  | [] => None
  | x :: l' =>
      match last_index_byte b l' with
      | Some i => Some (S i)
      | None => if x =? b then Some 0%nat else None
      end
  end.

Definition has_byte (b : Z) (l : list Z) : bool :=
  match index_byte b l with Some _ => true | None => false end.

Definition string_of (l : list Z) : string :=
  fold_right (fun b s => String.String (Ascii.ascii_of_nat (Z.to_nat b)) s) EmptyString l.

(** ** [net.SplitHostPort], [net.JoinHostPort] *)

Definition ch_colon := 58.
Definition ch_lbracket := 91.
Definition ch_rbracket := 93.
Definition ch_dot := 46.
Definition ch_percent := 37.

Definition split_host_port_bytes (hp : list Z) : option (list Z * list Z) :=
  match last_index_byte ch_colon hp with
  | None => None
  | Some i =>
      let port := drop (S i) hp in
      match hp with
      | 91 :: _ =>
          match index_byte ch_rbracket hp with
          | None => None
          | Some e =>
              if decide (S e = i) then
                if has_byte ch_lbracket (drop 1 hp) || has_byte ch_rbracket (drop (S e) hp)
                then None else Some (take (e - 1) (drop 1 hp), port)
              else None
          end
      | _ =>
          let host := take i hp in
          if has_byte ch_colon host || has_byte ch_lbracket hp || has_byte ch_rbracket hp
          then None else Some (host, port)
      end
  end.

Definition SplitHostPort (hp : string) : option (string * string) :=
  match split_host_port_bytes (bytes_of hp) with
  | Some (h, p) => Some (string_of h, string_of p)
  | None => None
  end.

Definition JoinHostPort (host port : string) : string :=
  if has_byte ch_colon (bytes_of host)
  then ("[" +:+ host +:+ "]:" +:+ port)%string
  else (host +:+ ":" +:+ port)%string.

(** ** [net.ParseIP] *)

Definition is_digit (c : Z) : bool := (48 <=? c) && (c <=? 57).

(** [parseIPv4Fields]; [prev_dot] records whether the previous byte was a dot
    (or there was none). *)
Fixpoint ipv4_fields (l : list Z) (acc : list Z) (val : Z) (dig : nat) (prev_dot : bool)
  : option (list Z) :=
  match l with
  | [] => if (length acc <? 3)%nat then None else Some (acc ++ [val])
  | c :: l' =>
      if is_digit c then
        if (dig =? 1)%nat && (val =? 0) then None else
        let val' := val * 10 + (c - 48) in
        if 255 <? val' then None else ipv4_fields l' acc val' (S dig) false
      else if c =? ch_dot then
        if prev_dot || (length l' =? 0)%nat then None else
        if (length acc =? 3)%nat then None else
        ipv4_fields l' (acc ++ [val]) 0 0 true
      else None
  end.

Definition parse_ipv4 (l : list Z) : option (list Z) := ipv4_fields l [] 0 0 true.

Definition hex_digit (c : Z) : option Z :=
  if is_digit c then Some (c - 48)
  else if (97 <=? c) && (c <=? 102) then Some (c - 87)
  else if (65 <=? c) && (c <=? 70) then Some (c - 55)
  else None.

(** One hexadecimal group: its value, the number of its digits and the rest;
    [None] for more than four digits. *)
Fixpoint hex_group (l : list Z) (acc : Z) (off : nat) : option (Z * nat * list Z) :=
  match l with
  | [] => Some (acc, off, [])
  | c :: l' =>
      match hex_digit c with
      | None => Some (acc, off, l)
      | Some d => if (3 <? off)%nat then None else hex_group l' (acc * 16 + d) (S off)
      end
  end.

(** The loop of [parseIPv6]: [ip] holds the bytes stored so far and [ell] the
    position of the ellipsis. Every round stores at least two bytes, so eight
    rounds of fuel are all a 16-byte address can take. *)
Fixpoint ipv6_loop (fuel : nat) (s ip : list Z) (ell : option nat)
  : option (list Z * list Z * option nat) :=
  match fuel with
  | O => Some (s, ip, ell)
  | S fuel =>
      match hex_group s 0 0 with
      | None => None
      | Some (acc, off, rest) =>
          if (off =? 0)%nat then None else
          match rest with
          | 46 :: _ =>
              if (match ell with Some _ => false | None => negb (length ip =? 12)%nat end) then None else
              if (16 <? length ip + 4)%nat then None else
              match parse_ipv4 s with
              | None => None
              | Some v4 => Some ([], ip ++ v4, ell)
              end
          | [] => Some ([], ip ++ [Z.shiftr acc 8; Z.land acc 255], ell)
          | c :: rest' =>
              let ip' := ip ++ [Z.shiftr acc 8; Z.land acc 255] in
              if negb (c =? ch_colon) then None else
              match rest' with
              | [] => None
              | 58 :: rest'' =>
                  match ell with
                  | Some _ => None
                  | None =>
                      match rest'' with
                      | [] => Some ([], ip', Some (length ip'))
                      | _ => ipv6_loop fuel rest'' ip' (Some (length ip'))
                      end
                  end
              | _ => ipv6_loop fuel rest' ip' ell
              end
          end
      end
  end.

Definition parse_ipv6 (s : list Z) : option (list Z) :=
  let finish r :=
    match r with
    | Some ([], ip, ell) =>
        if (length ip <? 16)%nat then
          match ell with
          | None => None
          | Some e => Some (take e ip ++ replicate (16 - length ip) 0 ++ drop e ip)
          end
        else match ell with Some _ => None | None => Some ip end
    | _ => None
    end in
  match s with
  | [58; 58] => Some (replicate 16 0)
  | 58 :: 58 :: s' => finish (ipv6_loop 8 s' [] (Some 0%nat))
  | _ => finish (ipv6_loop 8 s [] None)
  end.

Definition v4InV6Prefix : list Z := [0;0;0;0;0;0;0;0;0;0;255;255].

(** [netip.ParseAddr] dispatches on the first of [.], [:] and [%]; an address
    with a zone is refused by [net.ParseIP]. *)
Definition ParseIP (str : string) : option (list Z) :=
  let s := bytes_of str in
  let fix go (l : list Z) :=
    match l with
    | [] => None
    | c :: l' =>
        if c =? ch_dot then (fun v4 => v4InV6Prefix ++ v4) <$> parse_ipv4 s
        else if c =? ch_colon then
          if has_byte ch_percent s then None else parse_ipv6 s
        else if c =? ch_percent then None
        else go l'
    end in
  go s.

Definition IP_Equal (a b : list Z) : bool :=
  if (length a =? length b)%nat then bool_decide (a = b)
  else if (length a =? 4)%nat && (length b =? 16)%nat
  then bool_decide (b = v4InV6Prefix ++ a)
  else if (length a =? 16)%nat && (length b =? 4)%nat
  then bool_decide (a = v4InV6Prefix ++ b)
  else false.

(** ** Checks on concrete addresses *)

Example parse_v4 : ParseIP "203.0.113.9" = Some (v4InV6Prefix ++ [203; 0; 113; 9]).
Proof. vm_compute. reflexivity. Qed.

Example parse_v4_leading_zero : ParseIP "203.0.113.09" = None.
Proof. vm_compute. reflexivity. Qed.

Example parse_v6 : ParseIP "fe80::1" = Some [254; 128; 0; 0; 0; 0; 0; 0; 0; 0; 0; 0; 0; 0; 0; 1].
Proof. vm_compute. reflexivity. Qed.

Example parse_v6_mapped : ParseIP "::ffff:10.0.0.7" = Some (v4InV6Prefix ++ [10; 0; 0; 7]).
Proof. vm_compute. reflexivity. Qed.

Example parse_name : ParseIP "relay.example" = None.
Proof. vm_compute. reflexivity. Qed.

Example split_v6 : SplitHostPort "[::1]:8443" = Some ("::1", "8443")%string.
Proof. vm_compute. reflexivity. Qed.

Example split_bare_v6 : SplitHostPort "::1:8443" = None.
Proof. vm_compute. reflexivity. Qed.

(** ** Lemmas *)

Lemma IP_Equal_refl (ip : list Z) : IP_Equal ip ip = true.
Proof. unfold IP_Equal. by rewrite Nat.eqb_refl, bool_decide_true. Qed.


