(* ===== verification/GoText.v ===== *)
(** * Go's strings: UTF-8 and the functions of [strings], [unicode] and [strconv]
    the program uses

    A Go string is a list of bytes.  [segments] cuts it the way [range] does: at
    each step one rune, or one byte of an invalid encoding, which reads as
    U+FFFD. *)

From S2P Require Import Prelude GoNet.

Open Scope Z_scope.

Notation gostring := (list Z) (only parsing).
Notation lit s := (bytes_of s%string).

(** ** UTF-8 *)

Definition RuneError : Z := 0xFFFD.

Definition is_cont (b : Z) : bool := (0x80 <=? b) && (b <=? 0xBF).
Definition between (lo b hi : Z) : bool := (lo <=? b) && (b <=? hi).

(** The first rune of a non-empty byte string and its width. *)
Definition decode_rune (l : list Z) : Z * nat :=
  match l with
  | [] => (RuneError, 0%nat)
  | b0 :: r =>
      if b0 <? 0x80 then (b0, 1%nat)
      else match r with
      | b1 :: r1 =>
          if between 0xC2 b0 0xDF then
            if is_cont b1 then (Z.lor (Z.shiftl (Z.land b0 0x1F) 6) (Z.land b1 0x3F), 2%nat)
            else (RuneError, 1%nat)
          else match r1 with
          | b2 :: r2 =>
              if between 0xE0 b0 0xEF then
                let lo := if b0 =? 0xE0 then 0xA0 else 0x80 in
                let hi := if b0 =? 0xED then 0x9F else 0xBF in
                if between lo b1 hi && is_cont b2 then
                  (Z.lor (Z.shiftl (Z.land b0 0x0F) 12)
                     (Z.lor (Z.shiftl (Z.land b1 0x3F) 6) (Z.land b2 0x3F)), 3%nat)
                else (RuneError, 1%nat)
              else match r2 with
              | b3 :: _ =>
                  if between 0xF0 b0 0xF4 then
                    let lo := if b0 =? 0xF0 then 0x90 else 0x80 in
                    let hi := if b0 =? 0xF4 then 0x8F else 0xBF in
                    if between lo b1 hi && is_cont b2 && is_cont b3 then
                      (Z.lor (Z.shiftl (Z.land b0 0x07) 18)
                         (Z.lor (Z.shiftl (Z.land b1 0x3F) 12)
                            (Z.lor (Z.shiftl (Z.land b2 0x3F) 6) (Z.land b3 0x3F))), 4%nat)
                    else (RuneError, 1%nat)
                  else (RuneError, 1%nat)
              | [] => (RuneError, 1%nat)
              end
          | [] => (RuneError, 1%nat)
          end
      | [] => (RuneError, 1%nat)
      end
  end.

(** [utf8.AppendRune]: surrogates and values out of range become U+FFFD. *)
Definition encode_rune (r : Z) : list Z :=
  let r := if (r <? 0) || (0x10FFFF <? r) || between 0xD800 r 0xDFFF then RuneError else r in
  if r <=? 0x7F then [r]
  else if r <=? 0x7FF then [Z.lor 0xC0 (Z.shiftr r 6); Z.lor 0x80 (Z.land r 0x3F)]
  else if r <=? 0xFFFF then
    [Z.lor 0xE0 (Z.shiftr r 12); Z.lor 0x80 (Z.land (Z.shiftr r 6) 0x3F); Z.lor 0x80 (Z.land r 0x3F)]
  else [Z.lor 0xF0 (Z.shiftr r 18); Z.lor 0x80 (Z.land (Z.shiftr r 12) 0x3F);
        Z.lor 0x80 (Z.land (Z.shiftr r 6) 0x3F); Z.lor 0x80 (Z.land r 0x3F)].

Lemma decode_rune_width l : l ≠ [] → (1 ≤ snd (decode_rune l) ≤ length l)%nat.
Proof.
  intros Hl. destruct l as [|b0 [|b1 [|b2 [|b3 r]]]]; [done|..]; simpl;
    repeat match goal with |- context [if ?b then _ else _] => destruct b end; simpl; lia.
Qed.

(** The runes of [range s], each with the bytes it was read from. [fuel] bounds
    the number of steps; the length of the string is enough. *)
Fixpoint segments_fuel (fuel : nat) (l : list Z) : list (list Z * Z) :=
  match fuel, l with
  | S fuel, _ :: _ =>
      let '(r, w) := decode_rune l in
      (take w l, r) :: segments_fuel fuel (drop w l)
  | _, _ => []
  end.
Definition segments (l : list Z) : list (list Z * Z) := segments_fuel (length l) l.
Definition runes (l : list Z) : list Z := map snd (segments l).

Lemma segments_fuel_concat n : ∀ l, (length l ≤ n)%nat → concat (map fst (segments_fuel n l)) = l.
Proof.
  induction n as [|n IH]; intros [|b l] Hn; simpl in Hn; try done; [lia|].
  cbn [segments_fuel]. destruct (decode_rune (b :: l)) as [r w] eqn:E.
  pose proof (decode_rune_width (b :: l) ltac:(done)) as Hw. rewrite E in Hw. simpl in Hw.
  cbn [map concat fst]. rewrite IH; [apply take_drop|]. rewrite length_drop. simpl. lia.
Qed.

(** Nothing of a string is lost when it is cut. *)
Lemma segments_concat l : concat (map fst (segments l)) = l.
Proof. by apply segments_fuel_concat. Qed.

(** ** [strings] *)

(** [strings.Map]: a negative result drops the rune. *)
Definition map_runes (f : Z → Z) (l : list Z) : list Z :=
  concat (map (fun r => let r' := f r in if r' <? 0 then [] else encode_rune r') (runes l)).

(** [unicode.IsSpace] *)
Definition is_space (r : Z) : bool :=
  between 9 r 13 || (r =? 0x20) || (r =? 0x85) || (r =? 0xA0) || (r =? 0x1680)
  || between 0x2000 r 0x200A || (r =? 0x2028) || (r =? 0x2029) || (r =? 0x202F)
  || (r =? 0x205F) || (r =? 0x3000).

Fixpoint drop_while {A} (p : A → bool) (l : list A) : list A :=
  match l with
  | x :: l' => if p x then drop_while p l' else l
  | [] => []
  end.

Definition trim_segments (p : Z → bool) (l : list (list Z * Z)) : list (list Z * Z) :=
  let p := fun s : list Z * Z => p (snd s) in
  rev (drop_while p (rev (drop_while p l))).

Definition TrimSpace (l : list Z) : list Z := concat (map fst (trim_segments is_space (segments l))).

Fixpoint has_prefix (p l : list Z) : bool :=
  match p, l with
  | [], _ => true
  | x :: p, y :: l => (x =? y) && has_prefix p l
  | _ :: _, [] => false
  end.

Definition TrimPrefix (p l : list Z) : list Z := if has_prefix p l then drop (length p) l else l.

Fixpoint contains (p l : list Z) : bool :=
  has_prefix p l || match l with [] => false | _ :: l => contains p l end.

(** [strings.Split] by one byte, [strings.IndexAny] of ASCII bytes. *)
Fixpoint split_byte (sep : Z) (l : list Z) : list (list Z) :=
  match l with
  | [] => [[]]
  | b :: l =>
      match split_byte sep l with
      | part :: parts => if b =? sep then [] :: part :: parts else (b :: part) :: parts
      | [] => [[b]]
      end
  end.

Fixpoint index_any (chars l : list Z) : option nat :=
  match l with
  | [] => None
  | b :: l => if has_byte b chars then Some 0%nat else S <$> index_any chars l
  end.

(** [strings.Fields]: the maximal runs of runes that are no space. *)
Fixpoint fields_of (l : list (list Z * Z)) : list (list Z) :=
  match l with
  | [] => []
  | (bs, r) :: l =>
      if is_space r then fields_of l
      else
        let rest := fields_of l in
        let glued := match l with (_, r') :: _ => negb (is_space r') | [] => false end in
        match rest with
        | f :: fs => if glued then (bs ++ f) :: fs else bs :: rest
        | [] => [bs]
        end
  end.
Definition Fields (l : list Z) : list (list Z) := fields_of (segments l).

(** [unicode.ToLower] on ASCII and on the two other runes whose lower case is in
    ASCII, U+212A and U+0130; the rest never compares equal to an ASCII name. *)
Definition to_lower (r : Z) : Z :=
  if between 65 r 90 then r + 32
  else if r =? 0x212A then 107 else if r =? 0x130 then 105 else r.
Definition ToLower (l : list Z) : list Z := map_runes to_lower l.

(** [strings.EqualFold] with an ASCII word: folding adds U+017F to s and U+212A to
    k. *)
Definition fold_ascii (r : Z) : Z :=
  if between 65 r 90 then r + 32 else if r =? 0x17F then 115 else if r =? 0x212A then 107 else r.
Definition EqualFold (l word : list Z) : bool :=
  bool_decide (map fold_ascii (runes l) = map fold_ascii (runes word)).

(** [strings.NewReplacer]: at each position the first pair whose old string is
    there applies. *)
Fixpoint replace_fuel (fuel : nat) (pairs : list (list Z * list Z)) (l : list Z) : list Z :=
  match fuel, l with
  | S fuel, b :: l' =>
      match find (fun pr => has_prefix (fst pr) l) pairs with
      | Some (old, new) => new ++ replace_fuel fuel pairs (drop (length old) l)
      | None => b :: replace_fuel fuel pairs l'
      end
  | _, _ => []
  end.
Definition Replace (pairs : list (list Z * list Z)) (l : list Z) : list Z :=
  replace_fuel (length l) pairs l.

(** ** [strconv] *)

Definition is_digit (b : Z) : bool := between 48 b 57.

Fixpoint digits_value (acc : Z) (l : list Z) : option Z :=
  match l with
  | [] => Some acc
  | b :: l => if is_digit b then digits_value (acc * 10 + (b - 48)) l else None
  end.

(** [strconv.Atoi] of an unsigned decimal, 64-bit. *)
Definition Atoi (l : list Z) : option Z :=
  match l with
  | [] => None
  | _ => match digits_value 0 l with Some n => if n <? 2 ^ 63 then Some n else None | None => None end
  end.

(** [%d] *)
Fixpoint decimal_fuel (fuel : nat) (n : Z) (acc : list Z) : list Z :=
  match fuel with
  | O => acc
  | S fuel =>
      let acc := (48 + n mod 10) :: acc in
      if n <? 10 then acc else decimal_fuel fuel (n / 10) acc
  end.
Definition decimal (n : Z) : list Z := decimal_fuel 20 n [].

Example decode_multibyte : runes (bytes_of "aé€😀"%string) = [97; 0xE9; 0x20AC; 0x1F600].
Proof. by vm_compute. Qed.
Example decode_invalid : runes [0xE2; 0x82; 65; 0xC0; 0xED; 0xA0; 0x80] =
  [RuneError; RuneError; 65; RuneError; RuneError; RuneError; RuneError].
Proof. by vm_compute. Qed.
Example fields_words : Fields (bytes_of " a  bc d "%string) = map bytes_of ["a"; "bc"; "d"]%string.
Proof. by vm_compute. Qed.
Example decimal_zero_twelve : map decimal [0; 12; 9223372036854775807] =
  map bytes_of ["0"; "12"; "9223372036854775807"]%string.
Proof. by vm_compute. Qed.

(** ** Encoding and decoding *)

(** Unicode scalar values. *)
Definition scalar (r : Z) : Prop := 0 ≤ r ≤ 0x10FFFF ∧ ¬ (0xD800 ≤ r ≤ 0xDFFF).

Lemma between_true a b c : a ≤ b ≤ c → between a b c = true.
Proof. intros. unfold between. apply andb_true_iff. rewrite !Z.leb_le. done. Qed.

Lemma between_false a b c : b < a ∨ c < b → between a b c = false.
Proof. intros. unfold between. apply andb_false_iff. rewrite !Z.leb_gt. done. Qed.

Lemma lead_byte a b k : 0 ≤ k → 0 ≤ b < 2 ^ k → Z.lor (a * 2 ^ k) b = a * 2 ^ k + b ∧ Z.land (a * 2 ^ k + b) (2 ^ k - 1) = b.
Proof.
  intros Hk Hb. split; [by apply lor_high_low|]. rewrite land_low by done.
  rewrite Z.add_comm, Z_mod_plus_full. by apply Z.mod_small.
Qed.

Lemma cont_byte b : 0 ≤ b < 64 → is_cont (Z.lor 0x80 b) = true ∧ Z.land (Z.lor 0x80 b) 0x3F = b ∧ Z.lor 0x80 b = 0x80 + b.
Proof.
  intros Hb. destruct (lead_byte 2 b 6 ltac:(done) Hb) as [E1 E2].
  change (2 * 2 ^ 6) with 0x80 in *. change (2 ^ 6 - 1) with 0x3F in E2. rewrite E1, E2. split_and!; [|done|done].
  unfold is_cont. apply andb_true_iff. rewrite !Z.leb_le. lia.
Qed.

(** What [encode_rune] writes, [decode_rune] reads back, whatever follows. *)
Lemma decode_encode r rest :
  scalar r → decode_rune (encode_rune r ++ rest) = (r, length (encode_rune r)).
Proof.
  intros [Hr Hs]. unfold encode_rune.
  assert ((r <? 0) || (0x10FFFF <? r) || between 0xD800 r 0xDFFF = false) as ->.
  { rewrite !orb_false_iff, !Z.ltb_ge. split; [lia|]. apply between_false. lia. }
  destruct (Z.leb_spec r 0x7F) as [H1|H1].
  { simpl. rewrite (proj2 (Z.ltb_lt _ _)) by lia. done. }
  assert (0 ≤ Z.land r 0x3F < 64 ∧ Z.land r 0x3F = r mod 64) as [B0 E0].
  { change 0x3F with (2 ^ 6 - 1). rewrite land_low by done. split; [apply Z.mod_pos_bound; lia|done]. }
  assert (0 ≤ Z.land (Z.shiftr r 6) 0x3F < 64 ∧ Z.land (Z.shiftr r 6) 0x3F = r / 64 mod 64) as [B1 E1].
  { change 0x3F with (2 ^ 6 - 1). rewrite land_low, Z.shiftr_div_pow2 by done.
    split; [apply Z.mod_pos_bound; lia|done]. }
  assert (0 ≤ Z.land (Z.shiftr r 12) 0x3F < 64 ∧ Z.land (Z.shiftr r 12) 0x3F = r / 4096 mod 64) as [B2 E2].
  { change 0x3F with (2 ^ 6 - 1). rewrite land_low, Z.shiftr_div_pow2 by done.
    split; [apply Z.mod_pos_bound; lia|done]. }
  destruct (cont_byte _ B0) as (C0 & L0 & V0), (cont_byte _ B1) as (C1 & L1 & V1), (cont_byte _ B2) as (C2 & L2 & V2).
  destruct (Z.leb_spec r 0x7FF) as [H2|H2].
  { rewrite Z.shiftr_div_pow2 by done. change (2 ^ 6) with 64.
    destruct (lead_byte 6 (r / 64) 5) as [A1 A2]; [done|change (2 ^ 5) with 32; zdiv|].
    change (6 * 2 ^ 5) with 0xC0 in *. change (2 ^ 5 - 1) with 0x1F in A2. rewrite A1.
    cbn [app length decode_rune]. rewrite (proj2 (Z.ltb_ge _ _)) by zdiv.
    rewrite between_true by zdiv. rewrite C0, A2, L0. f_equal.
    rewrite shiftl_lor by (change (2 ^ 6) with 64; zdiv). change (2 ^ 6) with 64. zdiv. }
  destruct (Z.leb_spec r 0xFFFF) as [H3|H3].
  { rewrite Z.shiftr_div_pow2 by done. change (2 ^ 12) with 4096.
    destruct (lead_byte 14 (r / 4096) 4) as [A1 A2]; [done|change (2 ^ 4) with 16; zdiv|].
    change (14 * 2 ^ 4) with 0xE0 in *. change (2 ^ 4 - 1) with 0x0F in A2. rewrite A1.
    cbn [app length decode_rune]. rewrite (proj2 (Z.ltb_ge _ _)) by zdiv.
    rewrite between_false by zdiv. rewrite between_true by zdiv. rewrite C0, A2, L0, L1, V1.
    rewrite between_true, andb_true_l.
    2:{ destruct (Z.eqb_spec (0xE0 + r / 4096) 0xE0), (Z.eqb_spec (0xE0 + r / 4096) 0xED); zdiv. }
    f_equal. rewrite (shiftl_lor _ _ 6) by (change (2 ^ 6) with 64; lia).
    rewrite shiftl_lor by (change (2 ^ 6) with 64; change (2 ^ 12) with 4096; lia). rewrite E0, E1.
    change (2 ^ 6) with 64; change (2 ^ 12) with 4096. zdiv. }
  rewrite Z.shiftr_div_pow2 by done. change (2 ^ 18) with 262144.
  destruct (lead_byte 30 (r / 262144) 3) as [A1 A2]; [done|change (2 ^ 3) with 8; zdiv|].
  change (30 * 2 ^ 3) with 0xF0 in *. change (2 ^ 3 - 1) with 0x07 in A2. rewrite A1.
  cbn [app length decode_rune]. rewrite (proj2 (Z.ltb_ge _ _)) by zdiv.
  rewrite between_false by zdiv. rewrite between_false by zdiv. rewrite between_true by zdiv.
  rewrite C0, C1, A2, L0, L1, L2, V2. rewrite between_true, !andb_true_l.
  2:{ destruct (Z.eqb_spec (0xF0 + r / 262144) 0xF0), (Z.eqb_spec (0xF0 + r / 262144) 0xF4); zdiv. }
  f_equal. rewrite (shiftl_lor _ _ 6) by (change (2 ^ 6) with 64; lia).
  rewrite (shiftl_lor _ _ 12) by (change (2 ^ 6) with 64; change (2 ^ 12) with 4096; lia).
  rewrite shiftl_lor by (change (2 ^ 6) with 64; change (2 ^ 12) with 4096; change (2 ^ 18) with 262144; lia).
  rewrite E0, E1, E2.
  change (2 ^ 6) with 64; change (2 ^ 12) with 4096; change (2 ^ 18) with 262144. zdiv.
Qed.

Lemma encode_nonempty r : encode_rune r ≠ [].
Proof. unfold encode_rune. by repeat case_match. Qed.

(** A string written rune by rune is read back as those runes. *)
Lemma runes_encoded rs : Forall scalar rs → runes (concat (map encode_rune rs)) = rs.
Proof.
  intros Hrs. unfold runes, segments.
  assert (∀ n, (length (concat (map encode_rune rs)) ≤ n)%nat →
    map snd (segments_fuel n (concat (map encode_rune rs))) = rs) as H; [|by apply H].
  induction Hrs as [|r rs Hr Hrs IH]; intros [|n] Hn; try done.
  { cbn in Hn. rewrite length_app in Hn. pose proof (encode_nonempty r) as He.
    destruct (encode_rune r); [done|simpl in Hn; lia]. }
  cbn [map concat] in *. pose proof (encode_nonempty r) as He.
  destruct (encode_rune r ++ concat (map encode_rune rs)) as [|b l] eqn:E.
  { by apply app_eq_nil in E as [? _]. }
  cbn [segments_fuel]. rewrite <- E in *. rewrite decode_encode by done. cbn [map snd]. f_equal.
  rewrite drop_app_length. apply IH. rewrite length_app in Hn.
  destruct (encode_rune r); [done|simpl in Hn; lia].
Qed.

Definition is_byte (b : Z) : Prop := 0 ≤ b < 256.

(** Whatever bytes a string holds, it reads as scalar values. *)
Lemma decode_scalar l : Forall is_byte l → scalar (decode_rune l).1.
Proof.
  assert (scalar RuneError) as HE by by (split; [done|unfold RuneError; lia]).
  assert (∀ b, 0 ≤ Z.land b 0x3F < 64) as H6.
  { intros b. change 0x3F with (2 ^ 6 - 1). rewrite land_low by done. apply Z.mod_pos_bound. lia. }
  intros Hl. destruct l as [|b0 l]; [done|]. apply Forall_cons in Hl as [H0 Hl]. unfold is_byte in H0. simpl.
  destruct (Z.ltb_spec b0 0x80); [split; simpl; lia|].
  destruct l as [|b1 l]; [done|]. apply Forall_cons in Hl as [H1 Hl]. unfold is_byte in H1.
  destruct (between 0xC2 b0 0xDF) eqn:E2.
  { destruct (is_cont b1); [|done]. simpl. rewrite shiftl_lor by (change (2 ^ 6) with 64; auto; lia).
    change (2 ^ 6) with 64. specialize (H6 b1). assert (0 ≤ Z.land b0 0x1F < 32) as H5.
    { change 0x1F with (2 ^ 5 - 1). rewrite land_low by done. by apply Z.mod_pos_bound. }
    split; lia. }
  destruct l as [|b2 l]; [done|]. destruct (between 0xE0 b0 0xEF) eqn:E3.
  { destruct (between _ b1 _ && is_cont b2) eqn:E; [|done]. simpl.
    apply andb_true_iff in E as [E _]. unfold between in E3, E.
    apply andb_true_iff in E3 as [E3a%Z.leb_le E3b%Z.leb_le]. apply andb_true_iff in E as [Ea%Z.leb_le Eb%Z.leb_le].
    pose proof (H6 b1). pose proof (H6 b2).
    rewrite (shiftl_lor _ _ 6) by (change (2 ^ 6) with 64; lia).
    rewrite shiftl_lor by (change (2 ^ 6) with 64; change (2 ^ 12) with 4096; lia).
    change (2 ^ 6) with 64. change (2 ^ 12) with 4096.
    assert (Z.land b0 0x0F = b0 - 0xE0) as E0.
    { change 0x0F with (2 ^ 4 - 1). rewrite land_low by done. change (2 ^ 4) with 16. zdiv. }
    assert (b1 < 0xA0 → Z.land b1 0x3F = b1 mod 64) as E1.
    { intros _. change 0x3F with (2 ^ 6 - 1). by rewrite land_low. }
    rewrite E0. split; [lia|]. destruct (Z.eqb_spec b0 0xED); [|lia].
    assert (b1 < 0xA0) as Hb1 by lia. rewrite (E1 Hb1).
    destruct (Z.eqb_spec b0 0xE0); [lia|]. zdiv. }
  destruct l as [|b3 l]; [done|]. destruct (between 0xF0 b0 0xF4) eqn:E4; [|done].
  destruct (between _ b1 _ && is_cont b2 && is_cont b3) eqn:E; [|done]. simpl.
  apply andb_true_iff in E as [[E _]%andb_true_iff _]. unfold between in E4, E.
  apply andb_true_iff in E4 as [E4a%Z.leb_le E4b%Z.leb_le]. apply andb_true_iff in E as [Ea%Z.leb_le Eb%Z.leb_le].
  pose proof (H6 b1). pose proof (H6 b2). pose proof (H6 b3).
  rewrite (shiftl_lor _ _ 6) by (change (2 ^ 6) with 64; lia).
  rewrite (shiftl_lor _ _ 12) by (change (2 ^ 6) with 64; change (2 ^ 12) with 4096; lia).
  rewrite shiftl_lor by (change (2 ^ 6) with 64; change (2 ^ 12) with 4096; change (2 ^ 18) with 262144; lia).
  change (2 ^ 6) with 64. change (2 ^ 12) with 4096. change (2 ^ 18) with 262144.
  assert (Z.land b0 0x07 = b0 - 0xF0) as E0.
  { change 0x07 with (2 ^ 3 - 1). rewrite land_low by done. change (2 ^ 3) with 8. zdiv. }
  assert (Z.land b1 0x3F = b1 mod 64) as E1.
  { change 0x3F with (2 ^ 6 - 1). by rewrite land_low. }
  rewrite E0, E1. destruct (Z.eqb_spec b0 0xF0), (Z.eqb_spec b0 0xF4); split; zdiv.
Qed.

Lemma runes_scalar l : Forall is_byte l → Forall scalar (runes l).
Proof.
  unfold runes, segments. generalize (length l) as n. intros n. revert l.
  induction n as [|n IH]; intros [|b l] Hl; try constructor. cbn [segments_fuel].
  pose proof (decode_scalar (b :: l) Hl) as Hr. destruct (decode_rune (b :: l)) as [r w].
  constructor; [done|]. apply IH. by apply Forall_drop.
Qed.

(** ** Cutting a part of a string *)

Lemma decode_rune_prefix x y z :
  x ≠ [] → length x = snd (decode_rune (x ++ y ++ z)) → decode_rune (x ++ y) = decode_rune (x ++ y ++ z).
Proof.
  intros Hx.
  destruct x as [|b0 [|b1 [|b2 [|b3 x]]]]; [done|..]; destruct y as [|c0 [|c1 [|c2 y]]];
    destruct z as [|d0 [|d1 [|d2 z]]]; cbn -[Z.land Z.lor Z.shiftl];
    repeat match goal with |- context [if ?b then _ else _] => destruct b end; simpl; intros; try done; try lia.
Qed.

Lemma segments_fuel_enough n : ∀ l, (length l ≤ n)%nat → segments_fuel n l = segments_fuel (length l) l.
Proof.
  induction n as [n IH] using (well_founded_induction lt_wf). intros [|b l] Hn; [by destruct n|].
  destruct n as [|n]; [simpl in Hn; lia|]. cbn [length segments_fuel].
  pose proof (decode_rune_width (b :: l) ltac:(done)) as Hw. destruct (decode_rune (b :: l)) as [r w]. simpl in Hw.
  assert (length (drop w (b :: l)) ≤ length l)%nat as Hd by (rewrite length_drop; simpl; lia).
  f_equal. simpl in Hn. rewrite (IH n) by lia. destruct (decide (length l = n)) as [<-|Hne].
  - by rewrite (IH (length l)) by lia.
  - by rewrite (IH (length l)) by lia.
Qed.

Lemma segments_cons l :
  l ≠ [] → segments l = (take (decode_rune l).2 l, (decode_rune l).1) :: segments (drop (decode_rune l).2 l).
Proof.
  intros Hl. unfold segments at 1. destruct l as [|b l]; [done|]. cbn [length segments_fuel].
  pose proof (decode_rune_width (b :: l) Hl) as Hw. destruct (decode_rune (b :: l)) as [r w]. simpl in Hw.
  f_equal. unfold segments. apply segments_fuel_enough. rewrite length_drop. simpl. lia.
Qed.

Lemma segments_suffix P : ∀ l Q, segments l = P ++ Q → segments (concat (map fst Q)) = Q.
Proof.
  induction P as [|[bs r] P IH]; intros l Q Hl.
  { simpl in Hl. by rewrite <- Hl, segments_concat. }
  destruct l as [|b l]; [done|]. rewrite segments_cons in Hl by done. injection Hl as _ _ Hl. by apply (IH _ _ Hl).
Qed.

Lemma segments_prefix P : ∀ l Q, segments l = P ++ Q → segments (concat (map fst P)) = P.
Proof.
  induction P as [|[bs r] P IH]; intros l Q Hl; [done|].
  destruct l as [|b l]; [done|]. rewrite segments_cons in Hl by done.
  pose proof (decode_rune_width (b :: l) ltac:(done)) as Hw.
  set (w := (decode_rune (b :: l)).2) in *. set (rest := drop w (b :: l)) in *.
  assert (length (take w (b :: l)) = w) as Hlen by (rewrite length_take; lia).
  assert (b :: l = take w (b :: l) ++ rest) as Esplit by (symmetry; apply take_drop).
  injection Hl as Hbs Hr Hrest. pose proof (IH _ _ Hrest) as HP.
  assert (rest = concat (map fst P) ++ concat (map fst Q)) as Erest.
  { rewrite <- (segments_concat rest), Hrest, map_app, concat_app. done. }
  assert (bs ≠ []) as Hne by (intros ->; rewrite Hbs in Hlen; simpl in Hlen; lia).
  assert (decode_rune (bs ++ concat (map fst P)) = (r, length bs)) as Ed.
  { rewrite Hbs in Esplit, Hlen. rewrite (decode_rune_prefix _ _ (concat (map fst Q))).
    - rewrite <- Erest, <- Esplit. rewrite <- Hr, Hlen. unfold w. apply surjective_pairing.
    - done.
    - rewrite <- Erest, <- Esplit. by rewrite Hlen. }
  cbn [map concat fst]. rewrite segments_cons by (destruct bs; done). rewrite Ed. simpl.
  rewrite take_app_length, drop_app_length. by rewrite HP.
Qed.

Lemma drop_while_app {A} (p : A → bool) l : ∃ l1, l = l1 ++ drop_while p l ∧ Forall (fun x => p x = true) l1.
Proof.
  induction l as [|x l (l1 & E & H)]; [by exists []|]. simpl. destruct (p x) eqn:Hp.
  - exists (x :: l1). split; [by rewrite E at 1|by constructor].
  - by exists [].
Qed.

Lemma drop_while_head {A} (p : A → bool) l :
  match l with x :: _ => p x = false | [] => True end → drop_while p l = l.
Proof. destruct l as [|x l]; [done|]. intros H. simpl. by rewrite H. Qed.

Lemma drop_while_stops {A} (p : A → bool) l :
  match drop_while p l with x :: _ => p x = false | [] => True end.
Proof. induction l as [|x l IH]; simpl; [done|]. by destruct (p x) eqn:E. Qed.

Lemma trim_segments_idem p l : trim_segments p (trim_segments p l) = trim_segments p l.
Proof.
  unfold trim_segments. set (q := fun s : list Z * Z => p s.2).
  set (m := drop_while q l). set (k := drop_while q (rev m)).
  assert (drop_while q (rev k) = rev k) as ->.
  { apply drop_while_head. destruct (drop_while_app q (rev m)) as (l1 & E & _). fold k in E.
    pose proof (drop_while_stops q l) as Hstop. fold m in Hstop.
    assert (m = rev k ++ rev l1) as Em by by rewrite <- rev_app_distr, <- E, rev_involutive.
    destruct (rev k) as [|x k'] eqn:Ek; [done|]. rewrite Em in Hstop. done. }
  rewrite rev_involutive. f_equal. apply drop_while_head, drop_while_stops.
Qed.

Lemma TrimSpace_idem s : TrimSpace (TrimSpace s) = TrimSpace s.
Proof.
  assert (segments (TrimSpace s) = trim_segments is_space (segments s)) as E;
    [|unfold TrimSpace at 1; by rewrite E, trim_segments_idem].
  unfold TrimSpace, trim_segments. set (q := fun x : list Z * Z => is_space x.2).
  destruct (drop_while_app q (segments s)) as (l1 & E1 & _).
  destruct (drop_while_app q (rev (drop_while q (segments s)))) as (l2 & E2 & _).
  assert (drop_while q (segments s) = rev (drop_while q (rev (drop_while q (segments s)))) ++ rev l2) as E3.
  { by rewrite <- rev_app_distr, <- E2, rev_involutive. }
  apply (segments_prefix _ (concat (map fst (drop_while q (segments s)))) (rev l2)).
  rewrite (segments_suffix l1 s); [done|done].
Qed.
