(* ===== verification/GoFields.v ===== *)
(** * Lines and fields of a text

    How [strings.Split] by a line end, [strings.TrimSpace] and [strings.Fields]
    read back a text that was put together from words; shared by the files the
    program keeps. *)

From S2P Require Import Prelude GoNet GoText.

Open Scope Z_scope.

(** ** ASCII bytes cut a string where they stand *)

Lemma decode_before_ascii a c f : a ≠ [] → 0 ≤ c < 0x80 → decode_rune (a ++ c :: f) = decode_rune a.
Proof.
  intros Ha Hc.
  assert (is_cont c = false) as E1 by (unfold is_cont; by rewrite (proj2 (Z.leb_gt 0x80 c)) by lia).
  assert (∀ lo hi, 0x80 ≤ lo → between lo c hi = false) as E2.
  { intros lo hi Hlo. apply between_false. lia. }
  destruct a as [|b0 [|b1 [|b2 [|b3 a]]]]; [done|..]; cbn -[Z.land Z.lor Z.shiftl is_cont between Z.ltb Z.eqb]; [| | |done];
    rewrite ?E1, ?andb_false_r; destruct (b0 <? 0x80); try done;
    destruct (between 0xC2 b0 0xDF); try done;
    destruct f as [|d0 [|d1 f]]; rewrite ?E1, ?andb_false_r; try done;
    rewrite ?E2 by (destruct (b0 =? _); lia); rewrite ?andb_false_l, ?E2 by (destruct (b0 =? _); lia);
    rewrite ?andb_false_r, ?andb_false_l;
    repeat match goal with |- context [if between ?x b0 ?y then _ else _] => destruct (between x b0 y) end; try done;
    by rewrite ?E2 by (destruct (b0 =? _); lia).
Qed.

Lemma segments_app_ascii n : ∀ a c f, (length a ≤ n)%nat → 0 ≤ c < 0x80 →
  segments (a ++ c :: f) = segments a ++ ([c], c) :: segments f.
Proof.
  induction n as [|n IH]; intros a c f Hn Hc.
  - destruct a; [|simpl in Hn; lia]. cbn [app]. rewrite segments_cons by done.
    assert (decode_rune (c :: f) = (c, 1%nat)) as ->; [|done]. simpl. by rewrite (proj2 (Z.ltb_lt c 0x80)) by lia.
  - destruct (decide (a = [])) as [->|Ha]; [by apply (IH [] c f); simpl; lia|].
    rewrite (segments_cons (a ++ c :: f)), (segments_cons a) by (by destruct a). rewrite decode_before_ascii by done.
    pose proof (decode_rune_width a Ha) as Hw. rewrite take_app_le, drop_app_le by lia. cbn [app]. f_equal.
    apply IH; [rewrite length_drop; lia|done].
Qed.

Lemma segments_ascii a c f : 0 ≤ c < 0x80 → segments (a ++ c :: f) = segments a ++ ([c], c) :: segments f.
Proof. by apply (segments_app_ascii (length a)). Qed.

(** ** Words *)

(** A word: not empty and without white space. *)
Definition word (s : list Z) : Prop := s ≠ [] ∧ Forall (fun r => is_space r = false) (runes s).

Lemma word_segments s : word s → segments s ≠ [] ∧ Forall (fun x : list Z * Z => is_space x.2 = false) (segments s).
Proof.
  intros [Hne Hs]. split; [|by apply Forall_map in Hs].
  intros E. apply Hne. by rewrite <- (segments_concat s), E.
Qed.

(** No ASCII space hides in a word. *)
Lemma word_without s c : word s → 0 ≤ c < 0x80 → is_space c = true → c ∉ s.
Proof.
  intros [_ Hs] Hc Hsp Hin. apply list_elem_of_split in Hin as (x & y & ->).
  unfold runes in Hs. rewrite segments_ascii, map_app in Hs by done. apply Forall_app in Hs as [_ Hs].
  apply Forall_cons in Hs as [Hs _]. simpl in Hs. congruence.
Qed.

Lemma fields_of_word M : ∀ R, M ≠ [] → Forall (fun x : list Z * Z => is_space x.2 = false) M →
  match R with x :: _ => is_space x.2 = true | [] => True end →
  fields_of (M ++ R) = concat (map fst M) :: fields_of R.
Proof.
  induction M as [|[bs r] M IH]; intros R Hne HM HR; [done|]. apply Forall_cons in HM as [Hr HM]. cbn [app fields_of] in *.
  simpl in Hr. rewrite Hr. destruct M as [|[bs' r'] M].
  - cbn [app map concat]. rewrite app_nil_r. destruct R as [|[bs' r'] R]; [done|]. simpl in HR. cbn [fields_of]. rewrite HR.
    cbn [negb]. by destruct (fields_of R).
  - rewrite (IH R) by done. cbn [app]. apply Forall_cons in HM as [Hr' _]. simpl in Hr'. by rewrite Hr'.
Qed.

(** Two words and a space are read as the two words. *)
Lemma Fields_pair a f : word a → word f → Fields (a ++ 32 :: f) = [a; f].
Proof.
  intros Ha Hf. destruct (word_segments a Ha) as [A1 A2], (word_segments f Hf) as [F1 F2].
  unfold Fields. rewrite segments_ascii by done. rewrite fields_of_word by done. rewrite segments_concat. f_equal.
  cbn [fields_of]. rewrite <- (app_nil_r (segments f)). rewrite fields_of_word by done. by rewrite segments_concat.
Qed.

Lemma TrimSpace_pair a f : word a → word f → TrimSpace (a ++ 32 :: f) = a ++ 32 :: f.
Proof.
  intros Ha Hf. destruct (word_segments a Ha) as [A1 A2], (word_segments f Hf) as [F1 F2].
  unfold TrimSpace, trim_segments. rewrite segments_ascii by done.
  set (q := fun s : list Z * Z => is_space s.2). rewrite (drop_while_head q (segments a ++ _)).
  2:{ destruct (segments a) as [|x l]; [done|]. by apply Forall_cons in A2 as [? _]. }
  rewrite drop_while_head.
  - rewrite rev_involutive, map_app, concat_app, segments_concat. cbn [map concat]. by rewrite segments_concat.
  - rewrite rev_app_distr. cbn [rev]. rewrite <- app_assoc. destruct (rev (segments f)) as [|x l] eqn:E.
    { apply (f_equal (@rev (list Z * Z))) in E. by rewrite rev_involutive in E. }
    cbn [app]. assert (x ∈ segments f) as Hx by (apply list_elem_of_In; rewrite in_rev, E; by left).
    rewrite Forall_forall in F2. by apply F2.
Qed.

(** The fields of any text are words. *)
Lemma fields_of_cut L : ∀ s, s ∈ fields_of L →
  ∃ P M S, L = P ++ M ++ S ∧ s = concat (map fst M) ∧ M ≠ [] ∧ Forall (fun x : list Z * Z => is_space x.2 = false) M.
Proof.
  assert (∀ L, match fields_of L with
    | f :: fs => (∃ P M S, L = P ++ M ++ S ∧ f = concat (map fst M) ∧ M ≠ [] ∧ Forall (fun x : list Z * Z => is_space x.2 = false) M ∧
        (match L with x :: _ => is_space x.2 = false → P = [] | [] => True end)) ∧
        (∀ s, s ∈ fs → ∃ P M S, L = P ++ M ++ S ∧ s = concat (map fst M) ∧ M ≠ [] ∧ Forall (fun x : list Z * Z => is_space x.2 = false) M)
    | [] => True end) as H.
  { induction L0 as [|[bs r] L0 IH]; [done|]. cbn [fields_of]. destruct (is_space r) eqn:Er.
    - destruct (fields_of L0) as [|f fs]; [done|]. destruct IH as [(P & M & S & -> & -> & Hne & HM & _) Hfs]. split.
      + exists ((bs, r) :: P), M, S. split_and!; [done..|]. intros H. simpl in H. congruence.
      + intros s Hs. destruct (Hfs s Hs) as (P' & M' & S' & E & -> & Hne' & HM'). exists ((bs, r) :: P'), M', S'. by rewrite E.
    - assert (∃ P M S, (bs, r) :: L0 = P ++ M ++ S ∧ bs = concat (map fst M) ∧ M ≠ [] ∧
        Forall (fun x : list Z * Z => is_space x.2 = false) M ∧ (is_space r = false → P = [])) as Hone.
      { exists [], [(bs, r)], L0. cbn. rewrite app_nil_r. split_and!; [done..|by repeat constructor|done]. }
      destruct (fields_of L0) as [|f fs]; [split; [exact Hone|by intros s ?%not_elem_of_nil]|].
      destruct IH as [(P & M & S & E & -> & Hne & HM & Hhead) Hfs].
      assert (∀ s, s ∈ fs → ∃ P M S, (bs, r) :: L0 = P ++ M ++ S ∧ s = concat (map fst M) ∧ M ≠ [] ∧
        Forall (fun x : list Z * Z => is_space x.2 = false) M) as Hfs'.
      { intros s Hs. destruct (Hfs s Hs) as (P' & M' & S' & E' & -> & Hne' & HM'). exists ((bs, r) :: P'), M', S'. by rewrite E'. }
      destruct L0 as [|[bs' r'] L0]; cbn [negb].
      { split; [exact Hone|]. intros s [->|Hs]%elem_of_cons; [|by apply Hfs']. by destruct P, M. }
      destruct (is_space r') eqn:Er'; cbn [negb].
      + split; [exact Hone|]. intros s [->|Hs]%elem_of_cons; [|by apply Hfs']. exists ((bs, r) :: P), M, S. by rewrite E.
      + split; [|done]. rewrite (Hhead Er') in E. cbn [app] in E. exists [], ((bs, r) :: M), S. rewrite E.
        split_and!; [done|done|done|by constructor|done]. }
  intros s Hs. specialize (H L). destruct (fields_of L) as [|f fs]; [by apply not_elem_of_nil in Hs|].
  destruct H as [(P & M & S & E & Ef & Hne & HM & _) Hfs]. apply elem_of_cons in Hs as [->|Hs]; [by exists P, M, S|by apply Hfs].
Qed.

Lemma Fields_words l s : s ∈ Fields l → word s ∧ ∃ x y, l = x ++ s ++ y.
Proof.
  unfold Fields. intros (P & M & S & E & -> & Hne & HM)%fields_of_cut.
  assert (segments (concat (map fst M)) = M) as EM.
  { apply (segments_prefix M (concat (map fst (M ++ S))) S). by apply (segments_suffix P l). }
  split.
  - split; [|by unfold runes; rewrite EM, Forall_map]. intros H. rewrite H in EM. by subst M.
  - exists (concat (map fst P)), (concat (map fst S)). by rewrite <- (segments_concat l), E, !map_app, !concat_app.
Qed.

(** A character is written in bytes. *)
Lemma encode_bytes r : scalar r → Forall is_byte (encode_rune r).
Proof.
  intros [Hr Hs]. unfold encode_rune. rewrite (proj2 (Z.ltb_ge r 0)), (proj2 (Z.ltb_ge 0x10FFFF r)) by lia.
  rewrite between_false by lia. cbn [orb].
  assert (∀ z, is_byte (Z.lor 0x80 (Z.land z 0x3F))) as Hc.
  { intros z. assert (0 ≤ Z.land z 0x3F < 64) as Hz.
    { change 0x3F with (2 ^ 6 - 1). rewrite land_low by done. apply Z.mod_pos_bound. lia. }
    destruct (cont_byte _ Hz) as (_ & _ & ->). unfold is_byte. lia. }
  assert (∀ a b k, 0 ≤ k → 0 ≤ b < 2 ^ k → 0 ≤ a → (a + 1) * 2 ^ k ≤ 256 → is_byte (Z.lor (a * 2 ^ k) b)) as Hl.
  { intros a b k Hk Hb Ha Hlt. destruct (lead_byte a b k Hk Hb) as [-> _]. unfold is_byte. nia. }
  rewrite !Z.shiftr_div_pow2 by done.
  destruct (Z.leb_spec r 0x7F); [|destruct (Z.leb_spec r 0x7FF); [|destruct (Z.leb_spec r 0xFFFF)]];
    repeat apply Forall_cons_2; try apply Forall_nil_2; try apply Hc.
  - unfold is_byte. lia.
  - apply (Hl 6 _ 5); change (2 ^ 5) with 32; change (2 ^ 6) with 64; zdiv.
  - apply (Hl 14 _ 4); change (2 ^ 4) with 16; change (2 ^ 12) with 4096; zdiv.
  - apply (Hl 30 _ 3); change (2 ^ 3) with 8; change (2 ^ 18) with 262144; zdiv.
Qed.

(** ** Lines *)

Lemma split_byte_some sep l : split_byte sep l ≠ [].
Proof. induction l as [|b l IH]; simpl; [done|]. destruct (split_byte sep l); [done|]. by destruct (b =? sep). Qed.

Lemma split_byte_plain sep l : Forall (fun part => sep ∉ part) (split_byte sep l).
Proof.
  induction l as [|b l IH]; cbn [split_byte]; [repeat constructor; by apply not_elem_of_nil|].
  pose proof (split_byte_some sep l). destruct (split_byte sep l) as [|part parts]; [done|].
  apply Forall_cons in IH as [Hp Hps]. destruct (Z.eqb_spec b sep) as [->|Hne].
  - repeat constructor; try done. by apply not_elem_of_nil.
  - constructor; [|done]. by apply not_elem_of_cons.
Qed.

Lemma split_byte_app sep l r : sep ∉ l → split_byte sep (l ++ sep :: r) = l :: split_byte sep r.
Proof.
  induction l as [|b l IH]; intros Hl; cbn [app split_byte].
  - rewrite Z.eqb_refl. pose proof (split_byte_some sep r). by destruct (split_byte sep r).
  - apply not_elem_of_cons in Hl as [Hb Hl]. rewrite IH by done. by rewrite (proj2 (Z.eqb_neq _ _)) by done.
Qed.
