(* ===== verification/GoBinary.v ===== *)
(** * Fixed-width big-endian integers ([encoding/binary])

    [be n v] is what [binary.BigEndian.PutUint] writes of [v] in [n] bytes, and
    [be_value] what [Uint] reads; bytes are numbers below 256. *)

From S2P Require Import Prelude GoNet GoText.

Open Scope Z_scope.

Fixpoint be (n : nat) (v : Z) : list Z :=
  match n with
  | O => []
  | S n => (v / 256 ^ Z.of_nat n) mod 256 :: be n v
  end.

Definition be_value (l : list Z) : Z := fold_left (fun acc b => acc * 256 + b) l 0.

Definition PutUint16 (v : Z) : list Z := be 2 v.
Definition PutUint32 (v : Z) : list Z := be 4 v.
Definition PutUint64 (v : Z) : list Z := be 8 v.

Lemma length_be n v : length (be n v) = n.
Proof. induction n; simpl; congruence. Qed.

Lemma be_bytes n v : Forall is_byte (be n v).
Proof. induction n; simpl; constructor; [|done]. unfold is_byte. zdiv. Qed.

Lemma be_value_from acc l : fold_left (fun acc b => acc * 256 + b) l acc = acc * 256 ^ Z.of_nat (length l) + be_value l.
Proof.
  unfold be_value. revert acc. induction l as [|b l IH]; intros acc; simpl length; [simpl; lia|].
  cbn [fold_left]. rewrite IH, (IH (0 * 256 + b)), Nat2Z.inj_succ, Z.pow_succ_r by lia. lia.
Qed.

Lemma be_value_cons b l : be_value (b :: l) = b * 256 ^ Z.of_nat (length l) + be_value l.
Proof. unfold be_value at 1. cbn [fold_left]. by rewrite be_value_from. Qed.

Lemma be_value_range l : Forall is_byte l → 0 ≤ be_value l < 256 ^ Z.of_nat (length l).
Proof.
  induction 1 as [|b l Hb _ IH]; [done|]. rewrite be_value_cons. simpl length.
  rewrite Nat2Z.inj_succ, Z.pow_succ_r by lia. unfold is_byte in Hb. nia.
Qed.

(** Reading back what was written. *)
Lemma be_roundtrip n v : be_value (be n v) = v mod 256 ^ Z.of_nat n.
Proof.
  induction n as [|n IH]; [by rewrite Z.mod_1_r|]. cbn [be]. rewrite be_value_cons, length_be, IH.
  rewrite Nat2Z.inj_succ, Z.pow_succ_r by lia. rewrite (Z.mul_comm 256), Z.rem_mul_r by lia. lia.
Qed.

Lemma be_value_be n v : 0 ≤ v < 256 ^ Z.of_nat n → be_value (be n v) = v.
Proof. intros H. rewrite be_roundtrip. by apply Z.mod_small. Qed.

(** Writing back what was read. *)
Lemma be_be_value l : Forall is_byte l → be (length l) (be_value l) = l.
Proof.
  induction 1 as [|b l Hb Hl IH]; [done|]. simpl length. cbn [be]. rewrite be_value_cons.
  pose proof (be_value_range l Hl) as Hr. rewrite Z.div_add_l, Z.div_small by lia. rewrite Z.add_0_r.
  rewrite Z.mod_small by apply Hb. f_equal. transitivity (be (length l) (be_value l)); [|exact IH]. clear IH.
  assert (∀ n k v, (n ≤ k)%nat → be n (b * 256 ^ Z.of_nat k + v) = be n v) as H; [|by apply H].
  intros n k v. revert v. induction n as [|n IHn]; intros v Hn; [done|]. cbn [be]. rewrite IHn by lia. f_equal.
  replace (Z.of_nat k) with (Z.of_nat (k - S n) + 1 + Z.of_nat n) by lia.
  rewrite !Z.pow_add_r by lia. rewrite Z.mul_assoc, Z.div_add_l by lia.
  rewrite Z.mul_assoc, Z.add_comm. apply Z.mod_add. lia.
Qed.

Lemma be_inj n v v' : 0 ≤ v < 256 ^ Z.of_nat n → 0 ≤ v' < 256 ^ Z.of_nat n → be n v = be n v' → v = v'.
Proof. intros H H' E. rewrite <- (be_value_be n v H), <- (be_value_be n v' H'). by rewrite E. Qed.

(** Fields of a known width are read off unambiguously. *)
Lemma be_app_inj n v v' r r' :
  0 ≤ v < 256 ^ Z.of_nat n → 0 ≤ v' < 256 ^ Z.of_nat n → be n v ++ r = be n v' ++ r' → v = v' ∧ r = r'.
Proof.
  intros H H' E. apply app_inj_1 in E as [E ->]; [|by rewrite !length_be]. split; [by apply (be_inj n)|done].
Qed.

(** A sub-list of a packet, [None] when Go would panic. *)
Definition slice (lo hi : nat) (l : list Z) : option (list Z) :=
  if (lo <=? hi)%nat && (hi <=? length l)%nat then Some (take (hi - lo) (drop lo l)) else None.

(** Exclusive or stays within the width, and undoes itself. *)
Lemma lxor_range n a b : 0 ≤ n → 0 ≤ a < 2 ^ n → 0 ≤ b < 2 ^ n → 0 ≤ Z.lxor a b < 2 ^ n.
Proof.
  intros Hn Ha Hb. split; [apply Z.lxor_nonneg; lia|].
  destruct (decide (Z.lxor a b = 0)) as [->|Hne]; [apply Z.pow_pos_nonneg; lia|].
  apply Z.log2_lt_pow2; [pose proof (proj2 (Z.lxor_nonneg a b)); lia|].
  pose proof (Z.log2_lxor a b ltac:(lia) ltac:(lia)) as Hl.
  assert (∀ x, 0 ≤ x < 2 ^ n → Z.log2 x < n ∨ x = 0) as Hlog.
  { intros x Hx. destruct (decide (x = 0)); [by right|left]. apply Z.log2_lt_pow2; lia. }
  destruct (Hlog a Ha) as [Ha'| ->], (Hlog b Hb) as [Hb'| ->]; rewrite ?Z.lxor_0_l, ?Z.lxor_0_r in *; try lia.
Qed.

Lemma lxor_undo a b : Z.lxor (Z.lxor a b) b = a.
Proof. by rewrite Z.lxor_assoc, Z.lxor_nilpotent, Z.lxor_0_r. Qed.
