(* ===== verification/GoBase64.v ===== *)
(** * Base64 ([encoding/base64])

    [base64.StdEncoding], padded, and [base64.RawStdEncoding], which is not. *)

From S2P Require Import Prelude GoNet GoText.

Open Scope Z_scope.

Definition b64_alphabet : gostring := lit "ABCDEFGHIJKLMNOPQRSTUVWXYZabcdefghijklmnopqrstuvwxyz0123456789+/".
Definition b64_char (i : Z) : Z := nth (Z.to_nat i) b64_alphabet 0.
Definition b64_pad : Z := 61.

Fixpoint index_in (c : Z) (l : gostring) (i : Z) : option Z :=
  match l with
  | [] => None
  | x :: l => if x =? c then Some i else index_in c l (i + 1)
  end.
Definition b64_index (c : Z) : option Z := index_in c b64_alphabet 0.

(** [EncodeToString]; [pad] tells the two encodings apart. *)
Fixpoint b64_encode (pad : bool) (l : list Z) : gostring :=
  match l with
  | a :: b :: c :: r =>
      [b64_char (a / 4); b64_char (a mod 4 * 16 + b / 16); b64_char (b mod 16 * 4 + c / 64); b64_char (c mod 64)]
      ++ b64_encode pad r
  | [a; b] =>
      [b64_char (a / 4); b64_char (a mod 4 * 16 + b / 16); b64_char (b mod 16 * 4)] ++ (if pad then [b64_pad] else [])
  | [a] => [b64_char (a / 4); b64_char (a mod 4 * 16)] ++ (if pad then [b64_pad; b64_pad] else [])
  | [] => []
  end.

(** [StdEncoding.DecodeString]: line ends are skipped, the padding comes last; the
    bits that padding leaves over are not checked. *)
Fixpoint b64_groups (l : gostring) : option (list Z) :=
  match l with
  | [] => Some []
  | a :: b :: c :: d :: r =>
      i ← b64_index a; j ← b64_index b;
      if c =? b64_pad then
        if (d =? b64_pad) && bool_decide (r = []) then Some [(i * 4 + j / 16) mod 256] else None
      else
        k ← b64_index c;
        if d =? b64_pad then
          if bool_decide (r = []) then Some [(i * 4 + j / 16) mod 256; (j mod 16 * 16 + k / 4) mod 256] else None
        else
          n ← b64_index d;
          rest ← b64_groups r;
          Some ([(i * 4 + j / 16) mod 256; (j mod 16 * 16 + k / 4) mod 256; (k mod 4 * 64 + n) mod 256] ++ rest)
  | _ => None
  end.

Definition b64_decode (s : gostring) : option (list Z) :=
  b64_groups (filter (fun c => c ≠ 10 ∧ c ≠ 13) s).

Lemma b64_index_char i : 0 ≤ i < 64 → b64_index (b64_char i) = Some i ∧ b64_char i ≠ b64_pad ∧ b64_char i ≠ 10 ∧ b64_char i ≠ 13.
Proof.
  intros H. assert (Forall (fun i => b64_index (b64_char i) = Some i ∧ b64_char i ≠ b64_pad ∧ b64_char i ≠ 10 ∧ b64_char i ≠ 13)
    (map Z.of_nat (seq 0 64))) as Hall by by_compute.
  rewrite Forall_forall in Hall. apply Hall. apply list_elem_of_fmap. exists (Z.to_nat i).
  split; [lia|]. apply elem_of_seq. lia.
Qed.

(** Induction three bytes at a time. *)
Lemma list_ind3 {A : Type} (P : list A → Prop) :
  P [] → (∀ a, P [a]) → (∀ a b, P [a; b]) → (∀ a b c l, P l → P (a :: b :: c :: l)) → ∀ l, P l.
Proof.
  intros H0 H1 H2 H3. assert (∀ n l, (length l ≤ n)%nat → P l) as H; [|intros l; by apply (H (length l))].
  induction n as [|n IH]; intros [|a [|b [|c l]]] Hn; simpl in Hn; try done; try lia; auto.
  apply H3, IH. lia.
Qed.

Lemma filter_all {A : Type} (P : A → Prop) `{!∀ x, Decision (P x)} l : Forall P l → filter P l = l.
Proof. induction 1 as [|x l Hx _ IH]; [done|]. by rewrite filter_cons_True, IH. Qed.

Lemma b64_no_breaks pad l : Forall is_byte l → filter (fun c => c ≠ 10 ∧ c ≠ 13) (b64_encode pad l) = b64_encode pad l.
Proof.
  intros Hl. apply filter_all. revert l Hl.
  assert (b64_pad ≠ 10 ∧ b64_pad ≠ 13) as Hp by done.
  assert (∀ i, 0 ≤ i < 64 → b64_char i ≠ 10 ∧ b64_char i ≠ 13) as Hc.
  { intros i Hi. by destruct (b64_index_char i Hi) as (_ & _ & ? & ?). }
  induction l as [|a|a b|a b c l IH] using list_ind3; intros Hl; cbn [b64_encode]; [constructor|..];
    rewrite ?Forall_cons in Hl; unfold is_byte in Hl; destruct_and? Hl;
    repeat first [apply Forall_cons_2; [first [apply Hc; zdiv|done]|] | apply Forall_nil_2 | apply Forall_app_2 | destruct pad | by apply IH].
Qed.

(** What was encoded is decoded. *)
Lemma b64_roundtrip l : Forall is_byte l → b64_decode (b64_encode true l) = Some l.
Proof.
  intros Hl. unfold b64_decode. rewrite b64_no_breaks by done. revert Hl.
  assert (∀ i, 0 ≤ i < 64 → b64_index (b64_char i) = Some i) as Hc by by intros i [? _]%b64_index_char.
  assert (∀ i, 0 ≤ i < 64 → b64_char i =? b64_pad = false) as Hp by by intros i (_ & ?%Z.eqb_neq & _)%b64_index_char.
  induction l as [|a|a b|a b c l IH] using list_ind3; intros Hl; [done|..];
    rewrite ?Forall_cons in Hl; unfold is_byte in Hl; destruct_and? Hl; cbn [b64_encode b64_groups app].
  - rewrite !Hc by zdiv. cbn. do 2 f_equal. zdiv.
  - rewrite !Hc, Hp by zdiv. cbn. f_equal. f_equal; [zdiv|]. f_equal. zdiv.
  - rewrite !Hc, !Hp by zdiv. cbn. rewrite IH by done. cbn.
    f_equal. f_equal; [zdiv|]. f_equal; [zdiv|]. f_equal. zdiv.
Qed.

Lemma length_b64 l : length (b64_encode true l) = (4 * ((length l + 2) / 3))%nat.
Proof.
  induction l as [|a|a b|a b c l IH] using list_ind3; [done..|]. cbn [b64_encode app length]. rewrite IH.
  replace (S (S (S (length l))) + 2)%nat with (length l + 2 + 1 * 3)%nat by lia. rewrite Nat.div_add by lia. lia.
Qed.
