(* ===== verification/ProtoAad.v ===== *)
(** * What the ciphertexts of the tool channel are bound to ([internal/proto/aad.go])

    The additional data of a request, a response or a stream frame lists its tag
    and its clear fields, strings with their length first. *)

From S2P Require Import Prelude GoNet GoText GoBinary.

Open Scope Z_scope.

Definition aadTagToolReq : gostring := lit "req".
Definition aadTagToolResp : gostring := lit "resp".
Definition aadTagStreamChunk : gostring := lit "chunk".

(** The builder is the buffer it fills. *)
Definition addString (s : gostring) (buf : list Z) : list Z := buf ++ PutUint32 (Z.of_nat (length s)) ++ s.
Definition newAADBuilder (tag : gostring) : list Z := addString tag [].
Definition addUint64 (v : Z) (buf : list Z) : list Z := buf ++ PutUint64 v.
Definition addUint32 (v : Z) (buf : list Z) : list Z := buf ++ PutUint32 v.
Definition addBool (v : bool) (buf : list Z) : list Z := buf ++ [if v then 1 else 0].

Definition ToolReqAAD (id : Z) (tool : gostring) (deadlineMs : Z) : list Z :=
  addUint32 deadlineMs (addString tool (addUint64 id (newAADBuilder aadTagToolReq))).

Definition ToolRespAAD (id : Z) (ok : bool) (errorCode errorMsg : gostring) : list Z :=
  addString errorMsg (addString errorCode (addBool ok (addUint64 id (newAADBuilder aadTagToolResp)))).

Definition StreamChunkAAD (id seq : Z) (stream : gostring) (fin : bool) : list Z :=
  addBool fin (addString stream (addUint32 seq (addUint64 id (newAADBuilder aadTagStreamChunk)))).

(** ** The clear fields of the three kinds of frame *)

Inductive frame :=
| ReqFrame (id : Z) (tool : gostring) (deadlineMs : Z)
| RespFrame (id : Z) (ok : bool) (errorCode errorMsg : gostring)
| ChunkFrame (id seq : Z) (stream : gostring) (fin : bool).

#[export] Instance frame_eq_dec : EqDecision frame.
Proof. solve_decision. Defined.

Definition frame_aad (f : frame) : list Z :=
  match f with
  | ReqFrame id tool d => ToolReqAAD id tool d
  | RespFrame id ok c m => ToolRespAAD id ok c m
  | ChunkFrame id seq s fin => StreamChunkAAD id seq s fin
  end.

Definition uint (w : Z) (v : Z) : Prop := 0 ≤ v < 2 ^ w.
Definition short (s : gostring) : Prop := Z.of_nat (length s) < 2 ^ 32.

(** The fields have the widths of their Go types. *)
Definition frame_ok (f : frame) : Prop :=
  match f with
  | ReqFrame id tool d => uint 64 id ∧ short tool ∧ uint 32 d
  | RespFrame id _ c m => uint 64 id ∧ short c ∧ short m
  | ChunkFrame id seq s _ => uint 64 id ∧ uint 32 seq ∧ short s
  end.

(** ** Reading the fields back *)

Lemma u32_app_inj v v' r r' : uint 32 v → uint 32 v' → PutUint32 v ++ r = PutUint32 v' ++ r' → v = v' ∧ r = r'.
Proof. intros. by apply (be_app_inj 4). Qed.
Lemma u64_app_inj v v' r r' : uint 64 v → uint 64 v' → PutUint64 v ++ r = PutUint64 v' ++ r' → v = v' ∧ r = r'.
Proof. intros. by apply (be_app_inj 8). Qed.

Lemma string_app_inj s s' r r' : short s → short s' →
  PutUint32 (Z.of_nat (length s)) ++ s ++ r = PutUint32 (Z.of_nat (length s')) ++ s' ++ r' → s = s' ∧ r = r'.
Proof.
  unfold short. intros H H' E. apply u32_app_inj in E as [E1 E2]; [|split; lia..].
  apply app_inj_1; [lia|done].
Qed.

Lemma bool_app_inj (b b' : bool) r r' :
  [if b then 1 else 0] ++ r = [if b' then 1 else 0] ++ r' → b = b' ∧ r = r'.
Proof. by destruct b, b'; intros [= ->]. Qed.

(** The tag comes first, and tells the kinds apart. *)
Lemma frame_aad_unfold f : frame_aad f =
  match f with
  | ReqFrame id tool d => PutUint32 3 ++ lit "req" ++ PutUint64 id ++ PutUint32 (Z.of_nat (length tool)) ++ tool ++ PutUint32 d ++ []
  | RespFrame id ok c m => PutUint32 4 ++ lit "resp" ++ PutUint64 id ++ [if ok then 1 else 0]
      ++ PutUint32 (Z.of_nat (length c)) ++ c ++ PutUint32 (Z.of_nat (length m)) ++ m ++ []
  | ChunkFrame id seq s fin => PutUint32 5 ++ lit "chunk" ++ PutUint64 id ++ PutUint32 seq
      ++ PutUint32 (Z.of_nat (length s)) ++ s ++ [if fin then 1 else 0] ++ []
  end.
Proof.
  destruct f; unfold frame_aad, ToolReqAAD, ToolRespAAD, StreamChunkAAD, addUint32, addBool, addUint64, newAADBuilder, addString;
    rewrite <- !(assoc_L (++)), ?app_nil_r; done.
Qed.

Lemma frame_aad_inj (f f' : frame) :
  frame_ok f → frame_ok f' → frame_aad f = frame_aad f' → f = f'.
Proof.
  intros H H'. rewrite !frame_aad_unfold.
  destruct f as [id t d|id ok c m|id q s fin], f' as [id' t' d'|id' ok' c' m'|id' q' s' fin']; try done;
    simpl in H, H'; destruct_and! H; destruct_and! H'; intros E; apply app_inj_1 in E as [_ E]; [|done| |done| |done];
    apply app_inj_1 in E as [_ E]; [|done| |done| |done];
    apply u64_app_inj in E as [-> E]; [|done|done| |done|done| |done|done].
  - apply string_app_inj in E as [-> E]; [|done..]. by apply u32_app_inj in E as [-> _].
  - apply bool_app_inj in E as [-> E]. apply string_app_inj in E as [-> E]; [|done..].
    by apply string_app_inj in E as [-> _].
  - apply u32_app_inj in E as [-> E]; [|done..]. apply string_app_inj in E as [-> E]; [|done..].
    by apply bool_app_inj in E as [-> _].
Qed.
