(* ===== verification/ProtoHandshake.v ===== *)
(** * The handshake of the tool channel ([internal/proto/handshake.go],
    [tool.go], with the two ends of [internal/client])

    The helper proposes protocol versions, the share picks one, and the helper
    checks the choice.  Keys are derived by HKDF-SHA256, which is a library's: the
    parameter [hkdf], from the secret, the salt and the info to 32 bytes.  A nonce
    is the base64 text each end drew. *)

From S2P Require Import Prelude GoNet GoText.

Open Scope Z_scope.

Definition ToolProtocolVersionV1 : string := "1".
Definition ToolProtocolVersionV2 : string := "2".
Definition ToolProtocolVersion : string := ToolProtocolVersionV2.
Definition DefaultMinProto : string := ToolProtocolVersionV2.

(** The newest first. *)
Definition SupportedToolVersions : list string := [ToolProtocolVersionV2; ToolProtocolVersionV1].

Definition SideShare : string := "被协助端".
Definition SideHelp : string := "协助端".

Fixpoint rank_in (l : list string) (i : Z) (v : string) : Z :=
  match l with
  | [] => -1
  | s :: l => if bool_decide (s = v) then i else rank_in l (i + 1) v
  end.

(** Smaller is newer; -1: not supported. *)
Definition versionRank (v : string) : Z := rank_in SupportedToolVersions 0 v.

Definition default_min (v : string) : string := if bool_decide (v = ""%string) then DefaultMinProto else v.

Definition SatisfiesMinProto (v floor : string) : bool :=
  let floor := default_min floor in
  let r := versionRank v in (0 <=? r) && (r <=? versionRank floor).

Definition NormalizeMinProto (v : string) : option string :=
  if bool_decide (v = ""%string) then Some DefaultMinProto
  else if versionRank v <? 0 then None else Some v.

(** ** Errors *)

(** [IncompatibleVersionError]. *)
Record Incompatible := mkIncompatible { i_LocalSide : string; i_PeerSide : string; i_Want : string; i_Got : string }.

Inductive HandshakeError :=
| IncompatibleVersionError (e : Incompatible)
| RefusedByPeer (ErrorMsg : string)
| UnsupportedChoice (chosen : string)
| SuspiciousChoice (chosen newer : string).

Definition peerVersionText (e : Incompatible) : string :=
  if bool_decide (i_Got e = ""%string) then "未知版本" else ("v" +:+ i_Got e)%string.

(** The text for the peer, *)
Definition Message (e : Incompatible) : string :=
  ("工具协议版本不兼容：" +:+ i_LocalSide e +:+ "要求 v" +:+ i_Want e +:+ "，" +:+ i_PeerSide e +:+ "只支持 "
   +:+ peerVersionText e +:+ "。请将" +:+ i_PeerSide e +:+ "升级到 1.0.0 及以上；若暂时无法升级，可在"
   +:+ i_LocalSide e +:+ "加 --min-proto=1 重启以兼容模式连接（旧版本没有该参数，只能加在新版本这一端；"
   +:+ "兼容模式会关闭 AAD 绑定与抗重放，仅限可信网络）")%string.

(** And for the local terminal. *)
Definition LocalHint (e : Incompatible) : string :=
  ("工具协议版本不兼容：对端（" +:+ i_PeerSide e +:+ "）只支持 " +:+ peerVersionText e +:+ "，本端要求 v" +:+ i_Want e
   +:+ "，已拒绝本次连接。请将" +:+ i_PeerSide e +:+ "升级到 1.0.0 及以上；若暂时无法升级，可在本端加 --min-proto=1 重启"
   +:+ "（旧版本没有该参数，只能加在本端；兼容模式会关闭 AAD 绑定与抗重放，仅限可信网络）")%string.

(** ** Messages *)

Record Hello := mkHello {
  h_Version : string;
  h_Versions : list string;
  h_Capabilities : list string;
  h_NonceB64 : string;
}.

Record HelloAck := mkHelloAck {
  a_Version : string;
  a_Versions : list string;
  a_Capabilities : list string;
  a_NonceB64 : string;
  a_Accept : bool;
  a_ErrorMsg : string;
}.

Definition toolCapabilities : list string :=
  ["exec"; "read_file"; "write_file"; "list_dir"; "stat"; "glob"; "grep"; "process_list"; "tail_log"]%string.

Definition supportedDownTo (minProto : string) : list string :=
  let minProto := default_min minProto in
  filter (fun v => versionRank v ≤ versionRank minProto) SupportedToolVersions.

Definition SupportedVersionsDownTo (minProto : string) : list string := supportedDownTo minProto.

Definition helloWithAnchor (anchor minProto nonce : string) : Hello :=
  mkHello anchor (supportedDownTo minProto) toolCapabilities nonce.

Definition NewHello (minProto nonce : string) : Hello := helloWithAnchor ToolProtocolVersion minProto nonce.

Definition NewFallbackHello (minProto nonce : string) : Hello :=
  let minProto := default_min minProto in helloWithAnchor minProto minProto nonce.

Definition ShouldRetryWithFallbackAnchor (ack : HelloAck) (minProto : string) : bool :=
  if a_Accept ack then false
  else bool_decide (default_min minProto ≠ ToolProtocolVersion).

(** ** Negotiation *)

Definition peerVersions (single : string) (list_ : list string) : list string :=
  match list_ with
  | _ :: _ => list_
  | [] => if bool_decide (single = ""%string) then [] else [single]
  end.

(** [best], for the texts: the newest version the peer lists that is known here. *)
Fixpoint best_of (l : list string) (best : string) : string :=
  match l with
  | [] => best
  | p :: l =>
      if versionRank p <? 0 then best_of l best
      else if bool_decide (best = ""%string) || (versionRank p <? versionRank best) then best_of l p
      else best_of l best
  end.

Definition peerBestVersion (single : string) (list_ : list string) : string :=
  best_of (peerVersions single list_) "".

(** The first supported version the peer lists; "" when there is none. *)
Definition best_common (peer : list string) : string :=
  match List.find (fun v => bool_decide (v ∈ peer)) SupportedToolVersions with Some v => v | None => "" end.

Definition NegotiateToolVersion (single : string) (list_ : list string) (minProto localSide peerSide : string)
  : result Incompatible string :=
  let minProto := default_min minProto in
  let best := best_common (peerVersions single list_) in
  if bool_decide (best = ""%string) || (versionRank minProto <? versionRank best)
  then Err (mkIncompatible localSide peerSide minProto (peerBestVersion single list_))
  else Ok best.

Definition betterVersionThan (chosen : string) (peer : list string) (minProto : string) : string :=
  match List.find (fun v => negb (versionRank v <? 0) && negb (versionRank minProto <? versionRank v)
                              && (versionRank v <? versionRank chosen)) peer with
  | Some v => v
  | None => ""
  end.

Definition InterpretHelloAck (ack : HelloAck) (minProto localSide peerSide : string) : result HandshakeError string :=
  let minProto := default_min minProto in
  if negb (a_Accept ack) then
    let peerBest := peerBestVersion (a_Version ack) (a_Versions ack) in
    if bool_decide (peerBest ≠ ""%string) && (versionRank minProto <? versionRank peerBest)
    then Err (IncompatibleVersionError (mkIncompatible localSide peerSide minProto peerBest))
    else Err (RefusedByPeer (a_ErrorMsg ack))
  else
    let chosen := if bool_decide (a_Version ack = ""%string) then ToolProtocolVersionV1 else a_Version ack in
    if versionRank chosen <? 0 then Err (UnsupportedChoice chosen) else
    if versionRank minProto <? versionRank chosen
    then Err (IncompatibleVersionError (mkIncompatible localSide peerSide minProto chosen)) else
    let newer := betterVersionThan chosen (a_Versions ack) minProto in
    if bool_decide (newer ≠ ""%string) then Err (SuspiciousChoice chosen newer) else Ok chosen.
