(* ===== verification/ProtoSession.v ===== *)
(** * Sessions of the tool channel ([internal/proto/session.go], [handshake.go] and
    [aead.go])

    A session is a key and a protocol version; the version decides what is bound to
    a ciphertext and what a receiver insists on.  XChaCha20-Poly1305 and
    HKDF-SHA256 are libraries': parameters of the sections below. *)

From S2P Require Import Prelude GoNet GoText GoBinary ProtoAad ProtoHandshake.

Open Scope Z_scope.

(** 32 bytes. *)
Definition Key : Type := list Z.
Definition zero_key : Key := replicate 32 0.

Record Session := mkSession { ss_Key : Key; ss_Version : string }.

#[export] Instance Session_eq_dec : EqDecision Session.
Proof. solve_decision. Defined.

Definition no_session : Session := mkSession zero_key "".

Definition Active (s : Session) : bool := bool_decide (ss_Key s ≠ zero_key).
Definition effectiveVersion (s : Session) : string :=
  if bool_decide (ss_Version s = ""%string) then ToolProtocolVersion else ss_Version s.
Definition Legacy (s : Session) : bool := bool_decide (effectiveVersion s = ToolProtocolVersionV1).
Definition RequireSealedResp (s : Session) : bool := negb (Legacy s).
Definition RequireStreamTerminator (s : Session) : bool := negb (Legacy s).
Definition AntiReplay (s : Session) : bool := negb (Legacy s).

(** [nil] is the empty list: the library treats both alike. *)
Definition ReqAAD (s : Session) (id : Z) (tool : gostring) (deadlineMs : Z) : list Z :=
  if Legacy s then [] else ToolReqAAD id tool deadlineMs.
Definition RespAAD (s : Session) (id : Z) (ok : bool) (errorCode errorMsg : gostring) : list Z :=
  if Legacy s then [] else ToolRespAAD id ok errorCode errorMsg.
Definition StreamAAD (s : Session) (id seq : Z) (stream : gostring) (fin : bool) : list Z :=
  if Legacy s then [] else StreamChunkAAD id seq stream fin.

(** ** The two ends of the handshake *)

Section handshake.
Context (hkdf : gostring → gostring → gostring → Key).

Definition DeriveSessionKey (code nonceShare nonceHelp version : string) : Key :=
  let version := if bool_decide (version = ""%string) then ToolProtocolVersion else version in
  hkdf (bytes_of code) (bytes_of nonceShare ++ bytes_of "|" ++ bytes_of nonceHelp)
    (bytes_of "rat-tool-v" ++ bytes_of version).

(** [nonce] is what the share draws. *)
Definition buildHelloAck (hello : Hello) (code minProto nonce : string) : HelloAck * Session :=
  match NegotiateToolVersion (h_Version hello) (h_Versions hello) minProto SideShare SideHelp with
  | Err e =>
      (mkHelloAck ToolProtocolVersion (SupportedVersionsDownTo minProto) [] "" false (Message e), no_session)
  | Ok version =>
      (mkHelloAck version (SupportedVersionsDownTo minProto) toolCapabilities nonce true "",
       mkSession (DeriveSessionKey code nonce (h_NonceB64 hello) version) version)
  end.

Definition sessionFromAck (ack : HelloAck) (hello : Hello) (code minProto : string) : result HandshakeError Session :=
  match InterpretHelloAck ack minProto SideHelp SideShare with
  | Err e => Err e
  | Ok version => Ok (mkSession (DeriveSessionKey code (a_NonceB64 ack) (h_NonceB64 hello) version) version)
  end.

(** [handshakeToolCapturing]: [answer] is the ack that comes back to a hello, [None]
    when none does; a second round at most, with its own nonce. *)
Definition handshakeTool (answer : Hello → option HelloAck) (code minProto nonce1 nonce2 : string)
  : option (result HandshakeError Session) :=
  let hello := NewHello minProto nonce1 in
  ack ← answer hello;
  if ShouldRetryWithFallbackAnchor ack minProto then
    let hello := NewFallbackHello minProto nonce2 in
    ack ← answer hello;
    Some (sessionFromAck ack hello code minProto)
  else Some (sessionFromAck ack hello code minProto).

(** ** What the negotiation guarantees *)

Lemma versionRank_cases v :
  v = ToolProtocolVersionV2 ∧ versionRank v = 0 ∨ v = ToolProtocolVersionV1 ∧ versionRank v = 1
  ∨ v ≠ ToolProtocolVersionV2 ∧ v ≠ ToolProtocolVersionV1 ∧ versionRank v = -1.
Proof.
  unfold versionRank, SupportedToolVersions, rank_in.
  destruct (bool_decide_reflect (ToolProtocolVersionV2 = v)) as [<-|H2]; [by left|].
  destruct (bool_decide_reflect (ToolProtocolVersionV1 = v)) as [<-|H1]; [by right; left|].
  right; right. split_and!; [congruence..|done].
Qed.

Lemma best_common_spec peer :
  (best_common peer = ToolProtocolVersionV2 ∧ ToolProtocolVersionV2 ∈ peer)
  ∨ (best_common peer = ToolProtocolVersionV1 ∧ ToolProtocolVersionV1 ∈ peer ∧ ToolProtocolVersionV2 ∉ peer)
  ∨ (best_common peer = ""%string ∧ ToolProtocolVersionV1 ∉ peer ∧ ToolProtocolVersionV2 ∉ peer).
Proof.
  unfold best_common, SupportedToolVersions. simpl.
  destruct (bool_decide_reflect (ToolProtocolVersionV2 ∈ peer)); [by left|].
  destruct (bool_decide_reflect (ToolProtocolVersionV1 ∈ peer)); [by right; left|by right; right].
Qed.

(** A version both ends know, the peer lists and the local minimum allows, with no
    newer one of that kind. *)
Definition best_choice (peer : list string) (minProto v : string) : Prop :=
  v ∈ peer ∧ 0 ≤ versionRank v ≤ versionRank (default_min minProto)
  ∧ ∀ w, w ∈ peer → 0 ≤ versionRank w → versionRank v ≤ versionRank w.

Lemma best_choice_unique peer minProto v :
  best_choice peer minProto v →
  v = best_common peer ∧ 0 ≤ versionRank (best_common peer) ≤ versionRank (default_min minProto).
Proof.
  intros (Hin & Hr & Hmin).
  destruct (best_common_spec peer) as [[E H]|[(E & H & H')|(E & H & H')]]; rewrite E;
    destruct (versionRank_cases v) as [[-> ?]|[[-> ?]|(_ & _ & ?)]]; try done; try lia.
  by specialize (Hmin _ H ltac:(done)).
Qed.

Lemma best_common_best peer minProto :
  best_common peer ≠ ""%string → versionRank (best_common peer) ≤ versionRank (default_min minProto) →
  best_choice peer minProto (best_common peer).
Proof.
  destruct (best_common_spec peer) as [[-> H]|[(-> & H & H')|(-> & _)]]; [..|done]; intros _ Hr.
  - split; [done|]. split; [done|]. by intros w _ Hw.
  - split; [done|]. split; [done|]. intros w Hw H0.
    destruct (versionRank_cases w) as [[-> ?]|[[-> ?]|(_ & _ & ?)]]; [done..|lia].
Qed.

(** The negotiation picks the newest version the two ends share, when the
    local minimum allows it, and fails, naming the minimum it wanted, exactly when
    there is no such version. *)
Theorem negotiation_picks_best (single : string) (list_ : list string) (minProto l p : string) :
  let peer := peerVersions single list_ in
  match NegotiateToolVersion single list_ minProto l p with
  | Ok v => best_choice peer minProto v
  | Err e => (∀ v, ¬ best_choice peer minProto v)
      ∧ e = mkIncompatible l p (default_min minProto) (peerBestVersion single list_)
  end.
Proof.
  intros peer. unfold NegotiateToolVersion. fold peer. generalize (peerBestVersion single list_). intros got.
  pose proof (best_choice_unique peer minProto) as Hbest.
  destruct (bool_decide _ || _) eqn:Ht.
  - split; [|done]. intros v [-> Hr]%Hbest. apply orb_prop in Ht as [Ht|Ht].
    + apply bool_decide_eq_true in Ht. rewrite Ht in Hr. destruct Hr as [Hr _]. by vm_compute in Hr.
    + apply Z.ltb_lt in Ht. lia.
  - apply orb_false_iff in Ht as [H1%bool_decide_eq_false H2%Z.ltb_ge]. by apply best_common_best.
Qed.

(** What an honest share answers, by its choice. *)
Lemma buildHelloAck_cases hello code minProto nonce :
  (∃ e, buildHelloAck hello code minProto nonce
     = (mkHelloAck ToolProtocolVersion (supportedDownTo minProto) [] "" false (Message e), no_session))
  ∨ ∃ v, best_choice (peerVersions (h_Version hello) (h_Versions hello)) minProto v
     ∧ buildHelloAck hello code minProto nonce
       = (mkHelloAck v (supportedDownTo minProto) toolCapabilities nonce true "",
          mkSession (DeriveSessionKey code nonce (h_NonceB64 hello) v) v).
Proof.
  unfold buildHelloAck. destruct (NegotiateToolVersion _ _ _ _ _) as [v|e] eqn:E; [right|left; by exists e].
  exists v. split; [|done]. revert E. unfold NegotiateToolVersion.
  set (peer := peerVersions _ _).
  destruct (bool_decide _ || _) eqn:Ht; [done|]. intros [= <-].
  apply orb_false_iff in Ht as [H1%bool_decide_eq_false H2%Z.ltb_ge]. by apply best_common_best.
Qed.

(** An accepted choice passes the local minimum, and the peer lists nothing better. *)
Lemma InterpretHelloAck_ok ack minProto l p v :
  InterpretHelloAck ack minProto l p = Ok v →
  a_Accept ack = true ∧ 0 ≤ versionRank v ≤ versionRank (default_min minProto)
  ∧ (a_Version ack ≠ ""%string → v = a_Version ack)
  ∧ ∀ w, w ∈ a_Versions ack → 0 ≤ versionRank w ≤ versionRank (default_min minProto) → versionRank v ≤ versionRank w.
Proof.
  unfold InterpretHelloAck. destruct (a_Accept ack); cbn [negb]; [|destruct (_ && _); done].
  set (chosen := if bool_decide (a_Version ack = ""%string) then ToolProtocolVersionV1 else a_Version ack).
  set (m := default_min minProto). cbv zeta.
  destruct (Z.ltb_spec (versionRank chosen) 0); [done|]. destruct (Z.ltb_spec (versionRank m) (versionRank chosen)); [done|].
  case_bool_decide as Hn; [done|]. intros [= <-]. split; [done|]. split; [lia|]. split.
  { intros Hv. unfold chosen. by rewrite bool_decide_false. }
  intros w Hw Hr. unfold betterVersionThan in Hn.
  destruct (Z.le_gt_cases (versionRank chosen) (versionRank w)) as [|Hlt]; [done|exfalso].
  destruct (List.find _ _) as [x|] eqn:Hf.
  - subst x. apply find_some in Hf as [_ Hf]. by vm_compute in Hf.
  - eapply find_none in Hf; [|by apply list_elem_of_In].
    destruct (Z.ltb_spec (versionRank w) 0); [lia|]. destruct (Z.ltb_spec (versionRank m) (versionRank w)); [lia|].
    destruct (Z.ltb_spec (versionRank w) (versionRank chosen)); [done|lia].
Qed.


(** No one imposes a version below the helper's minimum: whatever answers come
    back in either round, a session the helper enters has a version it supports
    and its minimum allows; a session without authentication (version 1) is only
    entered when that minimum was lowered to version 1. *)
Theorem minimum_respected (answer : Hello → option HelloAck) (code minProto n1 n2 : string) (s : Session) :
  handshakeTool answer code minProto n1 n2 = Some (Ok s) →
  0 ≤ versionRank (ss_Version s) ≤ versionRank (default_min minProto)
  ∧ (Legacy s = true → minProto = ToolProtocolVersionV1).
Proof.
  intros H. assert (∃ ack hello, sessionFromAck ack hello code minProto = Ok s) as (ack & hello & Hs).
  { unfold handshakeTool in H. cbv zeta in H. apply bind_Some in H as (ack & _ & H).
    destruct (ShouldRetryWithFallbackAnchor _ _); [|injection H as H; eauto].
    apply bind_Some in H as (ack2 & _ & H). injection H as H. eauto. }
  unfold sessionFromAck in Hs. destruct (InterpretHelloAck _ _ _ _) as [v|] eqn:E; [|done]. injection Hs as <-.
  apply InterpretHelloAck_ok in E as (_ & Hr & _). split; [done|].
  unfold Legacy, effectiveVersion. cbn [ss_Version].
  destruct (versionRank_cases v) as [[-> ?]|[[-> E1]|(_ & _ & ?)]]; [by intros E%bool_decide_eq_true| |lia]. intros _.
  rewrite E1 in Hr. revert Hr. unfold default_min. case_bool_decide; [by intros [_ Hr]; vm_compute in Hr|].
  intros [_ Hr]. destruct (versionRank_cases minProto) as [[-> E2]|[[-> _]|(_ & _ & E2)]]; [lia|done|lia].
Qed.

(** Two current ends that reach one another agree in the first round: with any
    valid minima the helper's session is the very session the share holds - same
    key, same version - and the version is the newest one. *)
Theorem handshake_agrees (code minShare minHelp nonceShare n1 n2 : string) :
  is_Some (NormalizeMinProto minShare) → is_Some (NormalizeMinProto minHelp) →
  handshakeTool (fun h => Some (buildHelloAck h code minShare nonceShare).1) code minHelp n1 n2
    = Some (Ok (buildHelloAck (NewHello minHelp n1) code minShare nonceShare).2)
  ∧ ss_Version (buildHelloAck (NewHello minHelp n1) code minShare nonceShare).2 = ToolProtocolVersion.
Proof.
  assert (∀ m, is_Some (NormalizeMinProto m) → m = ""%string ∨ m = ToolProtocolVersionV1 ∨ m = ToolProtocolVersionV2) as Hm.
  { intros m. unfold NormalizeMinProto. case_bool_decide; [by left|].
    destruct (versionRank_cases m) as [[-> ?]|[[-> ?]|(_ & _ & E)]]; [by right; right|by right; left|].
    rewrite E. by intros []. }
  intros [-> |[-> | ->]]%Hm [-> |[-> | ->]]%Hm; split; reflexivity.
Qed.

End handshake.

(** A stand-in for HKDF-SHA256, for the examples. *)
Definition toy_hkdf (secret salt info : gostring) : Key := take 32 (secret ++ salt ++ info ++ replicate 32 1).

Lemma handshake_agrees_witness :
  handshakeTool toy_hkdf (fun h => Some (buildHelloAck toy_hkdf h "ABCD" "" "nS").1) "ABCD" "1" "n1" "n2"
  = Some (Ok (buildHelloAck toy_hkdf (NewHello "1" "n1") "ABCD" "" "nS").2).
Proof. apply (handshake_agrees toy_hkdf "ABCD" "" "1" "nS" "n1" "n2"); vm_compute; eauto. Defined.

Lemma minimum_respected_witness :
  match handshakeTool toy_hkdf (fun h => Some (buildHelloAck toy_hkdf h "ABCD" "1" "nS").1) "ABCD" "1" "n1" "n2" with
  | Some (Ok s) => 0 ≤ versionRank (ss_Version s) ≤ versionRank (default_min "1")
  | _ => False
  end.
Proof.
  destruct (handshakeTool toy_hkdf (fun h => Some (buildHelloAck toy_hkdf h "ABCD" "1" "nS").1) "ABCD" "1" "n1" "n2")
    as [[s|e]|] eqn:E; [|by vm_compute in E..].
  apply (minimum_respected toy_hkdf (fun h => Some (buildHelloAck toy_hkdf h "ABCD" "1" "nS").1) "ABCD" "1" "n1" "n2" s E).
Defined.

(** The relay stripped the list and wrote version 1; both ends allow version 1. *)
Definition stripped : Hello := mkHello "1" [] [] "n1".

