(* ===== verification/ProtoAead.v ===== *)
(** * Sealing and opening ([internal/proto/aead.go])

    XChaCha20-Poly1305 is a library's: an instance of [Aead].  What the program
    relies on is the class [AeadLaws]: opening what was sealed under the same key,
    nonce and additional data gives it back.  The nonce is what the random source
    yields.  A raw JSON value is given by what it is. *)

From S2P Require Import Prelude GoNet GoText GoBase64 ProtoHandshake ProtoSession.

Open Scope Z_scope.

Class Aead := {
  aead_seal : Key → list Z → list Z → list Z → list Z;
  aead_open : Key → list Z → list Z → list Z → option (list Z);
}.

Class AeadLaws `{Aead} : Prop := {
  aead_open_seal key nonce plain aad : aead_open key nonce (aead_seal key nonce plain aad) aad = Some plain;
  aead_seal_bytes key nonce plain aad :
    Forall is_byte key → Forall is_byte nonce → Forall is_byte plain → Forall is_byte aad →
    Forall is_byte (aead_seal key nonce plain aad);
}.

(** [json.RawMessage]: absent, [null], a string, or another value by its bytes. *)
Inductive Raw :=
| RawAbsent
| RawNull
| RawString (s : gostring)
| RawOther (bytes : gostring).

#[export] Instance Raw_eq_dec : EqDecision Raw.
Proof. solve_decision. Defined.

Inductive AeadError := JsonUnmarshal | Base64Decode | CiphertextTooShort | AeadOpenFailed.

Definition NonceSize : nat := 24.

Section aead.
Context `{Aead}.

Definition AEADSeal (key : Key) (nonce plain aad : list Z) : list Z := nonce ++ aead_seal key nonce plain aad.

Definition AEADOpen (key : Key) (ct aad : list Z) : result AeadError (list Z) :=
  if (length ct <? NonceSize)%nat then Err CiphertextTooShort
  else match aead_open key (take NonceSize ct) (drop NonceSize ct) aad with
       | Some plain => Ok plain
       | None => Err AeadOpenFailed
       end.

Definition AEADSealJSON (key : Key) (nonce plain aad : list Z) : Raw :=
  RawString (b64_encode true (AEADSeal key nonce plain aad)).

(** [json.Unmarshal] leaves the string empty on [null]. *)
Definition AEADOpenJSON (key : Key) (raw : Raw) (aad : list Z) : result AeadError (list Z) :=
  match raw with
  | RawString b64 =>
      match b64_decode b64 with
      | None => Err Base64Decode
      | Some ct => AEADOpen key ct aad
      end
  | RawNull => AEADOpen key [] aad
  | _ => Err JsonUnmarshal
  end.

(** The inputs of a seal are bytes, the key and the nonce of their sizes. *)
Record seal_ok (key : Key) (nonce plain aad : list Z) : Prop := {
  so_nonce_size : length nonce = NonceSize;
  so_key : Forall is_byte key;
  so_nonce : Forall is_byte nonce;
  so_plain : Forall is_byte plain;
  so_aad : Forall is_byte aad;
}.

Context `{!AeadLaws}.

Lemma AEADOpen_seal key nonce plain aad :
  length nonce = NonceSize → AEADOpen key (AEADSeal key nonce plain aad) aad = Ok plain.
Proof.
  intros Hn. unfold AEADOpen, AEADSeal. rewrite length_app.
  destruct (Nat.ltb_spec (length nonce + length (aead_seal key nonce plain aad)) NonceSize); [lia|].
  rewrite take_app_length', drop_app_length' by done. by rewrite aead_open_seal.
Qed.

Lemma AEADOpenJSON_seal key nonce plain aad :
  seal_ok key nonce plain aad → AEADOpenJSON key (AEADSealJSON key nonce plain aad) aad = Ok plain.
Proof.
  intros [Hn Hk Hb Hp Ha]. unfold AEADOpenJSON, AEADSealJSON. rewrite b64_roundtrip; [by apply AEADOpen_seal|].
  apply Forall_app. split; [done|]. by apply aead_seal_bytes.
Qed.
End aead.

(** ** An instance for the examples

    A toy with the same interface, not a cipher: the text is spelled out bit by
    bit, then the key and the additional data follow. *)

Definition toy_body (plain : list Z) : list Z := flat_map (fun b => [1; b]) plain ++ [0].

Fixpoint toy_parse (l : list Z) : option (list Z * list Z) :=
  match l with
  | 0 :: r => Some ([], r)
  | 1 :: b :: r => '(p, rest) ← toy_parse r; Some (b :: p, rest)
  | _ => None
  end.

Lemma toy_parse_body plain rest : toy_parse (toy_body plain ++ rest) = Some (plain, rest).
Proof. induction plain as [|b plain IH]; [done|]. cbn [toy_body flat_map app toy_parse] in *. unfold toy_body in IH. by rewrite IH. Qed.

#[export] Instance toy_aead : Aead := {
  aead_seal key nonce plain aad := toy_body plain ++ key ++ nonce ++ aad;
  aead_open key nonce ct aad :=
    '(p, rest) ← toy_parse ct; if bool_decide (rest = key ++ nonce ++ aad) then Some p else None;
}.

#[export] Instance toy_laws : AeadLaws.
Proof.
  split.
  - intros key nonce plain aad. simpl. rewrite toy_parse_body. simpl. by rewrite bool_decide_true.
  - intros key nonce plain aad Hk Hn Hp Ha. simpl. rewrite !Forall_app. split_and!; try done.
    unfold toy_body. apply Forall_app. split; [|by repeat constructor].
    induction Hp as [|b l Hb _ IH]; [constructor|]. simpl. constructor; [done|]. by constructor.
Qed.

(** The toy opens a text only under the additional data it was sealed with. *)
Lemma toy_open_seal key nonce plain aad aad' plain' :
  length nonce = NonceSize → AEADOpen key (AEADSeal key nonce plain aad) aad' = Ok plain' → aad' = aad ∧ plain' = plain.
Proof.
  intros Hn. unfold AEADOpen, AEADSeal. destruct (_ <? _)%nat; [done|].
  rewrite take_app_length', drop_app_length' by done. cbn [aead_open aead_seal toy_aead].
  rewrite toy_parse_body. cbn [mbind option_bind]. case_bool_decide as E; [|done]. intros [= <-].
  do 2 apply app_inv_head in E. done.
Qed.

Lemma toy_open_only key nonce plain aad aad' plain' :
  seal_ok key nonce plain aad →
  AEADOpenJSON key (AEADSealJSON key nonce plain aad) aad' = Ok plain' → aad' = aad ∧ plain' = plain.
Proof.
  intros [Hn Hk Hb Hp Ha]. unfold AEADOpenJSON, AEADSealJSON.
  rewrite b64_roundtrip by (apply Forall_app; split; [done|by apply aead_seal_bytes]). by apply toy_open_seal.
Qed.
