(* ===== verification/ProtoPunch.v ===== *)
(** * Authentication of hole-punching packets ([internal/proto/punch.go])

    HMAC-SHA256 and HKDF-SHA256 are libraries': parameters.  The MAC covers the
    session id, the random field and the sender's side, each after its length. *)

From S2P Require Import Prelude GoNet GoText GoBinary GoBase64.

Open Scope Z_scope.

Definition punchMACLen : nat := 16.
Definition punchDirShare : gostring := lit "share".
Definition punchDirHelp : gostring := lit "help".
Definition punchKeyInfo : gostring := lit "rat-p2p-punch-v2".

(** [P2PTestPacket]. *)
Record P2PTestPacket := mkPacket { pk_SessionID : gostring; pk_Random : gostring; pk_MAC : gostring }.

#[export] Instance P2PTestPacket_eta : Eta P2PTestPacket := fun p => mkPacket (pk_SessionID p) (pk_Random p) (pk_MAC p).

Definition punchDir (isShare : bool) : gostring := if isShare then punchDirShare else punchDirHelp.

(** The bytes written into the MAC. *)
Definition punch_field (f : gostring) : list Z := be 4 (Z.of_nat (length f)) ++ f.
Definition punch_input (sessionID random : gostring) (isShare : bool) : list Z :=
  punch_field sessionID ++ punch_field random ++ punch_field (punchDir isShare).

Section punch.
Context (hkdf : gostring → gostring → gostring → list Z) (hmac : list Z → list Z → list Z).

Definition derivePunchKey (code : gostring) : list Z := hkdf code [] punchKeyInfo.

Definition computePunchMAC (code sessionID random : gostring) (isShare : bool) : gostring :=
  b64_encode false (take punchMACLen (hmac (derivePunchKey code) (punch_input sessionID random isShare))).

Definition SignPunchPacket (pkt : P2PTestPacket) (code : gostring) (isShare : bool) : P2PTestPacket :=
  if bool_decide (code = []) then pkt
  else pkt <| pk_MAC := computePunchMAC code (pk_SessionID pkt) (pk_Random pkt) isShare |>.

(** [hmac.Equal] compares the bytes. *)
Definition VerifyPunchPacket (pkt : option P2PTestPacket) (code : gostring) (peerIsShare : bool) : bool :=
  match pkt with
  | None => false
  | Some pkt =>
      if bool_decide (code = []) || bool_decide (pk_MAC pkt = []) then false
      else bool_decide (pk_MAC pkt = computePunchMAC code (pk_SessionID pkt) (pk_Random pkt) peerIsShare)
  end.

(** ** What is authenticated *)

Definition short_field (f : gostring) : Prop := Z.of_nat (length f) < 2 ^ 32.

Lemma punch_field_inj f f' r r' : short_field f → short_field f' →
  punch_field f ++ r = punch_field f' ++ r' → f = f' ∧ r = r'.
Proof.
  unfold short_field, punch_field. intros H H'. rewrite <- !(assoc_L (++)). intros E.
  apply (be_app_inj 4) in E as [E1 E2]; [|split; [lia|]..]; [|exact H|exact H'].
  apply app_inj_1; [lia|done].
Qed.

Lemma punch_input_inj sid rnd b sid' rnd' b' :
  short_field sid → short_field rnd → short_field sid' → short_field rnd' →
  punch_input sid rnd b = punch_input sid' rnd' b' → sid = sid' ∧ rnd = rnd' ∧ b = b'.
Proof.
  intros H1 H2 H3 H4 E. unfold punch_input in E.
  apply punch_field_inj in E as [-> E]; [|done..]. apply punch_field_inj in E as [-> E]; [|done..].
  rewrite <- (app_nil_r (punch_field (punchDir b))), <- (app_nil_r (punch_field (punchDir b'))) in E.
  apply punch_field_inj in E as [E _]; [|by destruct b|by destruct b'].
  by destruct b, b'.
Qed.

(** The truncated MAC tells the two inputs apart. *)
Definition no_collision (code : gostring) (x y : list Z) : Prop :=
  take punchMACLen (hmac (derivePunchKey code) x) = take punchMACLen (hmac (derivePunchKey code) y) → x = y.

(** What the base64 text was made of. *)
Lemma b64_raw_inj l l' : Forall is_byte l → Forall is_byte l' → length l = length l' →
  b64_encode false l = b64_encode false l' → l = l'.
Proof.
  assert (∀ i j, 0 ≤ i < 64 → 0 ≤ j < 64 → b64_char i = b64_char j → i = j) as Hinj.
  { intros i j [Hi _]%b64_index_char [Hj _]%b64_index_char E. rewrite E in Hi. congruence. }
  revert l'. induction l as [|a|a b|a b c l IH] using list_ind3; intros [|a' [|b' [|c' l']]] Hl Hl' Hlen; try done;
    rewrite ?Forall_cons in Hl, Hl'; unfold is_byte in Hl, Hl'; destruct_and? Hl; destruct_and? Hl'; cbn [b64_encode app].
  - intros [= E1 E2]. apply Hinj in E1; [|zdiv..]. apply Hinj in E2; [|zdiv..]. f_equal. zdiv.
  - intros [= E1 E2 E3]. apply Hinj in E1; [|zdiv..]. apply Hinj in E2; [|zdiv..]. apply Hinj in E3; [|zdiv..].
    assert (a = a') as -> by zdiv. do 2 f_equal. zdiv.
  - intros [= E1 E2 E3 E4 E5]. apply Hinj in E1; [|zdiv..]. apply Hinj in E2; [|zdiv..].
    apply Hinj in E3; [|zdiv..]. apply Hinj in E4; [|zdiv..].
    assert (a = a') as -> by zdiv. assert (b = b') as -> by zdiv. assert (c = c') as -> by zdiv.
    do 3 f_equal. apply IH; [done|done|by injection Hlen|done].
Qed.

End punch.

(** A stand-in for HMAC-SHA256: 32 bytes that show the end of the input. *)
Definition toy_hmac (key x : list Z) : list Z := be 16 (be_value x) ++ replicate 16 0.
Definition toy_kdf (secret salt info : gostring) : list Z := secret ++ salt ++ info.
Definition signed : P2PTestPacket := SignPunchPacket toy_kdf toy_hmac (mkPacket (lit "ses_1") (lit "r1") []) (lit "ABCD") true.

