(* ===== verification/Update.v ===== *)
(** * The new-version notice ([internal/update/update.go])

    The relay announces a latest version and download templates; a client compares
    its own version and prints a notice.  What the relay announces is not trusted:
    a notice only ever carries an https URL without control characters.  Strings
    are byte lists. *)

From S2P Require Import Prelude GoNet GoText.

Open Scope Z_scope.


Definition DefaultDownloadURL : gostring :=
  lit "https://github.com/kegechen/remote-assist-tool/releases/download/{version}/remote-assist-cli-{os}-{arch}{ext}".
Definition DefaultReleasePage : gostring :=
  lit "https://github.com/kegechen/remote-assist-tool/releases/tag/{version}".

Definition releasedPlatforms : list gostring :=
  [lit "windows/amd64"; lit "windows/arm64"; lit "linux/amd64"; lit "linux/arm64";
   lit "darwin/amd64"; lit "darwin/arm64"].

Definition member (s : gostring) (l : list gostring) : bool := existsb (fun x => bool_decide (x = s)) l.

(** [describeSuffix]: "-", digits, "-g", hexadecimal digits, and "-dirty" or the
    end. *)
Definition is_hex (b : Z) : bool := is_digit b || between 97 b 102.

Fixpoint span {A} (p : A → bool) (l : list A) : list A * list A :=
  match l with
  | x :: l' => if p x then let '(a, b) := span p l' in (x :: a, b) else ([], l)
  | [] => ([], [])
  end.

Definition is_nonempty {A} (l : list A) : bool := match l with [] => false | _ => true end.

Definition describeSuffix (s : gostring) : bool :=
  match s with
  | 45 :: s =>
      let '(digits, s) := span is_digit s in
      is_nonempty digits
      && match s with
         | 45 :: 103 :: s =>
             let '(hex, s) := span is_hex s in
             is_nonempty hex && (bool_decide (s = []) || bool_decide (s = lit "-dirty"))
         | _ => false
         end
  | _ => false
  end.

Record version := mkVersion { v_num : Z * Z * Z; v_pre : bool }.

(** One dotted part: a decimal number without a leading zero. *)
Definition parse_part (p : gostring) : option Z :=
  match Atoi p with
  | Some n => if (1 <? Z.of_nat (length p)) && has_prefix [48] p then None else Some n
  | None => None
  end.

Definition parse (s : gostring) : option (version * gostring) :=
  let s := TrimSpace s in
  let s := TrimPrefix (lit "V") (TrimPrefix (lit "v") s) in
  let '(core, suffix) :=
    match index_any (lit "-+") s with Some i => (take i s, drop i s) | None => (s, []) end in
  match split_byte 46 core with
  | [a; b; c] =>
      match parse_part a, parse_part b, parse_part c with
      | Some x, Some y, Some z =>
          let pre := is_nonempty suffix && negb (has_prefix (lit "+") suffix)
                     && negb (describeSuffix suffix) in
          Some (mkVersion (x, y, z) pre, suffix)
      | _, _, _ => None
      end
  | _ => None
  end.

Definition ParseVersion (s : gostring) : option (Z * Z * Z) := v_num ∘ fst <$> parse s.

Definition IsRelease (s : gostring) : bool :=
  match parse s with Some (_, suffix) => negb (is_nonempty suffix) | None => false end.

Definition NormalizeRelease (s : gostring) : option gostring :=
  match parse s with
  | Some (v, []) =>
      let '(x, y, z) := v_num v in
      Some (lit "v" ++ decimal x ++ lit "." ++ decimal y ++ lit "." ++ decimal z)
  | _ => None
  end.

Definition has_version_slot (url default : gostring) : bool :=
  bool_decide (url ≠ []) && bool_decide (url ≠ default) && contains (lit "{version}") url.

Definition NormalizeDefaultURLVersion (latest downloadURL releasePage : gostring) : gostring :=
  if has_version_slot downloadURL DefaultDownloadURL || has_version_slot releasePage DefaultReleasePage
  then latest
  else default latest (NormalizeRelease latest).

Definition normalizeTemplateVersion (latest template : gostring) : gostring :=
  if bool_decide (template = DefaultDownloadURL) || bool_decide (template = DefaultReleasePage)
  then default latest (NormalizeRelease latest)
  else latest.

Definition Newer (latest current : gostring) : bool :=
  if negb (IsRelease latest) then false else
  match parse latest, parse current with
  | Some (l, _), Some (c, _) =>
      let '(l0, l1, l2) := v_num l in
      let '(c0, c1, c2) := v_num c in
      if negb (l0 =? c0) then c0 <? l0
      else if negb (l1 =? c1) then c1 <? l1
      else if negb (l2 =? c2) then c2 <? l2
      else v_pre c
  | _, _ => false
  end.

(** A rune that may not appear in a URL: a control character or a blank. *)
Definition url_ctl (r : Z) : bool := (r <=? 0x20) || (r =? 0x7f) || between 0x80 r 0x9f.

Definition SafeURL (u : gostring) : bool :=
  has_prefix (lit "https://") u && (Z.of_nat (length u) <=? 2048) && forallb (fun r => negb (url_ctl r)) (runes u).

Definition normalizeArch (arch : gostring) : gostring :=
  let arch := ToLower (TrimSpace arch) in
  if bool_decide (arch = lit "x86_64") then lit "amd64"
  else if bool_decide (arch = lit "aarch64") then lit "arm64"
  else arch.

Definition expand (template ver goos goarch ext : gostring) : gostring :=
  Replace [(lit "{version}", ver); (lit "{os}", goos); (lit "{arch}", goarch); (lit "{ext}", ext)] template.

Definition ExpandURL (template ver goos goarch : gostring) : gostring :=
  let goarch := normalizeArch goarch in
  if bool_decide (template = []) || negb (member (goos ++ lit "/" ++ goarch) releasedPlatforms) then []
  else
    let ext := if bool_decide (goos = lit "windows") then lit ".exe" else [] in
    expand template ver goos goarch ext.

Definition isOtherGOOS (s : gostring) : bool :=
  member s [lit "freebsd"; lit "openbsd"; lit "netbsd"; lit "dragonfly"; lit "solaris"; lit "illumos";
            lit "aix"; lit "plan9"; lit "android"; lit "ios"; lit "js"; lit "wasip1"].

Definition PlatformFromHost (host : gostring) : option (gostring * gostring) :=
  match rev (Fields host) with
  | arch :: last :: before =>
      let goarch := normalizeArch arch in
      if EqualFold last (lit "windows")
         || match before with b :: _ => EqualFold b (lit "windows") | [] => false end
      then Some (lit "windows", goarch)
      else if bool_decide (last = lit "darwin") then Some (lit "darwin", goarch)
      else if contains (lit "@") last then None
      else if isOtherGOOS last then Some (last, goarch)
      else Some (lit "linux", goarch)
  | _ => None
  end.

Record Notice := mkNotice { n_Current : gostring; n_Latest : gostring; n_URL : gostring }.

Definition Notice_String (n : Notice) : gostring :=
  lit "发现新版本 " ++ n_Latest n ++ lit "（当前 " ++ n_Current n ++ lit "），建议升级，下载：" ++ n_URL n.

Definition Notice_PeerString (n : Notice) : gostring :=
  lit "被协助端版本 " ++ n_Current n ++ lit " 低于最新版 " ++ n_Latest n ++ lit "，建议对方升级，下载："
  ++ n_URL n.

Definition printable (s : gostring) : gostring :=
  map_runes (fun r => if (r <? 0x20) || (r =? 0x7f) || between 0x80 r 0x9f then -1 else r) s.

(** The release page of [latest], the built-in one when the announced one is not
    safe. *)
Definition release_url (latest releasePage : gostring) : gostring :=
  let url := expand releasePage (normalizeTemplateVersion latest releasePage) [] [] [] in
  if negb (SafeURL url)
  then expand DefaultReleasePage (normalizeTemplateVersion latest DefaultReleasePage) [] [] []
  else url.

Definition Check_ (current latest urlTemplate releasePage goos goarch : gostring) : option Notice :=
  if negb (Newer latest current) then None else
  let urlVersion := if bool_decide (urlTemplate = DefaultDownloadURL)
                    then normalizeTemplateVersion latest urlTemplate else latest in
  let url := ExpandURL urlTemplate urlVersion goos goarch in
  let url := if negb (SafeURL url)
             then ExpandURL DefaultDownloadURL (normalizeTemplateVersion latest DefaultDownloadURL) goos goarch
             else url in
  let url := if bool_decide (url = []) then release_url latest releasePage else url in
  Some (mkNotice (printable current) latest url).

Definition CheckPeer (peerVersion peerHost latest urlTemplate releasePage : gostring) : option Notice :=
  let '(goos, goarch) := default ([], []) (PlatformFromHost peerHost) in
  Check_ peerVersion latest urlTemplate releasePage goos goarch.

Definition CheckUnknown (latest releasePage : gostring) : option Notice :=
  if negb (IsRelease latest) then None
  else Some (mkNotice (lit "旧版客户端") latest (release_url latest releasePage)).

Example parse_describe : parse (lit "v1.2.3-4-gabc-dirty") = Some (mkVersion (1, 2, 3) false, lit "-4-gabc-dirty").
Proof. by vm_compute. Qed.
Example newer_prerelease : Newer (lit "1.2.3") (lit "1.2.3-rc1") = true.
Proof. by vm_compute. Qed.
Example windows_peer : PlatformFromHost (lit "user@host Windows 11 AMD64") = Some (lit "windows", lit "amd64").
Proof. by vm_compute. Qed.
