(* ===== verification/UpdateThms.v ===== *)
(** * What the new-version notice guarantees

    Whatever the relay announces, the link of a notice is safe to show; and the
    comparison of versions is a strict order, so no chain of notices ever leads a
    client back to where it was. *)

From S2P Require Import Prelude GoNet GoText Update.

Open Scope Z_scope.

(** ** Plain ASCII text *)

Definition plain (b : Z) : Prop := 0x20 < b < 0x7f.
#[export] Instance plain_dec b : Decision (plain b).
Proof. unfold plain. apply _. Defined.

Lemma segments_plain l : Forall plain l → map snd (segments l) = l.
Proof.
  unfold segments. intros Hl. assert (∀ n, (length l ≤ n)%nat → map snd (segments_fuel n l) = l) as H; [|by apply H].
  induction Hl as [|b l Hb Hl IH]; intros [|n] Hn; simpl in Hn; try done; [lia|].
  unfold plain in Hb. cbn [segments_fuel].
  assert (decode_rune (b :: l) = (b, 1%nat)) as ->.
  { simpl. by rewrite (proj2 (Z.ltb_lt b 128)) by lia. }
  cbn [map snd drop]. f_equal. apply IH. lia.
Qed.

Lemma SafeURL_plain u :
  has_prefix (lit "https://") u = true → (length u ≤ 2048)%nat → Forall plain u → SafeURL u = true.
Proof.
  intros Hp Hlen Hu. unfold SafeURL, runes. rewrite Hp, segments_plain by done.
  rewrite (proj2 (Z.leb_le _ _)) by lia. simpl. apply forallb_forall. intros b Hb%list_elem_of_In.
  rewrite Forall_forall in Hu. specialize (Hu b Hb). unfold plain in Hu.
  unfold url_ctl, between. apply negb_true_iff, orb_false_iff. split; [apply orb_false_iff; split|];
    [apply Z.leb_gt|apply Z.eqb_neq|apply andb_false_iff; left; apply Z.leb_gt]; lia.
Qed.

Lemma decimal_plain n : 0 ≤ n → Forall plain (decimal n) ∧ (length (decimal n) ≤ 20)%nat.
Proof.
  intros Hn. unfold decimal.
  assert (∀ fuel n acc, 0 ≤ n → Forall plain acc →
    Forall plain (decimal_fuel fuel n acc) ∧ (length (decimal_fuel fuel n acc) ≤ length acc + fuel)%nat) as H.
  2:{ destruct (H 20%nat n [] Hn) as [? Hlen]; [constructor|]. done. }
  intros fuel. induction fuel as [|fuel IH]; intros m acc Hm Hacc; cbn [decimal_fuel].
  { split; [done|lia]. }
  assert (Forall plain ((48 + m mod 10) :: acc)) as Hacc'.
  { constructor; [|done]. pose proof (Z.mod_pos_bound m 10). unfold plain. lia. }
  destruct (m <? 10); [split; [done|simpl; lia]|].
  destruct (IH (m / 10) _ ltac:(apply Z.div_pos; lia) Hacc') as [H1 H2].
  split; [done|]. cbn [length] in H2. lia.
Qed.

(** ** Release versions *)

Lemma digits_value_nonneg l : ∀ acc n, 0 ≤ acc → digits_value acc l = Some n → 0 ≤ n.
Proof.
  induction l as [|b l IH]; intros acc n Hacc; simpl; [by intros [= <-]|].
  destruct (is_digit b) eqn:Hb; [|done]. unfold is_digit, between in Hb.
  apply andb_true_iff in Hb as [?%Z.leb_le _]. apply IH. lia.
Qed.

Lemma parse_part_nonneg p n : parse_part p = Some n → 0 ≤ n.
Proof.
  unfold parse_part, Atoi. destruct p as [|b p]; [done|].
  destruct (digits_value 0 (b :: p)) as [m|] eqn:E; [|done]. apply digits_value_nonneg in E; [|done].
  destruct (m <? 2 ^ 63); [|done]. destruct (_ && _); [done|]. by intros [= <-].
Qed.

Lemma parse_nonneg s v suffix :
  parse s = Some (v, suffix) → let '(x, y, z) := v_num v in 0 ≤ x ∧ 0 ≤ y ∧ 0 ≤ z.
Proof.
  unfold parse. destruct (match index_any _ _ with Some i => _ | None => _ end) as [core suf].
  destruct (split_byte 46 core) as [|a [|b [|c [|? ?]]]]; try done.
  destruct (parse_part a) eqn:Ea, (parse_part b) eqn:Eb, (parse_part c) eqn:Ec; try done.
  intros [= <- <-]. simpl. split_and!; eapply parse_part_nonneg; eassumption.
Qed.

Lemma NormalizeRelease_plain s r : NormalizeRelease s = Some r → Forall plain r ∧ (length r ≤ 63)%nat.
Proof.
  unfold NormalizeRelease. destruct (parse s) as [[v [|? ?]]|] eqn:E; try done.
  apply parse_nonneg in E. destruct (v_num v) as [[x y] z]. destruct E as (Hx & Hy & Hz). intros Hr.
  assert (r = lit "v" ++ decimal x ++ lit "." ++ decimal y ++ lit "." ++ decimal z) as -> by congruence.
  destruct (decimal_plain x Hx) as [Px Lx], (decimal_plain y Hy) as [Py Ly], (decimal_plain z Hz) as [Pz Lz].
  assert (Forall plain (lit "v") ∧ Forall plain (lit ".")) as [Hv Hd].
  { split; by_compute. }
  rewrite !Forall_app, !length_app. split; [done|]. simpl. lia.
Qed.

Lemma IsRelease_normalize s : IsRelease s = true → is_Some (NormalizeRelease s).
Proof.
  unfold IsRelease, NormalizeRelease. destruct (parse s) as [[v [|? ?]]|]; try done.
  intros _. destruct (v_num v) as [[x y] z]. eauto.
Qed.

Lemma normalizeTemplate_plain latest template :
  IsRelease latest = true → template = DefaultDownloadURL ∨ template = DefaultReleasePage →
  Forall plain (normalizeTemplateVersion latest template)
  ∧ (length (normalizeTemplateVersion latest template) ≤ 63)%nat.
Proof.
  intros Hrel Ht. unfold normalizeTemplateVersion.
  assert (bool_decide (template = DefaultDownloadURL) || bool_decide (template = DefaultReleasePage) = true) as ->.
  { apply orb_true_iff. rewrite !bool_decide_eq_true. done. }
  destruct (IsRelease_normalize latest Hrel) as [r Hr]. rewrite Hr. by apply (NormalizeRelease_plain latest).
Qed.

(** ** The built-in templates *)

Lemma expand_release ver :
  expand DefaultReleasePage ver [] [] []
  = lit "https://github.com/kegechen/remote-assist-tool/releases/tag/" ++ ver ++ [].
Proof. vm_compute. reflexivity. Qed.

Lemma expand_download ver goos goarch ext :
  expand DefaultDownloadURL ver goos goarch ext
  = lit "https://github.com/kegechen/remote-assist-tool/releases/download/" ++ ver
    ++ lit "/remote-assist-cli-" ++ goos ++ lit "-" ++ goarch ++ ext ++ [].
Proof. vm_compute. reflexivity. Qed.

Lemma has_prefix_app p l l' : has_prefix p l = true → has_prefix p (l ++ l') = true.
Proof.
  revert l. induction p as [|x p IH]; intros [|y l]; simpl; try done.
  intros [H1 H2]%andb_prop. by rewrite H1, IH.
Qed.

Lemma release_page_safe ver :
  Forall plain ver → (length ver ≤ 63)%nat → SafeURL (expand DefaultReleasePage ver [] [] []) = true.
Proof.
  intros Hv Hlen. rewrite expand_release, app_nil_r. apply SafeURL_plain.
  - by apply has_prefix_app; vm_compute.
  - rewrite length_app. change (length (lit _)) with 60%nat. lia.
  - rewrite Forall_app. split; [|done]. by_compute.
Qed.

Lemma member_In s l : member s l = true → In s l.
Proof. unfold member. rewrite existsb_exists. intros (x & Hx & ->%bool_decide_eq_true). done. Qed.

Lemma released_plain goos goarch :
  member (goos ++ lit "/" ++ goarch) releasedPlatforms = true →
  Forall plain goos ∧ Forall plain goarch ∧ (length goos + length goarch ≤ 13)%nat.
Proof.
  intros Hin%member_In.
  assert (Forall plain (goos ++ lit "/" ++ goarch) ∧ (length (goos ++ lit "/" ++ goarch) ≤ 13)%nat) as [HF Hl].
  { assert (Forall (fun s => Forall plain s ∧ (length s ≤ 13)%nat) releasedPlatforms) as HA.
    { by_compute. }
    rewrite List.Forall_forall in HA. by apply HA. }
  rewrite !Forall_app in HF. destruct HF as (? & _ & ?). rewrite !length_app in Hl.
  split_and!; [done|done|]. simpl in Hl. lia.
Qed.

Lemma download_safe ver goos goarch :
  Forall plain ver → (length ver ≤ 63)%nat →
  ExpandURL DefaultDownloadURL ver goos goarch = [] ∨ SafeURL (ExpandURL DefaultDownloadURL ver goos goarch) = true.
Proof.
  intros Hv Hlen. unfold ExpandURL. set (arch := normalizeArch goarch).
  destruct (member _ _) eqn:Hm; [right|left; by rewrite orb_true_r].
  rewrite bool_decide_false by by vm_compute. cbn [orb negb]. apply released_plain in Hm as (Hos & Har & Hl).
  set (ext := if bool_decide (goos = lit "windows") then lit ".exe" else []).
  assert (Forall plain ext ∧ (length ext ≤ 4)%nat) as [He Hle].
  { unfold ext. case_bool_decide; (split; [by_compute|simpl; lia]). }
  rewrite expand_download, app_nil_r. apply SafeURL_plain.
  - by apply has_prefix_app; vm_compute.
  - rewrite !length_app. change (length (lit "-")) with 1%nat. change (length (lit "/remote-assist-cli-")) with 19%nat.
    match goal with |- (length ?x + _ ≤ _)%nat => change (length x) with 65%nat end. lia.
  - rewrite !Forall_app. split_and!; try done; by_compute.
Qed.

(** The link of a notice is always safe to print: whatever version, download
    template and release page the relay announces, and whatever the peer claims to
    be, a notice carries an https URL of at most 2048 bytes without blanks or
    control characters (the built-in link when the announced one is not). *)
Theorem notice_URL_safe (current latest urlTemplate releasePage goos goarch : gostring) (n : Notice) :
  Check_ current latest urlTemplate releasePage goos goarch = Some n
  ∨ CheckUnknown latest releasePage = Some n →
  SafeURL (n_URL n) = true ∧ IsRelease latest = true ∧ n_Latest n = latest.
Proof.
  assert (IsRelease latest = true → SafeURL (release_url latest releasePage) = true) as Hpage.
  { intros Hrel. unfold release_url. destruct (SafeURL (expand releasePage _ _ _ _)) eqn:E; simpl; [done|].
    by apply release_page_safe; apply normalizeTemplate_plain; [|right| |right]. }
  intros [H|H].
  - unfold Check_ in H. destruct (Newer latest current) eqn:Hn; simpl in H; [|done]. injection H as <-. simpl.
    assert (IsRelease latest = true) as Hrel.
    { unfold Newer in Hn. by destruct (IsRelease latest). }
    split; [|done]. case_bool_decide as Hnil; [by apply Hpage|].
    destruct (SafeURL (ExpandURL urlTemplate _ goos goarch)) eqn:E; simpl in *; [done|].
    destruct (download_safe (normalizeTemplateVersion latest DefaultDownloadURL) goos goarch) as [?|?];
      [apply normalizeTemplate_plain; [done|by left]|apply normalizeTemplate_plain; [done|by left]|done|done].
  - unfold CheckUnknown in H. destruct (IsRelease latest) eqn:Hrel; simpl in H; [|done]. injection H as <-.
    simpl. auto.
Qed.

(** A hostile announcement: a template with an escape sequence. *)
Definition hostile : gostring := [27] ++ lit "]0;x" ++ [7] ++ lit "{version}".

Lemma notice_URL_safe_witness :
  ∃ n, Check_ (lit "1.0.0") (lit "v1.1.0") hostile hostile (lit "linux") (lit "x86_64") = Some n
    ∧ SafeURL (n_URL n) = true.
Proof.
  eexists. split; [vm_compute; reflexivity|].
  refine (proj1 (notice_URL_safe (lit "1.0.0") (lit "v1.1.0") hostile hostile (lit "linux") (lit "x86_64") _ _)).
  left. vm_compute. reflexivity.
Defined.

(** ** The order of versions *)

Definition num_lt (a b : Z * Z * Z) : Prop :=
  let '(a0, a1, a2) := a in let '(b0, b1, b2) := b in
  a0 < b0 ∨ (a0 = b0 ∧ (a1 < b1 ∨ (a1 = b1 ∧ a2 < b2))).

Lemma parse_release s v suffix : parse s = Some (v, suffix) → IsRelease s = true → v_pre v = false.
Proof.
  unfold IsRelease. intros E. rewrite E. unfold parse in E.
  destruct (match index_any _ _ with Some i => _ | None => _ end) as [core suf].
  destruct (split_byte 46 core) as [|a [|b [|c [|? ?]]]]; try done.
  destruct (parse_part a), (parse_part b), (parse_part c); try done. injection E as <- <-. simpl.
  by destruct suf.
Qed.

Lemma Newer_spec latest current :
  Newer latest current = true ↔
  IsRelease latest = true ∧ ∃ l c sl sc, parse latest = Some (l, sl) ∧ parse current = Some (c, sc)
    ∧ (num_lt (v_num c) (v_num l) ∨ (v_num c = v_num l ∧ v_pre c = true)).
Proof.
  unfold Newer. destruct (IsRelease latest) eqn:Hrel; simpl; [|naive_solver].
  destruct (parse latest) as [[l sl]|] eqn:El; [|naive_solver].
  destruct (parse current) as [[c sc]|] eqn:Ec; [|naive_solver].
  transitivity (num_lt (v_num c) (v_num l) ∨ (v_num c = v_num l ∧ v_pre c = true)); [|naive_solver].
  unfold num_lt. destruct (v_num l) as [[l0 l1] l2], (v_num c) as [[c0 c1] c2].
  destruct (Z.eqb_spec l0 c0); simpl; [|rewrite Z.ltb_lt; naive_solver lia].
  destruct (Z.eqb_spec l1 c1); simpl; [|rewrite Z.ltb_lt; naive_solver lia].
  destruct (Z.eqb_spec l2 c2); simpl; [|rewrite Z.ltb_lt; naive_solver lia].
  subst. naive_solver lia.
Qed.

(** [Newer] is a strict order whose greater end is always a released version:
    no version is newer than itself, a notice is never answered by the opposite
    one, and a chain of upgrades is itself an upgrade. *)
Theorem Newer_strict_order :
  (∀ a, Newer a a = false) ∧ (∀ a b, Newer a b = true → Newer b a = false)
  ∧ (∀ a b c, Newer a b = true → Newer b c = true → Newer a c = true).
Proof.
  assert (∀ a b c, Newer a b = true → Newer b c = true → Newer a c = true) as Htrans.
  { intros a b c (Ra & va & vb & sa & sb & Ea & Eb & Hab)%Newer_spec
      (Rb & vb' & vc & sb' & sc & Eb' & Ec & Hbc)%Newer_spec.
    rewrite Eb in Eb'. injection Eb' as <- <-.
    apply Newer_spec. split; [done|]. exists va, vc, sa, sc. split_and!; [done..|].
    pose proof (parse_release b vb sb Eb Rb) as Hpre.
    destruct Hab as [Hab|[_ ?]]; [|congruence]. left.
    unfold num_lt in *. destruct (v_num va) as [[? ?] ?], (v_num vb) as [[? ?] ?], (v_num vc) as [[? ?] ?].
    destruct Hbc as [Hbc|[[= -> -> ->] _]]; [|done]. lia. }
  assert (∀ a, Newer a a = false) as Hirr.
  { intros a. apply not_true_iff_false. intros (Ra & v & v' & s & s' & E & E' & H)%Newer_spec.
    rewrite E in E'. injection E' as <- <-. pose proof (parse_release a v s E Ra) as Hpre.
    destruct H as [H|[_ ?]]; [|congruence]. unfold num_lt in H. destruct (v_num v) as [[? ?] ?]. lia. }
  split_and!; [done| |done]. intros a b Hab. apply not_true_iff_false. intros Hba.
  pose proof (Htrans a b a Hab Hba). specialize (Hirr a). congruence.
Qed.
