(* ===== verification/RelayText.v ===== *)
(** * Strings the relay takes from and shows to its clients
    ([internal/relay/sanitize.go], [code.go], [update_notice.go]) *)

From S2P Require Import Prelude GoNet GoText Update.

Open Scope Z_scope.

(** ** Peer-reported identity strings *)

Definition maxPeerStringLen : nat := 120.

(** [unicode.Cf], the format characters (Unicode 15). *)
Definition is_Cf (r : Z) : bool :=
  existsb (fun p => between (fst p) r (snd p))
    [(0xAD, 0xAD); (0x600, 0x605); (0x61C, 0x61C); (0x6DD, 0x6DD); (0x70F, 0x70F); (0x890, 0x891);
     (0x8E2, 0x8E2); (0x180E, 0x180E); (0x200B, 0x200F); (0x202A, 0x202E); (0x2060, 0x2064);
     (0x2066, 0x206F); (0xFEFF, 0xFEFF); (0xFFF9, 0xFFFB); (0x110BD, 0x110BD); (0x110CD, 0x110CD);
     (0x13430, 0x1343F); (0x1BCA0, 0x1BCA3); (0x1D173, 0x1D17A); (0xE0001, 0xE0001); (0xE0020, 0xE007F)].

Definition dropped (r : Z) : bool := (r <? 0x20) || (r =? 0x7f) || is_Cf r.

(** The loop over the runes, with the count [n] of those written so far. *)
Fixpoint sanitize_loop (n : nat) (l : list Z) : list Z :=
  match l with
  | [] => []
  | r :: l =>
      if dropped r then sanitize_loop n l
      else
        encode_rune r ++ (if (maxPeerStringLen <=? S n)%nat then [] else sanitize_loop (S n) l)
  end.

Definition sanitizePeerString (s : gostring) : gostring := sanitize_loop 0 (runes (TrimSpace s)).

(** ** Assistance codes *)

Definition charset : gostring := lit "ABCDEFGHJKMNPQRSTUVWXYZabcdefghjkmnpqrstuvwxyz23456789".
Definition defaultCodeLength : Z := 10.

Record CodeManager := mkCodeManager { codeLength : Z }.

Definition NewCodeManager (codeLength : Z) : CodeManager :=
  mkCodeManager (if codeLength <=? 0 then defaultCodeLength else codeLength).

(** [draw i] is the result of the [i]-th [rand.Int(rand.Reader, len(charset))],
    [None] when the random source fails. *)
Fixpoint generateCode (length : nat) (draw : nat → option Z) : option gostring :=
  match length with
  | O => Some []
  | S n =>
      num ← draw 0%nat;
      rest ← generateCode n (fun i => draw (S i));
      Some (nth (Z.to_nat num) charset 0 :: rest)
  end.

Definition Generate (cm : CodeManager) (draw : nat → option Z) : option gostring :=
  generateCode (Z.to_nat (codeLength cm)) draw.

Definition normalizeCode (code : gostring) : gostring :=
  map_runes (fun r => if (r =? 45) || (r =? 32) || (r =? 95) then -1 else r) code.

Definition FormatCode (code : gostring) : gostring :=
  if (length code <=? 4)%nat then code else take 4 code ++ [45] ++ drop 4 code.

(** ** The notice for clients that cannot show one themselves *)

Definition legacyUpdatePrefix : gostring := lit "[升级提示] ".

Record UpdateInfo := mkUpdateInfo {
  ui_LatestVersion : gostring;
  ui_DownloadURL : gostring;
  ui_ReleasePage : gostring;
}.

Definition needsLegacyUpdateNotice (version : gostring) (supportsUpdateNotice : bool) : bool :=
  if supportsUpdateNotice then false
  else if bool_decide (version = []) then true
  else match ParseVersion version with Some (n, _, _) => n =? 0 | None => false end.

Definition legacyNotice (version host : gostring) (info : UpdateInfo) : option Notice :=
  if bool_decide (version ≠ []) then
    CheckPeer version host (ui_LatestVersion info) (ui_DownloadURL info) (ui_ReleasePage info)
  else CheckUnknown (ui_LatestVersion info) (ui_ReleasePage info).

(** The identity of the addressee, as the table keeps it. *)
Record Identity := mkIdentity {
  id_Version : gostring;
  id_Host : gostring;
  id_supportsUpdateNotice : bool;
}.

Definition with_notice (prefix : gostring) (to : Identity) (info : UpdateInfo) (peerHost : gostring) : gostring :=
  if negb (needsLegacyUpdateNotice (id_Version to) (id_supportsUpdateNotice to)) then peerHost
  else match legacyNotice (id_Version to) (id_Host to) info with
       | Some notice => peerHost ++ lit (String.String (Ascii.ascii_of_nat 10) "") ++ legacyUpdatePrefix
                        ++ prefix ++ Notice_String notice
       | None => peerHost
       end.

Definition legacyShareSessionReadyHost (share : option Identity) (info : UpdateInfo) (peerHost : gostring) : gostring :=
  match share with None => peerHost | Some share => with_notice [] share info peerHost end.

Definition legacyHelpUpdateHost (client : option Identity) (info : UpdateInfo) (peerHost : gostring) : gostring :=
  match client with None => peerHost | Some c => with_notice (lit "协助端本机：") c info peerHost end.

Definition mergeUpdateInfo (base override : UpdateInfo) : UpdateInfo :=
  let or_base (v b : gostring) := if bool_decide (v = []) then b else v in
  let latest := or_base (ui_LatestVersion override) (ui_LatestVersion base) in
  let download := or_base (ui_DownloadURL override) (ui_DownloadURL base) in
  let page := or_base (ui_ReleasePage override) (ui_ReleasePage base) in
  mkUpdateInfo (NormalizeDefaultURLVersion latest download page) download page.

Definition normalizeUpdateInfo (info : UpdateInfo) : UpdateInfo :=
  mkUpdateInfo (NormalizeDefaultURLVersion (ui_LatestVersion info) (ui_DownloadURL info) (ui_ReleasePage info))
    (ui_DownloadURL info) (ui_ReleasePage info).

(** ** Sanitized strings *)

(** The runes the loop keeps. *)
Fixpoint kept (n : nat) (l : list Z) : list Z :=
  match l with
  | [] => []
  | r :: l =>
      if dropped r then kept n l
      else r :: (if (maxPeerStringLen <=? S n)%nat then [] else kept (S n) l)
  end.

Lemma sanitize_kept l : ∀ n, sanitize_loop n l = concat (map encode_rune (kept n l)).
Proof.
  induction l as [|r l IH]; intros n; [done|]. cbn [sanitize_loop kept]. destruct (dropped r); [apply IH|].
  cbn [map concat]. f_equal. destruct (_ <=? _)%nat; [done|apply IH].
Qed.

Lemma kept_spec l : ∀ n, (n < maxPeerStringLen)%nat →
  kept n l `sublist_of` l ∧ Forall (fun r => dropped r = false) (kept n l)
  ∧ (n + length (kept n l) ≤ maxPeerStringLen)%nat.
Proof.
  induction l as [|r l IH]; intros n Hn; cbn [kept].
  { split_and!; [done|constructor|simpl; lia]. }
  destruct (dropped r) eqn:Hd.
  { destruct (IH n Hn) as (? & ? & ?). split_and!; [by apply sublist_cons|done|done]. }
  destruct (Nat.leb_spec maxPeerStringLen (S n)).
  { split_and!; [apply sublist_skip, sublist_nil_l|by repeat constructor|simpl; lia]. }
  destruct (IH (S n) ltac:(lia)) as (? & ? & ?). split_and!; [by apply sublist_skip|by constructor|simpl; lia].
Qed.

Lemma Forall_drop_while {A} (P : A → Prop) p l : Forall P l → Forall P (drop_while p l).
Proof. induction 1 as [|x l Hx Hl IH]; simpl; [constructor|]. destruct (p x); [done|by constructor]. Qed.

Lemma TrimSpace_bytes s : Forall is_byte s → Forall is_byte (TrimSpace s).
Proof.
  rewrite <- (segments_concat s) at 1. unfold TrimSpace, trim_segments.
  rewrite !List.Forall_concat, !List.Forall_map. intros H.
  by apply List.Forall_rev, Forall_drop_while, List.Forall_rev, Forall_drop_while.
Qed.

(** What a peer reports about itself cannot deceive the reader of a log or of
    a dashboard: a sanitized string is valid UTF-8 of at most 120 runes, none of
    them an ASCII control character or a Unicode format character (bidirectional
    overrides, zero-width characters), and it is a subsequence of what the peer
    sent. *)
Theorem sanitizePeerString_safe (s : gostring) :
  Forall is_byte s →
  let out := sanitizePeerString s in
  out = concat (map encode_rune (runes out))
  ∧ (length (runes out) ≤ maxPeerStringLen)%nat
  ∧ Forall (fun r => scalar r ∧ 0x20 ≤ r ∧ r ≠ 0x7f ∧ is_Cf r = false) (runes out)
  ∧ runes out `sublist_of` runes (TrimSpace s).
Proof.
  intros Hs. unfold sanitizePeerString. rewrite sanitize_kept.
  destruct (kept_spec (runes (TrimSpace s)) 0) as (Hsub & Hd & Hlen); [unfold maxPeerStringLen; lia|].
  pose proof (runes_scalar _ (TrimSpace_bytes s Hs)) as Hsc.
  set (k := kept 0 (runes (TrimSpace s))) in *.
  assert (Forall scalar k) as Hk.
  { rewrite Forall_forall in *. intros r Hr. apply Hsc. by eapply elem_of_sublist. }
  simpl. rewrite runes_encoded by done. split_and!; [done|lia| |done].
  rewrite Forall_forall in *. intros r Hr. specialize (Hd r Hr). unfold dropped in Hd.
  apply orb_false_iff in Hd as [[H1%Z.ltb_ge H2%Z.eqb_neq]%orb_false_iff H3]. split_and!; [by apply Hk|done..].
Qed.

(** A spoofing attempt: a right-to-left override and a zero-width space. *)
Lemma sanitizePeerString_safe_witness :
  sanitizePeerString (lit " user" ++ encode_rune 0x202E ++ [27] ++ lit "@pc" ++ encode_rune 0x200B ++ lit " ")
  = lit "user@pc" ∧ (length (runes (lit "user@pc")) ≤ maxPeerStringLen)%nat.
Proof.
  assert (sanitizePeerString (lit " user" ++ encode_rune 0x202E ++ [27] ++ lit "@pc" ++ encode_rune 0x200B ++ lit " ")
    = lit "user@pc") as E by by vm_compute.
  split; [exact E|]. rewrite <- E. apply sanitizePeerString_safe.
  refine (bool_decide_unpack (Forall (fun b => 0 <= b ∧ b < 256) _) _). by vm_compute.
Defined.

(** ** Codes *)

Lemma map_runes_plain f l :
  Forall (fun b => 0 ≤ b < 0x80 ∧ (f b = b ∨ f b < 0)) l → map_runes f l = List.filter (fun b => 0 <=? f b) l.
Proof.
  intros Hl. unfold map_runes, runes, segments.
  assert (∀ n, (length l ≤ n)%nat → concat (map (fun r => let r' := f r in if r' <? 0 then [] else encode_rune r')
    (map snd (segments_fuel n l))) = List.filter (fun b => 0 <=? f b) l) as H; [|by apply H].
  induction Hl as [|b l [Hb Hf] Hl IH]; intros [|n] Hn; simpl in Hn; try done; [lia|].
  cbn [segments_fuel].
  assert (decode_rune (b :: l) = (b, 1%nat)) as ->.
  { simpl. by rewrite (proj2 (Z.ltb_lt b 128)) by lia. }
  cbn [map snd drop concat List.filter]. rewrite IH by lia. destruct Hf as [Hf|Hf].
  - rewrite Hf, (proj2 (Z.ltb_ge _ _)), (proj2 (Z.leb_le _ _)) by lia. unfold encode_rune, between.
    rewrite (proj2 (Z.ltb_ge b 0)), (proj2 (Z.ltb_ge 0x10FFFF b)), (proj2 (Z.leb_gt 0xD800 b)) by lia.
    simpl. by rewrite (proj2 (Z.leb_le b 127)) by lia.
  - rewrite (proj2 (Z.ltb_lt _ _)), (proj2 (Z.leb_gt _ _)) by lia. done.
Qed.

(** A character of the alphabet of codes: none of the separators. *)
Definition code_char (b : Z) : Prop := In b charset.

Lemma code_char_spec b : code_char b → 0 ≤ b < 0x80 ∧ b ≠ 45 ∧ b ≠ 32 ∧ b ≠ 95.
Proof.
  assert (Forall (fun b => (0 <= b ∧ b < 0x80) ∧ b ≠ 45 ∧ b ≠ 32 ∧ b ≠ 95) charset) as H.
  { by_compute. }
  rewrite List.Forall_forall in H. intros Hb. apply (H b Hb).
Qed.

Lemma normalize_code l : Forall code_char l → normalizeCode l = l ∧ ∀ l', Forall code_char l' →
  normalizeCode (l ++ [45] ++ l') = l ++ l'.
Proof.
  assert (∀ l, Forall code_char l → List.filter (fun b => 0 <=? (if (b =? 45) || (b =? 32) || (b =? 95) then -1 else b)) l = l)
    as Hf.
  { induction 1 as [|b m Hb Hm IH]; [done|]. cbn [List.filter]. apply code_char_spec in Hb.
    rewrite (proj2 (Z.eqb_neq b 45)), (proj2 (Z.eqb_neq b 32)), (proj2 (Z.eqb_neq b 95)) by lia. cbn [orb].
    rewrite (proj2 (Z.leb_le _ _)) by lia. by rewrite IH. }
  assert (∀ l, Forall code_char l → Forall (fun b => 0 ≤ b < 0x80 ∧ ((if (b =? 45) || (b =? 32) || (b =? 95) then -1 else b) = b
    ∨ (if (b =? 45) || (b =? 32) || (b =? 95) then -1 else b) < 0)) l) as Hp.
  { induction 1 as [|b m Hb Hm IH]; constructor; [|done]. apply code_char_spec in Hb. split; [lia|].
    destruct (_ || _); [right; lia|by left]. }
  intros Hl. split; [unfold normalizeCode; rewrite map_runes_plain by auto; auto|].
  intros l' Hl'. unfold normalizeCode. rewrite map_runes_plain, !List.filter_app.
  - by rewrite (Hf l Hl), (Hf l' Hl').
  - rewrite !Forall_app. split_and!; [auto| |auto]. constructor; [simpl; lia|constructor].
Qed.

Lemma generateCode_chars n : ∀ draw code,
  (∀ i x, draw i = Some x → 0 ≤ x < Z.of_nat (length charset)) → generateCode n draw = Some code →
  Forall code_char code ∧ length code = n.
Proof.
  induction n as [|n IH]; intros draw code Hd; simpl; [intros [= <-]; by split|].
  destruct (draw 0%nat) as [x|] eqn:Ex; [|done]. simpl.
  destruct (generateCode n _) as [rest|] eqn:E; [|done]. simpl. intros [= <-].
  destruct (IH _ _ (fun i => Hd (S i)) E) as [Hr Hl]. split; [|by simpl; rewrite Hl].
  constructor; [|done]. unfold code_char. apply (nth_In charset 0). specialize (Hd 0%nat x Ex). lia.
Qed.

(** A code can be typed the way it is shown.  A generated code has the
    configured length and no separator, so it names itself after normalization,
    and the form with a dash that is displayed normalizes back to it. *)
Theorem code_display_roundtrip (n : Z) (draw : nat → option Z) (code : gostring) :
  (∀ i x, draw i = Some x → 0 ≤ x < Z.of_nat (length charset)) →
  Generate (NewCodeManager n) draw = Some code →
  normalizeCode code = code ∧ normalizeCode (FormatCode code) = code
  ∧ Z.of_nat (length code) = (if n <=? 0 then 10 else n).
Proof.
  intros Hd Hg. apply generateCode_chars in Hg as [Hc Hl]; [|done].
  destruct (normalize_code code Hc) as [E _]. split_and!; [done| |].
  - unfold FormatCode. destruct (_ <=? _)%nat; [done|].
    destruct (normalize_code (take 4 code) (Forall_take _ _ _ Hc)) as [_ H].
    rewrite (H (drop 4 code)) by by apply Forall_drop. apply take_drop.
  - rewrite Hl. unfold NewCodeManager, defaultCodeLength. simpl. destruct (Z.leb_spec n 0); lia.
Qed.

(** Ten draws. *)
Definition counting (i : nat) : option Z := if (i <? 10)%nat then Some (Z.of_nat i) else None.

Lemma code_display_roundtrip_witness :
  Generate (NewCodeManager 0) counting = Some (lit "ABCDEFGHJK")
  ∧ FormatCode (lit "ABCDEFGHJK") = lit "ABCD-EFGHJK" ∧ normalizeCode (lit "ABCD-EFGHJK") = lit "ABCDEFGHJK".
Proof.
  assert (Generate (NewCodeManager 0) counting = Some (lit "ABCDEFGHJK")) as E by by vm_compute.
  assert (FormatCode (lit "ABCDEFGHJK") = lit "ABCD-EFGHJK") as F by by vm_compute.
  split; [exact E|]. split; [exact F|]. rewrite <- F.
  refine (proj1 (proj2 (code_display_roundtrip 0 counting (lit "ABCDEFGHJK") _ E))).
  intros i x. unfold counting. destruct (Nat.ltb_spec i 10); [|done]. intros [= <-].
  assert (length charset = 54%nat) as -> by by vm_compute. lia.
Defined.
