(* ===== verification/StunCandidates.v ===== *)
(** * STUN servers from elsewhere ([internal/p2p/stun_race.go])

    The relay may advertise STUN servers; both the relay and the client check each
    of them with [CheckSTUNServer], and the client merges them with its own and the
    built-in ones. *)

From S2P Require Import Prelude GoNet GoText.

Open Scope Z_scope.

Definition FallbackSTUNServers : list (list Z) :=
  [lit "stun.chat.bilibili.com:3478"; lit "stun.miwifi.com:3478"; lit "stun.cloudflare.com:3478";
   lit "stun.l.google.com:19302"].

Definition maxAdvertisedSTUN : nat := 4.
Definition maxSTUNCandidates : nat := 9.

(** ** Checking one address *)

(** [strconv.ParseUint(label, 0, 32)], without the underscores base 0 allows: a
    host with one is refused in any case. *)
Definition base_of (l : list Z) : Z * list Z :=
  match l with
  | 48 :: 120 :: r | 48 :: 88 :: r => (16, r)
  | 48 :: 98 :: r | 48 :: 66 :: r => (2, r)
  | 48 :: 111 :: r | 48 :: 79 :: r => (8, r)
  | 48 :: (_ :: _) as r => (8, tail r)
  | _ => (10, l)
  end.

Definition digit_of (b : Z) : option Z :=
  if between 48 b 57 then Some (b - 48)
  else if between 97 b 122 then Some (b - 87)
  else if between 65 b 90 then Some (b - 55) else None.

Fixpoint parse_digits (base acc : Z) (l : list Z) : option Z :=
  match l with
  | [] => Some acc
  | b :: l => match digit_of b with
              | Some d => if d <? base then parse_digits base (acc * base + d) l else None
              | None => None
              end
  end.

Definition ParseUint32 (l : list Z) : option Z :=
  let '(base, ds) := base_of l in
  match ds with
  | [] => None
  | _ => match parse_digits base 0 ds with Some n => if n <? 2 ^ 32 then Some n else None | None => None end
  end.

Definition inetAtonForm (host : list Z) : bool :=
  forallb (fun label => match ParseUint32 label with Some _ => true | None => false end) (split_byte 46 host).

Definition all_digits (l : list Z) : bool := forallb is_digit l.

(** [net.IP] predicates on an IPv4 address. *)
Definition IsLoopback (v4 : list Z) : bool := match v4 with a :: _ => a =? 127 | _ => false end.
Definition IsUnspecified (v4 : list Z) : bool := bool_decide (v4 = [0; 0; 0; 0]).
Definition IsLinkLocalUnicast (v4 : list Z) : bool :=
  match v4 with a :: b :: _ => (a =? 169) && (b =? 254) | _ => false end.
Definition IsMulticast (v4 : list Z) : bool := match v4 with a :: _ => Z.land a 0xF0 =? 0xE0 | _ => false end.

(** [ip.To4()] *)
Definition To4 (ip : list Z) : option (list Z) :=
  if (length ip =? 4)%nat then Some ip
  else if (length ip =? 16)%nat && has_prefix v4InV6Prefix ip then Some (drop 12 ip) else None.

Definition has_suffix (p l : list Z) : bool := has_prefix (rev p) (rev l).
Definition TrimSuffix (p l : list Z) : list Z :=
  if has_suffix p l then take (length l - length p) l else l.

Definition after_last_dot (l : list Z) : list Z :=
  match last_index_byte 46 l with Some i => drop (S i) l | None => l end.

Definition host_char (r : Z) : bool := between 97 r 122 || between 65 r 90 || between 48 r 57 || (r =? 46) || (r =? 45).

Inductive STUNError := BadHostPort | BadPort | NotIPv4 | NotUnicast | Localhost | NumericHost | BadChar.

Definition CheckSTUNServer (s : list Z) : option STUNError :=
  match split_host_port_bytes s with
  | None => Some BadHostPort
  | Some (host, port) =>
      if bool_decide (host = []) || (255 <? Z.of_nat (length s)) then Some BadHostPort else
      if negb (match Atoi port with Some n => between 1 n 65535 | None => false end && all_digits port)
      then Some BadPort else
      match ParseIP (string_of host) with
      | Some ip =>
          match To4 ip with
          | None => Some NotIPv4
          | Some v4 =>
              if has_byte 58 host then Some NotIPv4 else
              let a := default 0 (head v4) in
              if IsLoopback v4 || IsUnspecified v4 || (a =? 0) || IsLinkLocalUnicast v4 || IsMulticast v4
                 || (240 <=? a) then Some NotUnicast else None
          end
      | None =>
          let lower := ToLower (TrimSuffix (lit ".") host) in
          if bool_decide (lower = lit "localhost") || has_suffix (lit ".localhost") lower then Some Localhost
          else if all_digits (after_last_dot lower) || inetAtonForm lower then Some NumericHost
          else if forallb host_char (runes host) then None else Some BadChar
      end
  end.

Definition maxAdvertiseSTUN : nat := 4.

(** [ValidateAdvertiseSTUN] of the relay: [true] when the list is accepted. *)
Definition ValidateAdvertiseSTUN (servers : list (list Z)) : bool :=
  (length servers <=? maxAdvertiseSTUN)%nat
  && forallb (fun s => match CheckSTUNServer s with None => true | Some _ => false end) servers.

(** ** Merging *)

Definition add (s : list Z) (out : list (list Z)) : list (list Z) :=
  let s := TrimSpace s in
  if bool_decide (s = []) || bool_decide (s ∈ out) || (maxSTUNCandidates <=? length out)%nat then out
  else out ++ [s].

Fixpoint add_advertised (taken : nat) (l out : list (list Z)) : list (list Z) :=
  match l with
  | [] => out
  | s :: l =>
      if (maxAdvertisedSTUN <=? taken)%nat then out
      else
        let s := TrimSpace s in
        match CheckSTUNServer s with
        | None => add_advertised (S taken) l (add s out)
        | Some _ => add_advertised taken l out
        end
  end.

Definition MergeSTUNCandidates (configured : list Z) (advertised fallback : list (list Z)) : list (list Z) :=
  let out := add configured [] in
  let out := add_advertised 0 advertised out in
  fold_left (fun out s => add s out) fallback out.

Example check_ok : map CheckSTUNServer
  [lit "stun.l.google.com:19302"; lit "192.168.1.9:3478"; lit "127.1:3478"; lit "127.0.0.1:3478";
   lit "0x7f.0.0.1:3478"; lit "[::1]:3478"; lit "LocalHost.:1"; lit "h:0"; lit "a_b:1"]
  = [None; None; Some NumericHost; Some NotUnicast; Some NumericHost; Some NotIPv4; Some Localhost;
     Some BadPort; Some BadChar].
Proof. by vm_compute. Qed.

(** ** What a candidate list may hold *)

Lemma add_spec s out :
  NoDup out → (length out ≤ maxSTUNCandidates)%nat →
  NoDup (add s out) ∧ (length (add s out) ≤ maxSTUNCandidates)%nat
  ∧ (length (add s out) ≤ S (length out))%nat ∧ out `sublist_of` add s out
  ∧ (∀ x, x ∈ add s out → x ∈ out ∨ x = TrimSpace s)
  ∧ (TrimSpace s ≠ [] → (length out < maxSTUNCandidates)%nat → TrimSpace s ∈ add s out).
Proof.
  intros Hnd Hlen. unfold add. destruct (bool_decide (TrimSpace s = [])) eqn:E1; cbn [orb].
  { apply bool_decide_eq_true in E1. split_and!; auto. done. }
  destruct (bool_decide (TrimSpace s ∈ out)) eqn:E2; cbn [orb].
  { apply bool_decide_eq_true in E2. split_and!; auto. }
  apply bool_decide_eq_false in E2. destruct (Nat.leb_spec maxSTUNCandidates (length out)).
  { split_and!; auto; intros; lia. }
  rewrite length_app. cbn [length]. split_and!; try lia.
  - apply NoDup_app. split_and!; [done| |apply NoDup_singleton]. intros x Hx Hs%list_elem_of_singleton. congruence.
  - by apply sublist_inserts_r.
  - intros x [?|Hx%list_elem_of_singleton]%elem_of_app; auto.
  - intros _ _. set_solver.
Qed.

(** What the relay advertised and the check let through. *)
Definition vetted (advertised : list (list Z)) (x : list Z) : Prop :=
  CheckSTUNServer x = None ∧ ∃ a, a ∈ advertised ∧ x = TrimSpace a.

Lemma add_advertised_spec l : ∀ taken out,
  (taken ≤ maxAdvertisedSTUN)%nat → NoDup out → (length out ≤ S taken)%nat →
  NoDup (add_advertised taken l out) ∧ (length (add_advertised taken l out) ≤ S maxAdvertisedSTUN)%nat
  ∧ out `sublist_of` add_advertised taken l out
  ∧ ∀ x, x ∈ add_advertised taken l out → x ∈ out ∨ vetted l x.
Proof.
  induction l as [|s l IH]; intros taken out Ht Hnd Hlen; cbn [add_advertised].
  { split_and!; auto. lia. }
  destruct (Nat.leb_spec maxAdvertisedSTUN taken); [split_and!; auto; lia|].
  destruct (CheckSTUNServer (TrimSpace s)) as [e|] eqn:Hchk.
  { destruct (IH taken out Ht Hnd Hlen) as (? & ? & ? & Hin). split_and!; [done..|].
    intros x [?|[? (a & ? & ?)]]%Hin; [by left|right]. split; [done|]. exists a. split; [by right|done]. }
  unfold maxAdvertisedSTUN in *.
  destruct (add_spec (TrimSpace s) out Hnd) as (Hnd' & _ & Hlen' & Hsub & Hin & _);
    [unfold maxSTUNCandidates; lia|].
  destruct (IH (S taken) (add (TrimSpace s) out)) as (? & ? & ? & Hin'); [lia|done|lia|].
  split_and!; [done|done|by etrans|]. rewrite TrimSpace_idem in Hin.
  intros x [[? | ->]%Hin|[? (a & ? & ?)]]%Hin'; [by left| |].
  - right. split; [done|]. exists s. split; [by left|done].
  - right. split; [done|]. exists a. split; [by right|done].
Qed.

Lemma add_fallbacks fs : ∀ out,
  NoDup out → (length out + length fs ≤ maxSTUNCandidates)%nat →
  let out' := fold_left (fun out s => add s out) fs out in
  NoDup out' ∧ (length out' ≤ maxSTUNCandidates)%nat ∧ out `sublist_of` out'
  ∧ (∀ x, x ∈ out' → x ∈ out ∨ ∃ f, f ∈ fs ∧ x = TrimSpace f)
  ∧ (∀ f, f ∈ fs → TrimSpace f ≠ [] → TrimSpace f ∈ out').
Proof.
  induction fs as [|f fs IH]; intros out Hnd Hlen; cbn [fold_left].
  { simpl in *. split_and!; [done|lia|done|by left|by intros f ?%not_elem_of_nil]. }
  cbn [length] in Hlen. destruct (add_spec f out Hnd) as (Hnd' & _ & Hlen' & Hsub & Hin & Hget); [lia|].
  destruct (IH (add f out) Hnd' ltac:(lia)) as (? & ? & Hsub' & Hin' & Hall).
  split_and!; [done|done|by etrans| |].
  - intros x [[? | ->]%Hin|(g & ? & ?)]%Hin'; [by left|right; exists f; set_solver|right; exists g; set_solver].
  - intros g [->|Hg]%elem_of_cons Hne; [|by apply Hall].
    eapply elem_of_sublist; [|exact Hsub']. apply Hget; [done|lia].
Qed.

(** An advertised list can neither poison the STUN candidates nor crowd the
    built-in ones out.  However long and malformed the relay's list, a merge has
    at most nine candidates without repetition; each is the configured server, a
    built-in one, or an advertised one that passed the check; and, up to four
    built-in servers, all of them are there. *)
Theorem MergeSTUNCandidates_bounded (configured : list Z) (advertised fallback : list (list Z)) :
  (length fallback ≤ 4)%nat →
  let out := MergeSTUNCandidates configured advertised fallback in
  NoDup out ∧ (length out ≤ maxSTUNCandidates)%nat
  ∧ (∀ x, x ∈ out → x = TrimSpace configured ∨ vetted advertised x ∨ ∃ f, f ∈ fallback ∧ x = TrimSpace f)
  ∧ (∀ f, f ∈ fallback → TrimSpace f ≠ [] → TrimSpace f ∈ out).
Proof.
  intros Hf. unfold MergeSTUNCandidates.
  destruct (add_spec configured [] (NoDup_nil_2)) as (Hnd & _ & Hlen & _ & Hin & _); [simpl; lia|].
  destruct (add_advertised_spec advertised 0 (add configured [])) as (Hnd1 & Hlen1 & _ & Hin1);
    [lia|done|done|].
  destruct (add_fallbacks fallback (add_advertised 0 advertised (add configured [])) Hnd1)
    as (Hnd2 & Hlen2 & _ & Hin2 & Hall).
  { unfold maxAdvertisedSTUN, maxSTUNCandidates in *. lia. }
  split_and!; [done|done| |done].
  intros x [[[?%not_elem_of_nil|?]%Hin|?]%Hin1|?]%Hin2; tauto.
Qed.

(** A relay that advertises loopback addresses and a hundred good ones. *)
Definition flood : list (list Z) :=
  lit "127.0.0.1:3478" :: lit "localhost:1" :: map (fun n => lit "s" ++ decimal (Z.of_nat n) ++ lit ".example:3478") (seq 0 100).

Lemma MergeSTUNCandidates_bounded_witness :
  let out := MergeSTUNCandidates (lit " relay.example:3478 ") flood FallbackSTUNServers in
  length out = 9%nat ∧ (∀ f, f ∈ FallbackSTUNServers → TrimSpace f ≠ [] → TrimSpace f ∈ out).
Proof.
  intros out. split; [by vm_compute|].
  apply (MergeSTUNCandidates_bounded (lit " relay.example:3478 ") flood FallbackSTUNServers). simpl. lia.
Defined.
