(* ===== verification/GoFloat.v ===== *)
(** * Go's [float64] and [time.Duration]

    [float64] is IEEE 754 binary64: the operations of the Standard Library's
    executable specification of floating point, at precision 53 and maximal
    exponent 1024.  A [Duration] is a 64-bit count of nanoseconds; the difference
    of two times saturates. *)

From S2P Require Import Prelude.
From Stdlib Require Import Floats.SpecFloat.

Open Scope Z_scope.

Notation float64 := spec_float.

Definition fadd (x y : float64) : float64 := SFadd 53 1024 x y.
Definition fsub (x y : float64) : float64 := SFsub 53 1024 x y.
Definition fmul (x y : float64) : float64 := SFmul 53 1024 x y.
Definition fdiv (x y : float64) : float64 := SFdiv 53 1024 x y.

(** [x < y], [x <= y] and [x == y]: false as soon as an operand is NaN. *)
Definition flt (x y : float64) : bool := SFltb x y.
Definition fle (x y : float64) : bool := SFleb x y.
Definition feq (x y : float64) : bool := SFeqb x y.

(** [float64(z)] of an integer. *)
Definition float_of (z : Z) : float64 := binary_normalize 53 1024 z 0 false.
Definition fzero : float64 := S754_zero false.

(** A decimal constant [z / 10^k] that is a quotient of two floats. *)
Definition float_dec (z : Z) (k : Z) : float64 := fdiv (float_of z) (float_of (10 ^ k)).

Definition maxInt64 : Z := 2 ^ 63 - 1.
Definition minInt64 : Z := - 2 ^ 63.

(** [t.Sub(u)] *)
Definition time_Sub (t u : Z) : Z := Z.max minInt64 (Z.min maxInt64 (t - u)).

(** [d.Seconds()]: the whole seconds and the rest are converted separately. *)
Definition Seconds (d : Z) : float64 :=
  fadd (float_of (Z.quot d 1000000000)) (fdiv (float_of (Z.rem d 1000000000)) (float_of 1000000000)).

Lemma time_Sub_range t u : minInt64 ≤ time_Sub t u ≤ maxInt64.
Proof. unfold time_Sub, minInt64, maxInt64. lia. Qed.

Lemma time_Sub_exact t u : minInt64 ≤ t - u ≤ maxInt64 → time_Sub t u = t - u.
Proof. unfold time_Sub. lia. Qed.

Example Seconds_half : feq (Seconds 500000000) (fdiv (float_of 1) (float_of 2)) = true.
Proof. reflexivity. Qed.
Example Seconds_negative : feq (Seconds (-2500000000)) (fdiv (float_of (-5)) (float_of 2)) = true.
Proof. reflexivity. Qed.

(** ** The sign of a conversion

    Rounding a positive integer gives a positive float: the shifts of the
    rounding never drop the leading bit. *)

Definition digits (m : Z) : Z := Zdigits2 m.

Lemma digits_pos p : 0 < digits (Z.pos p).
Proof. simpl. lia. Qed.

Lemma shr_1_digits mrs :
  0 ≤ shr_m mrs → 0 ≤ shr_m (shr_1 mrs) ∧ digits (shr_m (shr_1 mrs)) = Z.max 0 (digits (shr_m mrs) - 1).
Proof. destruct mrs as [[|[p|p|]|p] r s]; simpl; intros; (split; [lia|]); unfold digits; simpl; lia. Qed.

Lemma iter_shr_digits p : ∀ mrs, 0 ≤ shr_m mrs →
  0 ≤ shr_m (iter_pos shr_1 p mrs)
  ∧ digits (shr_m (iter_pos shr_1 p mrs)) = Z.max 0 (digits (shr_m mrs) - Z.pos p).
Proof.
  induction p as [p IH|p IH|]; intros mrs H; simpl.
  - destruct (shr_1_digits mrs H) as [H1 D1].
    destruct (IH _ H1) as [H2 D2]. destruct (IH _ H2) as [H3 D3]. split; [done|lia].
  - destruct (IH _ H) as [H2 D2]. destruct (IH _ H2) as [H3 D3]. split; [done|lia].
  - apply shr_1_digits, H.
Qed.

Lemma digits_nonneg m : 0 ≤ m → 0 < digits m → 0 < m.
Proof. destruct m; unfold digits; simpl; lia. Qed.

Lemma shr_fexp_pos m e l :
  0 < m → emin 53 1024 ≤ e →
  0 < shr_m (fst (shr_fexp 53 1024 m e l)) ∧ emin 53 1024 ≤ snd (shr_fexp 53 1024 m e l).
Proof.
  intros Hm He. unfold shr_fexp, fexp. set (n := Z.max _ _ - e).
  assert (shr_m (shr_record_of_loc m l) = m) as E by by destruct l as [|[]].
  assert (0 < digits m) as Hd by (destruct m; [lia|apply digits_pos|lia]).
  assert (n ≤ Z.max 0 (digits m - 53)) as Hn by (unfold n, digits; lia).
  destruct n as [|p|p]; simpl; rewrite ?E; [split; lia| |split; lia].
  destruct (iter_shr_digits p (shr_record_of_loc m l)) as [H1 H2]; [rewrite E; lia|].
  split; [apply digits_nonneg; [done|]; rewrite H2, E; lia|lia].
Qed.

Definition positive_float (f : float64) : Prop :=
  match f with S754_finite false _ _ | S754_infinity false => True | _ => False end.

Definition with_sign (sx : bool) (f : float64) : Prop :=
  match f with S754_finite s _ _ | S754_infinity s => s = sx | _ => False end.

Lemma binary_round_aux_sign sx m e l :
  0 < m → emin 53 1024 ≤ e → with_sign sx (binary_round_aux 53 1024 sx m e l).
Proof.
  intros Hm He. unfold binary_round_aux.
  destruct (shr_fexp_pos m e l Hm He) as [H1 H2]. destruct (shr_fexp 53 1024 m e l) as [mrs e1]. simpl in *.
  assert (0 < round_nearest_even (shr_m mrs) (loc_of_shr_record mrs)) as H3.
  { unfold round_nearest_even. destruct (loc_of_shr_record mrs) as [|[]]; [lia| |lia|lia].
    destruct (Z.even _); lia. }
  destruct (shr_fexp_pos _ e1 loc_Exact H3 H2) as [H4 _].
  destruct (shr_fexp 53 1024 _ e1 loc_Exact) as [mrs2 e2]. simpl in *.
  destruct (shr_m mrs2); [lia| |lia]. by destruct (_ <=? _).
Qed.

Lemma binary_round_sign sx m e : emin 53 1024 ≤ e → with_sign sx (binary_round 53 1024 sx m e).
Proof.
  intros He. unfold binary_round, shl_align.
  set (e' := fexp 53 1024 _). assert (emin 53 1024 ≤ e') as He' by (unfold e', fexp; lia).
  destruct (e' - e); apply binary_round_aux_sign; done.
Qed.

Lemma float_of_sign z :
  match float_of z with
  | S754_zero _ => z = 0
  | S754_finite s _ _ | S754_infinity s => if s then z < 0 else 0 < z
  | S754_nan => False
  end.
Proof.
  assert (emin 53 1024 ≤ 0) as He by done.
  unfold float_of, binary_normalize. destruct z as [|p|p]; [done|..].
  - pose proof (binary_round_sign false p 0 He) as H.
    destruct (binary_round 53 1024 false p 0); simpl in *; try done; subst; lia.
  - pose proof (binary_round_sign true p 0 He) as H.
    destruct (binary_round 53 1024 true p 0); simpl in *; try done; subst; lia.
Qed.

(** [float64(z) <= 0] decides [z <= 0]. *)
Lemma float_of_le_zero z : fle (float_of z) fzero = (z <=? 0).
Proof.
  pose proof (float_of_sign z) as H. destruct (Z.leb_spec z 0);
    destruct (float_of z) as [|[]| |[] ? ?]; try done; try lia.
Qed.

Lemma float_of_not_nan z : float_of z ≠ S754_nan.
Proof. pose proof (float_of_sign z) as H. by destruct (float_of z). Qed.
