(* ===== verification/Ratelimit.v ===== *)
(** * Token buckets ([internal/ratelimit/ratelimit.go])

    [Bucket] is one token bucket; [KeyedLimiter] keeps one per key, at most
    [maxKeys] of them, and gives the least recently used one away when it is
    full.  The map of a [KeyedLimiter] and its LRU list share the bucket objects,
    so the model keeps a heap of buckets: a list element is identified with the
    one bucket it holds. *)

From S2P Require Import Prelude GoFloat.

Open Scope Z_scope.

(** ** One bucket *)

Record Bucket := mkBucket {
  b_rate : float64;
  b_burst : float64;
  b_tokens : float64;
  b_last : Z;
}.

#[export] Instance Bucket_eta : Eta Bucket := fun b =>
  mkBucket (b_rate b) (b_burst b) (b_tokens b) (b_last b).

Definition NewBucket (ratePerSec burst : float64) (now : Z) : Bucket :=
  mkBucket ratePerSec burst burst now.

(** The lazy refill, common to both kinds of bucket: the new balance and the new
    time of refill. *)
Definition refill (rate burst tokens : float64) (last now : Z) : float64 * Z :=
  let elapsed := Seconds (time_Sub now last) in
  if flt fzero elapsed then
    let tokens := fadd tokens (fmul elapsed rate) in
    (if flt burst tokens then burst else tokens, now)
  else (tokens, last).

Definition AllowN (now : Z) (n : float64) (b : Bucket) : bool * Bucket :=
  let '(tokens, last) := refill (b_rate b) (b_burst b) (b_tokens b) (b_last b) now in
  let b := b <| b_tokens := tokens |> <| b_last := last |> in
  if fle n (b_tokens b) then (true, b <| b_tokens := fsub (b_tokens b) n |>) else (false, b).

Definition Allow (now : Z) (b : Bucket) : bool * Bucket := AllowN now (float_of 1) b.

(** ** A bucket per key *)

Record keyedBucket := mkKeyed {
  kb_key : string;
  kb_tokens : float64;
  kb_lastRefill : Z;
  kb_lastSeen : Z;
}.

#[export] Instance keyedBucket_eta : Eta keyedBucket := fun b =>
  mkKeyed (kb_key b) (kb_tokens b) (kb_lastRefill b) (kb_lastSeen b).

Record KeyedLimiter := mkKeyedLimiter {
  k_heap : gmap positive keyedBucket;
  k_next : positive;
  k_buckets : gmap string positive;
  k_lru : list positive;
  k_rate : float64;
  k_burst : float64;
  k_maxKeys : Z;
  k_idleExpiry : Z;
}.

#[export] Instance KeyedLimiter_eta : Eta KeyedLimiter := fun k =>
  mkKeyedLimiter (k_heap k) (k_next k) (k_buckets k) (k_lru k) (k_rate k) (k_burst k)
    (k_maxKeys k) (k_idleExpiry k).

Definition NewKeyedLimiter (ratePerSec burst : float64) (maxKeys idleExpiry : Z) : KeyedLimiter :=
  mkKeyedLimiter ∅ 1 ∅ [] ratePerSec burst maxKeys idleExpiry.

(** [k.lru.MoveToFront], [k.lru.Remove] of an element of the list. *)
Definition remove_elem (e : positive) (l : list positive) : list positive := filter (fun x => x ≠ e) l.
Definition move_front (e : positive) (l : list positive) : list positive := e :: remove_elem e l.

(** [kb = &keyedBucket{...}; kb.element = k.lru.PushFront(kb); k.buckets[key] = kb] *)
Definition new_bucket (now : Z) (key : string) (k : KeyedLimiter) : positive * KeyedLimiter :=
  let p := k_next k in
  (p, k <| k_heap := <[p := mkKeyed key (k_burst k) now now]> (k_heap k) |> <| k_next := Pos.succ p |>
        <| k_lru := p :: k_lru k |> <| k_buckets := <[key := p]> (k_buckets k) |>).

(** The bucket that serves [key], [None] when the limiter has no place at all. *)
Definition bucket_for (now : Z) (key : string) (k : KeyedLimiter) : option (positive * KeyedLimiter) :=
  match k_buckets k !! key with
  | Some p => Some (p, k <| k_lru := move_front p (k_lru k) |>)
  | None =>
      if k_maxKeys k <=? Z.of_nat (size (k_buckets k)) then
        match last (k_lru k) with
        | None => None
        | Some oldest =>
            match k_heap k !! oldest with
            | None => None
            | Some candidate =>
                let k := k <| k_buckets := delete (kb_key candidate) (k_buckets k) |> in
                if time_Sub now (kb_lastSeen candidate) <? k_idleExpiry k then
                  Some (oldest,
                    k <| k_heap := <[oldest := candidate <| kb_key := key |>]> (k_heap k) |>
                      <| k_lru := move_front oldest (k_lru k) |>
                      <| k_buckets := <[key := oldest]> (k_buckets k) |>)
                else Some (new_bucket now key (k <| k_lru := remove_elem oldest (k_lru k) |>))
            end
        end
      else Some (new_bucket now key k)
  end.

(** Refill and take, on the bucket at [p]. *)
Definition take (now : Z) (n : float64) (p : positive) (k : KeyedLimiter) : bool * KeyedLimiter :=
  match k_heap k !! p with
  | None => (false, k)
  | Some kb =>
      let '(tokens, last) := refill (k_rate k) (k_burst k) (kb_tokens kb) (kb_lastRefill kb) now in
      let kb := kb <| kb_lastSeen := now |> <| kb_tokens := tokens |> <| kb_lastRefill := last |> in
      if flt (kb_tokens kb) n
      then (false, k <| k_heap := <[p := kb]> (k_heap k) |>)
      else (true, k <| k_heap := <[p := kb <| kb_tokens := fsub (kb_tokens kb) n |>]> (k_heap k) |>)
  end.

Definition KeyedAllowN (now : Z) (key : string) (n : float64) (k : KeyedLimiter) : bool * KeyedLimiter :=
  match bucket_for now key k with
  | None => (false, k)
  | Some (p, k) => take now n p k
  end.

Definition KeyedAllow (now : Z) (key : string) (k : KeyedLimiter) : bool * KeyedLimiter :=
  KeyedAllowN now key (float_of 1) k.

Definition Len (k : KeyedLimiter) : nat := size (k_buckets k).
