(* ===== verification/RatelimitThms.v ===== *)
(** * What the keyed limiter guarantees

    The table of buckets and the LRU list always describe the same set of buckets,
    at most [maxKeys] of them, the list being ordered by last use.  While no key
    has to be evicted the limiter is observationally a set of independent token
    buckets; when one is, the least recently used key loses its bucket, and a key
    that takes over a bucket still in use inherits its balance. *)

From S2P Require Import Prelude GoFloat Ratelimit.
From Stdlib Require Import Floats.SpecFloat Sorting.Sorted.

Open Scope Z_scope.

(** ** One bucket as the specification *)

(** A request on one bucket, with the test [KeyedLimiter.AllowN] makes. *)
Definition charge (now : Z) (n : float64) (b : Bucket) : bool * Bucket :=
  let '(tokens, last) := refill (b_rate b) (b_burst b) (b_tokens b) (b_last b) now in
  let b := b <| b_tokens := tokens |> <| b_last := last |> in
  if flt (b_tokens b) n then (false, b) else (true, b <| b_tokens := fsub (b_tokens b) n |>).

Lemma SFcompare_swap x y : SFcompare y x = CompOpp <$> SFcompare x y.
Proof.
  destruct x as [[]|[]| |[] m1 e1], y as [[]|[]| |[] m2 e2]; try done; simpl;
    rewrite (Z.compare_antisym e1 e2); destruct (e1 ?= e2)%Z; simpl; try done;
    rewrite (Pos.compare_cont_antisym m1 m2 Eq); simpl; by destruct (Pos.compare_cont Eq m1 m2).
Qed.

Lemma fle_not_flt x y : x ≠ S754_nan → y ≠ S754_nan → fle x y = negb (flt y x).
Proof.
  intros Hx Hy. unfold fle, flt, SFleb, SFltb. rewrite (SFcompare_swap x y).
  destruct (SFcompare x y) as [[]|] eqn:E; try done.
  destruct x as [[]|[]| |[] ? ?], y as [[]|[]| |[] ? ?]; try done; simpl in E; by destruct (_ ?= _)%Z.
Qed.

(** [Bucket.AllowN] makes the same test, unless an operand is NaN. *)
Lemma charge_AllowN now n b :
  n ≠ S754_nan → fst (refill (b_rate b) (b_burst b) (b_tokens b) (b_last b) now) ≠ S754_nan →
  charge now n b = AllowN now n b.
Proof.
  unfold charge, AllowN. destruct (refill _ _ _ _ _) as [t l]. simpl. intros Hn Ht.
  rewrite fle_not_flt by done. by destruct (flt t n).
Qed.

(** ** The invariant *)

Record kl_ok (k : KeyedLimiter) : Prop := {
  kl_nodup : NoDup (k_lru k);
  kl_lru : ∀ p, p ∈ k_lru k ↔ ∃ kb, k_heap k !! p = Some kb ∧ k_buckets k !! kb_key kb = Some p;
  kl_bucket : ∀ key p, k_buckets k !! key = Some p → ∃ kb, k_heap k !! p = Some kb ∧ kb_key kb = key;
  kl_fresh : ∀ p kb, k_heap k !! p = Some kb → (p < k_next k)%positive;
  kl_size : Z.of_nat (size (k_buckets k)) ≤ Z.max 0 (k_maxKeys k);
}.

(** The bucket of a key, and its reading as a bucket of its own. *)
Definition bucket_of (k : KeyedLimiter) (key : string) : option keyedBucket :=
  p ← k_buckets k !! key; k_heap k !! p.

Definition as_bucket (k : KeyedLimiter) (kb : keyedBucket) : Bucket :=
  mkBucket (k_rate k) (k_burst k) (kb_tokens kb) (kb_lastRefill kb).

Definition view (k : KeyedLimiter) (key : string) : option Bucket := as_bucket k <$> bucket_of k key.

Lemma elem_remove p q l : q ∈ remove_elem p l ↔ q ∈ l ∧ q ≠ p.
Proof. unfold remove_elem. rewrite list_elem_of_filter. naive_solver. Qed.

Lemma NoDup_remove_elem p l : NoDup l → NoDup (remove_elem p l).
Proof. apply NoDup_filter. Qed.

Lemma NoDup_move_front p l : NoDup l → NoDup (move_front p l).
Proof.
  intros H. apply NoDup_cons. split; [|by apply NoDup_remove_elem].
  rewrite elem_remove. naive_solver.
Qed.

Lemma listed_bucket k p : kl_ok k → p ∈ k_lru k →
  ∃ kb, k_heap k !! p = Some kb ∧ k_buckets k !! kb_key kb = Some p.
Proof. intros K. apply (kl_lru _ K). Qed.

Lemma bucket_listed k key p : kl_ok k → k_buckets k !! key = Some p → p ∈ k_lru k.
Proof.
  intros K Hk. destruct (kl_bucket _ K key p Hk) as (kb & Hp & E). apply (kl_lru _ K). subst. eauto.
Qed.

(** No two keys share a bucket. *)
Lemma bucket_inj k key1 key2 p :
  kl_ok k → k_buckets k !! key1 = Some p → k_buckets k !! key2 = Some p → key1 = key2.
Proof.
  intros K H1 H2. destruct (kl_bucket _ K _ _ H1) as (? & ? & ?), (kl_bucket _ K _ _ H2) as (? & ? & ?).
  congruence.
Qed.

(** What is served after the choice of the bucket: [p] at the front of the list,
    bound to [key], with the given balance; the other keys as they were, the
    evicted one apart. *)
Record served (key : string) (tokens : float64) (last : Z) (evicted : option string)
  (k : KeyedLimiter) (p : positive) (k' : KeyedLimiter) : Prop := {
  sd_ok : kl_ok k';
  sd_bound : ∃ seen, k_heap k' !! p = Some (mkKeyed key tokens last seen);
  sd_key : k_buckets k' !! key = Some p;
  sd_order : ∃ rest, k_lru k' = p :: rest ∧ rest `sublist_of` k_lru k;
  sd_frame : ∀ key', key' ≠ key → bucket_of k' key' =
    if bool_decide (evicted = Some key') then None else bucket_of k key';
  sd_same : ∀ q, q ≠ p → k_heap k' !! q = k_heap k !! q;
  sd_cfg : k_rate k' = k_rate k ∧ k_burst k' = k_burst k ∧ k_maxKeys k' = k_maxKeys k
    ∧ k_idleExpiry k' = k_idleExpiry k;
}.

Lemma sublist_remove_elem p l : remove_elem p l `sublist_of` l.
Proof. apply sublist_filter. Qed.

(** The three ways a key gets its bucket. *)
Lemma served_hit k key p kb :
  kl_ok k → k_buckets k !! key = Some p → k_heap k !! p = Some kb →
  served key (kb_tokens kb) (kb_lastRefill kb) None k p (k <| k_lru := move_front p (k_lru k) |>).
Proof.
  intros K Hk Hp. pose proof (bucket_listed k key p K Hk) as Hin.
  destruct (kl_bucket _ K key p Hk) as (kb' & Hp' & E). rewrite Hp in Hp'. injection Hp' as <-.
  constructor; simpl; try done.
  - constructor; simpl; try apply K.
    + apply NoDup_move_front, K.
    + intros q. rewrite <- (kl_lru _ K q). unfold move_front. rewrite elem_of_cons, elem_remove.
      destruct (decide (q = p)) as [->|]; naive_solver.
  - exists (kb_lastSeen kb). rewrite Hp, <- E. by destruct kb.
  - eexists. split; [done|apply sublist_remove_elem].
Qed.

Lemma served_new k key now :
  kl_ok k → k_buckets k !! key = None → Z.of_nat (size (k_buckets k)) < k_maxKeys k →
  served key (k_burst k) now None k (fst (new_bucket now key k)) (snd (new_bucket now key k)).
Proof.
  intros K Hk Hroom. unfold new_bucket. simpl. set (p := k_next k).
  assert (k_heap k !! p = None) as Hnone.
  { destruct (k_heap k !! p) as [kb|] eqn:E; [|done]. pose proof (kl_fresh _ K p kb E). lia. }
  assert (∀ key', k_buckets k !! key' ≠ Some p) as Hfresh.
  { intros key' E. destruct (kl_bucket _ K key' p E) as (? & ? & _). congruence. }
  constructor; simpl; try done.
  - constructor; simpl.
    + apply NoDup_cons. split; [|apply K]. rewrite (kl_lru _ K). naive_solver.
    + intros q. rewrite elem_of_cons, (kl_lru _ K q). split.
      * intros [->|(kb & Hq & Hb)].
        -- exists (mkKeyed key (k_burst k) now now). by rewrite !lookup_insert_eq.
        -- exists kb. rewrite !lookup_insert_ne; [done|congruence|congruence].
      * intros (kb & [[<- <-]|[Hne Hq]]%lookup_insert_Some & Hb); [by left|right].
        exists kb. split; [done|]. apply lookup_insert_Some in Hb as [[? ?]|[? ?]]; [congruence|done].
    + intros key' q [[<- <-]|[Hne Hb]]%lookup_insert_Some.
      * exists (mkKeyed key (k_burst k) now now). by rewrite lookup_insert_eq.
      * destruct (kl_bucket _ K key' q Hb) as (kb & Hq & E). exists kb.
        rewrite lookup_insert_ne by congruence. done.
    + intros q kb [[<- _]|[_ Hq]]%lookup_insert_Some; [lia|]. pose proof (kl_fresh _ K q kb Hq). lia.
    + rewrite map_size_insert_None by done. lia.
  - exists now. apply lookup_insert_eq.
  - apply lookup_insert_eq.
  - eexists. split; done.
  - intros key' Hne. unfold bucket_of. simpl. rewrite lookup_insert_ne by done.
    destruct (k_buckets k !! key') as [q|] eqn:E; simpl; [|done]. rewrite lookup_insert_ne by congruence. done.
  - intros q Hne. by rewrite lookup_insert_ne.
Qed.

(** The eviction of the bucket at [p]. *)
Definition evict (p : positive) (kb : keyedBucket) (k : KeyedLimiter) : KeyedLimiter :=
  k <| k_buckets := delete (kb_key kb) (k_buckets k) |> <| k_lru := remove_elem p (k_lru k) |>.

Lemma evict_ok k p kb :
  kl_ok k → k_heap k !! p = Some kb → k_buckets k !! kb_key kb = Some p →
  kl_ok (evict p kb k)
  ∧ (∀ key', bucket_of (evict p kb k) key' = if bool_decide (Some (kb_key kb) = Some key') then None else bucket_of k key')
  ∧ size (k_buckets k) = S (size (k_buckets (evict p kb k))).
Proof.
  intros K Hp Hk. split_and!.
  - constructor; simpl; try apply K.
    + by apply NoDup_remove_elem, K.
    + intros q. rewrite elem_remove, (kl_lru _ K q). split.
      * intros [(kb' & Hq & Hb) Hne]. exists kb'. rewrite lookup_delete_ne; [done|]. congruence.
      * intros (kb' & Hq & [Hne Hb]%lookup_delete_Some). split; [eauto|]. congruence.
    + intros key' q [Hne Hb]%lookup_delete_Some. apply (kl_bucket _ K key' q Hb).
    + pose proof (kl_size _ K) as Hs. rewrite <- (insert_delete_id _ _ _ Hk) in Hs.
      rewrite map_size_insert_None in Hs by apply lookup_delete_eq. lia.
  - intros key'. unfold bucket_of. simpl. case_bool_decide as E; simplify_eq.
    + by rewrite lookup_delete_eq.
    + rewrite lookup_delete_ne by congruence. done.
  - simpl. rewrite <- (insert_delete_id _ _ _ Hk) at 1.
    by rewrite map_size_insert_None by apply lookup_delete_eq.
Qed.

Lemma served_inherit k key p kb :
  kl_ok k → k_heap k !! p = Some kb → k_buckets k !! kb_key kb = Some p → k_buckets k !! key = None →
  served key (kb_tokens kb) (kb_lastRefill kb) (Some (kb_key kb)) k p
    (k <| k_buckets := <[key := p]> (delete (kb_key kb) (k_buckets k)) |>
       <| k_heap := <[p := kb <| kb_key := key |>]> (k_heap k) |> <| k_lru := move_front p (k_lru k) |>).
Proof.
  intros K Hp Hk Hnew. destruct (evict_ok k p kb K Hp Hk) as (K1 & _ & Hsz). simpl in Hsz.
  assert (kb_key kb ≠ key) as Hne by congruence.
  assert (∀ key' q, delete (kb_key kb) (k_buckets k) !! key' = Some q → q ≠ p ∧ k_buckets k !! key' = Some q) as Hother.
  { intros key' q [Hd Hq]%lookup_delete_Some. split; [|done]. intros ->. apply Hd.
    by apply (bucket_inj k (kb_key kb) key' p). }
  constructor; simpl; try done.
  - constructor; simpl.
    + apply NoDup_move_front, K.
    + intros q. unfold move_front. rewrite elem_of_cons.
      assert (q ∈ remove_elem p (k_lru k) ↔ q ∈ k_lru (evict p kb k)) as -> by done.
      rewrite (kl_lru _ K1 q). simpl. split.
      * intros [->|(kb' & Hq & Hb)].
        -- exists (kb <| kb_key := key |>). by rewrite !lookup_insert_eq.
        -- pose proof (Hother _ _ Hb) as [? ?]. exists kb'. rewrite !lookup_insert_ne by congruence. done.
      * intros (kb' & [[<- <-]|[? Hq]]%lookup_insert_Some & Hb); [by left|right].
        exists kb'. split; [done|]. apply lookup_insert_Some in Hb as [[? ?]|[? ?]]; [congruence|done].
    + intros key' q [[<- <-]|[? Hb]]%lookup_insert_Some.
      * eexists. by rewrite lookup_insert_eq.
      * pose proof (Hother _ _ Hb) as [? Hb']. destruct (kl_bucket _ K key' q Hb') as (kb' & ? & ?).
        exists kb'. by rewrite lookup_insert_ne by congruence.
    + intros q kb' [[<- _]|[_ Hq]]%lookup_insert_Some; [by apply (kl_fresh _ K p kb)|by apply (kl_fresh _ K q kb')].
    + rewrite map_size_insert_None by (rewrite lookup_delete_ne by done; done).
      pose proof (kl_size _ K). lia.
  - exists (kb_lastSeen kb). rewrite lookup_insert_eq. by destruct kb.
  - apply lookup_insert_eq.
  - eexists. split; [done|apply sublist_remove_elem].
  - intros key' Hkey. unfold bucket_of. simpl. rewrite lookup_insert_ne by done.
    case_bool_decide as E; simplify_eq; [by rewrite lookup_delete_eq|].
    rewrite lookup_delete_ne by congruence. destruct (k_buckets k !! key') as [q|] eqn:Eq; simpl; [|done].
    rewrite lookup_insert_ne; [done|]. intros ->. apply E. f_equal. by apply (bucket_inj k _ _ q K).
  - intros q Hq. by rewrite lookup_insert_ne.
Qed.

(** The victim of an eviction: the last element of the LRU list. *)
Definition victim (k : KeyedLimiter) : option keyedBucket := p ← last (k_lru k); k_heap k !! p.

(** The balance a key starts from. *)
Definition base (now : Z) (key : string) (k : KeyedLimiter) : option (float64 * Z * option string) :=
  match bucket_of k key with
  | Some kb => Some (kb_tokens kb, kb_lastRefill kb, None)
  | None =>
      if Z.of_nat (size (k_buckets k)) <? k_maxKeys k then Some (k_burst k, now, None)
      else match victim k with
           | None => None
           | Some v =>
               if time_Sub now (kb_lastSeen v) <? k_idleExpiry k
               then Some (kb_tokens v, kb_lastRefill v, Some (kb_key v))
               else Some (k_burst k, now, Some (kb_key v))
           end
  end.

Lemma bucket_of_None k key : kl_ok k → bucket_of k key = None ↔ k_buckets k !! key = None.
Proof.
  intros K. unfold bucket_of. destruct (k_buckets k !! key) as [p|] eqn:E; simpl; [|done].
  destruct (kl_bucket _ K key p E) as (kb & -> & _). done.
Qed.

Lemma bucket_for_spec now key k :
  kl_ok k →
  match base now key k with
  | None => bucket_for now key k = None
  | Some (tokens, last, ev) =>
      ∃ p k', bucket_for now key k = Some (p, k') ∧ served key tokens last ev k p k'
  end.
Proof.
  intros K. unfold base, bucket_for.
  destruct (bucket_of k key) as [kb|] eqn:Hb.
  - unfold bucket_of in Hb. destruct (k_buckets k !! key) as [p|] eqn:Hk; [|done]. simpl in Hb.
    do 2 eexists. split; [done|]. by apply served_hit.
  - apply bucket_of_None in Hb as Hk; [|done]. rewrite Hk.
    destruct (Z.ltb_spec (Z.of_nat (size (k_buckets k))) (k_maxKeys k)) as [Hroom|Hfull].
    + rewrite (proj2 (Z.leb_gt _ _)) by done. do 2 eexists. split; [apply f_equal, surjective_pairing|].
      by apply served_new.
    + rewrite (proj2 (Z.leb_le _ _)) by done. unfold victim.
      destruct (last (k_lru k)) as [p|] eqn:Hlast; simpl; [|done].
      assert (p ∈ k_lru k) as Hin by (by apply last_Some_elem_of).
      destruct (listed_bucket k p K Hin) as (kb & Hp & Hkb). rewrite Hp.
      destruct (_ <? k_idleExpiry k).
      * do 2 eexists. split; [done|]. by apply served_inherit.
      * destruct (evict_ok k p kb K Hp Hkb) as (K1 & Hview & Hsz).
        assert (kb_key kb ≠ key) as Hne by congruence.
        pose proof (served_new (evict p kb k) key now K1) as Hserved.
        destruct Hserved as [So Sb Sk (rest & Er & Hr) Sf Ss Sc].
        { simpl. by rewrite lookup_delete_ne. }
        { pose proof (kl_size _ K). simpl in *. lia. }
        do 2 eexists. split; [apply f_equal, surjective_pairing|]. constructor; try done.
        -- exists rest. split; [done|]. etrans; [exact Hr|apply sublist_remove_elem].
        -- intros key' Hkey. etrans; [by apply (Sf key')|]. simpl. by rewrite (Hview key').
Qed.

(** ** A request *)

Definition same_config (k k' : KeyedLimiter) : Prop :=
  k_rate k' = k_rate k ∧ k_burst k' = k_burst k ∧ k_maxKeys k' = k_maxKeys k ∧ k_idleExpiry k' = k_idleExpiry k.

(** The effect of a request that was given a bucket. *)
Record requested (now : Z) (key : string) (evicted : option string) (b : Bucket)
  (k k' : KeyedLimiter) : Prop := {
  rq_ok : kl_ok k';
  rq_cfg : same_config k k';
  rq_view : view k' key = Some b;
  rq_frame : ∀ key', key' ≠ key → bucket_of k' key' =
    if bool_decide (evicted = Some key') then None else bucket_of k key';
  rq_lru : ∃ p rest kb, k_lru k' = p :: rest ∧ rest `sublist_of` k_lru k
    ∧ k_heap k' !! p = Some kb ∧ kb_lastSeen kb = now ∧ ∀ q, q ≠ p → k_heap k' !! q = k_heap k !! q;
}.

Lemma kl_ok_write k p kb kb' :
  kl_ok k → k_heap k !! p = Some kb → kb_key kb' = kb_key kb →
  kl_ok (k <| k_heap := <[p := kb']> (k_heap k) |>).
Proof.
  intros K Hp E. constructor; simpl; try apply K.
  - intros q. rewrite (kl_lru _ K q). destruct (decide (q = p)) as [->|Hne].
    + rewrite lookup_insert_eq, Hp. split; intros (? & [= <-] & ?); [rewrite <- E in *|rewrite E in *]; eauto.
    + by rewrite lookup_insert_ne.
  - intros key q Hk. destruct (kl_bucket _ K key q Hk) as (kb0 & Hq & E0).
    destruct (decide (q = p)) as [->|Hne]; [rewrite lookup_insert_eq|rewrite lookup_insert_ne by done; eauto].
    exists kb'. split; [done|congruence].
  - intros q kb0 [[<- _]|[_ Hq]]%lookup_insert_Some; eauto using kl_fresh.
Qed.

Lemma requested_write now key ev b k p k1 tokens last t' l' :
  served key tokens last ev k p k1 → b = mkBucket (k_rate k) (k_burst k) t' l' →
  requested now key ev b k (k1 <| k_heap := <[p := mkKeyed key t' l' now]> (k_heap k1) |>).
Proof.
  intros [So (seen & Sb) Sk (rest & Er & Hr) Sf Ss (C1 & C2 & C3 & C4)] ->. constructor.
  - by eapply kl_ok_write.
  - by split_and!.
  - unfold view, bucket_of. simpl. rewrite Sk. simpl. rewrite lookup_insert_eq. simpl.
    unfold as_bucket. simpl. by rewrite C1, C2.
  - intros key' Hne. rewrite <- (Sf key' Hne). unfold bucket_of. simpl.
    destruct (k_buckets k1 !! key') as [q|] eqn:E; simpl; [|done].
    rewrite lookup_insert_ne; [done|]. intros ->. apply Hne. by apply (bucket_inj k1 _ _ q So).
  - exists p, rest. eexists. simpl. rewrite lookup_insert_eq. split_and!; [done..|].
    intros q Hq. rewrite lookup_insert_ne by done. by apply Ss.
Qed.

Lemma KeyedAllowN_spec now key n k :
  kl_ok k →
  match base now key k with
  | None => KeyedAllowN now key n k = (false, k)
  | Some (tokens, last, ev) =>
      ∃ r b k', charge now n (mkBucket (k_rate k) (k_burst k) tokens last) = (r, b)
        ∧ KeyedAllowN now key n k = (r, k') ∧ requested now key ev b k k'
  end.
Proof.
  intros K. pose proof (bucket_for_spec now key k K) as H. unfold KeyedAllowN.
  destruct (base now key k) as [[[tokens last] ev]|]; [|by rewrite H].
  destruct H as (p & k1 & -> & S). pose proof S as [_ (seen & Hp) _ _ _ _ (C1 & C2 & _)].
  unfold take, charge. rewrite Hp. simpl. rewrite C1, C2.
  destruct (refill (k_rate k) (k_burst k) tokens last now) as [t l]. simpl.
  destruct (flt t n); do 3 eexists; (split; [done|]); (split; [done|]);
    by eapply requested_write.
Qed.

(** ** The order of the list *)

(** Most recently used first, nothing used after [now]. *)
Definition newer (k : KeyedLimiter) (p q : positive) : Prop :=
  ∀ a b, k_heap k !! p = Some a → k_heap k !! q = Some b → kb_lastSeen b ≤ kb_lastSeen a.

Definition by_use (now : Z) (k : KeyedLimiter) : Prop :=
  StronglySorted (newer k) (k_lru k)
  ∧ ∀ p a, p ∈ k_lru k → k_heap k !! p = Some a → kb_lastSeen a ≤ now.

Lemma StronglySorted_sublist {A : Type} (R : A → A → Prop) l1 l2 :
  l1 `sublist_of` l2 → StronglySorted R l2 → StronglySorted R l1.
Proof.
  induction 1 as [|x l1 l2 Hs IH|x l1 l2 Hs IH]; intros Hl; [done|..]; inversion Hl; subst; [|auto].
  constructor; [auto|]. rewrite List.Forall_forall in *. intros y Hy. apply H2.
  apply list_elem_of_In. eapply elem_of_sublist; [by apply list_elem_of_In|done].
Qed.

Lemma by_use_requested t now key ev b k k' :
  kl_ok k → t ≤ now → by_use t k → requested now key ev b k k' → by_use now k'.
Proof.
  intros K Ht [Hs Hb] [So _ _ _ (p & rest & kb & El & Hsub & Hp & Hseen & Hframe)].
  assert (∀ q, q ∈ rest → q ≠ p ∧ q ∈ k_lru k) as Hrest.
  { intros q Hq. split; [|by eapply elem_of_sublist]. intros ->.
    pose proof (kl_nodup _ So) as Hnd. rewrite El in Hnd. by apply NoDup_cons in Hnd as [? _]. }
  assert (∀ q a, q ∈ rest → k_heap k' !! q = Some a → kb_lastSeen a ≤ t) as Hold.
  { intros q a Hq Ha. destruct (Hrest q Hq) as [Hne Hin]. rewrite Hframe in Ha by done. by apply (Hb q). }
  unfold by_use. rewrite El. split.
  - constructor.
    + pose proof (StronglySorted_sublist _ _ _ Hsub Hs) as Hsr. clear Hsub El Hold.
      induction Hsr as [|q rest Hsr IH Hall]; [constructor|]. constructor.
      * apply IH. intros x Hx. apply Hrest. by right.
      * rewrite List.Forall_forall in *. intros x Hx a c Ha Hc.
        rewrite Hframe in Ha by (apply Hrest; by left).
        rewrite Hframe in Hc by (apply Hrest; right; by apply list_elem_of_In). by apply (Hall x Hx).
    + rewrite List.Forall_forall. intros q Hq%list_elem_of_In a c Ha Hc. simplify_eq.
      pose proof (Hold q c Hq Hc). lia.
  - intros q a [->|Hq]%elem_of_cons Ha; [simplify_eq; lia|]. pose proof (Hold q a Hq Ha). lia.
Qed.

(** ** Runs *)

Record request := mkRequest { rq_now : Z; rq_key : string; rq_cost : float64 }.

Fixpoint requests (l : list request) (k : KeyedLimiter) : list bool * KeyedLimiter :=
  match l with
  | [] => ([], k)
  | r :: l =>
      let '(b, k) := KeyedAllowN (rq_now r) (rq_key r) (rq_cost r) k in
      let '(bs, k) := requests l k in (b :: bs, k)
  end.

(** Times do not go back. *)
Fixpoint timely (t : Z) (l : list request) : Prop :=
  match l with [] => True | r :: l => t ≤ rq_now r ∧ timely (rq_now r) l end.

Lemma NewKeyedLimiter_ok rate burst maxKeys idle : kl_ok (NewKeyedLimiter rate burst maxKeys idle).
Proof.
  constructor; simpl.
  - constructor.
  - intros p. split; [by intros ?%not_elem_of_nil|]. intros (? & []%lookup_empty_Some & _).
  - by intros ? ? []%lookup_empty_Some.
  - by intros ? ? []%lookup_empty_Some.
  - rewrite map_size_empty. lia.
Qed.

Lemma same_config_trans k1 k2 k3 : same_config k1 k2 → same_config k2 k3 → same_config k1 k3.
Proof. unfold same_config. intuition congruence. Qed.

Lemma KeyedAllowN_keeps t now key n k r k' :
  t ≤ now → kl_ok k → by_use t k → KeyedAllowN now key n k = (r, k') →
  kl_ok k' ∧ by_use now k' ∧ same_config k k'.
Proof.
  intros Ht K U E. pose proof (KeyedAllowN_spec now key n k K) as H.
  destruct (base now key k) as [[[tokens last] ev]|].
  - destruct H as (r2 & b & k2 & _ & E2 & Hreq). rewrite E in E2. injection E2 as <- <-.
    split_and!; [apply Hreq|by eapply by_use_requested|apply Hreq].
  - rewrite E in H. injection H as -> ->. destruct U as [U1 U2].
    split_and!; [done|split; [done|]|done]. intros p a Hp Ha. specialize (U2 p a Hp Ha). lia.
Qed.

Lemma requests_keep l : ∀ t k bs k',
  kl_ok k → by_use t k → timely t l → requests l k = (bs, k') →
  kl_ok k' ∧ same_config k k' ∧ ∃ t', by_use t' k'.
Proof.
  induction l as [|r l IH]; intros t k bs k' K U Ht; simpl.
  { intros [= <- <-]. split_and!; [done|done|eauto]. }
  destruct Ht as [Ht Hl]. destruct (KeyedAllowN _ _ _ k) as [b1 k1] eqn:E1.
  destruct (requests l k1) as [bs2 k2] eqn:E2. intros [= <- <-].
  destruct (KeyedAllowN_keeps _ _ _ _ _ _ _ Ht K U E1) as (K1 & U1 & C1).
  destruct (IH _ _ _ _ K1 U1 Hl E2) as (? & ? & ?). eauto using same_config_trans.
Qed.

Lemma lru_length k : kl_ok k → length (k_lru k) = Len k.
Proof.
  intros K. unfold Len. rewrite <- length_map_to_list, <- (length_fmap snd).
  apply Permutation_length, NoDup_Permutation; [apply K| |].
  - apply NoDup_fmap_2_strong; [|apply NoDup_map_to_list].
    intros [k1 p1] [k2 p2] H1%elem_of_map_to_list H2%elem_of_map_to_list E. simpl in E. subst.
    f_equal. by apply (bucket_inj k k1 k2 p2).
  - intros p. rewrite list_elem_of_fmap. split.
    + intros (kb & Hp & Hk)%(listed_bucket k p K). exists (kb_key kb, p). split; [done|].
      by apply elem_of_map_to_list.
    + intros ([key q] & -> & Hq%elem_of_map_to_list). by apply (bucket_listed k key).
Qed.

(** A limiter some history of requests, in the order of time, leads to. *)
Definition limiter_reachable (k : KeyedLimiter) : Prop :=
  ∃ rate burst maxKeys idle t l bs,
    timely t l ∧ requests l (NewKeyedLimiter rate burst maxKeys idle) = (bs, k).

Lemma reachable_keeps k : limiter_reachable k → kl_ok k ∧ ∃ t, by_use t k.
Proof.
  intros (rate & burst & maxKeys & idle & t & l & bs & Ht & E).
  pose proof (NewKeyedLimiter_ok rate burst maxKeys idle) as K.
  assert (by_use t (NewKeyedLimiter rate burst maxKeys idle)) as U.
  { split; [constructor|by intros p a ?%not_elem_of_nil]. }
  destruct (requests_keep l t _ _ _ K U Ht E) as (? & _ & ?). done.
Qed.

Lemma victim_oldest k v : kl_ok k → (∃ t, by_use t k) → victim k = Some v →
  k_buckets k !! kb_key v ≠ None ∧ bucket_of k (kb_key v) = Some v
  ∧ ∀ key b, bucket_of k key = Some b → kb_lastSeen v ≤ kb_lastSeen b.
Proof.
  intros K [t [Hs _]]. unfold victim. destruct (last (k_lru k)) as [p|] eqn:Hlast; [|done]. simpl.
  intros Hp. assert (p ∈ k_lru k) as Hin by (by apply last_Some_elem_of).
  destruct (listed_bucket k p K Hin) as (kb & Hp' & Hkb). simplify_eq.
  unfold bucket_of. rewrite Hkb. simpl. split_and!; [done|done|]. intros key b.
  destruct (k_buckets k !! key) as [q|] eqn:Hq; simpl; [|done]. intros Hb.
  pose proof (bucket_listed k key q K Hq) as Hinq.
  apply last_Some in Hlast as [l El]. rewrite El in *.
  destruct (decide (q = p)) as [->|Hne]; [simplify_eq; lia|].
  apply elem_of_app in Hinq as [Hinl|Hx%list_elem_of_singleton]; [|done].
  apply list_elem_of_split in Hinl as (l1 & l2 & ->). rewrite <- app_assoc in Hs.
  assert (StronglySorted (newer k) (q :: l2 ++ [p])) as Hq2.
  { eapply StronglySorted_sublist; [|exact Hs]. apply sublist_inserts_l. done. }
  inversion Hq2 as [|? ? _ Hall]; subst. rewrite List.Forall_forall in Hall.
  apply (Hall p); [|done|done]. apply List.in_or_app. right. by left.
Qed.

(** Memory is bounded and the victim is right: however many keys ask, and in
    whatever order, a limiter never holds more than [maxKeys] buckets, its LRU list
    names exactly the buckets of the table, and the bucket it would give away is
    the least recently used of all. *)
Theorem keyed_limiter_bounded (k : KeyedLimiter) :
  limiter_reachable k →
  Z.of_nat (Len k) ≤ Z.max 0 (k_maxKeys k)
  ∧ NoDup (k_lru k) ∧ length (k_lru k) = Len k
  ∧ (∀ key p, k_buckets k !! key = Some p →
       p ∈ k_lru k ∧ ∃ b, k_heap k !! p = Some b ∧ kb_key b = key)
  ∧ (∀ v key b, victim k = Some v → bucket_of k key = Some b → kb_lastSeen v ≤ kb_lastSeen b).
Proof.
  intros [K U]%reachable_keeps. split_and!.
  - apply (kl_size _ K).
  - apply (kl_nodup _ K).
  - by apply lru_length.
  - intros key p Hp. split; [by apply (bucket_listed k key)|by apply (kl_bucket _ K)].
  - intros v key b Hv Hb. destruct (victim_oldest k v K U Hv) as (_ & _ & H). eauto.
Qed.

(** Rotating keys does not mint tokens.  A key the table does not know, asking
    when the table is full, is served from the bucket of the least recently used
    key, which is forgotten: if that bucket was in use within the idle time the
    newcomer inherits its balance and its time of refill, else it gets a full
    bucket of its own.  Every other key keeps its bucket. *)
Theorem full_limiter_recycles (k : KeyedLimiter) (now : Z) (key : string) (n : float64) :
  limiter_reachable k → bucket_of k key = None → 0 < k_maxKeys k → k_maxKeys k ≤ Z.of_nat (Len k) →
  ∃ v r b k', victim k = Some v ∧ kb_key v ≠ key
    ∧ charge now n (if time_Sub now (kb_lastSeen v) <? k_idleExpiry k
                    then as_bucket k v else NewBucket (k_rate k) (k_burst k) now) = (r, b)
    ∧ KeyedAllowN now key n k = (r, k')
    ∧ view k' key = Some b ∧ view k' (kb_key v) = None
    ∧ ∀ key', key' ≠ key → key' ≠ kb_key v → bucket_of k' key' = bucket_of k key'.
Proof.
  intros [K U]%reachable_keeps Hkey Hpos Hfull.
  pose proof (KeyedAllowN_spec now key n k K) as H. unfold base in H. rewrite Hkey in H.
  rewrite (proj2 (Z.ltb_ge _ _)) in H by done.
  destruct (victim k) as [v|] eqn:Hv.
  2:{ exfalso. unfold victim in Hv. pose proof (lru_length k K) as Hlen.
      destruct (last (k_lru k)) as [p|] eqn:Hlast; simpl in Hv.
      - assert (p ∈ k_lru k) as Hin by (by apply last_Some_elem_of).
        destruct (listed_bucket k p K Hin) as (? & ? & _). congruence.
      - apply last_None in Hlast. rewrite Hlast in Hlen. simpl in Hlen. lia. }
  destruct (victim_oldest k v K U Hv) as (_ & Hbv & _).
  assert (kb_key v ≠ key) as Hne by congruence.
  exists v. unfold NewBucket, as_bucket.
  destruct (_ <? k_idleExpiry k); destruct H as (r & b & k' & Hc & E & Hreq);
    exists r, b, k'; (split_and!; [done..|apply Hreq| |]).
  all: try (intros key' H1 H2; rewrite (rq_frame _ _ _ _ _ _ Hreq key' H1), bool_decide_false; congruence).
  all: unfold view; rewrite (rq_frame _ _ _ _ _ _ Hreq) by done; by rewrite bool_decide_true.
Qed.

(** ** Refinement of independent buckets *)

Definition spec_allow (rate burst : float64) (r : request) (m : gmap string Bucket)
  : bool * gmap string Bucket :=
  let b := default (NewBucket rate burst (rq_now r)) (m !! rq_key r) in
  let '(ok, b) := charge (rq_now r) (rq_cost r) b in
  (ok, <[rq_key r := b]> m).

Fixpoint spec_requests (rate burst : float64) (l : list request) (m : gmap string Bucket) : list bool :=
  match l with
  | [] => []
  | r :: l => let '(ok, m) := spec_allow rate burst r m in ok :: spec_requests rate burst l m
  end.

(** The limiter has no other bucket than the specification, and the same. *)
Definition simulates (k : KeyedLimiter) (m : gmap string Bucket) : Prop :=
  kl_ok k ∧ ∀ key, view k key = m !! key.

Lemma simulates_step k m r (keys : gset string) :
  simulates k m → dom m ⊆ keys → rq_key r ∈ keys → Z.of_nat (size keys) ≤ k_maxKeys k →
  ∃ k', KeyedAllowN (rq_now r) (rq_key r) (rq_cost r) k
        = ((spec_allow (k_rate k) (k_burst k) r m).1, k')
    ∧ simulates k' (spec_allow (k_rate k) (k_burst k) r m).2 ∧ same_config k k'.
Proof.
  intros [K V] Hdom Hkey Hroom. set (key := rq_key r) in *.
  pose proof (KeyedAllowN_spec (rq_now r) key (rq_cost r) k K) as H.
  assert (dom (k_buckets k) = dom m) as Edom.
  { apply set_eq. intros x. rewrite !elem_of_dom, <- V. unfold view, bucket_of.
    destruct (k_buckets k !! x) as [p|] eqn:E; simpl; [|by rewrite !is_Some_alt].
    destruct (kl_bucket _ K x p E) as (kb & -> & _). simpl. by rewrite !is_Some_alt. }
  assert (base (rq_now r) key k =
    (let b := default (NewBucket (k_rate k) (k_burst k) (rq_now r)) (m !! key) in
     Some (b_tokens b, b_last b, None))
    ∧ (let b := default (NewBucket (k_rate k) (k_burst k) (rq_now r)) (m !! key) in
       b = mkBucket (k_rate k) (k_burst k) (b_tokens b) (b_last b))) as [Eb Eb2].
  { unfold base. rewrite <- V. unfold view. destruct (bucket_of k key) as [kb|] eqn:Hb; [done|]. simpl.
    apply bucket_of_None in Hb as Hnone; [|done].
    assert (S (size (k_buckets k)) ≤ size keys)%nat as Hsz.
    { rewrite <- size_dom, Edom.
      assert (size (dom m ∪ {[key]}) ≤ size keys)%nat as Hle by (apply subseteq_size; set_solver).
      rewrite size_union, size_singleton in Hle; [lia|].
      rewrite <- Edom. apply disjoint_singleton_r. by apply not_elem_of_dom. }
    by rewrite (proj2 (Z.ltb_lt _ _)) by lia. }
  rewrite Eb in H. simpl in H, Eb2. destruct H as (ok & b & k' & Hc & E & Hreq).
  unfold spec_allow. fold key. rewrite Eb2, Hc. simpl. exists k'. rewrite E.
  split_and!; [done| |apply Hreq]. split; [apply Hreq|]. intros x.
  destruct (decide (x = key)) as [->|Hne]; [by rewrite lookup_insert_eq, (rq_view _ _ _ _ _ _ Hreq)|].
  rewrite lookup_insert_ne by done. rewrite <- V. unfold view.
  rewrite (rq_frame _ _ _ _ _ _ Hreq x Hne). simpl. unfold as_bucket.
  by destruct (rq_cfg _ _ _ _ _ _ Hreq) as (-> & -> & _).
Qed.

Lemma simulates_requests l : ∀ k m (keys : gset string),
  simulates k m → dom m ⊆ keys → list_to_set (map rq_key l) ⊆ keys →
  Z.of_nat (size keys) ≤ k_maxKeys k →
  (requests l k).1 = spec_requests (k_rate k) (k_burst k) l m.
Proof.
  induction l as [|r l IH]; intros k m keys S Hdom Hl Hroom; [done|]. simpl in *.
  destruct (simulates_step k m r keys S Hdom ltac:(set_solver) Hroom) as (k' & -> & S' & C).
  destruct (spec_allow (k_rate k) (k_burst k) r m) as [ok m'] eqn:Es. simpl in *.
  assert (dom m' ⊆ keys) as Hdom'.
  { unfold spec_allow in Es. destruct (charge _ _ _). injection Es as _ <-. set_solver. }
  destruct C as (C1 & C2 & C3 & _). rewrite <- C1, <- C2.
  rewrite <- (IH k' m' keys S' Hdom') by (set_solver || by rewrite C3).
  by destruct (requests l k').
Qed.

(** As long as no key has to be evicted, a keyed limiter is a family of
    independent token buckets: the answers to any sequence of requests by at most
    [maxKeys] different keys are those of one bucket per key, full when the key is
    first seen, whatever the other keys do. *)
Theorem keyed_limiter_independent (rate burst : float64) (maxKeys idle : Z) (l : list request) :
  Z.of_nat (size (list_to_set (map rq_key l) : gset string)) ≤ maxKeys →
  (requests l (NewKeyedLimiter rate burst maxKeys idle)).1 = spec_requests rate burst l ∅.
Proof.
  intros Hroom. apply (simulates_requests l (NewKeyedLimiter rate burst maxKeys idle) ∅ (list_to_set (map rq_key l))); [|set_solver|done|done].
  split; [apply NewKeyedLimiter_ok|]. intros key. unfold view, bucket_of. by rewrite !lookup_empty.
Qed.

(** ** A concrete limiter: two keys, one token per second, two of burst *)

Definition second (n : Z) : Z := n * 1000000000.
Definition ask (t : Z) (key : string) : request := mkRequest (second t) key (float_of 1).
Definition two_keys : KeyedLimiter := NewKeyedLimiter (float_of 1) (float_of 2) 2 (second 60).

(** [a] spends its burst, waits, and gets the refill of two seconds, capped. *)
Definition calm : list request :=
  [ask 0 "a"; ask 0 "a"; ask 0 "a"; ask 1 "b"; ask 1 "a"; ask 100 "a"; ask 100 "a"; ask 100 "a"].

Example calm_answers : (requests calm two_keys).1 = [true; true; false; true; true; true; true; false].
Proof. by vm_compute. Qed.

Lemma keyed_limiter_independent_witness :
  spec_requests (float_of 1) (float_of 2) calm ∅ = [true; true; false; true; true; true; true; false].
Proof.
  rewrite <- (keyed_limiter_independent (float_of 1) (float_of 2) 2 (second 60) calm); [by vm_compute|].
  by vm_compute.
Defined.

(** [c] arrives when the table is full of keys in use, [a] the oldest. *)
Definition full : KeyedLimiter := (requests [ask 0 "a"; ask 0 "a"; ask 0 "b"] two_keys).2.

Lemma full_reachable : limiter_reachable full.
Proof.
  exists (float_of 1), (float_of 2), 2, (second 60), 0, [ask 0 "a"; ask 0 "a"; ask 0 "b"].
  eexists. split; [by repeat split|]. apply surjective_pairing.
Qed.

Lemma keyed_limiter_bounded_witness :
  Len full = 2%nat ∧ length (k_lru full) = 2%nat.
Proof.
  destruct (keyed_limiter_bounded full full_reachable) as (_ & _ & E & _).
  assert (Len full = 2%nat) as EL by by vm_compute. split; [exact EL|]. rewrite E. exact EL.
Defined.

(** The newcomer inherits the empty bucket of [a] and is refused. *)
Lemma full_limiter_recycles_witness :
  ∃ k', KeyedAllowN (second 0) "c" (float_of 1) full = (false, k') ∧ bucket_of k' "a" = None.
Proof.
  destruct (full_limiter_recycles full (second 0) "c" (float_of 1) full_reachable)
    as (v & r & b & k' & Hv & _ & _ & E & _ & Hnone & _); [by vm_compute|done|by vm_compute|].
  exists k'. assert (r = false) as ->.
  { change r with ((r, k').1). rewrite <- E. by vm_compute. }
  split; [exact E|]. assert (kb_key v = "a"%string) as Ha by (vm_compute in Hv; by injection Hv as <-).
  rewrite Ha in Hnone. unfold view in Hnone. by destruct (bucket_of k' "a").
Defined.
