(* ===== verification/Limits.v ===== *)
(** * Operational limits ([internal/relay/limits.go], [internal/p2p/limits.go])

    The capacity thresholds an operator may override, their defaults, and the
    validation that refuses a configuration which would switch a protection off.
    [UDP] is the STUN and UDP relay part, [TCP] the relay server's. *)

From S2P Require Import Prelude GoFloat.

Open Scope Z_scope.

(** What [ValidateLimits] objects to, by the JSON name of the field. *)
Inductive LimitError :=
| NotPositive (field : string)
| BelowMaxFrame (field : string).

Definition not_positive (cs : list (string * float64)) : option string :=
  fst <$> find (fun c => fle c.2 fzero) cs.

Lemma not_positive_None cs :
  not_positive cs = None ↔ Forall (fun c => fle c.2 fzero = false) cs.
Proof.
  unfold not_positive. induction cs as [|[n v] cs IH]; simpl; [done|].
  rewrite Forall_cons, <- IH. simpl. destruct (fle v fzero); naive_solver.
Qed.

(** [if l.F == 0 { l.F = d.F }] *)
Definition or_int (v d : Z) : Z := if v =? 0 then d else v.
Definition or_float (v d : float64) : float64 := if feq v fzero then d else v.

Lemma or_int_positive v d : 0 ≤ v → 0 < d → 0 < or_int v d.
Proof. unfold or_int. destruct (Z.eqb_spec v 0); lia. Qed.

Lemma fle_split x : fle x fzero = flt x fzero || feq x fzero.
Proof. unfold fle, flt, feq. by destruct x as [[]|[]| |[] ? ?]. Qed.

Lemma or_float_positive v d : flt v fzero = false → fle d fzero = false → fle (or_float v d) fzero = false.
Proof. unfold or_float. destruct (feq v fzero) eqn:E; [done|]. intros Hv _. by rewrite fle_split, Hv, E. Qed.

Lemma float_of_positive z : 0 < z → fle (float_of z) fzero = false.
Proof. intros H. rewrite float_of_le_zero. by apply Z.leb_gt. Qed.

(** One field of a completed configuration: it was not negative, and its default
    is positive. *)
Ltac limits_field :=
  (apply or_int_positive || apply or_float_positive);
  [match goal with H : ?P |- ?P => exact H end|by vm_compute].

Module UDP.
Definition stunWorkerCount : Z := 4.
Definition stunTaskQueueDepth : Z := 256.
Definition udpRatePerIP : Z := 1000.
Definition udpBurstPerIP : Z := 2000.
Definition udpRateGlobal : Z := 20000.
Definition udpBurstGlobal : Z := 40000.
Definition udpLimiterMaxKeys : Z := 8192.
Definition udpLimiterIdle : Z := 10 * Minute.
Definition maxRelaySessionsTotal : Z := 5000.
Definition maxRelaySessionsPerIP : Z := 64.
Definition relayBytesPerSession : Z := 2 * 1024 * 1024.
Definition relayBytesBurstSession : Z := 4 * 1024 * 1024.
Definition relayBytesGlobal : Z := 20 * 1024 * 1024.
Definition relayBytesBurstGlobal : Z := 40 * 1024 * 1024.
Definition invalidLogSampleEvery : Z := 1000.

Record Limits := mkLimits {
  WorkerCount : Z;
  TaskQueueDepth : Z;
  PacketsPerIPRate : float64;
  PacketsPerIPBurst : float64;
  PacketsGlobalRate : float64;
  PacketsGlobalBurst : float64;
  LimiterMaxKeys : Z;
  LimiterIdleSeconds : Z;
  MaxRelaySessionsTotal : Z;
  MaxRelaySessionsPerIP : Z;
  RelayBytesPerSession : Z;
  RelayBytesBurstSession : Z;
  RelayBytesGlobal : Z;
  RelayBytesBurstGlobal : Z;
  InvalidLogSampleEvery : Z;
}.

#[export] Instance Limits_eta : Eta Limits := fun l =>
  mkLimits (WorkerCount l) (TaskQueueDepth l) (PacketsPerIPRate l) (PacketsPerIPBurst l)
  (PacketsGlobalRate l) (PacketsGlobalBurst l) (LimiterMaxKeys l) (LimiterIdleSeconds l)
  (MaxRelaySessionsTotal l) (MaxRelaySessionsPerIP l) (RelayBytesPerSession l)
  (RelayBytesBurstSession l) (RelayBytesGlobal l) (RelayBytesBurstGlobal l)
  (InvalidLogSampleEvery l).

Definition DefaultLimits : Limits := mkLimits
  stunWorkerCount stunTaskQueueDepth (float_of udpRatePerIP) (float_of udpBurstPerIP)
  (float_of udpRateGlobal) (float_of udpBurstGlobal) udpLimiterMaxKeys
  (Z.quot udpLimiterIdle Second) maxRelaySessionsTotal maxRelaySessionsPerIP
  relayBytesPerSession relayBytesBurstSession relayBytesGlobal relayBytesBurstGlobal
  invalidLogSampleEvery.

Definition is_zero (l : Limits) : bool :=
  (WorkerCount l =? 0)
  && (TaskQueueDepth l =? 0)
  && feq (PacketsPerIPRate l) fzero
  && feq (PacketsPerIPBurst l) fzero
  && feq (PacketsGlobalRate l) fzero
  && feq (PacketsGlobalBurst l) fzero
  && (LimiterMaxKeys l =? 0)
  && (LimiterIdleSeconds l =? 0)
  && (MaxRelaySessionsTotal l =? 0)
  && (MaxRelaySessionsPerIP l =? 0)
  && (RelayBytesPerSession l =? 0)
  && (RelayBytesBurstSession l =? 0)
  && (RelayBytesGlobal l =? 0)
  && (RelayBytesBurstGlobal l =? 0)
  && (InvalidLogSampleEvery l =? 0).

Definition normalizeLimits (l : Limits) : Limits :=
  let d := DefaultLimits in
  let l := l <| WorkerCount := or_int (WorkerCount l) (WorkerCount d) |> in
  let l := l <| TaskQueueDepth := or_int (TaskQueueDepth l) (TaskQueueDepth d) |> in
  let l := l <| PacketsPerIPRate := or_float (PacketsPerIPRate l) (PacketsPerIPRate d) |> in
  let l := l <| PacketsPerIPBurst := or_float (PacketsPerIPBurst l) (PacketsPerIPBurst d) |> in
  let l := l <| PacketsGlobalRate := or_float (PacketsGlobalRate l) (PacketsGlobalRate d) |> in
  let l := l <| PacketsGlobalBurst := or_float (PacketsGlobalBurst l) (PacketsGlobalBurst d) |> in
  let l := l <| LimiterMaxKeys := or_int (LimiterMaxKeys l) (LimiterMaxKeys d) |> in
  let l := l <| LimiterIdleSeconds := or_int (LimiterIdleSeconds l) (LimiterIdleSeconds d) |> in
  let l := l <| MaxRelaySessionsTotal := or_int (MaxRelaySessionsTotal l) (MaxRelaySessionsTotal d) |> in
  let l := l <| MaxRelaySessionsPerIP := or_int (MaxRelaySessionsPerIP l) (MaxRelaySessionsPerIP d) |> in
  let l := l <| RelayBytesPerSession := or_int (RelayBytesPerSession l) (RelayBytesPerSession d) |> in
  let l := l <| RelayBytesBurstSession := or_int (RelayBytesBurstSession l) (RelayBytesBurstSession d) |> in
  let l := l <| RelayBytesGlobal := or_int (RelayBytesGlobal l) (RelayBytesGlobal d) |> in
  let l := l <| RelayBytesBurstGlobal := or_int (RelayBytesBurstGlobal l) (RelayBytesBurstGlobal d) |> in
  let l := l <| InvalidLogSampleEvery := or_int (InvalidLogSampleEvery l) (InvalidLogSampleEvery d) |> in
  l.

Definition checks (l : Limits) : list (string * float64) :=
  [("worker_count"%string, float_of (WorkerCount l));
   ("task_queue_depth"%string, float_of (TaskQueueDepth l));
   ("packets_per_ip_rate"%string, PacketsPerIPRate l);
   ("packets_per_ip_burst"%string, PacketsPerIPBurst l);
   ("packets_global_rate"%string, PacketsGlobalRate l);
   ("packets_global_burst"%string, PacketsGlobalBurst l);
   ("limiter_max_keys"%string, float_of (LimiterMaxKeys l));
   ("limiter_idle_seconds"%string, float_of (LimiterIdleSeconds l));
   ("max_relay_sessions_total"%string, float_of (MaxRelaySessionsTotal l));
   ("max_relay_sessions_per_ip"%string, float_of (MaxRelaySessionsPerIP l));
   ("relay_bytes_per_session"%string, float_of (RelayBytesPerSession l));
   ("relay_bytes_burst_session"%string, float_of (RelayBytesBurstSession l));
   ("relay_bytes_global"%string, float_of (RelayBytesGlobal l));
   ("relay_bytes_burst_global"%string, float_of (RelayBytesBurstGlobal l));
   ("invalid_log_sample_every"%string, float_of (InvalidLogSampleEvery l))].

Definition ValidateLimits (l : Limits) : option LimitError := NotPositive <$> not_positive (checks l).

Definition positive (l : Limits) : Prop :=
  0 < WorkerCount l
  ∧ 0 < TaskQueueDepth l
  ∧ fle (PacketsPerIPRate l) fzero = false
  ∧ fle (PacketsPerIPBurst l) fzero = false
  ∧ fle (PacketsGlobalRate l) fzero = false
  ∧ fle (PacketsGlobalBurst l) fzero = false
  ∧ 0 < LimiterMaxKeys l
  ∧ 0 < LimiterIdleSeconds l
  ∧ 0 < MaxRelaySessionsTotal l
  ∧ 0 < MaxRelaySessionsPerIP l
  ∧ 0 < RelayBytesPerSession l
  ∧ 0 < RelayBytesBurstSession l
  ∧ 0 < RelayBytesGlobal l
  ∧ 0 < RelayBytesBurstGlobal l
  ∧ 0 < InvalidLogSampleEvery l.

Definition nonnegative (l : Limits) : Prop :=
  0 ≤ WorkerCount l
  ∧ 0 ≤ TaskQueueDepth l
  ∧ flt (PacketsPerIPRate l) fzero = false
  ∧ flt (PacketsPerIPBurst l) fzero = false
  ∧ flt (PacketsGlobalRate l) fzero = false
  ∧ flt (PacketsGlobalBurst l) fzero = false
  ∧ 0 ≤ LimiterMaxKeys l
  ∧ 0 ≤ LimiterIdleSeconds l
  ∧ 0 ≤ MaxRelaySessionsTotal l
  ∧ 0 ≤ MaxRelaySessionsPerIP l
  ∧ 0 ≤ RelayBytesPerSession l
  ∧ 0 ≤ RelayBytesBurstSession l
  ∧ 0 ≤ RelayBytesGlobal l
  ∧ 0 ≤ RelayBytesBurstGlobal l
  ∧ 0 ≤ InvalidLogSampleEvery l.

(** The completed record, field by field. *)
Definition completed (l : Limits) : Limits :=
  let d := DefaultLimits in mkLimits
  (or_int (WorkerCount l) (WorkerCount d)) (or_int (TaskQueueDepth l) (TaskQueueDepth d))
  (or_float (PacketsPerIPRate l) (PacketsPerIPRate d))
  (or_float (PacketsPerIPBurst l) (PacketsPerIPBurst d))
  (or_float (PacketsGlobalRate l) (PacketsGlobalRate d))
  (or_float (PacketsGlobalBurst l) (PacketsGlobalBurst d))
  (or_int (LimiterMaxKeys l) (LimiterMaxKeys d))
  (or_int (LimiterIdleSeconds l) (LimiterIdleSeconds d))
  (or_int (MaxRelaySessionsTotal l) (MaxRelaySessionsTotal d))
  (or_int (MaxRelaySessionsPerIP l) (MaxRelaySessionsPerIP d))
  (or_int (RelayBytesPerSession l) (RelayBytesPerSession d))
  (or_int (RelayBytesBurstSession l) (RelayBytesBurstSession d))
  (or_int (RelayBytesGlobal l) (RelayBytesGlobal d))
  (or_int (RelayBytesBurstGlobal l) (RelayBytesBurstGlobal d))
  (or_int (InvalidLogSampleEvery l) (InvalidLogSampleEvery d)).

Lemma udp_normalizeLimits_completed l : normalizeLimits l = completed l.
Proof. destruct l. vm_compute. reflexivity. Qed.

Lemma udp_ValidateLimits_ok l : ValidateLimits l = None ↔ positive l.
Proof.
  unfold ValidateLimits. rewrite fmap_None, not_positive_None. unfold checks, positive.
  rewrite !Forall_cons, Forall_nil. simpl. rewrite !float_of_le_zero, !Z.leb_gt. tauto.
Qed.

Lemma DefaultLimits_positive : positive DefaultLimits.
Proof. unfold positive, DefaultLimits. simpl. split_and!; by vm_compute. Qed.

Lemma normalizeLimits_positive l : nonnegative l → positive (normalizeLimits l).
Proof.
  unfold nonnegative. intros H. destruct_and! H.
  rewrite udp_normalizeLimits_completed. unfold positive, completed. cbn -[float_of].
  split_and!; limits_field.
Qed.

End UDP.

Module TCP.
Definition maxMessageSize : Z := Z.shiftl 4 20.
Definition maxConnsTotal : Z := 2000.
Definition maxConnsPerIP : Z := 128.
Definition maxJoinFailures : Z := 5.
Definition joinRatePerIP : Z := 5.
Definition joinBurstPerIP : Z := 20.
Definition joinRateGlobal : Z := 200.
Definition joinBurstGlobal : Z := 400.
Definition rejectAuditSampleN : Z := 1000.
Definition createRatePerIP : Z := 2.
Definition createBurstPerIP : Z := 10.
Definition createRateGlobal : Z := 100.
Definition createBurstGlobal : Z := 200.
Definition maxActiveSessionsPerIP : Z := 10.
Definition maxActiveSessionsTotal : Z := 5000.
Definition heartbeatRatePerIP : Z := 10.
Definition heartbeatBurstPerIP : Z := 20.
Definition heartbeatRateGlobal : Z := 500.
Definition heartbeatBurstGlobal : Z := 1000.
Definition tunnelDataRatePerConn : Z := 100.
Definition tunnelDataBurstPerConn : Z := 200.
Definition tunnelDataRateGlobal : Z := 5000.
Definition tunnelDataBurstGlobal : Z := 10000.
Definition toolRateKiBPerConn : Z := 16384.
Definition toolBurstKiBPerConn : Z := 32768.
Definition toolRateKiBGlobal : Z := 131072.
Definition toolBurstKiBGlobal : Z := 262144.
Definition controlRatePerConn : Z := 2.
Definition controlBurstPerConn : Z := 5.
Definition controlRateGlobal : Z := 1000.
Definition controlBurstGlobal : Z := 2000.
Definition limiterIdle : Z := 10 * Minute.
Definition limiterMaxKeys : Z := 8192.

Record Limits := mkLimits {
  MaxConnectionsTotal : Z;
  MaxConnectionsPerIP : Z;
  MaxJoinFailures : Z;
  JoinRatePerIP : float64;
  JoinBurstPerIP : float64;
  JoinRateGlobal : float64;
  JoinBurstGlobal : float64;
  RejectAuditSampleEvery : Z;
  CreateRatePerIP : float64;
  CreateBurstPerIP : float64;
  CreateRateGlobal : float64;
  CreateBurstGlobal : float64;
  MaxActiveSessionsPerIP : Z;
  MaxActiveSessionsTotal : Z;
  HeartbeatRatePerIP : float64;
  HeartbeatBurstPerIP : float64;
  HeartbeatRateGlobal : float64;
  HeartbeatBurstGlobal : float64;
  DataRatePerConnection : float64;
  DataBurstPerConnection : float64;
  DataRateGlobal : float64;
  DataBurstGlobal : float64;
  ToolRateKiBPerConnection : float64;
  ToolBurstKiBPerConnection : float64;
  ToolRateKiBGlobal : float64;
  ToolBurstKiBGlobal : float64;
  ControlRatePerConnection : float64;
  ControlBurstPerConnection : float64;
  ControlRateGlobal : float64;
  ControlBurstGlobal : float64;
  LimiterMaxKeys : Z;
  LimiterIdleSeconds : Z;
  UDP : UDP.Limits;
}.

#[export] Instance Limits_eta : Eta Limits := fun l =>
  mkLimits (MaxConnectionsTotal l) (MaxConnectionsPerIP l) (MaxJoinFailures l) (JoinRatePerIP l)
  (JoinBurstPerIP l) (JoinRateGlobal l) (JoinBurstGlobal l) (RejectAuditSampleEvery l)
  (CreateRatePerIP l) (CreateBurstPerIP l) (CreateRateGlobal l) (CreateBurstGlobal l)
  (MaxActiveSessionsPerIP l) (MaxActiveSessionsTotal l) (HeartbeatRatePerIP l)
  (HeartbeatBurstPerIP l) (HeartbeatRateGlobal l) (HeartbeatBurstGlobal l)
  (DataRatePerConnection l) (DataBurstPerConnection l) (DataRateGlobal l) (DataBurstGlobal l)
  (ToolRateKiBPerConnection l) (ToolBurstKiBPerConnection l) (ToolRateKiBGlobal l)
  (ToolBurstKiBGlobal l) (ControlRatePerConnection l) (ControlBurstPerConnection l)
  (ControlRateGlobal l) (ControlBurstGlobal l) (LimiterMaxKeys l) (LimiterIdleSeconds l) (UDP l).

Definition DefaultLimits : Limits := mkLimits
  maxConnsTotal maxConnsPerIP maxJoinFailures (float_of joinRatePerIP) (float_of joinBurstPerIP)
  (float_of joinRateGlobal) (float_of joinBurstGlobal) rejectAuditSampleN
  (float_of createRatePerIP) (float_of createBurstPerIP) (float_of createRateGlobal)
  (float_of createBurstGlobal) maxActiveSessionsPerIP maxActiveSessionsTotal
  (float_of heartbeatRatePerIP) (float_of heartbeatBurstPerIP) (float_of heartbeatRateGlobal)
  (float_of heartbeatBurstGlobal) (float_of tunnelDataRatePerConn)
  (float_of tunnelDataBurstPerConn) (float_of tunnelDataRateGlobal)
  (float_of tunnelDataBurstGlobal) (float_of toolRateKiBPerConn) (float_of toolBurstKiBPerConn)
  (float_of toolRateKiBGlobal) (float_of toolBurstKiBGlobal) (float_of controlRatePerConn)
  (float_of controlBurstPerConn) (float_of controlRateGlobal) (float_of controlBurstGlobal)
  limiterMaxKeys (Z.quot limiterIdle Second) UDP.DefaultLimits.

Definition normalizeLimits (l : Limits) : Limits :=
  let d := DefaultLimits in
  let l := l <| MaxConnectionsTotal := or_int (MaxConnectionsTotal l) (MaxConnectionsTotal d) |> in
  let l := l <| MaxConnectionsPerIP := or_int (MaxConnectionsPerIP l) (MaxConnectionsPerIP d) |> in
  let l := l <| MaxJoinFailures := or_int (MaxJoinFailures l) (MaxJoinFailures d) |> in
  let l := l <| JoinRatePerIP := or_float (JoinRatePerIP l) (JoinRatePerIP d) |> in
  let l := l <| JoinBurstPerIP := or_float (JoinBurstPerIP l) (JoinBurstPerIP d) |> in
  let l := l <| JoinRateGlobal := or_float (JoinRateGlobal l) (JoinRateGlobal d) |> in
  let l := l <| JoinBurstGlobal := or_float (JoinBurstGlobal l) (JoinBurstGlobal d) |> in
  let l := l <| RejectAuditSampleEvery := or_int (RejectAuditSampleEvery l) (RejectAuditSampleEvery d) |> in
  let l := l <| CreateRatePerIP := or_float (CreateRatePerIP l) (CreateRatePerIP d) |> in
  let l := l <| CreateBurstPerIP := or_float (CreateBurstPerIP l) (CreateBurstPerIP d) |> in
  let l := l <| CreateRateGlobal := or_float (CreateRateGlobal l) (CreateRateGlobal d) |> in
  let l := l <| CreateBurstGlobal := or_float (CreateBurstGlobal l) (CreateBurstGlobal d) |> in
  let l := l <| MaxActiveSessionsPerIP := or_int (MaxActiveSessionsPerIP l) (MaxActiveSessionsPerIP d) |> in
  let l := l <| MaxActiveSessionsTotal := or_int (MaxActiveSessionsTotal l) (MaxActiveSessionsTotal d) |> in
  let l := l <| HeartbeatRatePerIP := or_float (HeartbeatRatePerIP l) (HeartbeatRatePerIP d) |> in
  let l := l <| HeartbeatBurstPerIP := or_float (HeartbeatBurstPerIP l) (HeartbeatBurstPerIP d) |> in
  let l := l <| HeartbeatRateGlobal := or_float (HeartbeatRateGlobal l) (HeartbeatRateGlobal d) |> in
  let l := l <| HeartbeatBurstGlobal := or_float (HeartbeatBurstGlobal l) (HeartbeatBurstGlobal d) |> in
  let l := l <| DataRatePerConnection := or_float (DataRatePerConnection l) (DataRatePerConnection d) |> in
  let l := l <| DataBurstPerConnection := or_float (DataBurstPerConnection l) (DataBurstPerConnection d) |> in
  let l := l <| DataRateGlobal := or_float (DataRateGlobal l) (DataRateGlobal d) |> in
  let l := l <| DataBurstGlobal := or_float (DataBurstGlobal l) (DataBurstGlobal d) |> in
  let l := l <| ToolRateKiBPerConnection := or_float (ToolRateKiBPerConnection l) (ToolRateKiBPerConnection d) |> in
  let l := l <| ToolBurstKiBPerConnection := or_float (ToolBurstKiBPerConnection l) (ToolBurstKiBPerConnection d) |> in
  let l := l <| ToolRateKiBGlobal := or_float (ToolRateKiBGlobal l) (ToolRateKiBGlobal d) |> in
  let l := l <| ToolBurstKiBGlobal := or_float (ToolBurstKiBGlobal l) (ToolBurstKiBGlobal d) |> in
  let l := l <| ControlRatePerConnection := or_float (ControlRatePerConnection l) (ControlRatePerConnection d) |> in
  let l := l <| ControlBurstPerConnection := or_float (ControlBurstPerConnection l) (ControlBurstPerConnection d) |> in
  let l := l <| ControlRateGlobal := or_float (ControlRateGlobal l) (ControlRateGlobal d) |> in
  let l := l <| ControlBurstGlobal := or_float (ControlBurstGlobal l) (ControlBurstGlobal d) |> in
  let l := l <| LimiterMaxKeys := or_int (LimiterMaxKeys l) (LimiterMaxKeys d) |> in
  let l := l <| LimiterIdleSeconds := or_int (LimiterIdleSeconds l) (LimiterIdleSeconds d) |> in
  let l := l <| UDP := if UDP.is_zero (UDP l) then UDP d else UDP l |> in
  l.

Definition checks (l : Limits) : list (string * float64) :=
  [("max_connections_total"%string, float_of (MaxConnectionsTotal l));
   ("max_connections_per_ip"%string, float_of (MaxConnectionsPerIP l));
   ("max_join_failures"%string, float_of (MaxJoinFailures l));
   ("join_rate_per_ip"%string, JoinRatePerIP l);
   ("join_burst_per_ip"%string, JoinBurstPerIP l);
   ("join_rate_global"%string, JoinRateGlobal l);
   ("join_burst_global"%string, JoinBurstGlobal l);
   ("reject_audit_sample_every"%string, float_of (RejectAuditSampleEvery l));
   ("create_rate_per_ip"%string, CreateRatePerIP l);
   ("create_burst_per_ip"%string, CreateBurstPerIP l);
   ("create_rate_global"%string, CreateRateGlobal l);
   ("create_burst_global"%string, CreateBurstGlobal l);
   ("max_active_sessions_per_ip"%string, float_of (MaxActiveSessionsPerIP l));
   ("max_active_sessions_total"%string, float_of (MaxActiveSessionsTotal l));
   ("heartbeat_rate_per_ip"%string, HeartbeatRatePerIP l);
   ("heartbeat_burst_per_ip"%string, HeartbeatBurstPerIP l);
   ("heartbeat_rate_global"%string, HeartbeatRateGlobal l);
   ("heartbeat_burst_global"%string, HeartbeatBurstGlobal l);
   ("data_rate_per_connection"%string, DataRatePerConnection l);
   ("data_burst_per_connection"%string, DataBurstPerConnection l);
   ("data_rate_global"%string, DataRateGlobal l);
   ("data_burst_global"%string, DataBurstGlobal l);
   ("tool_rate_kib_per_connection"%string, ToolRateKiBPerConnection l);
   ("tool_burst_kib_per_connection"%string, ToolBurstKiBPerConnection l);
   ("tool_rate_kib_global"%string, ToolRateKiBGlobal l);
   ("tool_burst_kib_global"%string, ToolBurstKiBGlobal l);
   ("control_rate_per_connection"%string, ControlRatePerConnection l);
   ("control_burst_per_connection"%string, ControlBurstPerConnection l);
   ("control_rate_global"%string, ControlRateGlobal l);
   ("control_burst_global"%string, ControlBurstGlobal l);
   ("limiter_max_keys"%string, float_of (LimiterMaxKeys l));
   ("limiter_idle_seconds"%string, float_of (LimiterIdleSeconds l))].

Definition maxFrameKiB : float64 := fdiv (float_of maxMessageSize) (float_of 1024).

Definition frame_checks (l : Limits) : list (string * float64) :=
  [("tool_burst_kib_per_connection"%string, ToolBurstKiBPerConnection l);
   ("tool_burst_kib_global"%string, ToolBurstKiBGlobal l)].

Definition ValidateLimits (l : Limits) : option LimitError :=
  match not_positive (checks l) with
  | Some name => Some (NotPositive name)
  | None =>
      match find (fun c => flt c.2 maxFrameKiB) (frame_checks l) with
      | Some (name, _) => Some (BelowMaxFrame name)
      | None => UDP.ValidateLimits (UDP l)
      end
  end.

Definition positive (l : Limits) : Prop :=
  0 < MaxConnectionsTotal l
  ∧ 0 < MaxConnectionsPerIP l
  ∧ 0 < MaxJoinFailures l
  ∧ fle (JoinRatePerIP l) fzero = false
  ∧ fle (JoinBurstPerIP l) fzero = false
  ∧ fle (JoinRateGlobal l) fzero = false
  ∧ fle (JoinBurstGlobal l) fzero = false
  ∧ 0 < RejectAuditSampleEvery l
  ∧ fle (CreateRatePerIP l) fzero = false
  ∧ fle (CreateBurstPerIP l) fzero = false
  ∧ fle (CreateRateGlobal l) fzero = false
  ∧ fle (CreateBurstGlobal l) fzero = false
  ∧ 0 < MaxActiveSessionsPerIP l
  ∧ 0 < MaxActiveSessionsTotal l
  ∧ fle (HeartbeatRatePerIP l) fzero = false
  ∧ fle (HeartbeatBurstPerIP l) fzero = false
  ∧ fle (HeartbeatRateGlobal l) fzero = false
  ∧ fle (HeartbeatBurstGlobal l) fzero = false
  ∧ fle (DataRatePerConnection l) fzero = false
  ∧ fle (DataBurstPerConnection l) fzero = false
  ∧ fle (DataRateGlobal l) fzero = false
  ∧ fle (DataBurstGlobal l) fzero = false
  ∧ fle (ToolRateKiBPerConnection l) fzero = false
  ∧ fle (ToolBurstKiBPerConnection l) fzero = false
  ∧ fle (ToolRateKiBGlobal l) fzero = false
  ∧ fle (ToolBurstKiBGlobal l) fzero = false
  ∧ fle (ControlRatePerConnection l) fzero = false
  ∧ fle (ControlBurstPerConnection l) fzero = false
  ∧ fle (ControlRateGlobal l) fzero = false
  ∧ fle (ControlBurstGlobal l) fzero = false
  ∧ 0 < LimiterMaxKeys l
  ∧ 0 < LimiterIdleSeconds l.

Definition nonnegative (l : Limits) : Prop :=
  0 ≤ MaxConnectionsTotal l
  ∧ 0 ≤ MaxConnectionsPerIP l
  ∧ 0 ≤ MaxJoinFailures l
  ∧ flt (JoinRatePerIP l) fzero = false
  ∧ flt (JoinBurstPerIP l) fzero = false
  ∧ flt (JoinRateGlobal l) fzero = false
  ∧ flt (JoinBurstGlobal l) fzero = false
  ∧ 0 ≤ RejectAuditSampleEvery l
  ∧ flt (CreateRatePerIP l) fzero = false
  ∧ flt (CreateBurstPerIP l) fzero = false
  ∧ flt (CreateRateGlobal l) fzero = false
  ∧ flt (CreateBurstGlobal l) fzero = false
  ∧ 0 ≤ MaxActiveSessionsPerIP l
  ∧ 0 ≤ MaxActiveSessionsTotal l
  ∧ flt (HeartbeatRatePerIP l) fzero = false
  ∧ flt (HeartbeatBurstPerIP l) fzero = false
  ∧ flt (HeartbeatRateGlobal l) fzero = false
  ∧ flt (HeartbeatBurstGlobal l) fzero = false
  ∧ flt (DataRatePerConnection l) fzero = false
  ∧ flt (DataBurstPerConnection l) fzero = false
  ∧ flt (DataRateGlobal l) fzero = false
  ∧ flt (DataBurstGlobal l) fzero = false
  ∧ flt (ToolRateKiBPerConnection l) fzero = false
  ∧ flt (ToolBurstKiBPerConnection l) fzero = false
  ∧ flt (ToolRateKiBGlobal l) fzero = false
  ∧ flt (ToolBurstKiBGlobal l) fzero = false
  ∧ flt (ControlRatePerConnection l) fzero = false
  ∧ flt (ControlBurstPerConnection l) fzero = false
  ∧ flt (ControlRateGlobal l) fzero = false
  ∧ flt (ControlBurstGlobal l) fzero = false
  ∧ 0 ≤ LimiterMaxKeys l
  ∧ 0 ≤ LimiterIdleSeconds l.

(** The completed record, field by field. *)
Definition completed (l : Limits) : Limits :=
  let d := DefaultLimits in mkLimits
  (or_int (MaxConnectionsTotal l) (MaxConnectionsTotal d))
  (or_int (MaxConnectionsPerIP l) (MaxConnectionsPerIP d))
  (or_int (MaxJoinFailures l) (MaxJoinFailures d))
  (or_float (JoinRatePerIP l) (JoinRatePerIP d))
  (or_float (JoinBurstPerIP l) (JoinBurstPerIP d))
  (or_float (JoinRateGlobal l) (JoinRateGlobal d))
  (or_float (JoinBurstGlobal l) (JoinBurstGlobal d))
  (or_int (RejectAuditSampleEvery l) (RejectAuditSampleEvery d))
  (or_float (CreateRatePerIP l) (CreateRatePerIP d))
  (or_float (CreateBurstPerIP l) (CreateBurstPerIP d))
  (or_float (CreateRateGlobal l) (CreateRateGlobal d))
  (or_float (CreateBurstGlobal l) (CreateBurstGlobal d))
  (or_int (MaxActiveSessionsPerIP l) (MaxActiveSessionsPerIP d))
  (or_int (MaxActiveSessionsTotal l) (MaxActiveSessionsTotal d))
  (or_float (HeartbeatRatePerIP l) (HeartbeatRatePerIP d))
  (or_float (HeartbeatBurstPerIP l) (HeartbeatBurstPerIP d))
  (or_float (HeartbeatRateGlobal l) (HeartbeatRateGlobal d))
  (or_float (HeartbeatBurstGlobal l) (HeartbeatBurstGlobal d))
  (or_float (DataRatePerConnection l) (DataRatePerConnection d))
  (or_float (DataBurstPerConnection l) (DataBurstPerConnection d))
  (or_float (DataRateGlobal l) (DataRateGlobal d))
  (or_float (DataBurstGlobal l) (DataBurstGlobal d))
  (or_float (ToolRateKiBPerConnection l) (ToolRateKiBPerConnection d))
  (or_float (ToolBurstKiBPerConnection l) (ToolBurstKiBPerConnection d))
  (or_float (ToolRateKiBGlobal l) (ToolRateKiBGlobal d))
  (or_float (ToolBurstKiBGlobal l) (ToolBurstKiBGlobal d))
  (or_float (ControlRatePerConnection l) (ControlRatePerConnection d))
  (or_float (ControlBurstPerConnection l) (ControlBurstPerConnection d))
  (or_float (ControlRateGlobal l) (ControlRateGlobal d))
  (or_float (ControlBurstGlobal l) (ControlBurstGlobal d))
  (or_int (LimiterMaxKeys l) (LimiterMaxKeys d))
  (or_int (LimiterIdleSeconds l) (LimiterIdleSeconds d))
  (if UDP.is_zero (UDP l) then UDP d else UDP l).

Lemma normalizeLimits_completed l : normalizeLimits l = completed l.
Proof. destruct l. vm_compute. reflexivity. Qed.

(** Room for one message of the maximal size in both tool bursts. *)
Definition frames_fit (l : Limits) : Prop :=
  flt (ToolBurstKiBPerConnection l) maxFrameKiB = false ∧ flt (ToolBurstKiBGlobal l) maxFrameKiB = false.

Lemma ValidateLimits_ok l :
  ValidateLimits l = None ↔ positive l ∧ frames_fit l ∧ UDP.positive (UDP l).
Proof.
  assert (not_positive (checks l) = None ↔ positive l) as E.
  { rewrite not_positive_None. unfold checks, positive. rewrite !Forall_cons, Forall_nil. simpl.
    rewrite !float_of_le_zero, !Z.leb_gt. tauto. }
  unfold ValidateLimits, frames_fit. destruct (not_positive (checks l)) as [name|].
  { split; [done|]. intros [H%E _]. done. }
  simpl. destruct (flt (ToolBurstKiBPerConnection l) maxFrameKiB); [naive_solver|].
  destruct (flt (ToolBurstKiBGlobal l) maxFrameKiB); [naive_solver|].
  rewrite UDP.udp_ValidateLimits_ok. naive_solver.
Qed.

(** No limits that switch a protection off get past the validation:
    [ValidateLimits] accepts exactly the configurations in which every threshold
    of the relay and of its UDP part is positive (as an integer, not only after
    its conversion to a float) and both tool bursts hold one message of the
    maximal size. *)
Theorem ValidateLimits_protects (l : Limits) :
  ValidateLimits l = None ↔
  positive l ∧ UDP.positive (UDP l)
  ∧ flt (ToolBurstKiBPerConnection l) (float_of 4096) = false
  ∧ flt (ToolBurstKiBGlobal l) (float_of 4096) = false.
Proof.
  rewrite ValidateLimits_ok. unfold frames_fit.
  assert (maxFrameKiB = float_of 4096) as -> by by vm_compute. tauto.
Qed.

(** A threshold of zero stands for its default. *)
Lemma or_float_frame v : flt v fzero = false → feq v fzero = true ∨ flt v maxFrameKiB = false →
  flt (or_float v (float_of toolBurstKiBPerConn)) maxFrameKiB = false
  ∧ flt (or_float v (float_of toolBurstKiBGlobal)) maxFrameKiB = false.
Proof. intros _ [H|H]; unfold or_float; [rewrite H; by vm_compute|]. by destruct (feq v fzero); [vm_compute|]. Qed.

(** A partial configuration is completed into an acceptable one: filling the
    zero fields of limits that have no negative field, whose tool bursts are zero
    or large enough and whose UDP part is all zero or acceptable, gives limits the
    validation accepts; the empty configuration gives exactly the defaults. *)
Theorem normalizeLimits_accepted (l : Limits) :
  nonnegative l →
  feq (ToolBurstKiBPerConnection l) fzero = true ∨ flt (ToolBurstKiBPerConnection l) maxFrameKiB = false →
  feq (ToolBurstKiBGlobal l) fzero = true ∨ flt (ToolBurstKiBGlobal l) maxFrameKiB = false →
  UDP.is_zero (UDP l) = true ∨ UDP.ValidateLimits (UDP l) = None →
  ValidateLimits (normalizeLimits l) = None.
Proof.
  intros H H1 H2 H3. unfold nonnegative in H. destruct_and! H. apply ValidateLimits_ok.
  rewrite normalizeLimits_completed. split_and!.
  - unfold positive, completed. cbn -[float_of]. split_and!; limits_field.
  - split; [refine (proj1 (or_float_frame (ToolBurstKiBPerConnection l) _ _))
           |refine (proj2 (or_float_frame (ToolBurstKiBGlobal l) _ _))]; assumption.
  - cbn -[float_of]. destruct H3 as [->|H3]; [apply UDP.DefaultLimits_positive|].
    apply UDP.udp_ValidateLimits_ok in H3. destruct (UDP.is_zero (UDP l)); [apply UDP.DefaultLimits_positive|done].
Qed.

(** [Config.Limits] left empty. *)
Definition zeroUDP : UDP.Limits :=
  UDP.mkLimits 0 0 fzero fzero fzero fzero 0 0 0 0 0 0 0 0 0.
Definition zeroLimits : Limits :=
  mkLimits 0 0 0 fzero fzero fzero fzero 0 fzero fzero fzero fzero 0 0 fzero fzero fzero fzero
    fzero fzero fzero fzero fzero fzero fzero fzero fzero fzero fzero fzero 0 0 zeroUDP.

Example zero_is_default : normalizeLimits zeroLimits = DefaultLimits.
Proof. by vm_compute. Qed.

Lemma normalizeLimits_accepted_witness : ValidateLimits DefaultLimits = None.
Proof.
  rewrite <- zero_is_default. apply (normalizeLimits_accepted zeroLimits); [|by left|by left|by left].
  unfold nonnegative. split_and!; by vm_compute.
Defined.

End TCP.
