(* ===== verification/RelaySession.v ===== *)
(** * The session table of the relay ([internal/relay/session.go])

    [SessionManager] keeps every tunnel session of the relay, and four indexes
    over them (session id, assistance code, persistent client id, connection
    id).  The indexes hold pointers to shared [TunnelSession] objects, so the
    model keeps a heap of sessions and the indexes map to heap addresses; a
    session that left the table stays in the heap, as it does in Go while a
    timer closure still refers to it.

    [sm.mu] makes every method atomic: one Definition per method, taking the
    clock reading it makes ([now]) as an argument.  The debounce timer of a
    helper that disconnected is explicit: [armed] holds the timers that may
    still be stopped, [running] the callbacks that were started and wait for
    the mutex, which [Stop] no longer reaches. *)

From S2P Require Import Prelude GoNet.

Open Scope Z_scope.

Notation ptr := positive (only parsing).
Notation timer := positive (only parsing).

Definition helpDisconnectDebounce : Z := 5 * Second.
Definition shareConflictMaxReplaces : nat := 3.
Definition shareConflictWindow : Z := Minute.
Definition shareConflictCooldown : Z := 10 * Minute.

Inductive SessionError :=
| ErrSessionNotFound
| ErrCodeExpired
| ErrCodeInvalid
| ErrSessionHasHelper
| ErrMaxTotalSessions
| ErrMaxSessionsPerIP.

#[export] Instance SessionError_eq_dec : EqDecision SessionError.
Proof. solve_decision. Defined.

(** ** Data *)

(** A registered connection. [c_ptr] is the identity of the Go object, which
    [ReuseSessionByClientID] compares; [c_Conn] is the remote address of its
    [Conn], [None] when the field is nil. The identity fields are written
    before the object is published to the table and never after. *)
Record ClientConn := mkClientConn {
  c_ptr : ptr;
  c_ID : string;
  c_ClientID : string;
  c_Version : string;
  c_Host : string;
  c_supportsUpdateNotice : bool;
  c_Conn : option string;
}.

#[export] Instance ClientConn_eq_dec : EqDecision ClientConn.
Proof. solve_decision. Defined.

Record TunnelSession := mkTunnelSession {
  s_ID : string;
  s_Code : string;
  s_Share : option ClientConn;
  s_Help : option ClientConn;
  s_CreatedAt : Z;
  s_ExpiresAt : Z;
  s_ClientID : string;
  s_CreatorIP : string;
  s_countedByIP : bool;
  s_SharePublicAddr : string;
  s_SharePrivateAddr : string;
  s_ShareNATType : string;
  s_HelpPublicAddr : string;
  s_HelpPrivateAddr : string;
  s_HelpNATType : string;
  s_closed : bool;
  s_shareReady : bool;
  s_dataPlaneReady : bool;
  s_helpDisconnectTimer : option timer;
  s_pendingHelpID : string;
  s_liveReplaces : list Z;
  s_conflictUntil : Z;
}.

#[export] Instance TunnelSession_eta : Eta TunnelSession := fun s =>
  mkTunnelSession (s_ID s) (s_Code s) (s_Share s) (s_Help s) (s_CreatedAt s)
    (s_ExpiresAt s) (s_ClientID s) (s_CreatorIP s) (s_countedByIP s)
    (s_SharePublicAddr s) (s_SharePrivateAddr s) (s_ShareNATType s)
    (s_HelpPublicAddr s) (s_HelpPrivateAddr s) (s_HelpNATType s) (s_closed s)
    (s_shareReady s) (s_dataPlaneReady s) (s_helpDisconnectTimer s)
    (s_pendingHelpID s) (s_liveReplaces s) (s_conflictUntil s).

Record SessionManager := mkSessionManager {
  heap : gmap ptr TunnelSession;
  sessions : gmap string ptr;
  byCode : gmap string ptr;
  byClientID : gmap string ptr;
  byConnID : gmap string ptr;
  sessionCountPerIP : gmap string Z;
  reconnectGrace : Z;
  armed : gmap timer ptr;
  running : gmap timer ptr;
  nextTimer : timer;
}.

#[export] Instance SessionManager_eta : Eta SessionManager := fun sm =>
  mkSessionManager (heap sm) (sessions sm) (byCode sm) (byClientID sm)
    (byConnID sm) (sessionCountPerIP sm) (reconnectGrace sm) (armed sm)
    (running sm) (nextTimer sm).

(** [grace] is what [NewServer] assigns to [reconnectGrace]. *)
Definition NewSessionManager (grace : Z) : SessionManager :=
  mkSessionManager ∅ ∅ ∅ ∅ ∅ ∅ grace ∅ ∅ 1.

(** [session.field = v] through a pointer. *)
Definition write (p : ptr) (s : TunnelSession) (sm : SessionManager) : SessionManager :=
  sm <| heap := <[p := s]> (heap sm) |>.

(** A pointer the table hands out always points at a session of the heap (part
    of the invariant below); [deref] returns it. *)
Definition deref (sm : SessionManager) (t : gmap string ptr) (k : string)
  : option (ptr * TunnelSession) :=
  p ← t !! k; s ← heap sm !! p; Some (p, s).

Definition time_After (a b : Z) : bool := b <? a.
Definition time_Before (a b : Z) : bool := a <? b.

Definition conn_is (c : option ClientConn) (id : string) : bool :=
  match c with Some c => bool_decide (c_ID c = id) | None => false end.

Definition is_nil {A} (o : option A) : bool :=
  match o with Some _ => false | None => true end.

(** [delete(sm.byConnID, c.ID)] when [c] is not nil. *)
Definition drop_conn (c : option ClientConn) (sm : SessionManager) : SessionManager :=
  match c with
  | Some c => sm <| byConnID := delete (c_ID c) (byConnID sm) |>
  | None => sm
  end.

(** [session.helpDisconnectTimer.Stop()]: a timer that already fired is not
    recalled. *)
Definition stop_timer (t : option timer) (sm : SessionManager) : SessionManager :=
  match t with
  | Some t => sm <| armed := delete t (armed sm) |>
  | None => sm
  end.

(** ** Creating a session *)

(** [generateSessionID] until the id is free: [cands] are the ids the random
    source yields, in order. *)
Fixpoint pick_session_id (cands : list string) (taken : gmap string ptr) : option string :=
  match cands with
  | [] => None
  | id :: cands' =>
      match taken !! id with
      | Some _ => pick_session_id cands' taken
      | None => Some id
      end
  end.

Definition count_of (m : gmap string Z) (ip : string) : Z := default 0 (m !! ip).

(** [p] is the address of the allocated [TunnelSession]. [None]: the candidate
    ids ran out before a free one appeared. *)
Definition createSession (now : Z) (cands : list string) (p : ptr) (code : string)
  (share : option ClientConn) (ttl : Z) (clientID shareIP : string)
  (maxPerIP maxTotal : Z) (shareReady : bool) (sm : SessionManager)
  : option (result SessionError TunnelSession * SessionManager) :=
  if maxTotal <=? Z.of_nat (size (sessions sm)) then Some (Err ErrMaxTotalSessions, sm) else
  let limited := bool_decide (shareIP ≠ ""%string) && (0 <? maxPerIP) in
  if limited && (maxPerIP <=? count_of (sessionCountPerIP sm) shareIP)
  then Some (Err ErrMaxSessionsPerIP, sm) else
  sessionID ← pick_session_id cands (sessions sm);
  let session := mkTunnelSession sessionID code share None now (now + ttl) clientID shareIP
    limited "" "" "" "" "" "" false shareReady false None "" [] time_zero in
  let sm := write p session sm in
  let sm := sm <| sessions := <[sessionID := p]> (sessions sm) |>
               <| byCode := <[code := p]> (byCode sm) |> in
  let sm := if bool_decide (clientID ≠ ""%string)
            then sm <| byClientID := <[clientID := p]> (byClientID sm) |> else sm in
  let sm := match share with
            | Some c => sm <| byConnID := <[c_ID c := p]> (byConnID sm) |>
            | None => sm
            end in
  let sm := if limited
            then sm <| sessionCountPerIP :=
                   <[shareIP := count_of (sessionCountPerIP sm) shareIP + 1]> (sessionCountPerIP sm) |>
            else sm in
  Some (Ok session, sm).

Definition CreateSession now cands p code share ttl clientID shareIP maxPerIP maxTotal sm :=
  createSession now cands p code share ttl clientID shareIP maxPerIP maxTotal true sm.

Definition createPendingSession now cands p code share ttl clientID shareIP maxPerIP maxTotal sm :=
  createSession now cands p code share ttl clientID shareIP maxPerIP maxTotal false sm.

(** ** Lookups *)

Definition GetSessionByCode (now : Z) (code : string) (sm : SessionManager)
  : result SessionError TunnelSession :=
  match deref sm (byCode sm) code with
  | None => Err ErrCodeInvalid
  | Some (_, session) =>
      if time_After now (s_ExpiresAt session) then Err ErrCodeExpired
      else if s_closed session then Err ErrSessionNotFound
      else Ok session
  end.

Definition GetSessionByClientID (now : Z) (clientID : string) (sm : SessionManager)
  : option TunnelSession :=
  if bool_decide (clientID = ""%string) then None else
  match deref sm (byClientID sm) clientID with
  | None => None
  | Some (_, session) =>
      if time_After now (s_ExpiresAt session) || s_closed session then None else Some session
  end.

(** ** Reusing a session by client id *)

Record ReuseSessionResult := mkReuse {
  r_SessionID : string;
  r_Code : string;
  r_ExpiresAt : Z;
  r_OldShare : option ClientConn;
  r_OldHelp : option ClientConn;
  r_Conflict : bool;
  r_OnlineVersion : string;
  r_OnlineHost : string;
}.

Definition conflictResult (session : TunnelSession) : ReuseSessionResult :=
  mkReuse (s_ID session) "" time_zero None None true
    (default ""%string (c_Version <$> s_Share session))
    (default ""%string (c_Host <$> s_Share session)).

Definition recordLiveReplace (times : list Z) (now : Z) : list Z :=
  let cutoff := now - shareConflictWindow in
  let kept := filter (fun t => time_After t cutoff = true) times ++ [now] in
  let over := (length kept - (shareConflictMaxReplaces + 1))%nat in
  if (0 <? over)%nat then drop over kept else kept.

Inductive ReuseOutcome :=
| NotReused
| Reused (r : ReuseSessionResult)
| ConflictWith (r : ReuseSessionResult).

(** [old != nil && old != newShare]: the object the session is bound to is
    another one than the newcomer. *)
Definition live_other (session : TunnelSession) (newShare : ClientConn) : bool :=
  match s_Share session with
  | Some old => bool_decide (c_ptr old ≠ c_ptr newShare)
  | None => false
  end.

(** The rebinding of [session] to [newShare] that follows the conflict test. *)
Definition rebind (p : ptr) (session : TunnelSession) (newShare : ClientConn)
  (sm : SessionManager) : SessionManager :=
  let sm := drop_conn (s_Share session) sm in
  let sm := drop_conn (s_Help session) sm in
  let sm := stop_timer (s_helpDisconnectTimer session) sm in
  let session := session <| s_helpDisconnectTimer := None |>
    <| s_Help := None |> <| s_pendingHelpID := ""%string |> <| s_Share := Some newShare |>
    <| s_SharePublicAddr := ""%string |> <| s_SharePrivateAddr := ""%string |>
    <| s_ShareNATType := ""%string |> <| s_HelpPublicAddr := ""%string |>
    <| s_HelpPrivateAddr := ""%string |> <| s_HelpNATType := ""%string |>
    <| s_shareReady := false |> <| s_dataPlaneReady := false |> in
  let sm := write p session sm in
  sm <| byConnID := <[c_ID newShare := p]> (byConnID sm) |>.

Definition ReuseSessionByClientID (now : Z) (clientID : string) (newShare : ClientConn)
  (sm : SessionManager) : ReuseOutcome * SessionManager :=
  if bool_decide (clientID = ""%string) then (NotReused, sm) else
  match deref sm (byClientID sm) clientID with
  | None => (NotReused, sm)
  | Some (p, session) =>
      if time_After now (s_ExpiresAt session) || s_closed session then (NotReused, sm) else
      let reuse session :=
        (Reused (mkReuse (s_ID session) (s_Code session) (s_ExpiresAt session)
                   (s_Share session) (s_Help session) false "" ""),
         rebind p session newShare sm) in
      if live_other session newShare then
        if time_Before now (s_conflictUntil session) then
          let session := session <| s_conflictUntil := now + shareConflictCooldown |> in
          (ConflictWith (conflictResult session), write p session sm)
        else
          let session := session <| s_liveReplaces := recordLiveReplace (s_liveReplaces session) now |> in
          if (shareConflictMaxReplaces <? length (s_liveReplaces session))%nat then
            let session := session <| s_liveReplaces := [] |>
                                   <| s_conflictUntil := now + shareConflictCooldown |> in
            (ConflictWith (conflictResult session), write p session sm)
          else reuse session
      else reuse session
  end.

(** ** Publishing the share, joining, activating the data plane *)

Definition MarkShareReady (sessionID expectedShareID : string) (sm : SessionManager)
  : bool * SessionManager :=
  match deref sm (sessions sm) sessionID with
  | None => (false, sm)
  | Some (p, session) =>
      if s_closed session || negb (conn_is (s_Share session) expectedShareID) then (false, sm)
      else (true, write p (session <| s_shareReady := true |>) sm)
  end.

Record JoinSessionResult := mkJoin {
  j_SessionID : string;
  j_Share : ClientConn;
  j_ShareID : string;
  j_ShareVersion : string;
  j_ShareHost : string;
}.

Definition JoinSession (now : Z) (code : string) (help : ClientConn) (sm : SessionManager)
  : result SessionError JoinSessionResult * SessionManager :=
  match deref sm (byCode sm) code with
  | None => (Err ErrCodeInvalid, sm)
  | Some (p, session) =>
      if time_After now (s_ExpiresAt session) then (Err ErrCodeExpired, sm) else
      if s_closed session then (Err ErrSessionNotFound, sm) else
      if negb (is_nil (s_Help session)) && bool_decide (s_pendingHelpID session = ""%string)
      then (Err ErrSessionHasHelper, sm) else
      match s_Share session with
      | None => (Err ErrSessionNotFound, sm)
      | Some share =>
          if negb (s_shareReady session) then (Err ErrSessionNotFound, sm) else
          let sm := stop_timer (s_helpDisconnectTimer session) sm in
          let sm := drop_conn (s_Help session) sm in
          let session := match s_helpDisconnectTimer session with
                         | Some _ => session <| s_helpDisconnectTimer := None |>
                                             <| s_pendingHelpID := ""%string |>
                         | None => session
                         end in
          let session := session <| s_Help := Some help |> <| s_HelpPublicAddr := ""%string |>
            <| s_HelpPrivateAddr := ""%string |> <| s_HelpNATType := ""%string |>
            <| s_dataPlaneReady := false |> in
          let sm := write p session sm in
          let sm := sm <| byConnID := <[c_ID help := p]> (byConnID sm) |> in
          (Ok (mkJoin (s_ID session) share (c_ID share) (c_Version share) (c_Host share)), sm)
      end
  end.

Definition RollbackJoin (sessionID helpID : string) (sm : SessionManager) : SessionManager :=
  match deref sm (sessions sm) sessionID with
  | None => sm
  | Some (p, session) =>
      if conn_is (s_Help session) helpID then
        let sm := sm <| byConnID := delete helpID (byConnID sm) |> in
        write p (session <| s_Help := None |> <| s_dataPlaneReady := false |>) sm
      else sm
  end.

Definition ActivateDataPlane (sessionID expectedShareID expectedHelpID : string)
  (sm : SessionManager) : bool * SessionManager :=
  match deref sm (sessions sm) sessionID with
  | None => (false, sm)
  | Some (p, session) =>
      if s_closed session then (false, sm) else
      if is_nil (s_Share session) || is_nil (s_Help session) then (false, sm) else
      if negb (conn_is (s_Share session) expectedShareID)
         || negb (conn_is (s_Help session) expectedHelpID) then (false, sm) else
      if bool_decide (s_pendingHelpID session ≠ ""%string) then (false, sm) else
      (true, write p (session <| s_dataPlaneReady := true |>) sm)
  end.

(** ** Admission of the UDP data plane *)

Definition session_data_active (session : TunnelSession) : bool :=
  negb (s_closed session) && negb (is_nil (s_Share session)) && s_shareReady session
  && negb (is_nil (s_Help session)) && bool_decide (s_pendingHelpID session = ""%string)
  && s_dataPlaneReady session.

Definition IsActiveDataSession (sessionID : string) (sm : SessionManager) : bool :=
  match deref sm (sessions sm) sessionID with
  | None => false
  | Some (_, session) => session_data_active session
  end.

Definition hostMatchesIP (hostPort : string) (srcIP : list Z) : bool :=
  if bool_decide (hostPort = ""%string) then false else
  let host := match SplitHostPort hostPort with Some (h, _) => h | None => hostPort end in
  match ParseIP host with
  | None => false
  | Some ip => IP_Equal ip srcIP
  end.

Definition remote_of (c : option ClientConn) : list string :=
  match c with
  | Some c => match c_Conn c with Some a => [a] | None => [] end
  | None => []
  end.

Definition sessionKnowsIPLocked (session : TunnelSession) (srcIP : list Z) : bool :=
  let candidates :=
    [s_SharePublicAddr session; s_SharePrivateAddr session;
     s_HelpPublicAddr session; s_HelpPrivateAddr session]
    ++ remote_of (s_Share session) ++ remote_of (s_Help session) in
  existsb (fun c => hostMatchesIP c srcIP) candidates.

Definition IsActiveDataSource (sessionID : string) (srcIP : option (list Z))
  (sm : SessionManager) : bool :=
  match deref sm (sessions sm) sessionID with
  | None => false
  | Some (_, session) =>
      if s_closed session || is_nil (s_Share session) || negb (s_shareReady session)
         || is_nil (s_Help session) || bool_decide (s_pendingHelpID session ≠ ""%string)
         || negb (s_dataPlaneReady session) then false else
      match srcIP with
      | None => false
      | Some ip => sessionKnowsIPLocked session ip
      end
  end.

(** ** Leaving the table *)

Definition decrementSessionCountLocked (shareIP : string) (sm : SessionManager) : SessionManager :=
  if bool_decide (shareIP = ""%string) then sm else
  match sessionCountPerIP sm !! shareIP with
  | None => sm
  | Some cur =>
      if cur <=? 1 then sm <| sessionCountPerIP := delete shareIP (sessionCountPerIP sm) |>
      else sm <| sessionCountPerIP := <[shareIP := cur - 1]> (sessionCountPerIP sm) |>
  end.

(** [delete(m, k)] when [m[k] == session]. *)
Definition delete_if (k : string) (p : ptr) (m : gmap string ptr) : gmap string ptr :=
  if decide (m !! k = Some p) then delete k m else m.

Definition delete_conn_if (c : option ClientConn) (p : ptr) (m : gmap string ptr) :=
  match c with Some c => delete_if (c_ID c) p m | None => m end.

(** [expected] is the pointer the caller holds, [None] for nil. *)
Definition deleteSessionLocked (sessionID : string) (expected : option ptr) (sm : SessionManager)
  : (option ClientConn * option ClientConn * bool) * SessionManager :=
  match deref sm (sessions sm) sessionID with
  | None => ((None, None, false), sm)
  | Some (p, session) =>
      if bool_decide (expected ≠ Some p) then ((None, None, false), sm) else
      let sm := stop_timer (s_helpDisconnectTimer session) sm in
      let sm := sm <| byConnID :=
        delete_conn_if (s_Help session) p (delete_conn_if (s_Share session) p (byConnID sm)) |> in
      let sm := sm <| sessions := delete sessionID (sessions sm) |>
                   <| byCode := delete_if (s_Code session) p (byCode sm) |> in
      let sm := if bool_decide (s_ClientID session ≠ ""%string)
                then sm <| byClientID := delete_if (s_ClientID session) p (byClientID sm) |> else sm in
      let sm := if s_countedByIP session
                then decrementSessionCountLocked (s_CreatorIP session) sm else sm in
      let sm := write p (session <| s_closed := true |> <| s_dataPlaneReady := false |>
        <| s_helpDisconnectTimer := None |> <| s_countedByIP := false |>) sm in
      ((s_Share session, s_Help session, true), sm)
  end.

(** The connections whose [Conn] the caller closes after the mutex is released. *)
Definition to_close (cs : list (option ClientConn)) : list ClientConn :=
  filter (fun c => is_nil (c_Conn c) = false) (omap id cs).

Definition CloseSession (sessionID : string) (sm : SessionManager) : list ClientConn * SessionManager :=
  let '((share, help, _), sm) := deleteSessionLocked sessionID (sessions sm !! sessionID) sm in
  (to_close [share; help], sm).

Definition GetActiveSessions (sm : SessionManager) : nat := size (sessions sm).

(** ** Disconnection and its debounce *)

Record DisconnectResult := mkDisconnect {
  d_PeerToNotify : option ClientConn;
  d_SessionID : string;
  d_WasShare : bool;
  d_ResetDataPlane : bool;
}.

Definition graceAfterInUseLocked (p : ptr) (now : Z) (sm : SessionManager) : SessionManager :=
  match heap sm !! p with
  | None => sm
  | Some session =>
      if (reconnectGrace sm <=? 0) || s_closed session then sm else
      let until := now + reconnectGrace sm in
      let session := if time_After until (s_ExpiresAt session)
                     then session <| s_ExpiresAt := until |> else session in
      let sm := write p session sm in
      match byCode sm !! s_Code session with
      | Some _ => sm
      | None => sm <| byCode := <[s_Code session := p]> (byCode sm) |>
      end
  end.

(** [session.field = v] on the current contents of [p]. *)
Definition update (p : ptr) (f : TunnelSession → TunnelSession) (sm : SessionManager) : SessionManager :=
  match heap sm !! p with Some s => write p (f s) sm | None => sm end.

Definition DisconnectClient (now : Z) (clientID : string) (sm : SessionManager)
  : option DisconnectResult * SessionManager :=
  match deref sm (byConnID sm) clientID with
  | None => (None, sm)
  | Some (p, session) =>
      if conn_is (s_Help session) clientID then
        let sm := sm <| byConnID := delete clientID (byConnID sm) |> in
        let sm := update p (fun s => s <| s_dataPlaneReady := false |>) sm in
        let sm := if is_nil (s_Share session) then sm else graceAfterInUseLocked p now sm in
        let t := nextTimer sm in
        let sm := update p (fun s => s <| s_pendingHelpID := clientID |>
                                       <| s_helpDisconnectTimer := Some t |>) sm in
        let sm := sm <| armed := <[t := p]> (armed sm) |> <| nextTimer := Pos.succ t |> in
        (Some (mkDisconnect None (s_ID session) false true), sm)
      else if conn_is (s_Share session) clientID then
        let sm := sm <| byConnID := delete clientID (byConnID sm) |> in
        let sm := update p (fun s => s <| s_dataPlaneReady := false |> <| s_shareReady := false |>) sm in
        let help := s_Help session in
        let sm := if is_nil help then sm else graceAfterInUseLocked p now sm in
        let sm := update p (fun s => s <| s_Share := None |> <| s_liveReplaces := [] |>
                                       <| s_conflictUntil := time_zero |>) sm in
        (Some (mkDisconnect help (s_ID session) true true), sm)
      else (None, sm)
  end.

(** The runtime starts the callback of an armed timer. *)
Definition timer_fire (t : timer) (sm : SessionManager) : SessionManager :=
  match armed sm !! t with
  | Some p => sm <| armed := delete t (armed sm) |> <| running := <[t := p]> (running sm) |>
  | None => sm
  end.

(** The closure given to [time.AfterFunc], once it holds the mutex. The result is
    the share [onHelpCleared] is called with. *)
Definition debounce_callback (t : timer) (sm : SessionManager) : option ClientConn * SessionManager :=
  match running sm !! t with
  | None => (None, sm)
  | Some p =>
      let sm := sm <| running := delete t (running sm) |> in
      match heap sm !! p with
      | None => (None, sm)
      | Some session =>
          if conn_is (s_Help session) (s_pendingHelpID session) then
            (s_Share session,
             write p (session <| s_Help := None |> <| s_pendingHelpID := ""%string |>) sm)
          else (None, sm)
      end
  end.

(** ** Expiry *)

(** One round of the loop over [sm.sessions]; [expired] and [toClose] grow. *)
Definition cleanup_one (now : Z) (acc : list string * list ClientConn * SessionManager) (sid : string)
  : list string * list ClientConn * SessionManager :=
  let '(expired, toClose, sm) := acc in
  match deref sm (sessions sm) sid with
  | None => acc
  | Some (p, session) =>
      if time_After now (s_ExpiresAt session) then
        let sm := sm <| byCode := delete_if (s_Code session) p (byCode sm) |> in
        if negb (is_nil (s_Share session)) && negb (is_nil (s_Help session))
        then (expired, toClose, sm) else
        let '((share, help, deleted), sm) := deleteSessionLocked sid (Some p) sm in
        if deleted then (expired ++ [sid], toClose ++ to_close [share; help], sm)
        else (expired, toClose, sm)
      else acc
  end.

(** Go ranges over a map in an unspecified order: [order] enumerates the keys. *)
Definition CleanupExpired (now : Z) (order : list string) (sm : SessionManager)
  : list string * list ClientConn * SessionManager :=
  fold_left (cleanup_one now) order ([], [], sm).

(** ** Peer addresses

    [remote_addr] is [c.Conn.RemoteAddr()]; a connection reaches the table with
    its [Conn] set. *)

Record PeerAddrUpdate := mkPeerAddrUpdate {
  u_Peer : ClientConn;
  u_IsShareSide : bool;
  u_SameNetwork : bool;
  u_NATType : string;
}.

Definition detectSameNetwork (shareRemote helpRemote sharePrivate helpPrivate : string) : bool :=
  let shareHost := match SplitHostPort shareRemote with Some (h, _) => h | None => ""%string end in
  let helpHost := match SplitHostPort helpRemote with Some (h, _) => h | None => ""%string end in
  bool_decide (shareHost ≠ ""%string) && bool_decide (shareHost = helpHost).

Definition remote_addr (c : ClientConn) : string := default ""%string (c_Conn c).

Definition UpdatePeerAddr (clientID publicAddr privateAddr natType : string) (sm : SessionManager)
  : option PeerAddrUpdate * SessionManager :=
  match deref sm (byConnID sm) clientID with
  | None => (None, sm)
  | Some (p, session) =>
      if conn_is (s_Share session) clientID then
        let session := session <| s_SharePublicAddr := publicAddr |>
          <| s_SharePrivateAddr := privateAddr |> <| s_ShareNATType := natType |> in
        (match s_Share session, s_Help session with
         | Some share, Some help =>
             Some (mkPeerAddrUpdate help true
               (detectSameNetwork (remote_addr share) (remote_addr help)
                  (s_SharePrivateAddr session) (s_HelpPrivateAddr session)) natType)
         | _, _ => None
         end, write p session sm)
      else if conn_is (s_Help session) clientID then
        let session := session <| s_HelpPublicAddr := publicAddr |>
          <| s_HelpPrivateAddr := privateAddr |> <| s_HelpNATType := natType |> in
        (match s_Share session, s_Help session with
         | Some share, Some help =>
             Some (mkPeerAddrUpdate share false
               (detectSameNetwork (remote_addr share) (remote_addr help)
                  (s_SharePrivateAddr session) (s_HelpPrivateAddr session)) natType)
         | _, _ => None
         end, write p session sm)
      else (None, sm)
  end.

Definition FindPeer (clientID : string) (sm : SessionManager) : option ClientConn :=
  match deref sm (byConnID sm) clientID with
  | None => None
  | Some (_, session) =>
      if conn_is (s_Share session) clientID then s_Help session
      else if conn_is (s_Help session) clientID then s_Share session
      else None
  end.
