(* ===== verification/RelayServer.v ===== *)
(** * The relay server ([internal/relay/server.go])

    Connections are admitted, numbered and read message by message; the handlers
    below drive the session table, charge the rate limiters and answer.  A handler
    is a computation of a small monad: it transforms the server, and collects what
    it sends, in order.  [None] means that it does not return: the random source
    never yields an unused id, or the clock readings supplied for a throttled
    message are used up.

    A server is the one [NewServer] builds: no limiter is nil.  Log lines and audit
    records, with the counters that sample them, are left out.  A message comes
    with its payload both raw and decoded: each [m_*] field below is what
    [proto.DecodePayload] returns for that payload type. *)

From S2P Require Import Prelude GoNet GoText Update RelayText GoFloat Ratelimit Limits StunCandidates RelaySession.

Open Scope Z_scope.

(** ** State *)

(** [client.Type]: "", "share" or "help". *)
Inductive ConnState := connStateNew | connStateShare | connStateHelp.

#[export] Instance ConnState_eq_dec : EqDecision ConnState.
Proof. solve_decision. Defined.

(** A connection as its read loop sees it. *)
Record Client := mkClient {
  cl_conn : ClientConn;
  cl_Type : ConnState;
  cl_joinFailures : Z;
}.

#[export] Instance Client_eta : Eta Client := fun c =>
  mkClient (cl_conn c) (cl_Type c) (cl_joinFailures c).

#[export] Instance ClientConn_eta : Eta ClientConn := fun c =>
  mkClientConn (c_ptr c) (c_ID c) (c_ClientID c) (c_Version c) (c_Host c) (c_supportsUpdateNotice c) (c_Conn c).

(** The fields of [Config] the handlers read. *)
Record Config := mkConfig {
  cf_CodeTTL : Z;
  cf_CodeLength : Z;
  cf_NoAuth : bool;
  cf_DisableSourceIPLimits : bool;
  cf_Limits : TCP.Limits;
  cf_Update : UpdateInfo;
  cf_AdvertiseSTUN : list string;
  cf_UpdateInfoFile : string;
}.

#[export] Instance Config_eta : Eta Config := fun c =>
  mkConfig (cf_CodeTTL c) (cf_CodeLength c) (cf_NoAuth c) (cf_DisableSourceIPLimits c) (cf_Limits c)
    (cf_Update c) (cf_AdvertiseSTUN c) (cf_UpdateInfoFile c).

(** [sv_stun]: whether the STUN server runs; [sv_clients]: the keys of the
    [clients] map. *)
Record Server := mkServer {
  sv_config : Config;
  sv_stun : bool;
  sv_sessions : SessionManager;
  sv_codes : CodeManager;
  sv_clients : gset string;
  sv_connTotal : Z;
  sv_connPerIP : gmap string Z;
  sv_joinLimiterPerIP : KeyedLimiter;
  sv_joinLimiterGlobal : Bucket;
  sv_createLimiterPerIP : KeyedLimiter;
  sv_createLimiterGlobal : Bucket;
  sv_heartbeatLimiterPerIP : KeyedLimiter;
  sv_heartbeatLimiterGlobal : Bucket;
  sv_tunnelDataLimiterPerConn : KeyedLimiter;
  sv_tunnelDataLimiterGlobal : Bucket;
  sv_controlLimiterPerConn : KeyedLimiter;
  sv_controlLimiterGlobal : Bucket;
  sv_toolLimiterPerConn : KeyedLimiter;
  sv_toolLimiterGlobal : Bucket;
  sv_limits : TCP.Limits;
  sv_updateInfo : UpdateInfo;
}.

#[export] Instance Server_eta : Eta Server := fun s =>
  mkServer (sv_config s) (sv_stun s) (sv_sessions s) (sv_codes s) (sv_clients s) (sv_connTotal s)
    (sv_connPerIP s) (sv_joinLimiterPerIP s) (sv_joinLimiterGlobal s) (sv_createLimiterPerIP s)
    (sv_createLimiterGlobal s) (sv_heartbeatLimiterPerIP s) (sv_heartbeatLimiterGlobal s)
    (sv_tunnelDataLimiterPerConn s) (sv_tunnelDataLimiterGlobal s) (sv_controlLimiterPerConn s)
    (sv_controlLimiterGlobal s) (sv_toolLimiterPerConn s) (sv_toolLimiterGlobal s) (sv_limits s)
    (sv_updateInfo s).

(** ** What the server sends and does to the outside *)

Inductive OutMsg :=
| RegisterResponse (Code : string) (ExpiresAt : Z) (info : UpdateInfo) (STUNServers : list string)
| JoinResponse (Success : bool) (SessionID Error PeerVersion PeerHost : string) (info : UpdateInfo)
    (STUNServers : list string)
| SessionReady (SessionID PeerVersion PeerHost : string)
| ErrorMessage (Code Message : string)
| Heartbeat (Timestamp : Z)
| PeerAddrReady (PeerPublicAddr PeerPrivateAddr : string) (IsShare SameNetwork : bool) (PeerNATType : string)
| Forwarded (Type_ Payload : string).

Inductive Out :=
| Send (to : ClientConn) (m : OutMsg)
| CloseConn (c : ClientConn)
| InvalidateRelaySession (sid : string).

(** ** The monad of handlers *)

Definition M (A : Type) : Type := Server → option (A * Server * list Out).

Definition ret {A : Type} (a : A) : M A := fun s => Some (a, s, []).
Definition bind {A B : Type} (m : M A) (f : A → M B) : M B := fun s =>
  match m s with
  | None => None
  | Some (a, s, out) =>
      match f a s with
      | None => None
      | Some (b, s, out') => Some (b, s, out ++ out')
      end
  end.
Notation "'do' x <- m ; k" := (bind m (fun x => k))
  (at level 20, x name, m at level 100, k at level 200, right associativity) : go_scope.

Definition get : M Server := fun s => Some (s, s, []).
Definition emit (o : list Out) : M unit := fun s => Some (tt, s, o).
Definition diverge {A} : M A := fun _ => None.

(** A method of the session table. *)
Definition on_sessions {A} (f : SessionManager → A * SessionManager) : M A := fun s =>
  let '(a, sm) := f (sv_sessions s) in Some (a, s <| sv_sessions := sm |>, []).

(** A request to a limiter of the server. *)
Definition ask_keyed (f : Server → KeyedLimiter) {S : SetField f} (now : Z) (key : string) (n : float64) : M bool :=
  fun s => let '(b, k) := KeyedAllowN now key n (f s) in Some (b, s <| f := k |>, []).
Definition ask_bucket (f : Server → Bucket) {S : SetField f} (now : Z) (n : float64) : M bool :=
  fun s => let '(b, k) := AllowN now n (f s) in Some (b, s <| f := k |>, []).

Definition one : float64 := float_of 1.

(** [sendMsg]: nothing is written to a client without a connection. *)
Definition sendMsg (c : ClientConn) (m : OutMsg) : M unit :=
  match c_Conn c with None => ret tt | Some _ => emit [Send c m] end.

Definition sendError (c : ClientConn) (code message : string) : M unit := sendMsg c (ErrorMessage code message).

(** [c.Conn.Close()] when [c] and its connection are not nil. *)
Definition close_conn (c : option ClientConn) : M unit :=
  match c with
  | Some c => match c_Conn c with Some _ => emit [CloseConn c] | None => ret tt end
  | None => ret tt
  end.

(** [s.stunServer.InvalidateRelaySession(sid)] when there is one. *)
Definition invalidate (sid : string) : M unit :=
  do s <- get; if sv_stun s then emit [InvalidateRelaySession sid] else ret tt.

Definition ErrCodePeerDisconnected : string := "PEER_DISCONNECTED".
Definition ErrCodePeerReconnected : string := "PEER_RECONNECTED".
Definition ErrCodeClientIDConflict : string := "CLIENT_ID_CONFLICT".

(** ** Construction *)

Inductive ConfigError :=
| InvalidLimits (e : LimitError)
| InvalidAdvertiseSTUN
| RelativeUpdateInfoFile.

(** The defaults of a code. *)
Definition code_defaults (cfg : Config) : Config :=
  let cfg := if cf_CodeTTL cfg =? 0 then cfg <| cf_CodeTTL := 30 * Minute |> else cfg in
  if cf_CodeLength cfg =? 0 then cfg <| cf_CodeLength := 10 |> else cfg.

(** The server under validated limits. *)
Definition build_server (cfg : Config) (limits : TCP.Limits) (stun : bool) (now : Z) : Server :=
  let idle := TCP.LimiterIdleSeconds limits * Second in
  let keyed rate burst := NewKeyedLimiter rate burst (TCP.LimiterMaxKeys limits) idle in
  let bucket rate burst := NewBucket rate burst now in
  let baseUpdate := normalizeUpdateInfo (cf_Update cfg) in
  mkServer (cfg <| cf_Limits := limits |> <| cf_Update := baseUpdate |>) stun (NewSessionManager (cf_CodeTTL cfg))
    (NewCodeManager (cf_CodeLength cfg)) ∅ 0 ∅
    (keyed (TCP.JoinRatePerIP limits) (TCP.JoinBurstPerIP limits))
    (bucket (TCP.JoinRateGlobal limits) (TCP.JoinBurstGlobal limits))
    (keyed (TCP.CreateRatePerIP limits) (TCP.CreateBurstPerIP limits))
    (bucket (TCP.CreateRateGlobal limits) (TCP.CreateBurstGlobal limits))
    (keyed (TCP.HeartbeatRatePerIP limits) (TCP.HeartbeatBurstPerIP limits))
    (bucket (TCP.HeartbeatRateGlobal limits) (TCP.HeartbeatBurstGlobal limits))
    (keyed (TCP.DataRatePerConnection limits) (TCP.DataBurstPerConnection limits))
    (bucket (TCP.DataRateGlobal limits) (TCP.DataBurstGlobal limits))
    (keyed (TCP.ControlRatePerConnection limits) (TCP.ControlBurstPerConnection limits))
    (bucket (TCP.ControlRateGlobal limits) (TCP.ControlBurstGlobal limits))
    (keyed (TCP.ToolRateKiBPerConnection limits) (TCP.ToolBurstKiBPerConnection limits))
    (bucket (TCP.ToolRateKiBGlobal limits) (TCP.ToolBurstKiBGlobal limits))
    limits baseUpdate.

(** [stun] is whether the STUN server starts, which happens later. The file of
    announcements is read after construction (see [reload_update_info]). *)
Definition NewServer (cfg : Config) (stun : bool) (now : Z) : result ConfigError Server :=
  let cfg := code_defaults cfg in
  let limits := TCP.normalizeLimits (cf_Limits cfg) in
  match TCP.ValidateLimits limits with
  | Some e => Err (InvalidLimits e)
  | None =>
      if negb (ValidateAdvertiseSTUN (map bytes_of (cf_AdvertiseSTUN cfg))) then Err InvalidAdvertiseSTUN else
      if bool_decide (cf_UpdateInfoFile cfg ≠ ""%string) && negb (has_prefix [47] (bytes_of (cf_UpdateInfoFile cfg)))
      then Err RelativeUpdateInfoFile
      else Ok (build_server cfg limits stun now)
  end.

(** ** Admission of connections *)

Definition sourceIPLimitsDisabled (s : Server) : bool := cf_DisableSourceIPLimits (sv_config s).

Definition conns_of (s : Server) (ip : string) : Z := default 0 (sv_connPerIP s !! ip).

Definition acquireConnSlot (ip : string) (s : Server) : bool * Server :=
  if TCP.MaxConnectionsTotal (sv_limits s) <=? sv_connTotal s then (false, s)
  else if negb (sourceIPLimitsDisabled s) && (TCP.MaxConnectionsPerIP (sv_limits s) <=? conns_of s ip)
  then (false, s)
  else (true, s <| sv_connTotal := sv_connTotal s + 1 |>
                <| sv_connPerIP := <[ip := conns_of s ip + 1]> (sv_connPerIP s) |>).

Definition releaseConnSlot (ip : string) (s : Server) : Server :=
  match sv_connPerIP s !! ip with
  | None => s
  | Some cur =>
      let s := if cur <=? 1 then s <| sv_connPerIP := delete ip (sv_connPerIP s) |>
               else s <| sv_connPerIP := <[ip := cur - 1]> (sv_connPerIP s) |> in
      if 0 <? sv_connTotal s then s <| sv_connTotal := sv_connTotal s - 1 |> else s
  end.

(** The host a connection is counted under. *)
Definition host_of (addr : string) : string :=
  match SplitHostPort addr with Some (host, _) => host | None => addr end.

Definition clientHost (c : ClientConn) : string :=
  match c_Conn c with None => ""%string | Some addr => host_of addr end.

(** [registerClient]: [cands] are the ids [generateClientID] yields, the client's
    own first. *)
Definition registerClient (cands : list string) : M string := fun s =>
  match find (fun id => negb (bool_decide (id ∈ sv_clients s))) cands with
  | None => None
  | Some id => Some (id, s <| sv_clients := {[id]} ∪ sv_clients s |>, [])
  end.

(** ** Charging the limiters *)

(** [X.Allow(key)] then [Y.Allow()]: the second limiter is only asked when the
    first one agreed. *)
Definition allowDataMessage (now : Z) (c : ClientConn) : M bool :=
  do ok <- ask_keyed sv_tunnelDataLimiterPerConn now (c_ID c) one;
  if negb ok then ret false else ask_bucket sv_tunnelDataLimiterGlobal now one.

Definition allowControlMessage (now : Z) (c : ClientConn) : M bool :=
  do ok <- ask_keyed sv_controlLimiterPerConn now (c_ID c) one;
  if negb ok then ret false else ask_bucket sv_controlLimiterGlobal now one.

Definition toolMinFrameCostKiB : Z := 16.
Definition toolThrottleMaxWait : Z := 2 * Second.
Definition toolThrottleStep : Z := 20000000.

Definition tool_cost (payloadBytes : Z) : float64 :=
  let cost := float_of ((payloadBytes + 1023) / 1024) in
  if flt cost (float_of toolMinFrameCostKiB) then float_of toolMinFrameCostKiB else cost.

(** The loop of [allowToolMessage]; [ticks] are the readings of the clock, one per
    round: [toolThrottleStep] and more apart, since the loop sleeps. *)
Fixpoint tool_loop (ticks : list Z) (deadline : Z) (id : string) (cost : float64) (perConnPaid : bool) : M bool :=
  match ticks with
  | [] => diverge
  | now :: ticks =>
      do perConnPaid <- (if perConnPaid then ret true else ask_keyed sv_toolLimiterPerConn now id cost);
      do ok <- (if perConnPaid then ask_bucket sv_toolLimiterGlobal now cost else ret false);
      if ok then ret true
      else if negb (time_Before now deadline) then ret false
      else tool_loop ticks deadline id cost perConnPaid
  end.

Definition allowToolMessage (now : Z) (ticks : list Z) (c : ClientConn) (payloadBytes : Z) : M bool :=
  tool_loop ticks (now + toolThrottleMaxWait) (c_ID c) (tool_cost payloadBytes) false.

(** ** Joining *)

Definition identity_of (c : ClientConn) : Identity :=
  mkIdentity (bytes_of (c_Version c)) (bytes_of (c_Host c)) (c_supportsUpdateNotice c).

Definition NoAuthCode : string := "noauth".

(** The one answer to every refused join, whatever the reason. *)
Definition rejectJoin (client : Client) : M (bool * Client) :=
  let client := client <| cl_joinFailures := cl_joinFailures client + 1 |> in
  do _ <- sendMsg (cl_conn client)
    (JoinResponse false "" "join failed" "" "" (mkUpdateInfo [] [] []) []);
  do s <- get;
  ret (TCP.MaxJoinFailures (sv_limits s) <=? cl_joinFailures client, client).

Definition handleJoin (now : Z) (client : Client) (code : string) : M (bool * Client) :=
  let c := cl_conn client in
  let code := string_of (normalizeCode (bytes_of code)) in
  do s <- get;
  do ok <- (if sourceIPLimitsDisabled s then ret true else ask_keyed sv_joinLimiterPerIP now (clientHost c) one);
  if negb ok then rejectJoin client else
  do ok <- ask_bucket sv_joinLimiterGlobal now one;
  if negb ok then rejectJoin client else
  do r <- on_sessions (JoinSession now code c);
  match r with
  | Err _ => rejectJoin client
  | Ok j =>
      do _ <- invalidate (j_SessionID j);
      do active <- on_sessions (ActivateDataPlane (j_SessionID j) (j_ShareID j) (c_ID c));
      if negb active then
        do _ <- on_sessions (fun sm => (tt, RollbackJoin (j_SessionID j) (c_ID c) sm));
        rejectJoin client
      else
        let client := client <| cl_joinFailures := 0 |> <| cl_Type := connStateHelp |> in
        let info := sv_updateInfo s in
        do _ <- sendMsg c (JoinResponse true (j_SessionID j) "" (j_ShareVersion j)
          (string_of (legacyHelpUpdateHost (Some (identity_of c)) info (bytes_of (j_ShareHost j))))
          info (cf_AdvertiseSTUN (sv_config s)));
        do _ <- sendMsg (j_Share j) (SessionReady (j_SessionID j) (c_Version c)
          (string_of (legacyShareSessionReadyHost (Some (identity_of (j_Share j))) info (bytes_of (c_Host c)))));
        ret (false, client)
  end.

(** ** Registering *)

Definition conflict_message (r : ReuseSessionResult) : string :=
  ("另一个使用同一身份的被协助端进程已在线（版本 " +:+ r_OnlineVersion r +:+ "，" +:+ r_OnlineHost r
   +:+ "），两者正在互相顶替；请先停止其中一个进程")%string.

(** The text of a refused creation. *)
Definition session_error (e : SessionError) : string :=
  match e with
  | ErrSessionNotFound => "session not found"
  | ErrCodeExpired => "code expired"
  | ErrCodeInvalid => "invalid code"
  | ErrSessionHasHelper => "session already has helper"
  | ErrMaxTotalSessions => "max total sessions reached"
  | ErrMaxSessionsPerIP => "max sessions per IP reached"
  end.

(** The random choices of a registration: the draws of the code, the candidate
    session ids, the address of the session, and the text of the error when the
    random source fails. *)
Record Fresh := mkFresh {
  fr_draw : nat → option Z;
  fr_cands : list string;
  fr_ptr : positive;
  fr_err : string;
}.

(** What follows the registration proper: the answer, the publication of the
    share, the dismissal of the former helper. *)
Definition finishRegister (client : Client) (code : string) (expiresAt : Z) (sessionID : string)
  (oldHelp : option ClientConn) : M (bool * Client) :=
  let c := cl_conn client in
  let client := client <| cl_Type := connStateShare |> in
  do s <- get;
  do _ <- sendMsg c (RegisterResponse code (expiresAt / Second) (sv_updateInfo s) (cf_AdvertiseSTUN (sv_config s)));
  do ready <- on_sessions (MarkShareReady sessionID (c_ID c));
  if negb ready then ret (true, client) else
  match oldHelp with
  | Some h =>
      match c_Conn h with
      | Some _ =>
          do _ <- sendError h ErrCodePeerReconnected "被协助端连接已更新，请重新加入";
          do _ <- close_conn (Some h);
          ret (false, client)
      | None => ret (false, client)
      end
  | None => ret (false, client)
  end.

(** [s.sessions.createPendingSession] with its loop over random ids. *)
Definition create_pending (now : Z) (fresh : Fresh) (code : string) (c : ClientConn) (host : string)
  (maxPerIP maxTotal ttl : Z) : M (result SessionError TunnelSession) := fun s =>
  match createPendingSession now (fr_cands fresh) (fr_ptr fresh) code (Some c) ttl (c_ClientID c) host
          maxPerIP maxTotal (sv_sessions s) with
  | None => None
  | Some (r, sm) => Some (r, s <| sv_sessions := sm |>, [])
  end.

(** A new session, when none could be reused. *)
Definition registerNew (now : Z) (fresh : Fresh) (client : Client) : M (bool * Client) :=
  let c := cl_conn client in
  do s <- get;
  match (if cf_NoAuth (sv_config s) then Some NoAuthCode
         else string_of <$> Generate (sv_codes s) (fr_draw fresh)) with
  | None => do _ <- sendError c "CODE_GEN_FAILED" (fr_err fresh); ret (true, client)
  | Some code =>
      let maxPerIP := if sourceIPLimitsDisabled s then 0 else TCP.MaxActiveSessionsPerIP (sv_limits s) in
      do r <- create_pending now fresh code c (clientHost c) maxPerIP
        (TCP.MaxActiveSessionsTotal (sv_limits s)) (cf_CodeTTL (sv_config s));
      match r with
      | Err e => do _ <- sendError c "SESSION_LIMIT" (session_error e); ret (true, client)
      | Ok session => finishRegister client code (s_ExpiresAt session) (s_ID session) None
      end
  end.

Definition handleRegister (now : Z) (fresh : Fresh) (client : Client) : M (bool * Client) :=
  let c := cl_conn client in
  do s <- get;
  do ok <- (if sourceIPLimitsDisabled s then ret true else ask_keyed sv_createLimiterPerIP now (clientHost c) one);
  if negb ok then do _ <- sendError c "RATE_LIMITED" "too many create attempts"; ret (true, client) else
  do ok <- ask_bucket sv_createLimiterGlobal now one;
  if negb ok then do _ <- sendError c "RATE_LIMITED" "server busy"; ret (true, client) else
  if bool_decide (c_ClientID c = ""%string) then registerNew now fresh client else
  do o <- on_sessions (ReuseSessionByClientID now (c_ClientID c) c);
  match o with
  | ConflictWith r => do _ <- sendError c ErrCodeClientIDConflict (conflict_message r); ret (true, client)
  | NotReused => registerNew now fresh client
  | Reused r =>
      do _ <- invalidate (r_SessionID r);
      do _ <- (match r_OldShare r with
           | Some old => if bool_decide (c_ptr old ≠ c_ptr c) then close_conn (Some old) else ret tt
           | None => ret tt
           end);
      finishRegister client (r_Code r) (r_ExpiresAt r) (r_SessionID r) (r_OldHelp r)
  end.

(** ** Traffic between the two ends *)

Definition forwardToPeer (c : ClientConn) (type payload : string) : M unit :=
  do s <- get;
  match FindPeer (c_ID c) (sv_sessions s) with
  | Some target => sendMsg target (Forwarded type payload)
  | None => ret tt
  end.

Record Advertise := mkAdvertise { ad_PublicAddr : string; ad_PrivateAddr : string; ad_NATType : string }.

(** The public address to announce: the client's own, else its TCP source address
    with the port of its private address. *)
Definition advertised_addr (c : ClientConn) (a : Advertise) : string :=
  if bool_decide (ad_PublicAddr a ≠ ""%string) then ad_PublicAddr a else
  match c_Conn c with
  | None => ""%string
  | Some remote =>
      match SplitHostPort remote with
      | Some (host, _) =>
          let privPort := match SplitHostPort (ad_PrivateAddr a) with Some (_, p) => p | None => ""%string end in
          if bool_decide (host ≠ ""%string) && bool_decide (privPort ≠ ""%string)
             && bool_decide (privPort ≠ "0"%string)
          then JoinHostPort host privPort else ""%string
      | None => ""%string
      end
  end.

Definition handlePeerAddrAdvertise (c : ClientConn) (advert : option Advertise) : M unit :=
  match advert with
  | None => ret tt
  | Some a =>
      let public := advertised_addr c a in
      do u <- on_sessions (UpdatePeerAddr (c_ID c) public (ad_PrivateAddr a) (ad_NATType a));
      match u with
      | Some u => sendMsg (u_Peer u) (PeerAddrReady public (ad_PrivateAddr a) (u_IsShareSide u)
                                        (u_SameNetwork u) (u_NATType u))
      | None => ret tt
      end
  end.

(** ** One message *)

Record RegisterRequest := mkRegisterRequest {
  rr_ClientID : string; rr_Version : string; rr_Host : string; rr_SupportsUpdateNotice : bool }.
Record JoinRequest := mkJoinRequest {
  jr_Code : string; jr_Version : string; jr_Host : string; jr_SupportsUpdateNotice : bool }.

Record Message := mkMessage {
  m_Type : string;
  m_Payload : string;
  m_register : option RegisterRequest;
  m_join : option JoinRequest;
  m_advert : option Advertise;
}.

Definition tool_types : list string :=
  ["tool_hello"; "tool_hello_ack"; "tool_req"; "tool_resp"; "tool_stream"; "tool_cancel"]%string.
Definition business_types : list string :=
  ["tunnel_data"; "heartbeat"; "peer_addr_advertise"; "p2p_connected"]%string ++ tool_types.

Definition sanitized (s : string) : string := string_of (sanitizePeerString (bytes_of s)).

(** The readings of the clock and the random choices a message may need. *)
Record Env := mkEnv { e_now : Z; e_ticks : list Z; e_fresh : Fresh }.

Definition handleBusiness (env : Env) (client : Client) (msg : Message) : M (bool * Client) :=
  let c := cl_conn client in
  let now := e_now env in
  if bool_decide (m_Type msg = "tunnel_data"%string) then
    do ok <- allowDataMessage now c;
    if negb ok then ret (false, client) else
    do _ <- forwardToPeer c "tunnel_data" (m_Payload msg); ret (false, client)
  else if bool_decide (m_Type msg = "heartbeat"%string) then
    do s <- get;
    do ok <- (if sourceIPLimitsDisabled s then ret true else ask_keyed sv_heartbeatLimiterPerIP now (clientHost c) one);
    if negb ok then ret (false, client) else
    do ok <- ask_bucket sv_heartbeatLimiterGlobal now one;
    if negb ok then ret (false, client) else
    do _ <- sendMsg c (Heartbeat (now / Second)); ret (false, client)
  else if bool_decide (m_Type msg = "peer_addr_advertise"%string) then
    do ok <- allowControlMessage now c;
    if negb ok then ret (false, client) else
    do _ <- handlePeerAddrAdvertise c (m_advert msg); ret (false, client)
  else if bool_decide (m_Type msg = "p2p_connected"%string) then
    do _ <- allowControlMessage now c; ret (false, client)
  else
    do ok <- allowToolMessage now (e_ticks env) c (Z.of_nat (String.length (m_Payload msg)));
    if negb ok then do _ <- sendError c "RATE_LIMITED" "tool channel rate limit exceeded"; ret (true, client)
    else do _ <- forwardToPeer c (m_Type msg) (m_Payload msg); ret (false, client).

Definition handleMessage (env : Env) (client : Client) (msg : Message) : M (bool * Client) :=
  if bool_decide (m_Type msg = "register_request"%string) then
    if bool_decide (cl_Type client ≠ connStateNew) then ret (true, client) else
    match m_register msg with
    | None => ret (true, client)
    | Some req =>
        let conn := (cl_conn client) <| c_ClientID := rr_ClientID req |> <| c_Version := sanitized (rr_Version req) |>
          <| c_Host := sanitized (rr_Host req) |> <| c_supportsUpdateNotice := rr_SupportsUpdateNotice req |> in
        handleRegister (e_now env) (e_fresh env) (client <| cl_conn := conn |>)
    end
  else if bool_decide (m_Type msg = "join_request"%string) then
    if bool_decide (cl_Type client ≠ connStateNew) then ret (true, client) else
    match m_join msg with
    | None => ret (true, client)
    | Some req =>
        let conn := (cl_conn client) <| c_Version := sanitized (jr_Version req) |>
          <| c_Host := sanitized (jr_Host req) |> <| c_supportsUpdateNotice := jr_SupportsUpdateNotice req |> in
        handleJoin (e_now env) (client <| cl_conn := conn |>) (jr_Code req)
    end
  else if bool_decide (m_Type msg ∈ business_types) then
    if bool_decide (cl_Type client = connStateNew) then ret (true, client)
    else handleBusiness env client msg
  else ret (true, client).

(** ** The end of a connection, and the background tasks *)

(** The deferred calls of [serveConn], up to the release of the slot. *)
Definition disconnect (now : Z) (c : ClientConn) : M unit := 
  do _ <- (fun s => Some (tt, s <| sv_clients := sv_clients s ∖ {[c_ID c]} |>, []));
  do r <- on_sessions (DisconnectClient now (c_ID c));
  do _ <- (match r with
       | Some d =>
           do _ <- (if d_ResetDataPlane d then invalidate (d_SessionID d) else ret tt);
           match d_PeerToNotify d with
           | Some peer => sendError peer ErrCodePeerDisconnected "被协助端已断开连接"
           | None => ret tt
           end
       | None => ret tt
       end);
  close_conn (Some c).

(** [onHelpCleared]: the share is told once the debounce really cleared its helper. *)
Definition notifyShareHelpGone (share : ClientConn) : M unit :=
  sendError share ErrCodePeerDisconnected "协助端已断开连接".

Definition debounce (t : positive) : M unit :=
  do share <- on_sessions (debounce_callback t);
  match share with Some c => notifyShareHelpGone c | None => ret tt end.

(** One tick of [cleanupLoop]; the connections [CleanupExpired] closes itself come
    first. *)
Fixpoint invalidate_all (ids : list string) : M unit :=
  match ids with
  | [] => ret tt
  | id :: ids => do _ <- invalidate id; invalidate_all ids
  end.

Definition cleanup_tick (now : Z) (order : list string) : M unit :=
  do r <- on_sessions (fun sm => let '(expired, closed, sm) := CleanupExpired now order sm in ((expired, closed), sm));
  do _ <- emit (map CloseConn r.2);
  invalidate_all r.1.

(** [reloadUpdateInfoFile] once the file was read: [None] when it no longer
    exists, [Some None] when it disables the announcement. *)
Definition reload_update_info (base : UpdateInfo) (file : option (option UpdateInfo)) : M unit := fun s =>
  let info := match file with
              | None => base
              | Some None => mkUpdateInfo [] [] []
              | Some (Some info) => mergeUpdateInfo base info
              end in
  Some (tt, s <| sv_updateInfo := info |>, []).
