(* ===== verification/RelayLoop.v ===== *)
(** * The relay as a whole: connections and events

    The server of [RelayServer] together with its open connections.  Every
    goroutine of the program appears as a kind of event: the admission of a
    connection ([handleConn]), the next message of its read loop ([serveConn]), the
    end of that loop, a debounce timer, a tick of [cleanupLoop], a reload of the
    announcement.  Events are atomic here; the methods of the session table are
    atomic in the program (it has one lock), and the theorems on the table hold for
    every interleaving of its operations. *)

From S2P Require Import Prelude GoNet GoText RelayText RelayServer RelaySession.

Open Scope Z_scope.

(** The time stamp, and the base32 token of the random source. *)
Definition generateClientID (stamp token : string) : string := ("cli_" +:+ stamp +:+ "_" +:+ token)%string.

(** [o_closing]: the read loop has returned and its deferred calls are to come. *)
Record OpenConn := mkOpenConn { o_client : Client; o_remote : string; o_closing : bool }.

#[export] Instance OpenConn_eta : Eta OpenConn := fun o =>
  mkOpenConn (o_client o) (o_remote o) (o_closing o).

Record Relay := mkRelay { rl_server : Server; rl_open : gmap string OpenConn }.

#[export] Instance Relay_eta : Eta Relay := fun r => mkRelay (rl_server r) (rl_open r).

Inductive Event :=
| Accepted (p : positive) (remote : string) (tokens : list (string * string))
| Received (id : string) (env : Env) (msg : Message)
| Ended (id : string)
| Deferred (id : string) (now : Z)
| TimerFired (t : timer)
| TimerRan (t : timer)
| CleanupTick (now : Z) (order : list string)
| UpdateReloaded (file : option (option UpdateInfo)).

(** The client [serveConn] starts with. *)
Definition new_client (p : positive) (id remote : string) : Client :=
  mkClient (mkClientConn p id "" "" "" false (Some remote)) connStateNew 0.

(** [handleConn] up to the read loop. *)
Definition handleConn (p : positive) (remote : string) (tokens : list (string * string)) (r : Relay)
  : option (Relay * list Out) :=
  let (ok, s) := acquireConnSlot (host_of remote) (rl_server r) in
  if negb ok then
    Some (r <| rl_server := s |>, [CloseConn (cl_conn (new_client p "" remote))])
  else
    match registerClient (map (fun t => generateClientID t.1 t.2) tokens) s with
    | None => None
    | Some (id, s, out) =>
        Some (mkRelay s (<[id := mkOpenConn (new_client p id remote) remote false]> (rl_open r)), out)
    end.

(** One round of the read loop of connection [id]. *)
Definition read_message (id : string) (env : Env) (msg : Message) (r : Relay) : option (Relay * list Out) :=
  match rl_open r !! id with
  | None => None
  | Some o =>
      if o_closing o then None else
      match handleMessage env (o_client o) msg (rl_server r) with
      | None => None
      | Some ((close, client), s, out) =>
          Some (mkRelay s (<[id := o <| o_client := client |> <| o_closing := close |>]> (rl_open r)), out)
      end
  end.

(** The deferred calls of [serveConn] and [handleConn]. *)
Definition run_deferred (id : string) (now : Z) (r : Relay) : option (Relay * list Out) :=
  match rl_open r !! id with
  | None => None
  | Some o =>
      if negb (o_closing o) then None else
      match disconnect now (cl_conn (o_client o)) (rl_server r) with
      | None => None
      | Some (_, s, out) => Some (mkRelay (releaseConnSlot (host_of (o_remote o)) s) (delete id (rl_open r)), out)
      end
  end.

Definition on_server (m : M unit) (r : Relay) : option (Relay * list Out) :=
  match m (rl_server r) with
  | None => None
  | Some (_, s, out) => Some (r <| rl_server := s |>, out)
  end.

(** [None]: the event is not enabled, or the handler does not return. *)
Definition relay_step (e : Event) (r : Relay) : option (Relay * list Out) :=
  match e with
  | Accepted p remote tokens => handleConn p remote tokens r
  | Received id env msg => read_message id env msg r
  | Ended id =>
      match rl_open r !! id with
      | Some o => Some (r <| rl_open := <[id := o <| o_closing := true |>]> (rl_open r) |>, [])
      | None => None
      end
  | Deferred id now => run_deferred id now r
  | TimerFired t => on_server (on_sessions (fun sm => (tt, timer_fire t sm))) r
  | TimerRan t => on_server (debounce t) r
  | CleanupTick now order => on_server (cleanup_tick now order) r
  | UpdateReloaded file => on_server (reload_update_info (cf_Update (sv_config (rl_server r))) file) r
  end.

(** A message that creates a session stores it at an unused address. *)
Definition event_ok (e : Event) (r : Relay) : Prop :=
  match e with
  | Received _ env _ => heap (sv_sessions (rl_server r)) !! fr_ptr (e_fresh env) = None
  | _ => True
  end.

(** The histories of a relay, with everything it sent. *)
Inductive history : Relay → list Event → Relay → list Out → Prop :=
| history_nil r : history r [] r []
| history_cons r e r1 out1 es r2 out2 :
    event_ok e r → relay_step e r = Some (r1, out1) → history r1 es r2 out2 →
    history r (e :: es) r2 (out1 ++ out2).

(** A relay that was just started. *)
Definition started (cfg : Config) (stun : bool) (now : Z) (r : Relay) : Prop :=
  NewServer cfg stun now = Ok (rl_server r) ∧ rl_open r = ∅.
