(* ===== verification/RelaySessionInv.v ===== *)
(** * The invariant of the relay's session table

    [wf sm] ties the four indexes, the per-IP counters and the state of each
    session together.  Every method of [SessionManager], the firing of a timer
    and its callback preserve it ([wf_*] lemmas below), so it holds in every
    reachable state, however the methods interleave. *)

From S2P Require Import Prelude GoNet RelaySession.

Open Scope Z_scope.

(** ** The invariant *)

(** Sessions that hold a place of the per-IP quota of [ip]. *)
Definition counts_for (ip : string) (kv : ptr * TunnelSession) : Prop :=
  s_countedByIP kv.2 = true ∧ s_CreatorIP kv.2 = ip.
#[export] Instance counts_for_dec ip kv : Decision (counts_for ip kv).
Proof. unfold counts_for. apply _. Defined.

Definition counted (ip : string) (h : gmap ptr TunnelSession) : nat :=
  size (filter (counts_for ip) h).

(** A connection id is never empty: [generateClientID] prefixes it. *)
Definition named (c : option ClientConn) : Prop :=
  match c with Some c => c_ID c ≠ ""%string | None => True end.

Record session_ok (tbl conns : gmap string ptr) (p : ptr) (s : TunnelSession) : Prop := {
  so_listed : s_closed s = false → tbl !! s_ID s = Some p;
  so_data : s_dataPlaneReady s = true →
    s_closed s = false ∧ is_nil (s_Share s) = false ∧ is_nil (s_Help s) = false
    ∧ s_pendingHelpID s = ""%string;
  so_ready : is_nil (s_Share s) = false → is_nil (s_Help s) = false → s_shareReady s = true;
  so_timer : s_closed s = false → s_pendingHelpID s ≠ ""%string →
    is_nil (s_helpDisconnectTimer s) = false;
  so_pending : ∀ h, s_Help s = Some h → s_pendingHelpID s ≠ ""%string →
    s_pendingHelpID s = c_ID h ∧ conns !! s_pendingHelpID s ≠ Some p;
  so_replaces : (length (s_liveReplaces s) ≤ shareConflictMaxReplaces)%nat;
  so_counted : s_countedByIP s = true → s_CreatorIP s ≠ ""%string ∧ s_closed s = false;
  so_named : named (s_Share s) ∧ named (s_Help s);
}.

Definition owns (s : TunnelSession) (k : string) : Prop :=
  conn_is (s_Share s) k = true ∨ conn_is (s_Help s) k = true.

Record wf_tables (h : gmap ptr TunnelSession) (tbl codes clients conns : gmap string ptr)
  (counts : gmap string Z) : Prop := {
  wf_session : ∀ p s, h !! p = Some s → session_ok tbl conns p s;
  wf_sessions : ∀ k p, tbl !! k = Some p → ∃ s, h !! p = Some s ∧ s_ID s = k ∧ s_closed s = false;
  wf_code : ∀ k p, codes !! k = Some p → ∃ s, h !! p = Some s ∧ s_Code s = k ∧ s_closed s = false;
  wf_client : ∀ k p, clients !! k = Some p →
    ∃ s, h !! p = Some s ∧ s_ClientID s = k ∧ s_closed s = false ∧ k ≠ ""%string;
  wf_conn : ∀ k p, conns !! k = Some p → ∃ s, h !! p = Some s ∧ s_closed s = false ∧ owns s k;
  wf_count : ∀ ip, count_of counts ip = Z.of_nat (counted ip h);
  wf_positive : ∀ ip n, counts !! ip = Some n → 0 < n;
}.

Arguments wf_session {_ _ _ _ _ _} _ _ _ _.
Arguments wf_sessions {_ _ _ _ _ _} _ _ _ _.
Arguments wf_code {_ _ _ _ _ _} _ _ _ _.
Arguments wf_client {_ _ _ _ _ _} _ _ _ _.
Arguments wf_conn {_ _ _ _ _ _} _ _ _ _.
Arguments wf_count {_ _ _ _ _ _} _ _.
Arguments wf_positive {_ _ _ _ _ _} _ _ _ _.

Definition wf (sm : SessionManager) : Prop :=
  wf_tables (heap sm) (sessions sm) (byCode sm) (byClientID sm) (byConnID sm) (sessionCountPerIP sm).

(** ** Reading through the indexes *)

Lemma conn_is_true (c : option ClientConn) k :
  conn_is c k = true ↔ ∃ x, c = Some x ∧ c_ID x = k.
Proof.
  destruct c; simpl; [rewrite bool_decide_eq_true|]; naive_solver.
Qed.

Lemma conn_is_self (c : ClientConn) : conn_is (Some c) (c_ID c) = true.
Proof. apply conn_is_true. eauto. Qed.

Lemma is_nil_false {A} (o : option A) : is_nil o = false ↔ ∃ x, o = Some x.
Proof. destruct o; naive_solver. Qed.

Lemma is_nil_true {A} (o : option A) : is_nil o = true ↔ o = None.
Proof. destruct o; naive_solver. Qed.

Lemma deref_Some sm t k p s :
  deref sm t k = Some (p, s) ↔ t !! k = Some p ∧ heap sm !! p = Some s.
Proof.
  unfold deref. destruct (t !! k) as [q|]; simpl; [|naive_solver].
  destruct (heap sm !! q) eqn:?; naive_solver.
Qed.

(** What an index of a well-formed table returns. *)
Lemma deref_session sm k p s :
  wf sm → deref sm (sessions sm) k = Some (p, s) →
  heap sm !! p = Some s ∧ s_ID s = k ∧ s_closed s = false ∧ session_ok (sessions sm) (byConnID sm) p s.
Proof.
  intros W [Hk Hp]%deref_Some. destruct (wf_sessions W k p Hk) as (s' & ? & ? & ?).
  simplify_eq. eauto using wf_session.
Qed.

Lemma deref_code sm k p s :
  wf sm → deref sm (byCode sm) k = Some (p, s) →
  heap sm !! p = Some s ∧ s_Code s = k ∧ s_closed s = false ∧ session_ok (sessions sm) (byConnID sm) p s.
Proof.
  intros W [Hk Hp]%deref_Some. destruct (wf_code W k p Hk) as (s' & ? & ? & ?).
  simplify_eq. eauto using wf_session.
Qed.

Lemma deref_client sm k p s :
  wf sm → deref sm (byClientID sm) k = Some (p, s) →
  heap sm !! p = Some s ∧ s_ClientID s = k ∧ s_closed s = false ∧ session_ok (sessions sm) (byConnID sm) p s.
Proof.
  intros W [Hk Hp]%deref_Some. destruct (wf_client W k p Hk) as (s' & ? & ? & ? & ?).
  simplify_eq. eauto using wf_session.
Qed.

Lemma deref_conn sm k p s :
  wf sm → deref sm (byConnID sm) k = Some (p, s) →
  heap sm !! p = Some s ∧ owns s k ∧ s_closed s = false ∧ session_ok (sessions sm) (byConnID sm) p s.
Proof.
  intros W [Hk Hp]%deref_Some. destruct (wf_conn W k p Hk) as (s' & ? & ? & ?).
  simplify_eq. eauto using wf_session.
Qed.

(** ** Elementary updates *)

(** What a write through [p] may not change of a session that stays listed. *)
Record same_identity (s s' : TunnelSession) : Prop := {
  si_ID : s_ID s' = s_ID s;
  si_Code : s_Code s' = s_Code s;
  si_ClientID : s_ClientID s' = s_ClientID s;
  si_closed : s_closed s' = s_closed s;
  si_counted : s_countedByIP s' = s_countedByIP s;
  si_CreatorIP : s_CreatorIP s' = s_CreatorIP s;
}.

Lemma same_identity_refl s : same_identity s s.
Proof. by constructor. Qed.

Lemma counted_write ip h p s s' :
  h !! p = Some s → s_countedByIP s' = s_countedByIP s → s_CreatorIP s' = s_CreatorIP s →
  counted ip (<[p := s']> h) = counted ip h.
Proof.
  intros Hp E1 E2. unfold counted.
  apply size_filter_replace with s; [done|]. unfold counts_for; simpl. by rewrite E1, E2.
Qed.

Lemma written_lookup (h : gmap ptr TunnelSession) p s s' q t :
  h !! p = Some s → h !! q = Some t →
  ∃ t', <[p := s']> h !! q = Some t' ∧ (t' = t ∨ (q = p ∧ t = s ∧ t' = s')).
Proof.
  intros Hp Hq. destruct (decide (q = p)) as [->|Hne].
  - exists s'. rewrite lookup_insert_eq. simplify_eq. auto.
  - exists t. rewrite lookup_insert_ne by done. auto.
Qed.

Lemma wf_write sm p s s' :
  wf sm → heap sm !! p = Some s → same_identity s s' →
  (∀ k, byConnID sm !! k = Some p → owns s' k) →
  session_ok (sessions sm) (byConnID sm) p s' →
  wf (write p s' sm).
Proof.
  intros W Hp [] Hown Hok. constructor; simpl.
  - intros q t [[<- <-]|[? ?]]%lookup_insert_Some; eauto using wf_session.
  - intros k q Hk. destruct (wf_sessions W k q Hk) as (t & Ht & ? & ?).
    destruct (written_lookup _ p s s' q t Hp Ht) as (t' & ? & [->|(-> & -> & ->)]);
      eexists; split_and!; eauto; congruence.
  - intros k q Hk. destruct (wf_code W k q Hk) as (t & Ht & ? & ?).
    destruct (written_lookup _ p s s' q t Hp Ht) as (t' & ? & [->|(-> & -> & ->)]);
      eexists; split_and!; eauto; congruence.
  - intros k q Hk. destruct (wf_client W k q Hk) as (t & Ht & ? & ? & ?).
    destruct (written_lookup _ p s s' q t Hp Ht) as (t' & ? & [->|(-> & -> & ->)]);
      eexists; split_and!; eauto; congruence.
  - intros k q Hk. destruct (wf_conn W k q Hk) as (t & Ht & ? & ?).
    destruct (written_lookup _ p s s' q t Hp Ht) as (t' & ? & [->|(-> & -> & ->)]);
      eexists; split_and!; eauto; congruence.
  - intros ip. rewrite (counted_write ip _ p s); auto. apply (wf_count W).
  - apply (wf_positive W).
Qed.

(** The index entries of a session are owned by it. *)
Lemma owned sm p s k :
  wf sm → heap sm !! p = Some s → byConnID sm !! k = Some p → owns s k.
Proof. intros W Hp Hk. destruct (wf_conn W k p Hk) as (t & ? & _ & ?). by simplify_eq. Qed.

(** A write that leaves the two ends alone. *)
Lemma wf_write_kept sm p s s' :
  wf sm → heap sm !! p = Some s → same_identity s s' →
  s_Share s' = s_Share s → s_Help s' = s_Help s →
  session_ok (sessions sm) (byConnID sm) p s' →
  wf (write p s' sm).
Proof.
  intros W Hp Hid HS HH Hok. apply (wf_write sm p s s'); [done|done|done| |done].
  intros k Hk. unfold owns. rewrite HS, HH. by apply (owned sm p).
Qed.

(** [session_ok] only gets easier when connections leave the index. *)
Lemma session_ok_fewer_conns tbl conns conns' p s :
  (∀ k, conns' !! k = Some p → conns !! k = Some p) →
  session_ok tbl conns p s → session_ok tbl conns' p s.
Proof. intros Hsub []; constructor; eauto. intros h Hh Hne. naive_solver. Qed.

Lemma wf_delete_conn sm k :
  wf sm → wf (sm <| byConnID := delete k (byConnID sm) |>).
Proof.
  intros W. constructor; simpl;
    [|by apply (wf_sessions W)|by apply (wf_code W)|by apply (wf_client W)| |apply (wf_count W)
     |apply (wf_positive W)].
  - intros p s Hp. apply session_ok_fewer_conns with (byConnID sm); [|by apply (wf_session W)].
    intros k' [??]%lookup_delete_Some. done.
  - intros k' p [??]%lookup_delete_Some. by apply (wf_conn W).
Qed.

Lemma wf_drop_conn sm c : wf sm → wf (drop_conn c sm).
Proof. destruct c; simpl; auto using wf_delete_conn. Qed.

Lemma wf_stop_timer sm t : wf sm → wf (stop_timer t sm).
Proof. destruct t; done. Qed.

(** A connection enters the index under the session that is bound to it. *)
Lemma wf_add_conn sm p s k :
  wf sm → heap sm !! p = Some s → s_closed s = false → owns s k →
  s_pendingHelpID s = ""%string →
  wf (sm <| byConnID := <[k := p]> (byConnID sm) |>).
Proof.
  intros W Hp Hc Hown Hpend. constructor; simpl;
    [|by apply (wf_sessions W)|by apply (wf_code W)|by apply (wf_client W)| |apply (wf_count W)
     |apply (wf_positive W)].
  - intros q t Hq. destruct (wf_session W q t Hq); constructor; eauto.
    intros h Hh Hne. destruct (so_pending0 h Hh Hne) as [? Hnot]. split; [done|].
    intros [[-> <-]|[? ?]]%lookup_insert_Some; [|done]. simplify_eq.
  - intros k' q [[<- <-]|[? ?]]%lookup_insert_Some; [eauto|by apply (wf_conn W)].
Qed.

#[export] Hint Resolve wf_delete_conn wf_drop_conn wf_stop_timer : relay.

(** The frame of the elementary updates: the other components stay. *)
Lemma heap_drop_conn c sm : heap (drop_conn c sm) = heap sm.
Proof. by destruct c. Qed.
Lemma heap_stop_timer t sm : heap (stop_timer t sm) = heap sm.
Proof. by destruct t. Qed.
Lemma sessions_drop_conn c sm : sessions (drop_conn c sm) = sessions sm.
Proof. by destruct c. Qed.
Lemma sessions_stop_timer t sm : sessions (stop_timer t sm) = sessions sm.
Proof. by destruct t. Qed.
Lemma conns_stop_timer t sm : byConnID (stop_timer t sm) = byConnID sm.
Proof. by destruct t. Qed.
Lemma conns_drop_conn c sm k p :
  byConnID (drop_conn c sm) !! k = Some p ↔ conn_is c k = false ∧ byConnID sm !! k = Some p.
Proof.
  destruct c as [c|]; simpl; [|naive_solver].
  rewrite lookup_delete_Some, bool_decide_eq_false. done.
Qed.
#[export] Hint Rewrite heap_drop_conn heap_stop_timer sessions_drop_conn sessions_stop_timer
  conns_stop_timer : relay.

(** ** Further elementary updates *)

Lemma delete_if_Some k p m j q :
  delete_if k p m !! j = Some q ↔ m !! j = Some q ∧ ¬ (j = k ∧ q = p).
Proof.
  unfold delete_if. case_decide as Hk; [rewrite lookup_delete_Some|];
    (split; [intros Hj|intros [Hj Hn]]); naive_solver.
Qed.

Lemma delete_conn_if_Some c p m j q :
  delete_conn_if c p m !! j = Some q ↔ m !! j = Some q ∧ ¬ (conn_is c j = true ∧ q = p).
Proof.
  destruct c as [c|]; simpl; [rewrite delete_if_Some, bool_decide_eq_true|]; naive_solver.
Qed.

Lemma wf_delete_code sm k p :
  wf sm → wf (sm <| byCode := delete_if k p (byCode sm) |>).
Proof.
  intros W. constructor; simpl;
    [by apply (wf_session W)|by apply (wf_sessions W)| |by apply (wf_client W)
     |by apply (wf_conn W)|apply (wf_count W)|apply (wf_positive W)].
  intros j q [Hj _]%delete_if_Some. by apply (wf_code W).
Qed.

Lemma wf_add_code sm p s :
  wf sm → heap sm !! p = Some s → s_closed s = false →
  wf (sm <| byCode := <[s_Code s := p]> (byCode sm) |>).
Proof.
  intros W Hp Hc. constructor; simpl;
    [by apply (wf_session W)|by apply (wf_sessions W)| |by apply (wf_client W)
     |by apply (wf_conn W)|apply (wf_count W)|apply (wf_positive W)].
  intros j q [[<- <-]|[? ?]]%lookup_insert_Some; [eauto|by apply (wf_code W)].
Qed.

(** Per-IP counters against the sessions that hold a place. *)
Lemma counted_insert_new ip h p s :
  h !! p = None →
  counted ip (<[p := s]> h) =
    (counted ip h + if s_countedByIP s && bool_decide (s_CreatorIP s = ip) then 1 else 0)%nat.
Proof.
  intros Hp. unfold counted. destruct (s_countedByIP s && _) eqn:E.
  - apply andb_prop in E as [? ?%bool_decide_eq_true].
    rewrite map_filter_insert_True by done.
    rewrite map_size_insert_None by (apply map_lookup_filter_None_2; auto). lia.
  - apply andb_false_iff in E. rewrite map_filter_insert_False.
    + rewrite delete_id by done. lia.
    + intros [? ?]; simpl in *. destruct E as [E|E%bool_decide_eq_false]; congruence.
Qed.

Lemma counted_uncount ip h p s s' :
  h !! p = Some s → s_countedByIP s' = false →
  (counted ip h =
    counted ip (<[p := s']> h) + if s_countedByIP s && bool_decide (s_CreatorIP s = ip) then 1 else 0)%nat.
Proof.
  intros Hp Hs'. rewrite <- (insert_delete_id h p s Hp) at 1.
  rewrite <- (insert_delete_eq h p s').
  rewrite !counted_insert_new by apply lookup_delete_eq. rewrite Hs'. simpl. lia.
Qed.

Lemma count_of_insert m ip n j :
  count_of (<[ip := n]> m) j = if decide (ip = j) then n else count_of m j.
Proof. unfold count_of. rewrite lookup_insert. by case_decide. Qed.

Lemma count_of_delete m ip j :
  count_of (delete ip m) j = if decide (ip = j) then 0 else count_of m j.
Proof. unfold count_of. rewrite lookup_delete. by case_decide. Qed.

(** The counter map after a decrement, when it counts the sessions of [ip]. *)
Lemma decrement_counts ip sm sm' :
  ip ≠ ""%string → (∀ j n, sessionCountPerIP sm !! j = Some n → 0 < n) →
  0 < count_of (sessionCountPerIP sm) ip →
  sm' = decrementSessionCountLocked ip sm →
  (∀ j, count_of (sessionCountPerIP sm') j =
        count_of (sessionCountPerIP sm) j - if decide (ip = j) then 1 else 0)
  ∧ (∀ j n, sessionCountPerIP sm' !! j = Some n → 0 < n).
Proof.
  intros Hip Hpos Hlt ->. unfold decrementSessionCountLocked.
  rewrite bool_decide_false by done.
  unfold count_of in Hlt. destruct (sessionCountPerIP sm !! ip) as [cur|] eqn:E; simpl in Hlt; [|lia].
  destruct (Z.leb_spec cur 1); simpl; split; intros j.
  - rewrite count_of_delete. case_decide; subst; unfold count_of; rewrite ?E; simpl; lia.
  - intros n [? ?]%lookup_delete_Some. eauto.
  - rewrite count_of_insert. case_decide; subst; unfold count_of; rewrite ?E; simpl; lia.
  - intros n [[<- <-]|[? ?]]%lookup_insert_Some; [lia|eauto].
Qed.

Lemma decrement_frame ip sm sm' :
  sm' = decrementSessionCountLocked ip sm →
  heap sm' = heap sm ∧ sessions sm' = sessions sm ∧ byCode sm' = byCode sm
  ∧ byClientID sm' = byClientID sm ∧ byConnID sm' = byConnID sm ∧ reconnectGrace sm' = reconnectGrace sm
  ∧ armed sm' = armed sm ∧ running sm' = running sm ∧ nextTimer sm' = nextTimer sm.
Proof.
  intros ->. unfold decrementSessionCountLocked.
  case_bool_decide; [done|]. destruct (sessionCountPerIP sm !! ip); [|done].
  destruct (_ <=? 1); done.
Qed.

Lemma decrement_counts_eq ip sm1 sm2 :
  sessionCountPerIP sm1 = sessionCountPerIP sm2 →
  sessionCountPerIP (decrementSessionCountLocked ip sm1)
  = sessionCountPerIP (decrementSessionCountLocked ip sm2).
Proof.
  intros E. unfold decrementSessionCountLocked. case_bool_decide; [done|]. rewrite E.
  destruct (sessionCountPerIP sm2 !! ip); [|done]. by destruct (_ <=? 1).
Qed.

(** ** Preservation by the methods *)

Lemma wf_NewSessionManager grace : wf (NewSessionManager grace).
Proof.
  constructor; simpl; try (intros ? ? H; by rewrite lookup_empty in H).
  intros ip. unfold count_of, counted. by rewrite map_filter_empty, map_size_empty, lookup_empty.
Qed.

Lemma pick_session_id_fresh cands taken id :
  pick_session_id cands taken = Some id → taken !! id = None ∧ id ∈ cands.
Proof.
  induction cands as [|c cands IH]; simpl; [done|].
  destruct (taken !! c) eqn:?; intros; simplify_eq; set_solver.
Qed.

Section create.
Context (now ttl maxPerIP maxTotal : Z) (cands : list string) (p : ptr) (code clientID shareIP : string).
Context (share : option ClientConn) (ready : bool).

(** Whether the new session takes a place of its address's quota. *)
Definition limited : bool := bool_decide (shareIP ≠ ""%string) && (0 <? maxPerIP).

Definition new_session (id : string) : TunnelSession :=
  mkTunnelSession id code share None now (now + ttl) clientID shareIP limited
    "" "" "" "" "" "" false ready false None "" [] time_zero.

(** The effect of a successful [createSession], component by component. *)
Record created (id : string) (sm sm' : SessionManager) : Prop := {
  cr_fresh : sessions sm !! id = None ∧ id ∈ cands;
  cr_total : Z.of_nat (size (sessions sm)) < maxTotal;
  cr_perip : limited = true → count_of (sessionCountPerIP sm) shareIP < maxPerIP;
  cr_heap : heap sm' = <[p := new_session id]> (heap sm);
  cr_sessions : sessions sm' = <[id := p]> (sessions sm);
  cr_codes : byCode sm' = <[code := p]> (byCode sm);
  cr_clients : byClientID sm' = if bool_decide (clientID ≠ ""%string)
                 then <[clientID := p]> (byClientID sm) else byClientID sm;
  cr_conns : byConnID sm' = match share with
                 | Some c => <[c_ID c := p]> (byConnID sm) | None => byConnID sm end;
  cr_counts : sessionCountPerIP sm' = if limited
                 then <[shareIP := count_of (sessionCountPerIP sm) shareIP + 1]> (sessionCountPerIP sm)
                 else sessionCountPerIP sm;
}.

Lemma createSession_cases sm r sm' :
  createSession now cands p code share ttl clientID shareIP maxPerIP maxTotal ready sm = Some (r, sm') →
  (∃ e, r = Err e ∧ sm' = sm) ∨ (∃ id, r = Ok (new_session id) ∧ created id sm sm').
Proof.
  unfold createSession. fold limited.
  destruct (Z.leb_spec maxTotal (Z.of_nat (size (sessions sm)))); [intros; simplify_eq; eauto|].
  destruct (limited && _) eqn:Hlim; [intros; simplify_eq; eauto|].
  destruct (pick_session_id _ _) as [id|] eqn:Hid; simpl; [|done].
  apply pick_session_id_fresh in Hid. intros [= <- <-]. right. exists id. split; [done|].
  assert (limited = true → count_of (sessionCountPerIP sm) shareIP < maxPerIP) as Hlt.
  { intros E. rewrite E in Hlim. simpl in Hlim. lia. }
  constructor; unfold new_session; try done; by destruct share, (bool_decide (clientID ≠ _)), limited.
Qed.

Context (sm sm' : SessionManager) (id : string).
Context (W : wf sm) (Hp : heap sm !! p = None) (Hnamed : named share) (C : created id sm sm').

(** The address of the new session is in no index yet. *)
Lemma created_fresh :
  (∀ k, sessions sm !! k ≠ Some p) ∧ (∀ k, byCode sm !! k ≠ Some p)
  ∧ (∀ k, byClientID sm !! k ≠ Some p) ∧ (∀ k, byConnID sm !! k ≠ Some p).
Proof.
  split_and!; intros k Hk;
    [apply (wf_sessions W) in Hk|apply (wf_code W) in Hk|apply (wf_client W) in Hk|apply (wf_conn W) in Hk];
    naive_solver congruence.
Qed.

Lemma created_keeps q t : heap sm !! q = Some t → heap sm' !! q = Some t.
Proof.
  intros Hq. rewrite (cr_heap _ _ _ C), lookup_insert_ne by congruence. done.
Qed.

Lemma created_new : heap sm' !! p = Some (new_session id).
Proof. by rewrite (cr_heap _ _ _ C), lookup_insert_eq. Qed.

Lemma created_conn k q :
  byConnID sm' !! k = Some q → (q = p ∧ conn_is share k = true) ∨ byConnID sm !! k = Some q.
Proof.
  rewrite (cr_conns _ _ _ C). destruct share as [c|]; [|auto].
  intros [[<- <-]|[? ?]]%lookup_insert_Some; [left|by right].
  split; [done|]. apply conn_is_self.
Qed.

Lemma created_session_ok q t :
  heap sm' !! q = Some t → session_ok (sessions sm') (byConnID sm') q t.
Proof.
  rewrite (cr_heap _ _ _ C), (cr_sessions _ _ _ C).
  intros [[<- <-]|[Hne Hq]]%lookup_insert_Some.
  - constructor; simpl; try done; try (intros; lia).
    + intros _. apply lookup_insert_eq.
    + unfold limited. intros [E%bool_decide_eq_true _]%andb_prop. done.
  - destruct (wf_session W q t Hq). constructor; auto.
    + intros Hc. rewrite lookup_insert_ne; [auto|]. intros ->.
      destruct (cr_fresh _ _ _ C). rewrite so_listed0 in *; done.
    + intros h Hh Hpend. destruct (so_pending0 h Hh Hpend) as [? Hnot]. split; [done|].
      intros [[? _]|?]%created_conn; congruence.
Qed.

Lemma wf_created : wf sm'.
Proof.
  constructor.
  - apply created_session_ok.
  - rewrite (cr_sessions _ _ _ C). intros k q [[<- <-]|[? Hk]]%lookup_insert_Some;
      [eauto using created_new|].
    destruct (wf_sessions W k q Hk) as (t & ? & ? & ?). eauto 6 using created_keeps.
  - rewrite (cr_codes _ _ _ C). intros k q [[<- <-]|[? Hk]]%lookup_insert_Some;
      [eauto using created_new|].
    destruct (wf_code W k q Hk) as (t & ? & ? & ?). eauto 6 using created_keeps.
  - rewrite (cr_clients _ _ _ C). intros k q Hk.
    assert ((k = clientID ∧ q = p ∧ clientID ≠ ""%string) ∨ byClientID sm !! k = Some q)
      as [(-> & -> & ?)|Hk'].
    { case_bool_decide; [apply lookup_insert_Some in Hk|]; naive_solver. }
    + eauto 6 using created_new.
    + destruct (wf_client W k q Hk') as (t & ? & ? & ? & ?). eauto 8 using created_keeps.
  - intros k q [[-> Ho]|Hk]%created_conn.
    + exists (new_session id). unfold owns. eauto using created_new.
    + destruct (wf_conn W k q Hk) as (t & ? & ? & ?). eauto 6 using created_keeps.
  - intros ip. rewrite (cr_heap _ _ _ C), (cr_counts _ _ _ C), counted_insert_new by done.
    pose proof (wf_count W ip) as HW. simpl. destruct limited; simpl; [|lia].
    rewrite count_of_insert. case_decide; [subst; rewrite bool_decide_true by done|
      rewrite bool_decide_false by done]; lia.
  - rewrite (cr_counts _ _ _ C). intros ip n. destruct limited; [|apply (wf_positive W)].
    intros [[<- <-]|[? ?]]%lookup_insert_Some; [|eapply (wf_positive W); eauto].
    rewrite (wf_count W). lia.
Qed.
End create.

Lemma wf_createSession now cands p code share ttl clientID shareIP maxPerIP maxTotal ready sm r sm' :
  wf sm → heap sm !! p = None → named share →
  createSession now cands p code share ttl clientID shareIP maxPerIP maxTotal ready sm = Some (r, sm') →
  wf sm'.
Proof.
  intros W Hp Hn [(e & -> & ->)|(id & -> & C)]%createSession_cases; [done|].
  eapply wf_created; eauto.
Qed.

(** [session_ok] of a session after a write that does not touch its place in
    the table: the lifecycle fields are the ones that matter. *)
Lemma session_ok_listed tbl conns p s s' :
  session_ok tbl conns p s → s_closed s = false → s_ID s' = s_ID s →
  tbl !! s_ID s' = Some p.
Proof. intros [] ? ->. auto. Qed.

(** After both of a session's connections left the index, no entry of the index
    points to it. *)
Lemma conns_dropped sm p s k :
  wf sm → heap sm !! p = Some s →
  byConnID (drop_conn (s_Help s) (drop_conn (s_Share s) sm)) !! k ≠ Some p.
Proof.
  intros W Hp [Hh [Hs Hk]%conns_drop_conn]%conns_drop_conn.
  destruct (wf_conn W k p Hk) as (t & ? & _ & [Ho|Ho]); simplify_eq; congruence.
Qed.

Lemma wf_rebind sm p s s0 c :
  wf sm → heap sm !! p = Some s0 → s_closed s0 = false → same_identity s0 s →
  s_Share s = s_Share s0 → s_Help s = s_Help s0 →
  (length (s_liveReplaces s) ≤ shareConflictMaxReplaces)%nat →
  c_ID c ≠ ""%string →
  wf (rebind p s c sm).
Proof.
  intros W Hp Hc Hid HS HH Hlen Hname. unfold rebind.
  set (sm1 := stop_timer _ (drop_conn _ (drop_conn _ sm))).
  set (s1 := s <| s_helpDisconnectTimer := _ |> <| s_Help := _ |> <| s_pendingHelpID := _ |>
    <| s_Share := _ |> <| s_SharePublicAddr := _ |> <| s_SharePrivateAddr := _ |>
    <| s_ShareNATType := _ |> <| s_HelpPublicAddr := _ |> <| s_HelpPrivateAddr := _ |>
    <| s_HelpNATType := _ |> <| s_shareReady := _ |> <| s_dataPlaneReady := _ |>).
  assert (wf sm1) as W1 by (unfold sm1; auto with relay).
  assert (heap sm1 !! p = Some s0) as Hp1.
  { unfold sm1. by autorewrite with relay. }
  assert (∀ k, byConnID sm1 !! k ≠ Some p) as Hnone.
  { intros k. unfold sm1. autorewrite with relay. rewrite HS, HH. by apply conns_dropped. }
  assert (sessions sm1 = sessions sm) as Hsess by (unfold sm1; by autorewrite with relay).
  assert (s_closed s1 = false) as Hc1 by (rewrite <- Hc; apply Hid).
  apply (wf_add_conn _ p s1); [|by simpl; rewrite lookup_insert_eq|done| |done].
  - apply (wf_write _ p s0); auto.
    + destruct Hid. by constructor.
    + intros k Hk. by destruct (Hnone k).
    + pose proof (wf_session W1 p s0 Hp1) as Hok. destruct Hid as [HID ?].
      constructor; unfold s1; simpl; try done.
      * intros _. rewrite HID. by apply Hok.
      * destruct Hok. rewrite si_counted0, si_CreatorIP0, si_closed0. done.
  - left. apply conn_is_self.
Qed.

Lemma recordLiveReplace_length l now :
  (length (recordLiveReplace l now) ≤ shareConflictMaxReplaces + 1)%nat.
Proof.
  unfold recordLiveReplace. case_match eqn:E.
  - rewrite length_drop. apply Nat.ltb_lt in E. lia.
  - apply Nat.ltb_ge in E. lia.
Qed.

Lemma wf_ReuseSessionByClientID sm now k c o sm' :
  wf sm → c_ID c ≠ ""%string → ReuseSessionByClientID now k c sm = (o, sm') → wf sm'.
Proof.
  intros W Hname. unfold ReuseSessionByClientID.
  case_bool_decide; [by intros [= _ <-]|].
  destruct (deref _ _ _) as [[p s]|] eqn:Hd; [|by intros [= _ <-]].
  apply deref_client in Hd as (Hp & _ & Hc & Hok); [|done].
  destruct (time_After _ _ || _); [by intros [= _ <-]|].
  destruct (live_other s c) eqn:Hl.
  - destruct (time_Before _ _).
    + intros [= _ <-]. apply (wf_write_kept _ p s); [done|done|by constructor|done..|by destruct Hok].
    + destruct (_ <? _)%nat eqn:Hn; intros [= _ <-].
      * apply (wf_write_kept _ p s); [done|done|by constructor|done..|].
        destruct Hok; constructor; simpl; auto; lia.
      * apply (wf_rebind _ p _ s); auto; [by constructor|]. by apply Nat.ltb_ge in Hn.
  - intros [= _ <-]. apply (wf_rebind _ p _ s); auto using same_identity_refl.
    by destruct Hok.
Qed.

Lemma wf_MarkShareReady sm sid id b sm' :
  wf sm → MarkShareReady sid id sm = (b, sm') → wf sm'.
Proof.
  intros W. unfold MarkShareReady.
  destruct (deref _ _ _) as [[p s]|] eqn:Hd; [|by intros [= _ <-]].
  apply deref_session in Hd as (Hp & _ & Hc & Hok); [|done].
  destruct (_ || _); [by intros [= _ <-]|]. intros [= _ <-].
  apply (wf_write_kept _ p s); [done|done|by constructor|done..|].
  destruct Hok; by constructor; simpl; auto.
Qed.

Lemma wf_JoinSession sm now code c r sm' :
  wf sm → c_ID c ≠ ""%string → JoinSession now code c sm = (r, sm') → wf sm'.
Proof.
  intros W Hname. unfold JoinSession.
  destruct (deref _ _ _) as [[p s]|] eqn:Hd; [|by intros [= _ <-]].
  apply deref_code in Hd as (Hp & _ & Hc & Hok); [|done].
  destruct (time_After _ _); [by intros [= _ <-]|].
  rewrite Hc. destruct (_ && _) eqn:Hbusy; [by intros [= _ <-]|].
  destruct (s_Share s) as [share|] eqn:HS; [|by intros [= _ <-]].
  destruct (s_shareReady s) eqn:Hready; simpl; [|by intros [= _ <-]].
  intros [= _ <-].
  set (sm1 := drop_conn _ (stop_timer _ sm)).
  set (s1 := match s_helpDisconnectTimer s with Some _ => _ | None => s end).
  assert (s_pendingHelpID s1 = ""%string) as Hpend.
  { destruct (decide (s_pendingHelpID s = ""%string)) as [E|E].
    - unfold s1. by destruct (s_helpDisconnectTimer s).
    - pose proof (so_timer _ _ _ _ Hok Hc E) as [t Ht]%is_nil_false. unfold s1. by rewrite Ht. }
  assert (same_identity s s1 ∧ s_Share s1 = s_Share s ∧ s_liveReplaces s1 = s_liveReplaces s
          ∧ s_shareReady s1 = true) as (Hid & HS1 & HL1 & HR1).
  { unfold s1. destruct (s_helpDisconnectTimer s); done. }
  clearbody s1. clear Hbusy.
  set (s2 := s1 <| s_Help := _ |> <| s_HelpPublicAddr := _ |> <| s_HelpPrivateAddr := _ |>
                <| s_HelpNATType := _ |> <| s_dataPlaneReady := _ |>).
  assert (wf sm1) as W1 by (unfold sm1; auto with relay).
  assert (heap sm1 !! p = Some s) as Hp1 by (unfold sm1; by autorewrite with relay).
  apply (wf_add_conn (write p s2 sm1) p s2).
  - apply (wf_write sm1 p s); auto.
    + destruct Hid. by constructor.
    + intros k Hk. unfold sm1 in Hk. apply conns_drop_conn in Hk as [Hh Hk].
      rewrite conns_stop_timer in Hk. left. simpl. rewrite HS1.
      by destruct (owned sm p s k W Hp Hk) as [|E]; [|congruence].
    + pose proof (wf_session W1 p s Hp1) as [].
      destruct Hid as [HID _ _ HC HCo HIP]. constructor; simpl; try done; try congruence.
      * intros _. rewrite HID. auto.
      * by rewrite HCo, HIP, HC.
      * rewrite HS1. destruct so_named0. by split.
  - simpl. by rewrite lookup_insert_eq.
  - simpl. rewrite <- Hc. apply Hid.
  - right. apply conn_is_self.
  - done.
Qed.

Lemma wf_RollbackJoin sm sid id :
  wf sm → wf (RollbackJoin sid id sm).
Proof.
  intros W. unfold RollbackJoin.
  destruct (deref _ _ _) as [[p s]|] eqn:Hd; [|done].
  apply deref_session in Hd as (Hp & _ & Hc & Hok); [|done].
  destruct (conn_is _ _) eqn:Hh; [|done].
  apply (wf_write _ p s); [by auto with relay|done|by constructor| |].
  - intros k Hk. simpl in Hk. apply lookup_delete_Some in Hk as [Hne Hk]. left.
    destruct (owned sm p s k W Hp Hk) as [|E]; [done|].
    apply conn_is_true in Hh as (x & Hx & <-). apply conn_is_true in E as (y & ? & <-). congruence.
  - destruct Hok. constructor; simpl; try done. by split; [apply so_named0|].
Qed.

Lemma wf_ActivateDataPlane sm sid a b r sm' :
  wf sm → ActivateDataPlane sid a b sm = (r, sm') → wf sm'.
Proof.
  intros W. unfold ActivateDataPlane.
  destruct (deref _ _ _) as [[p s]|] eqn:Hd; [|by intros [= _ <-]].
  apply deref_session in Hd as (Hp & _ & Hc & Hok); [|done].
  rewrite Hc. destruct (is_nil (s_Share s)) eqn:HS; simpl; [by intros [= _ <-]|].
  destruct (is_nil (s_Help s)) eqn:HH; simpl; [by intros [= _ <-]|].
  destruct (_ || _); [by intros [= _ <-]|].
  case_bool_decide as Hpend; [by intros [= _ <-]|]. intros [= _ <-].
  apply (wf_write_kept _ p s); [done|done|by constructor|done..|].
  destruct Hok; constructor; simpl; auto.
Qed.

(** A session leaves the table: it is closed, and no index points to it. *)
Definition unlisted (p : ptr) (t t' : gmap string ptr) : Prop :=
  ∀ k q, t' !! k = Some q → t !! k = Some q ∧ q ≠ p.

Definition closed (s : TunnelSession) : TunnelSession :=
  s <| s_closed := true |> <| s_dataPlaneReady := false |>
    <| s_helpDisconnectTimer := None |> <| s_countedByIP := false |>.

Lemma wf_unlist sm sm' p s :
  wf sm → heap sm !! p = Some s →
  heap sm' = <[p := closed s]> (heap sm) → sessions sm' = delete (s_ID s) (sessions sm) →
  unlisted p (byCode sm) (byCode sm') → unlisted p (byClientID sm) (byClientID sm') →
  unlisted p (byConnID sm) (byConnID sm') →
  (∀ ip, count_of (sessionCountPerIP sm') ip = count_of (sessionCountPerIP sm) ip
     - if s_countedByIP s && bool_decide (s_CreatorIP s = ip) then 1 else 0) →
  (∀ ip n, sessionCountPerIP sm' !! ip = Some n → 0 < n) →
  sessions sm !! s_ID s = Some p →
  wf sm'.
Proof.
  intros W Hp Hheap Hsess Hcodes Hclients Hconns Hcounts Hpos Hlist.
  assert (∀ q t, heap sm !! q = Some t → q ≠ p → heap sm' !! q = Some t) as Hkeep.
  { intros q t Hq Hne. rewrite Hheap. by rewrite lookup_insert_ne. }
  constructor; [|rewrite Hsess| | | | |done].
  - rewrite Hheap, Hsess. intros q t [[<- <-]|[Hne Hq]]%lookup_insert_Some.
    + destruct (wf_session W p s Hp). constructor; simpl; try done.
      intros h Hh Hpend. destruct (so_pending0 h Hh Hpend) as [? Hnot].
      split; [done|]. by intros [? _]%Hconns.
    + destruct (wf_session W q t Hq). constructor; auto.
      * intros Hc. rewrite lookup_delete_ne; [auto|]. intros E. rewrite <- E, Hlist in so_listed0.
        naive_solver.
      * intros h Hh Hpend. destruct (so_pending0 h Hh Hpend) as [? Hnot].
        split; [done|]. by intros [? _]%Hconns.
  - intros k q [Hne Hk]%lookup_delete_Some.
    destruct (wf_sessions W k q Hk) as (t & Ht & HID & ?). exists t. split; [|done].
    apply Hkeep; [done|]. intros ->. simplify_eq.
  - intros k q [Hk Hne]%Hcodes. destruct (wf_code W k q Hk) as (t & ? & ?). eauto.
  - intros k q [Hk Hne]%Hclients. destruct (wf_client W k q Hk) as (t & ? & ?). eauto.
  - intros k q [Hk Hne]%Hconns. destruct (wf_conn W k q Hk) as (t & ? & ?). eauto.
  - intros ip. rewrite Hcounts, Hheap, (wf_count W), (counted_uncount ip (heap sm) p s (closed s)) by done.
    destruct (_ && _); lia.
Qed.

(** Releasing the place a session holds in the per-IP quota, if it holds one. *)
Lemma release_counts sm s h :
  (∀ ip n, sessionCountPerIP sm !! ip = Some n → 0 < n) →
  (∀ ip, count_of (sessionCountPerIP sm) ip = Z.of_nat (counted ip h)) →
  (s_countedByIP s = true → s_CreatorIP s ≠ ""%string ∧ ∃ p, h !! p = Some s) →
  let sm' := if s_countedByIP s then decrementSessionCountLocked (s_CreatorIP s) sm else sm in
  (∀ ip, count_of (sessionCountPerIP sm') ip = count_of (sessionCountPerIP sm) ip
     - if s_countedByIP s && bool_decide (s_CreatorIP s = ip) then 1 else 0)
  ∧ (∀ ip n, sessionCountPerIP sm' !! ip = Some n → 0 < n).
Proof.
  intros Hpos Hcnt Hs. destruct (s_countedByIP s) eqn:Hc; simpl; [|by split; [intros; lia|]].
  destruct (Hs eq_refl) as (HneIP & p & Hp).
  assert (0 < count_of (sessionCountPerIP sm) (s_CreatorIP s)) as Hlt.
  { rewrite Hcnt, (counted_uncount _ h p s (closed s)), Hc, bool_decide_true by done. simpl. lia. }
  destruct (decrement_counts _ _ _ HneIP Hpos Hlt eq_refl) as [Hn Hp']. split; [|done].
  intros ip. rewrite Hn. case_decide; [rewrite bool_decide_true by done|rewrite bool_decide_false by done];
    simpl; lia.
Qed.

(** What [deleteSessionLocked] does to each component, for a listed session. *)
Lemma deleteSessionLocked_spec sm sid p s :
  wf sm → sessions sm !! sid = Some p → heap sm !! p = Some s →
  ∃ sm', deleteSessionLocked sid (Some p) sm = ((s_Share s, s_Help s, true), sm')
    ∧ heap sm' = <[p := closed s]> (heap sm) ∧ sessions sm' = delete sid (sessions sm)
    ∧ byCode sm' = delete_if (s_Code s) p (byCode sm)
    ∧ unlisted p (byClientID sm) (byClientID sm')
    ∧ byConnID sm' = delete_conn_if (s_Help s) p (delete_conn_if (s_Share s) p (byConnID sm))
    ∧ sessionCountPerIP sm' = sessionCountPerIP
        (if s_countedByIP s then decrementSessionCountLocked (s_CreatorIP s) sm else sm)
    ∧ reconnectGrace sm' = reconnectGrace sm ∧ running sm' = running sm ∧ nextTimer sm' = nextTimer sm.
Proof.
  intros W Hsid Hp. unfold deleteSessionLocked.
  replace (deref _ _ _) with (Some (p, s)) by (symmetry; by apply deref_Some).
  rewrite bool_decide_false by naive_solver. eexists. split; [done|].
  set (sm1 := stop_timer _ sm). set (sm2 := if bool_decide _ then _ else _).
  assert (heap sm2 = heap sm ∧ sessions sm2 = delete sid (sessions sm)
    ∧ byCode sm2 = delete_if (s_Code s) p (byCode sm)
    ∧ byConnID sm2 = delete_conn_if (s_Help s) p (delete_conn_if (s_Share s) p (byConnID sm))
    ∧ sessionCountPerIP sm2 = sessionCountPerIP sm
    ∧ reconnectGrace sm2 = reconnectGrace sm ∧ running sm2 = running sm ∧ nextTimer sm2 = nextTimer sm
    ∧ byClientID sm2 = if bool_decide (s_ClientID s ≠ ""%string)
                       then delete_if (s_ClientID s) p (byClientID sm) else byClientID sm)
    as (E1 & E2 & E3 & E4 & E5 & E6 & E7 & E8 & E9).
  { unfold sm2, sm1. by destruct (s_helpDisconnectTimer s), (bool_decide (s_ClientID s ≠ ""%string)). }
  assert (unlisted p (byClientID sm) (byClientID sm2)) as Hcl.
  { rewrite E9. intros k q Hk.
    assert (byClientID sm !! k = Some q ∧ ¬ (k = s_ClientID s ∧ q = p ∧ k ≠ ""%string)) as [Hk' Hn].
    { case_bool_decide; [apply delete_if_Some in Hk|]; naive_solver. }
    split; [done|]. intros ->. destruct (wf_client W k p Hk') as (t & ? & ? & _ & ?). naive_solver. }
  clearbody sm2. destruct (s_countedByIP s); [|by simpl; rewrite E1].
  destruct (decrement_frame (s_CreatorIP s) sm2 _ eq_refl)
    as (F1 & F2 & F3 & F4 & F5 & F6 & F7 & F8 & F9).
  simpl. rewrite F1, F2, F3, F4, F5, F6, F8, F9, E1.
  rewrite (decrement_counts_eq _ sm2 sm) by done. done.
Qed.

Lemma wf_deleteSessionLocked sm sid e r sm' :
  wf sm → deleteSessionLocked sid e sm = (r, sm') → wf sm'.
Proof.
  intros W. destruct (sessions sm !! sid) as [p|] eqn:Hsid.
  - destruct (wf_sessions W sid p Hsid) as (s & Hp & HID & Hc).
    destruct (decide (e = Some p)) as [->|Hne].
    + destruct (deleteSessionLocked_spec sm sid p s W Hsid Hp)
        as (sm2 & -> & Hh & Hs & Hco & Hcl & Hcn & Hct & _). intros [= _ <-].
      pose proof (wf_session W p s Hp) as Hok.
      destruct (release_counts sm s (heap sm) (wf_positive W) (wf_count W)) as [Hn Hpos].
      { intros Hcnt. split; [by apply (so_counted _ _ _ _ Hok)|eauto]. }
      apply (wf_unlist sm sm2 p s); rewrite ?HID, ?Hct; auto.
      * rewrite Hco. intros k q [Hk Hnot]%delete_if_Some. split; [done|]. intros ->.
        destruct (wf_code W k p Hk) as (t & ? & ? & ?). naive_solver.
      * rewrite Hcn. intros k q [[Hk H1]%delete_conn_if_Some H2]%delete_conn_if_Some.
        split; [done|]. intros ->. destruct (owned sm p s k W Hp Hk); naive_solver.
    + unfold deleteSessionLocked. destruct (deref _ _ _) as [[q t]|] eqn:Hd; [|by intros [= _ <-]].
      apply deref_Some in Hd as [? _]. simplify_eq.
      rewrite bool_decide_true by done. by intros [= _ <-].
  - unfold deleteSessionLocked, deref. rewrite Hsid. simpl. by intros [= _ <-].
Qed.

Lemma wf_CloseSession sm sid r sm' : wf sm → CloseSession sid sm = (r, sm') → wf sm'.
Proof.
  intros W. unfold CloseSession. destruct (deleteSessionLocked _ _ _) as [[[share help] b] sm2] eqn:E.
  intros [= _ <-]. eauto using wf_deleteSessionLocked.
Qed.

Lemma wf_cleanup_one now acc sid :
  wf acc.2 → wf (cleanup_one now acc sid).2.
Proof.
  destruct acc as [[expired toClose] sm]. simpl. intros W. unfold cleanup_one.
  destruct (deref _ _ _) as [[p s]|]; [|done]. destruct (time_After _ _); [|done].
  destruct (_ && _); [by apply wf_delete_code|].
  destruct (deleteSessionLocked _ _ _) as [[[share help] []] sm2] eqn:E; simpl;
    eapply wf_deleteSessionLocked in E; auto using wf_delete_code.
Qed.

Lemma wf_CleanupExpired now order sm : wf sm → wf (CleanupExpired now order sm).2.
Proof.
  unfold CleanupExpired. intros W. change sm with (([] : list string, [] : list ClientConn, sm).2) in W.
  revert W. generalize (([] : list string, [] : list ClientConn, sm)).
  induction order as [|sid order IH]; simpl; auto using wf_cleanup_one.
Qed.

Lemma wf_update sm p f :
  wf sm →
  (∀ s, heap sm !! p = Some s → same_identity s (f s) ∧ s_Share (f s) = s_Share s
        ∧ s_Help (f s) = s_Help s ∧ session_ok (sessions sm) (byConnID sm) p (f s)) →
  wf (update p f sm).
Proof.
  intros W Hf. unfold update. destruct (heap sm !! p) as [s|] eqn:Hp; [|done].
  destruct (Hf s eq_refl) as (? & ? & ? & ?). by apply (wf_write_kept _ p s).
Qed.

(** [graceAfterInUseLocked] moves the expiry and may restore the code mapping. *)
Lemma grace_heap sm p now s :
  heap sm !! p = Some s →
  ∃ e, s_ExpiresAt s ≤ e
    ∧ heap (graceAfterInUseLocked p now sm) = <[p := s <| s_ExpiresAt := e |>]> (heap sm).
Proof.
  intros Hp. unfold graceAfterInUseLocked. rewrite Hp.
  destruct (_ || _).
  - exists (s_ExpiresAt s). split; [lia|]. symmetry. apply insert_id. rewrite Hp. by destruct s.
  - destruct (time_After _ _) eqn:Ht.
    + exists (now + reconnectGrace sm). unfold time_After in Ht. apply Z.ltb_lt in Ht.
      split; [lia|]. by destruct (byCode _ !! _).
    + exists (s_ExpiresAt s). split; [lia|].
      replace (s <| s_ExpiresAt := s_ExpiresAt s |>) with s by (by destruct s).
      by destruct (byCode _ !! _).
Qed.

Lemma grace_frame sm p now :
  byConnID (graceAfterInUseLocked p now sm) = byConnID sm
  ∧ sessions (graceAfterInUseLocked p now sm) = sessions sm.
Proof.
  unfold graceAfterInUseLocked. destruct (heap sm !! p); [|done]. destruct (_ || _); [done|].
  by destruct (byCode _ !! _).
Qed.

Lemma session_ok_expires tbl conns p s e :
  session_ok tbl conns p s → session_ok tbl conns p (s <| s_ExpiresAt := e |>).
Proof. by intros []. Qed.

Lemma wf_graceAfterInUseLocked sm p now : wf sm → wf (graceAfterInUseLocked p now sm).
Proof.
  intros W. unfold graceAfterInUseLocked. destruct (heap sm !! p) as [s|] eqn:Hp; [|done].
  destruct (_ <=? 0); simpl; [done|]. destruct (s_closed s) eqn:Hc; [done|].
  set (s1 := if time_After _ _ then _ else s).
  assert (∃ e, s1 = s <| s_ExpiresAt := e |>) as [e He].
  { unfold s1. destruct (time_After _ _); [by eexists|]. exists (s_ExpiresAt s). by destruct s. }
  rewrite He. assert (wf (write p (s <| s_ExpiresAt := e |>) sm)) as W1.
  { apply (wf_write_kept _ p s); [done|done|by constructor|done..|].
    by apply session_ok_expires, (wf_session W). }
  case_match; [done|].
  apply (wf_add_code (write p (s <| s_ExpiresAt := e |>) sm) p (s <| s_ExpiresAt := e |>)); [done| |done].
  simpl. by rewrite lookup_insert_eq.
Qed.

(** The state of the heap cell of [p] after the writes that precede the last one
    of [DisconnectClient]. *)
Lemma update_lookup p f sm q :
  heap (update p f sm) !! q =
    if decide (p = q) then f <$> heap sm !! q else heap sm !! q.
Proof.
  unfold update. case_decide as Hpq; [subst q|]; destruct (heap sm !! p) eqn:E; simpl;
    rewrite ?lookup_insert_eq, ?lookup_insert_ne, ?E by done; done.
Qed.

Lemma update_frame p f sm :
  byConnID (update p f sm) = byConnID sm ∧ sessions (update p f sm) = sessions sm
  ∧ byCode (update p f sm) = byCode sm ∧ byClientID (update p f sm) = byClientID sm
  ∧ reconnectGrace (update p f sm) = reconnectGrace sm ∧ nextTimer (update p f sm) = nextTimer sm
  ∧ armed (update p f sm) = armed sm ∧ running (update p f sm) = running sm.
Proof. unfold update. by destruct (heap sm !! p). Qed.

Lemma wf_if_grace (b : bool) sm p now :
  wf sm → wf (if b then sm else graceAfterInUseLocked p now sm).
Proof. destruct b; auto using wf_graceAfterInUseLocked. Qed.

(** Whether or not grace applies, the session only gets another expiry. *)
Lemma if_grace_heap (b : bool) sm p now s :
  heap sm !! p = Some s →
  ∃ e, heap (if b then sm else graceAfterInUseLocked p now sm) !! p = Some (s <| s_ExpiresAt := e |>)
    ∧ s_ExpiresAt s ≤ e.
Proof.
  intros Hp. destruct b.
  - exists (s_ExpiresAt s). split; [|lia]. rewrite Hp. by destruct s.
  - destruct (grace_heap sm p now s Hp) as (e & ? & Hh). exists e. by rewrite Hh, lookup_insert_eq.
Qed.

Lemma if_grace_conns (b : bool) sm p now :
  byConnID (if b then sm else graceAfterInUseLocked p now sm) = byConnID sm.
Proof. destruct b; [done|]. apply grace_frame. Qed.

Lemma wf_write_if sm p s f :
  heap sm !! p = Some s → wf sm → same_identity s (f s) →
  (∀ k, byConnID sm !! k = Some p → owns (f s) k) →
  session_ok (sessions sm) (byConnID sm) p (f s) →
  wf (update p f sm).
Proof. intros Hp ????. unfold update. rewrite Hp. by apply (wf_write _ p s). Qed.

Lemma update_update p f g sm :
  update p g (update p f sm) = update p (fun s => g (f s)) sm.
Proof.
  unfold update at 2 3. destruct (heap sm !! p) as [s|] eqn:Hp.
  - unfold update, write; simpl. rewrite lookup_insert_eq. simpl. by rewrite insert_insert_eq.
  - unfold update. by rewrite Hp.
Qed.

(** Writes that do not concern expiry, code or closing commute with the grace. *)
Lemma grace_update p now f sm :
  (∀ s, s_ExpiresAt (f s) = s_ExpiresAt s) → (∀ s, s_closed (f s) = s_closed s) →
  (∀ s, s_Code (f s) = s_Code s) →
  (∀ s e, f (s <| s_ExpiresAt := e |>) = (f s) <| s_ExpiresAt := e |>) →
  graceAfterInUseLocked p now (update p f sm) = update p f (graceAfterInUseLocked p now sm).
Proof.
  intros HE HC HK Hf. unfold graceAfterInUseLocked, update.
  destruct (heap sm !! p) as [s|] eqn:Hp; [|by rewrite Hp].
  simpl. rewrite lookup_insert_eq, HC. destruct (_ || _); [by rewrite Hp|].
  rewrite HE. destruct (time_After _ _); simpl; rewrite ?HK;
    (destruct (byCode sm !! s_Code s); simpl; rewrite lookup_insert_eq; unfold write; simpl;
     rewrite !insert_insert_eq, ?Hf; done).
Qed.

Lemma wf_DisconnectClient sm now k r sm' :
  wf sm → DisconnectClient now k sm = (r, sm') → wf sm'.
Proof.
  intros W. unfold DisconnectClient.
  destruct (deref _ _ _) as [[p s]|] eqn:Hd; [|by intros [= _ <-]].
  apply deref_conn in Hd as (Hp & Hown & Hc & Hok); [|done].
  set (sm1 := sm <| byConnID := delete k (byConnID sm) |>).
  assert (wf sm1) as W1 by (by apply wf_delete_conn).
  destruct (conn_is (s_Help s) k) eqn:Hh; [|destruct (conn_is (s_Share s) k) eqn:Hs; [|by intros [= _ <-]]];
    intros [= _ <-].
  - set (sm2 := update p _ sm1). set (sm3 := if is_nil _ then sm2 else _). set (t := nextTimer sm3).
    assert (wf sm2) as W2.
    { apply wf_update; [done|]. intros s0 H0. split_and!; [by constructor|done..|].
      pose proof (wf_session W1 p s0 H0) as []. by constructor. }
    assert (wf sm3) as W3 by (by apply wf_if_grace).
    cut (wf (update p (fun s => s <| s_pendingHelpID := k |> <| s_helpDisconnectTimer := Some t |>) sm3));
      [by intros|].
    apply wf_update; [done|]. intros s0 H0. split_and!; [by constructor|done..|].
    assert (heap sm2 !! p = Some (s <| s_dataPlaneReady := false |>)) as Hp2.
    { unfold sm2. rewrite update_lookup, decide_True by done. simpl. by rewrite Hp. }
    destruct (if_grace_heap (is_nil (s_Share s)) sm2 p now _ Hp2) as (e & He & _).
    fold sm3 in He. rewrite He in H0. injection H0 as <-.
    assert (byConnID sm3 !! k ≠ Some p) as Hgone.
    { unfold sm3, sm2. rewrite if_grace_conns. destruct (update_frame p
        (fun s => s <| s_dataPlaneReady := false |>) sm1) as (-> & _). simpl.
      rewrite lookup_delete_eq. done. }
    pose proof (wf_session W3 p _ He) as []. constructor; try done; simpl in *.
    intros h Hhelp _. rewrite Hhelp in Hh. apply bool_decide_eq_true in Hh. by subst.
  - set (f := fun s : TunnelSession => s <| s_dataPlaneReady := false |> <| s_shareReady := false |>).
    set (g := fun s : TunnelSession => s <| s_Share := None |> <| s_liveReplaces := [] |>
                                         <| s_conflictUntil := time_zero |>).
    replace (if is_nil (s_Help s) then update p f sm1 else graceAfterInUseLocked p now (update p f sm1))
      with (update p f (if is_nil (s_Help s) then sm1 else graceAfterInUseLocked p now sm1))
      by (destruct (is_nil _); [done|]; by rewrite grace_update).
    rewrite update_update. set (sm3 := if is_nil _ then sm1 else _).
    assert (wf sm3) as W3 by (by apply wf_if_grace).
    destruct (if_grace_heap (is_nil (s_Help s)) sm1 p now s Hp) as (e & He & _). fold sm3 in He.
    apply (wf_write_if sm3 p _ _ He); [done|by constructor| |].
    + intros k' Hk'. right. unfold sm3 in Hk'. rewrite if_grace_conns in Hk'.
      simpl in Hk'. apply lookup_delete_Some in Hk' as [Hne Hk'].
      destruct (owned sm p s k' W Hp Hk') as [E|E]; [|done]. exfalso. apply Hne.
      apply conn_is_true in Hs as (x & ? & <-). apply conn_is_true in E as (y & ? & <-). congruence.
    + pose proof (wf_session W3 p _ He) as []. constructor; simpl in *; try done; try lia.
      by split; [|apply so_named0].
Qed.

Lemma wf_timer_fire sm t : wf sm → wf (timer_fire t sm).
Proof. unfold timer_fire. by destruct (armed sm !! t). Qed.

Lemma wf_debounce_callback sm t r sm' :
  wf sm → debounce_callback t sm = (r, sm') → wf sm'.
Proof.
  intros W. unfold debounce_callback. destruct (running sm !! t) as [p|]; [|by intros [= _ <-]].
  set (sm1 := sm <| running := _ |>). assert (wf sm1) as W1 by done.
  destruct (heap sm1 !! p) as [s|] eqn:Hp; [|by intros [= _ <-]].
  destruct (conn_is _ _) eqn:Hh; intros [= _ <-]; [|done].
  pose proof (wf_session W1 p s Hp) as Hok. apply conn_is_true in Hh as (h & HH & Hid).
  assert (s_pendingHelpID s ≠ ""%string) as Hne.
  { rewrite <- Hid. destruct (so_named _ _ _ _ Hok) as [_ Hn]. by rewrite HH in Hn. }
  destruct (so_pending _ _ _ _ Hok h HH Hne) as [_ Hgone].
  apply (wf_write _ p s); [done|done|by constructor| |].
  - intros k Hk. left. destruct (owned sm1 p s k W1 Hp Hk) as [|E]; [done|].
    rewrite HH in E. apply bool_decide_eq_true in E. congruence.
  - destruct Hok. constructor; simpl; try done.
    + intros Hd. destruct (so_data0 Hd) as (_ & _ & _ & ?). done.
    + by split; [apply so_named0|].
Qed.

Lemma wf_UpdatePeerAddr sm k a b n r sm' :
  wf sm → UpdatePeerAddr k a b n sm = (r, sm') → wf sm'.
Proof.
  intros W. unfold UpdatePeerAddr.
  destruct (deref _ _ _) as [[p s]|] eqn:Hd; [|by intros [= _ <-]].
  apply deref_conn in Hd as (Hp & _ & Hc & Hok); [|done].
  destruct (conn_is _ _); [|destruct (conn_is _ _); [|by intros [= _ <-]]]; intros [= _ <-];
    (apply (wf_write_kept _ p s); [done|done|by constructor|done..|]); by destruct Hok; constructor.
Qed.
