(* ===== verification/RelaySessionThms.v ===== *)
(** * What the relay's session table guarantees

    The methods of [SessionManager], the firing of a debounce timer and its
    callback are the transitions of a state machine; a state is [reachable] when
    some interleaving of them leads to it from the empty table. *)

From S2P Require Import Prelude GoNet RelaySession RelaySessionInv.

Open Scope Z_scope.

(** ** The state machine *)

Inductive sm_op :=
| OpCreate (now : Z) (cands : list string) (p : ptr) (code : string) (share : option ClientConn)
    (ttl : Z) (clientID shareIP : string) (maxPerIP maxTotal : Z) (ready : bool)
| OpReuse (now : Z) (clientID : string) (newShare : ClientConn)
| OpMarkReady (sessionID expectedShareID : string)
| OpJoin (now : Z) (code : string) (help : ClientConn)
| OpRollback (sessionID helpID : string)
| OpActivate (sessionID shareID helpID : string)
| OpClose (sessionID : string)
| OpDisconnect (now : Z) (connID : string)
| OpFire (t : timer)
| OpCallback (t : timer)
| OpCleanup (now : Z) (order : list string)
| OpPeerAddr (connID publicAddr privateAddr natType : string).

(** A fresh object is allocated at an unused address, and connections carry the
    non-empty id the server gave them. *)
Definition op_ok (op : sm_op) (sm : SessionManager) : Prop :=
  match op with
  | OpCreate _ _ p _ share _ _ _ _ _ _ => heap sm !! p = None ∧ named share
  | OpReuse _ _ c | OpJoin _ _ c => c_ID c ≠ ""%string
  | _ => True
  end.

(** The new table, for the operations that return. *)
Definition exec (op : sm_op) (sm : SessionManager) : option SessionManager :=
  match op with
  | OpCreate now cands p code share ttl clientID shareIP maxPerIP maxTotal ready =>
      snd <$> createSession now cands p code share ttl clientID shareIP maxPerIP maxTotal ready sm
  | OpReuse now k c => Some (ReuseSessionByClientID now k c sm).2
  | OpMarkReady sid id => Some (MarkShareReady sid id sm).2
  | OpJoin now code c => Some (JoinSession now code c sm).2
  | OpRollback sid id => Some (RollbackJoin sid id sm)
  | OpActivate sid a b => Some (ActivateDataPlane sid a b sm).2
  | OpClose sid => Some (CloseSession sid sm).2
  | OpDisconnect now id => Some (DisconnectClient now id sm).2
  | OpFire t => Some (timer_fire t sm)
  | OpCallback t => Some (debounce_callback t sm).2
  | OpCleanup now order => Some (CleanupExpired now order sm).2
  | OpPeerAddr id a b n => Some (UpdatePeerAddr id a b n sm).2
  end.

Definition sm_step (sm : SessionManager) (op : sm_op) (sm' : SessionManager) : Prop :=
  op_ok op sm ∧ exec op sm = Some sm'.

(** [run sm ops sm']: the operations [ops], in order, lead from [sm] to [sm']. *)
Inductive run : SessionManager → list sm_op → SessionManager → Prop :=
| run_nil sm : run sm [] sm
| run_cons sm op sm1 ops sm2 : sm_step sm op sm1 → run sm1 ops sm2 → run sm (op :: ops) sm2.

Definition reachable (sm : SessionManager) : Prop :=
  ∃ grace ops, run (NewSessionManager grace) ops sm.

Lemma wf_step sm op sm' : wf sm → sm_step sm op sm' → wf sm'.
Proof.
  intros W [Hok Hex]. destruct op; simpl in Hok, Hex; try (injection Hex as <-).
  - destruct (createSession _ _ _ _ _ _ _ _ _ _ _ _) as [[r sm2]|] eqn:E; simpl in Hex; [|done].
    injection Hex as <-. destruct Hok. eapply wf_createSession; eauto.
  - eapply wf_ReuseSessionByClientID; eauto using surjective_pairing.
  - eapply wf_MarkShareReady; eauto using surjective_pairing.
  - eapply wf_JoinSession; eauto using surjective_pairing.
  - by apply wf_RollbackJoin.
  - eapply wf_ActivateDataPlane; eauto using surjective_pairing.
  - eapply wf_CloseSession; eauto using surjective_pairing.
  - eapply wf_DisconnectClient; eauto using surjective_pairing.
  - by apply wf_timer_fire.
  - eapply wf_debounce_callback; eauto using surjective_pairing.
  - by apply wf_CleanupExpired.
  - eapply wf_UpdatePeerAddr; eauto using surjective_pairing.
Qed.

Lemma wf_run sm ops sm' : wf sm → run sm ops sm' → wf sm'.
Proof. intros W Hrun. revert W. induction Hrun; eauto using wf_step. Qed.

Lemma wf_reachable sm : reachable sm → wf sm.
Proof. intros (g & ops & Hrun). eauto using wf_run, wf_NewSessionManager. Qed.
#[export] Hint Resolve wf_reachable wf_step wf_run : relay.

(** ** A concrete history, used as the witness of the theorems below *)

Module Demo.
Definition share : ClientConn :=
  mkClientConn 1 "cli_share" "cid_1" "1.0.0" "uos@pc uos arm64" true (Some "198.51.100.7:40000"%string).
Definition share2 : ClientConn :=
  mkClientConn 3 "cli_share2" "cid_1" "1.0.0" "uos@pc uos arm64" true (Some "198.51.100.8:40001"%string).
Definition help : ClientConn :=
  mkClientConn 2 "cli_help" "" "1.0.0" "a@b linux amd64" true (Some "203.0.113.9:50000"%string).
Definition grace : Z := 30 * Minute.

Definition create : sm_op :=
  OpCreate 0 ["ses_1"%string] 1 "ABCD" (Some share) grace "cid_1" "198.51.100.7" 10 5000 false.
(** Registered, published, joined, data plane active. *)
Definition connect : list sm_op :=
  [create; OpMarkReady "ses_1" "cli_share"; OpJoin Second "ABCD" help;
   OpActivate "ses_1" "cli_share" "cli_help"].

Fixpoint exec_all (ops : list sm_op) (sm : SessionManager) : SessionManager :=
  match ops with
  | [] => sm
  | op :: ops => default sm (exec_all ops <$> exec op sm)
  end.
Definition connected : SessionManager := exec_all connect (NewSessionManager grace).

Lemma connected_run : run (NewSessionManager grace) connect connected.
Proof.
  unfold connect. repeat (eapply run_cons; [split; [by vm_compute|vm_compute; reflexivity]|]).
  vm_compute. apply run_nil.
Qed.

Lemma connected_reachable : reachable connected.
Proof. exists grace, connect. apply connected_run. Qed.
End Demo.

(** ** The invariant, as a theorem on reachable states *)

(** C1: in every reachable state of the relay the four indexes agree with the
    sessions they point to: a session id, code, client id or connection id leads
    to an open session that carries that very key, every open session is listed
    under its id, and the per-IP counter of each address is the number of
    sessions that hold a place of its quota. *)
Theorem reachable_tables_agree (sm : SessionManager) :
  reachable sm →
  (∀ k p, sessions sm !! k = Some p →
     ∃ s, heap sm !! p = Some s ∧ s_closed s = false ∧ s_ID s = k)
  ∧ (∀ p s, heap sm !! p = Some s → s_closed s = false → sessions sm !! s_ID s = Some p)
  ∧ (∀ k p, byCode sm !! k = Some p →
     ∃ s, heap sm !! p = Some s ∧ s_closed s = false ∧ s_Code s = k)
  ∧ (∀ k p, byClientID sm !! k = Some p →
     ∃ s, heap sm !! p = Some s ∧ s_closed s = false ∧ s_ClientID s = k)
  ∧ (∀ k p, byConnID sm !! k = Some p →
     ∃ s, heap sm !! p = Some s ∧ s_closed s = false
        ∧ (c_ID <$> s_Share s = Some k ∨ c_ID <$> s_Help s = Some k))
  ∧ (∀ ip, count_of (sessionCountPerIP sm) ip = Z.of_nat (counted ip (heap sm))).
Proof.
  intros W%wf_reachable. split_and!.
  - intros k p Hk. destruct (wf_sessions W k p Hk) as (s & ? & ? & ?). eauto.
  - intros p s Hp. apply (wf_session W p s Hp).
  - intros k p Hk. destruct (wf_code W k p Hk) as (s & ? & ? & ?). eauto.
  - intros k p Hk. destruct (wf_client W k p Hk) as (s & ? & ? & ? & ?). eauto.
  - intros k p Hk. destruct (wf_conn W k p Hk) as (s & ? & ? & Ho).
    exists s. split_and!; [done..|].
    destruct Ho as [(c & -> & <-)%conn_is_true|(c & -> & <-)%conn_is_true]; eauto.
  - apply (wf_count W).
Qed.

Lemma reachable_tables_agree_witness :
  reachable Demo.connected ∧ count_of (sessionCountPerIP Demo.connected) "198.51.100.7" = 1.
Proof.
  split; [apply Demo.connected_reachable|].
  destruct (reachable_tables_agree Demo.connected Demo.connected_reachable) as (_ & _ & _ & _ & _ & Hc).
  rewrite Hc. vm_compute. reflexivity.
Defined.

(** ** Routing *)

(** [FindPeer] never crosses sessions: the peer it names and the asking
    connection are the two ends of one open session, and while both ends are
    indexed under that session the routing is symmetric. *)
Theorem FindPeer_same_session (sm : SessionManager) (a : string) (b : ClientConn) :
  reachable sm → FindPeer a sm = Some b →
  (∃ p s, byConnID sm !! a = Some p ∧ heap sm !! p = Some s ∧ s_closed s = false
     ∧ sessions sm !! s_ID s = Some p
     ∧ ((c_ID <$> s_Share s = Some a ∧ s_Help s = Some b)
        ∨ (c_ID <$> s_Help s = Some a ∧ s_Share s = Some b)))
  ∧ (byConnID sm !! c_ID b = byConnID sm !! a → c_ID b ≠ a →
     ∃ x, FindPeer (c_ID b) sm = Some x ∧ c_ID x = a).
Proof.
  intros W%wf_reachable. unfold FindPeer.
  destruct (deref sm (byConnID sm) a) as [[p s]|] eqn:Hd; [|done].
  pose proof Hd as [Ha Hp]%deref_Some. apply deref_conn in Hd as (_ & Hown & Hc & Hok); [|done].
  intros Hpeer. split.
  - exists p, s. split_and!; [done..|by apply (so_listed _ _ _ _ Hok)|].
    destruct (conn_is (s_Share s) a) eqn:HS.
    + apply conn_is_true in HS as (x & -> & <-). by left.
    + destruct (conn_is (s_Help s) a) eqn:HH; [|done].
      apply conn_is_true in HH as (x & -> & <-). by right.
  - intros Hb Hne. assert (deref sm (byConnID sm) (c_ID b) = Some (p, s)) as ->.
    { apply deref_Some. rewrite Hb. done. }
    destruct (conn_is (s_Share s) a) eqn:HS.
    + apply conn_is_true in HS as (x & HS & Hx). rewrite HS, Hpeer. simpl.
      rewrite bool_decide_false by congruence. rewrite bool_decide_true by done. eauto.
    + destruct (conn_is (s_Help s) a) eqn:HH; [|done].
      apply conn_is_true in HH as (x & HH & Hx). rewrite Hpeer, conn_is_self, HH. eauto.
Qed.

Lemma FindPeer_same_session_witness :
  ∃ x, FindPeer "cli_share" Demo.connected = Some x ∧ c_ID x = "cli_help"%string.
Proof.
  apply (FindPeer_same_session Demo.connected "cli_help" Demo.share Demo.connected_reachable);
    vm_compute; done.
Defined.

(** ** The data plane *)

(** The data plane of [sid], read off the session it is listed under. *)
Lemma IsActiveDataSession_true sid sm :
  IsActiveDataSession sid sm = true ↔
  ∃ p s, sessions sm !! sid = Some p ∧ heap sm !! p = Some s ∧ session_data_active s = true.
Proof.
  unfold IsActiveDataSession. destruct (deref sm (sessions sm) sid) as [[p s]|] eqn:Hd.
  - apply deref_Some in Hd as [? ?]. split; [eauto|]. naive_solver.
  - split; [done|]. intros (p & s & ? & ? & _).
    assert (deref sm (sessions sm) sid = Some (p, s)) by by apply deref_Some. congruence.
Qed.

(** In a well-formed table [dataPlaneReady] alone decides. *)
Lemma data_active_iff sm p s :
  wf sm → heap sm !! p = Some s → session_data_active s = s_dataPlaneReady s.
Proof.
  intros W Hp. pose proof (wf_session W p s Hp) as Hok. unfold session_data_active.
  destruct (s_dataPlaneReady s) eqn:Hd; [|by rewrite andb_false_r].
  destruct (so_data _ _ _ _ Hok Hd) as (-> & HS & HH & ->).
  by rewrite HS, HH, (so_ready _ _ _ _ Hok HS HH).
Qed.

(** [keeps_shut sid sm sm']: if the data plane of session [sid] is open in [sm'],
    it was open in [sm]. *)
Definition keeps_shut (sid : string) (sm sm' : SessionManager) : Prop :=
  ∀ p s', heap sm' !! p = Some s' → s_dataPlaneReady s' = true → s_ID s' = sid →
    ∃ s, heap sm !! p = Some s ∧ s_dataPlaneReady s = true ∧ s_ID s = s_ID s'.

Lemma keeps_shut_refl sid sm : keeps_shut sid sm sm.
Proof. intros p s' ???. eauto. Qed.

Lemma keeps_shut_trans sid sm1 sm2 sm3 :
  keeps_shut sid sm1 sm2 → keeps_shut sid sm2 sm3 → keeps_shut sid sm1 sm3.
Proof.
  intros H12 H23 p s3 H3 Hd Hne. destruct (H23 p s3 H3 Hd Hne) as (s2 & H2 & Hd2 & E).
  destruct (H12 p s2 H2 Hd2) as (s1 & ? & ? & ?); [congruence|]. exists s1. split_and!; congruence.
Qed.

(** A write that does not raise the flag. *)
Lemma keeps_shut_insert sid sm sm' p s :
  heap sm' = <[p := s]> (heap sm) →
  (s_dataPlaneReady s = true → s_ID s = sid →
   ∃ s0, heap sm !! p = Some s0 ∧ s_dataPlaneReady s0 = true ∧ s_ID s0 = s_ID s) →
  keeps_shut sid sm sm'.
Proof.
  intros Hh Hs q s' Hq Hd Hne. rewrite Hh in Hq.
  apply lookup_insert_Some in Hq as [[-> ->]|[? ?]]; eauto.
Qed.

Lemma keeps_shut_heap sid sm sm' : heap sm' = heap sm → keeps_shut sid sm sm'.
Proof. intros E p s'. rewrite E. eauto. Qed.

Lemma keeps_shut_delete sid sm e r sm' sid' :
  deleteSessionLocked sid' e sm = (r, sm') → keeps_shut sid sm sm'.
Proof.
  unfold deleteSessionLocked. destruct (deref _ _ _) as [[p s]|] eqn:Hd;
    [|intros [= _ <-]; apply keeps_shut_refl].
  case_bool_decide; [intros [= _ <-]; apply keeps_shut_refl|]. intros [= _ <-].
  apply keeps_shut_insert with p (closed s); [|done].
  unfold write; simpl. f_equal.
  destruct (s_countedByIP s); [rewrite (proj1 (decrement_frame _ _ _ eq_refl))|];
    by destruct (bool_decide _), (s_helpDisconnectTimer s).
Qed.

Lemma keeps_shut_cleanup sid now order sm :
  keeps_shut sid sm (CleanupExpired now order sm).2.
Proof.
  unfold CleanupExpired. change sm with (([] : list string, [] : list ClientConn, sm).2) at 1.
  generalize (([] : list string, [] : list ClientConn, sm)).
  induction order as [|k order IH]; intros acc; simpl; [apply keeps_shut_refl|].
  eapply keeps_shut_trans; [|apply IH]. destruct acc as [[ex cl] sm0]. unfold cleanup_one.
  destruct (deref _ _ _) as [[p s]|]; [|apply keeps_shut_refl].
  destruct (time_After _ _); [|apply keeps_shut_refl].
  destruct (_ && _); [by apply keeps_shut_heap|].
  destruct (deleteSessionLocked _ _ _) as [[[share help] []] sm2] eqn:E; simpl;
    (eapply keeps_shut_trans; [|eapply keeps_shut_delete, E]; by apply keeps_shut_heap).
Qed.

(** What a disconnection does to the heap and to the code index: the session of
    the connection is rewritten, with its data plane shut; the grace applies when
    both ends were there. *)
Definition in_use (s : TunnelSession) : bool := negb (is_nil (s_Share s)) && negb (is_nil (s_Help s)).

Definition graced (grace now : Z) (s : TunnelSession) : Z :=
  if in_use s && (0 <? grace) then Z.max (s_ExpiresAt s) (now + grace) else s_ExpiresAt s.

Definition graced_codes (grace : Z) (p : ptr) (s : TunnelSession) (codes : gmap string ptr) :=
  if in_use s && (0 <? grace) && is_nil (codes !! s_Code s) then <[s_Code s := p]> codes else codes.

Lemma if_grace_spec (b : bool) sm p now s f :
  heap sm !! p = Some s → s_closed s = false →
  s_closed (f s) = false → s_ExpiresAt (f s) = s_ExpiresAt s → s_Code (f s) = s_Code s →
  b = negb (in_use s) →
  let sm' := if b then update p f sm else graceAfterInUseLocked p now (update p f sm) in
  heap sm' = <[p := (f s) <| s_ExpiresAt := graced (reconnectGrace sm) now s |>]> (heap sm)
  ∧ byCode sm' = graced_codes (reconnectGrace sm) p s (byCode sm).
Proof.
  intros Hp Hc Hfc Hfe Hfk ->. unfold graced, graced_codes.
  assert (heap (update p f sm) = <[p := f s]> (heap sm)) as Hu by (unfold update; by rewrite Hp).
  destruct (update_frame p f sm) as (_ & _ & Fc & _ & Fg & _).
  destruct (in_use s); simpl.
  - unfold graceAfterInUseLocked. rewrite Hu, lookup_insert_eq, Fg, Hfc, Hfe, orb_false_r.
    destruct (Z.leb_spec (reconnectGrace sm) 0), (Z.ltb_spec 0 (reconnectGrace sm)); try lia; simpl.
    + rewrite Hu, Fc. split; [|done]. f_equal. rewrite <- Hfe. by destruct (f s).
    + unfold time_After. destruct (Z.ltb_spec (s_ExpiresAt s) (now + reconnectGrace sm)); simpl;
        rewrite Fc, Hfk; (destruct (byCode sm !! s_Code s); simpl; rewrite Hu, insert_insert_eq).
      all: (split; [|done]); f_equal.
      1,2: f_equal; lia.
      all: rewrite Z.max_l by lia; rewrite <- Hfe; by destruct (f s).
  - rewrite Hu, Fc. split; [|done]. f_equal. rewrite <- Hfe. by destruct (f s).
Qed.

Lemma disconnect_spec now k sm d sm' :
  wf sm → DisconnectClient now k sm = (Some d, sm') →
  ∃ p s s', byConnID sm !! k = Some p ∧ heap sm !! p = Some s ∧ s_closed s = false
    ∧ d_SessionID d = s_ID s
    ∧ heap sm' = <[p := s']> (heap sm) ∧ byCode sm' = graced_codes (reconnectGrace sm) p s (byCode sm)
    ∧ s_dataPlaneReady s' = false ∧ s_ID s' = s_ID s ∧ s_Code s' = s_Code s ∧ s_closed s' = false
    ∧ s_ExpiresAt s' = graced (reconnectGrace sm) now s.
Proof.
  intros W. unfold DisconnectClient. destruct (deref _ _ _) as [[p s]|] eqn:Hd; [|done].
  pose proof Hd as [Hk _]%deref_Some. apply deref_conn in Hd as (Hp & _ & Hc & _); [|done].
  set (sm1 := sm <| byConnID := delete k (byConnID sm) |>).
  destruct (conn_is (s_Help s) k) eqn:HH; [|destruct (conn_is (s_Share s) k) eqn:HS; [|done]];
    intros [= <- <-].
  - destruct (if_grace_spec (is_nil (s_Share s)) sm1 p now s (fun s => s <| s_dataPlaneReady := false |>))
      as [Eh Ec]; try done.
    { unfold in_use. by destruct (s_Share s), (s_Help s). }
    match type of Eh with heap ?sm3 = _ => set (sm3' := sm3) in * end.
    exists p, s, (s <| s_dataPlaneReady := false |> <| s_ExpiresAt := graced (reconnectGrace sm) now s |>
      <| s_pendingHelpID := k |> <| s_helpDisconnectTimer := Some (nextTimer sm3') |>).
    split_and!; try done; simpl.
    + unfold update at 1. rewrite Eh, lookup_insert_eq. simpl. by rewrite Eh, insert_insert_eq.
    + by rewrite (proj1 (proj2 (proj2 (update_frame _ _ _)))), Ec.
  - destruct (if_grace_spec (is_nil (s_Help s)) sm1 p now s
      (fun s => s <| s_dataPlaneReady := false |> <| s_shareReady := false |>)) as [Eh Ec]; try done.
    { unfold in_use. by destruct (s_Share s), (s_Help s). }
    exists p, s, (s <| s_dataPlaneReady := false |> <| s_shareReady := false |> <| s_ExpiresAt := graced (reconnectGrace sm) now s |>
      <| s_Share := None |> <| s_liveReplaces := [] |> <| s_conflictUntil := time_zero |>).
    split_and!; try done; simpl.
    + unfold update at 1. rewrite Eh, lookup_insert_eq. simpl. by rewrite Eh, insert_insert_eq.
    + by rewrite (proj1 (proj2 (proj2 (update_frame _ _ _)))), Ec.
Qed.

Lemma disconnect_sessions now k sm d sm' :
  DisconnectClient now k sm = (d, sm') → sessions sm' = sessions sm.
Proof.
  assert (∀ (b : bool) p f sm0,
    sessions (if b then update p f sm0 else graceAfterInUseLocked p now (update p f sm0)) = sessions sm0) as H.
  { intros [] p f sm0; rewrite ?(proj2 (grace_frame _ _ _)); apply update_frame. }
  unfold DisconnectClient. destruct (deref _ _ _) as [[p s]|]; [|by intros [= _ <-]].
  destruct (conn_is _ _); [|destruct (conn_is _ _); [|by intros [= _ <-]]]; intros [= _ <-];
    simpl; by rewrite (proj1 (proj2 (update_frame _ _ _))), H.
Qed.

Lemma keeps_shut_disconnect sid now k sm :
  wf sm → keeps_shut sid sm (DisconnectClient now k sm).2.
Proof.
  intros W. destruct (DisconnectClient now k sm) as [[d|] sm'] eqn:E; simpl.
  - destruct (disconnect_spec _ _ _ _ _ W E) as (p & s & s' & _ & _ & _ & _ & Hh & _ & Hd & _).
    eapply keeps_shut_insert; [done|]. congruence.
  - unfold DisconnectClient in E. destruct (deref _ _ _) as [[p s]|];
      [destruct (conn_is _ _); [done|destruct (conn_is _ _); [done|]]|]; injection E as <-;
      apply keeps_shut_refl.
Qed.

Lemma keeps_shut_step sid sm op sm' :
  wf sm → sm_step sm op sm' → (∀ a b, op ≠ OpActivate sid a b) → keeps_shut sid sm sm'.
Proof.
  intros W [Hok Hex] Hne. destruct op; simpl in Hex; try (injection Hex as <-).
  - (* create *)
    destruct (createSession _ _ _ _ _ _ _ _ _ _ _ _) as [[r sm2]|] eqn:E; simpl in Hex; [|done].
    injection Hex as <-. apply createSession_cases in E as [(e & _ & ->)|(id & _ & C)];
      [apply keeps_shut_refl|].
    eapply keeps_shut_insert; [apply (cr_heap _ _ _ _ _ _ _ _ _ _ _ _ _ _ C)|done].
  - (* reuse *)
    unfold ReuseSessionByClientID. case_bool_decide; [apply keeps_shut_refl|].
    destruct (deref _ _ _) as [[p s]|] eqn:Hd; [|apply keeps_shut_refl].
    apply deref_Some in Hd as [_ Hp]. destruct (_ || _); [apply keeps_shut_refl|].
    assert (∀ s0, keeps_shut sid sm (rebind p s0 newShare sm)) as Hreb.
    { intros s0. eapply keeps_shut_insert with (p := p);
        [simpl; by rewrite heap_stop_timer, !heap_drop_conn|done]. }
    destruct (live_other _ _); [|apply Hreb]. destruct (time_Before _ _).
    + eapply keeps_shut_insert with (p := p); [done|]. eauto.
    + destruct (_ <? _)%nat; [|apply Hreb]. eapply keeps_shut_insert with (p := p); [done|]. eauto.
  - (* mark ready *)
    unfold MarkShareReady. destruct (deref _ _ _) as [[p s]|] eqn:Hd; [|apply keeps_shut_refl].
    apply deref_Some in Hd as [_ Hp]. destruct (_ || _); [apply keeps_shut_refl|].
    eapply keeps_shut_insert with (p := p); [done|]. eauto.
  - (* join *)
    unfold JoinSession. destruct (deref _ _ _) as [[p s]|] eqn:Hd; [|apply keeps_shut_refl].
    destruct (time_After _ _); [apply keeps_shut_refl|]. destruct (s_closed s); [apply keeps_shut_refl|].
    destruct (_ && _); [apply keeps_shut_refl|]. destruct (s_Share s); [|apply keeps_shut_refl].
    destruct (negb _); [apply keeps_shut_refl|].
    eapply keeps_shut_insert with (p := p); [simpl; by rewrite heap_drop_conn, heap_stop_timer|done].
  - (* rollback *)
    unfold RollbackJoin. destruct (deref _ _ _) as [[p s]|] eqn:Hd; [|apply keeps_shut_refl].
    destruct (conn_is _ _); [|apply keeps_shut_refl].
    eapply keeps_shut_insert with (p := p); [done|done].
  - (* activate *)
    unfold ActivateDataPlane. destruct (deref _ _ _) as [[p s]|] eqn:Hd; [|apply keeps_shut_refl].
    apply deref_session in Hd as (_ & HID & _ & _); [|done].
    destruct (s_closed s); [apply keeps_shut_refl|]. destruct (_ || _); [apply keeps_shut_refl|].
    destruct (_ || _); [apply keeps_shut_refl|]. destruct (bool_decide _); [apply keeps_shut_refl|].
    eapply keeps_shut_insert with (p := p); [done|]. simpl. intros _ E. destruct (Hne shareID helpID).
    congruence.
  - (* close *)
    unfold CloseSession. destruct (deleteSessionLocked _ _ _) as [[[share help] b] sm2] eqn:E.
    eapply keeps_shut_delete, E.
  - by apply keeps_shut_disconnect.
  - apply keeps_shut_heap. unfold timer_fire. by destruct (armed sm !! t).
  - (* callback *)
    unfold debounce_callback. destruct (running sm !! t) as [p|]; [|apply keeps_shut_refl].
    simpl. destruct (heap sm !! p) as [s|] eqn:Hp; [|by apply keeps_shut_heap].
    destruct (conn_is _ _); [|by apply keeps_shut_heap].
    eapply keeps_shut_insert with (p := p); [done|]. eauto.
  - apply keeps_shut_cleanup.
  - (* peer address *)
    unfold UpdatePeerAddr. destruct (deref _ _ _) as [[p s]|] eqn:Hd; [|apply keeps_shut_refl].
    apply deref_Some in Hd as [_ Hp].
    destruct (conn_is _ _); [|destruct (conn_is _ _); [|apply keeps_shut_refl]];
      (eapply keeps_shut_insert with (p := p); [done|]; eauto).
Qed.

Lemma shut_step sid sm op sm' :
  wf sm → sm_step sm op sm' → (∀ a b, op ≠ OpActivate sid a b) →
  IsActiveDataSession sid sm = false → IsActiveDataSession sid sm' = false.
Proof.
  intros W Hstep Hne Hshut. apply not_true_iff_false in Hshut. apply not_true_iff_false.
  intros (p & s' & Hsid & Hp & Hd)%IsActiveDataSession_true. apply Hshut.
  pose proof (wf_step _ _ _ W Hstep) as W'.
  rewrite (data_active_iff sm' p s' W' Hp) in Hd.
  destruct (wf_sessions W' sid p Hsid) as (s2 & ? & HID & _). simplify_eq.
  destruct (keeps_shut_step _ _ _ _ W Hstep Hne p s' Hp Hd eq_refl) as (s & Hs & Hds & E).
  apply IsActiveDataSession_true. exists p, s. split_and!; [|done|by rewrite (data_active_iff sm p)].
  pose proof (wf_session W p s Hs) as Hok. rewrite <- E. apply (so_listed _ _ _ _ Hok).
  by apply (so_data _ _ _ _ Hok).
Qed.

(** C2: once an end of a session disconnects, the relay admits no UDP traffic for
    that session until [ActivateDataPlane] pairs it again: whatever other
    operations interleave (joins, reuse, the debounce timer, expiry), the data
    plane stays shut. *)
Theorem data_plane_shut_until_reactivated (sm sm1 sm2 : SessionManager) (now : Z) (connID : string)
  (d : DisconnectResult) (ops : list sm_op) :
  reachable sm → DisconnectClient now connID sm = (Some d, sm1) →
  run sm1 ops sm2 → (∀ a b, OpActivate (d_SessionID d) a b ∉ ops) →
  IsActiveDataSession (d_SessionID d) sm2 = false
  ∧ ∀ ip, IsActiveDataSource (d_SessionID d) ip sm2 = false.
Proof.
  intros W%wf_reachable Hdis Hrun Hnot.
  cut (IsActiveDataSession (d_SessionID d) sm2 = false).
  { intros E. split; [done|]. intros ip. unfold IsActiveDataSession, IsActiveDataSource in *.
    destruct (deref _ _ _) as [[p s]|]; [|done]. unfold session_data_active in E.
    rewrite <- E at 2. destruct (s_closed s), (is_nil (s_Share s)), (s_shareReady s), (is_nil (s_Help s)),
      (s_dataPlaneReady s); simpl in *; try done;
      repeat case_bool_decide; simpl in *; try done; congruence. }
  assert (wf sm1) as W1 by (eapply wf_DisconnectClient; eauto).
  assert (IsActiveDataSession (d_SessionID d) sm1 = false) as Hshut.
  { apply not_true_iff_false. intros (p & s & Hsid & Hp & Hact)%IsActiveDataSession_true.
    rewrite (data_active_iff sm1 p s W1 Hp) in Hact.
    destruct (disconnect_spec _ _ _ _ _ W Hdis) as (q & s0 & s' & _ & Hq & Hc0 & Hdid & Hh & _ & Hd & _).
    pose proof (so_listed _ _ _ _ (wf_session W q s0 Hq) Hc0) as Hl.
    assert (sessions sm1 = sessions sm) as Hs by (eapply disconnect_sessions; eauto).
    rewrite Hs, Hdid, Hl in Hsid. injection Hsid as <-.
    rewrite Hh, lookup_insert_eq in Hp. congruence. }
  clear Hdis W. induction Hrun as [|sm1 op sm3 ops sm2 Hstep Hrun IH]; [done|].
  apply IH; [by set_solver|eauto using wf_step|].
  eapply shut_step; eauto. intros a b ->. set_solver.
Qed.

Definition help_gone : option DisconnectResult * SessionManager :=
  DisconnectClient Minute "cli_help" Demo.connected.

Definition help_back : SessionManager :=
  Demo.exec_all [OpJoin (Minute + Second) "ABCD" Demo.share2] (snd help_gone).

Lemma help_back_run : run (snd help_gone) [OpJoin (Minute + Second) "ABCD" Demo.share2] help_back.
Proof. eapply run_cons; [split; [by vm_compute|vm_compute; reflexivity]|apply run_nil]. Qed.

Lemma data_plane_shut_until_reactivated_witness :
  ∃ d, fst help_gone = Some d ∧ d_SessionID d = "ses_1"%string
    ∧ IsActiveDataSession (d_SessionID d) Demo.connected = true
    ∧ IsActiveDataSession (d_SessionID d) help_back = false.
Proof.
  eexists. split; [vm_compute; reflexivity|]. split; [reflexivity|]. split; [by vm_compute|].
  refine (proj1 (data_plane_shut_until_reactivated Demo.connected (snd help_gone) help_back
    Minute "cli_help" _ _ Demo.connected_reachable _ help_back_run _)); [vm_compute; reflexivity|].
  intros a b Hin%list_elem_of_singleton. discriminate.
Defined.
