(* ===== verification/RelaySessionQuota.v ===== *)
(** * Quotas and the life cycle of a session

    [evolves] bounds what any operation but the creation of a session may do to
    the table: no session appears, none reopens, and the identity of a session
    never changes.  The two limits of [createSession] follow for every reachable
    state. *)

From S2P Require Import Prelude GoNet RelaySession RelaySessionInv RelaySessionThms.

Open Scope Z_scope.

(** ** One session, before and after *)

Inductive evolved (s s' : TunnelSession) : Prop :=
| evolved_same : same_identity s s' → evolved s s'
| evolved_closed : same_identity (closed s) s' → evolved s s'.

Lemma evolved_refl s : evolved s s.
Proof. left. apply same_identity_refl. Qed.

Lemma evolved_trans s1 s2 s3 : evolved s1 s2 → evolved s2 s3 → evolved s1 s3.
Proof.
  intros [[]|[]] [[]|[]]; simpl in *;
    first [apply evolved_same; constructor; simpl; congruence
          |apply evolved_closed; constructor; simpl; congruence].
Qed.

Lemma evolved_identity s s' : evolved s s' →
  s_ID s' = s_ID s ∧ s_Code s' = s_Code s ∧ s_ClientID s' = s_ClientID s
  ∧ s_CreatorIP s' = s_CreatorIP s ∧ (s_closed s = true → s_closed s' = true)
  ∧ (s_countedByIP s' = true → s_countedByIP s = true)
  ∧ (s_closed s' = false → s_closed s = false ∧ s_countedByIP s' = s_countedByIP s).
Proof. intros [[]|[]]; simpl in *; split_and!; intros; try split; congruence. Qed.

Record evolves (sm sm' : SessionManager) : Prop := {
  ev_sessions : sessions sm' ⊆ sessions sm;
  ev_heap : ∀ p s', heap sm' !! p = Some s' → ∃ s, heap sm !! p = Some s ∧ evolved s s';
  ev_dom : ∀ p s, heap sm !! p = Some s → ∃ s', heap sm' !! p = Some s' ∧ evolved s s';
}.

Lemma evolves_refl sm : evolves sm sm.
Proof. constructor; [done|..]; eauto using evolved_refl. Qed.

Lemma evolves_trans sm1 sm2 sm3 : evolves sm1 sm2 → evolves sm2 sm3 → evolves sm1 sm3.
Proof.
  intros [S1 H1 D1] [S2 H2 D2]. constructor; [by etrans|..].
  - intros p s3 H. destruct (H2 p s3 H) as (s2 & Hs2 & ?). destruct (H1 p s2 Hs2) as (s1 & ? & ?).
    eauto using evolved_trans.
  - intros p s1 H. destruct (D1 p s1 H) as (s2 & Hs2 & ?). destruct (D2 p s2 Hs2) as (s3 & ? & ?).
    eauto using evolved_trans.
Qed.

(** A write to one session. *)
Lemma evolves_insert sm sm' p s s' :
  heap sm !! p = Some s → heap sm' = <[p := s']> (heap sm) → evolved s s' →
  sessions sm' ⊆ sessions sm → evolves sm sm'.
Proof.
  intros Hp Hh Hev Hs. constructor; [done|..]; rewrite Hh.
  - intros q t [[<- <-]|[_ Hq]]%lookup_insert_Some; eauto using evolved_refl.
  - intros q t Hq. destruct (decide (q = p)) as [->|Hne].
    + rewrite lookup_insert_eq. simplify_eq. eauto.
    + rewrite lookup_insert_ne by done. eauto using evolved_refl.
Qed.

Lemma evolves_same_insert sm sm' p s s' :
  heap sm !! p = Some s → heap sm' = <[p := s']> (heap sm) → same_identity s s' →
  sessions sm' = sessions sm → evolves sm sm'.
Proof. intros ??? E. eapply evolves_insert; [done..|by left|by rewrite E]. Qed.

Lemma evolves_heap sm sm' : heap sm' = heap sm → sessions sm' = sessions sm → evolves sm sm'.
Proof. intros E F. constructor; rewrite ?E, ?F; eauto using evolved_refl. Qed.

Lemma evolves_delete sm sid e r sm' :
  deleteSessionLocked sid e sm = (r, sm') → evolves sm sm'.
Proof.
  unfold deleteSessionLocked. destruct (deref _ _ _) as [[p s]|] eqn:Hd;
    [|intros [= _ <-]; apply evolves_refl].
  apply deref_Some in Hd as [Hsid Hp].
  case_bool_decide; [intros [= _ <-]; apply evolves_refl|]. intros [= _ <-].
  apply evolves_insert with p s (closed s); [done| |right; apply same_identity_refl|].
  - unfold write; simpl. f_equal. destruct (s_countedByIP s);
      [rewrite (proj1 (decrement_frame _ _ _ eq_refl))|];
      by destruct (bool_decide _), (s_helpDisconnectTimer s).
  - simpl. replace (sessions _) with (delete sid (sessions sm)); [apply delete_subseteq|].
    symmetry. destruct (s_countedByIP s); [rewrite (proj1 (proj2 (decrement_frame _ _ _ eq_refl)))|];
      by destruct (bool_decide _), (s_helpDisconnectTimer s).
Qed.

Lemma evolves_cleanup now order sm : evolves sm (CleanupExpired now order sm).2.
Proof.
  unfold CleanupExpired. change sm with (([] : list string, [] : list ClientConn, sm).2) at 1.
  generalize (([] : list string, [] : list ClientConn, sm)).
  induction order as [|k order IH]; intros acc; simpl; [apply evolves_refl|].
  eapply evolves_trans; [|apply IH]. destruct acc as [[ex cl] sm0]. unfold cleanup_one.
  destruct (deref _ _ _) as [[p s]|]; [|apply evolves_refl].
  destruct (time_After _ _); [|apply evolves_refl].
  destruct (_ && _); [by apply evolves_heap|].
  destruct (deleteSessionLocked _ _ _) as [[[share help] []] sm2] eqn:E; simpl;
    (eapply evolves_trans; [|eapply evolves_delete, E]; by apply evolves_heap).
Qed.

Lemma evolves_rebind sm p s0 s c :
  heap sm !! p = Some s0 → same_identity s0 s → evolves sm (rebind p s c sm).
Proof.
  intros Hp []. apply evolves_insert with p s0 (s <| s_helpDisconnectTimer := None |>
    <| s_Help := None |> <| s_pendingHelpID := ""%string |> <| s_Share := Some c |>
    <| s_SharePublicAddr := ""%string |> <| s_SharePrivateAddr := ""%string |>
    <| s_ShareNATType := ""%string |> <| s_HelpPublicAddr := ""%string |>
    <| s_HelpPrivateAddr := ""%string |> <| s_HelpNATType := ""%string |>
    <| s_shareReady := false |> <| s_dataPlaneReady := false |>); [done| |by left|].
  - unfold rebind; simpl. by rewrite heap_stop_timer, !heap_drop_conn.
  - unfold rebind; simpl. by rewrite sessions_stop_timer, !sessions_drop_conn.
Qed.

Lemma evolves_update p f sm : (∀ s, same_identity s (f s)) → evolves sm (update p f sm).
Proof.
  intros Hf. unfold update. destruct (heap sm !! p) as [s|] eqn:Hp; [|apply evolves_refl].
  apply evolves_insert with p s (f s); [done..|by left|done].
Qed.

Lemma evolves_grace p now sm : evolves sm (graceAfterInUseLocked p now sm).
Proof.
  destruct (heap sm !! p) as [s|] eqn:Hp.
  - destruct (grace_heap sm p now s Hp) as (e & _ & Hh).
    eapply evolves_insert; [done|exact Hh|left; by constructor|].
    by rewrite (proj2 (grace_frame _ _ _)).
  - unfold graceAfterInUseLocked. rewrite Hp. apply evolves_refl.
Qed.

Lemma evolves_if_grace (b : bool) p now sm sm1 :
  evolves sm sm1 → evolves sm (if b then sm1 else graceAfterInUseLocked p now sm1).
Proof. destruct b; [done|]. intros H. eapply evolves_trans; [done|apply evolves_grace]. Qed.

Lemma evolves_disconnect now k sm : evolves sm (DisconnectClient now k sm).2.
Proof.
  unfold DisconnectClient. destruct (deref _ _ _) as [[p s]|]; [|apply evolves_refl].
  assert (evolves sm (sm <| byConnID := delete k (byConnID sm) |>)) as E1 by by apply evolves_heap.
  destruct (conn_is _ _); [|destruct (conn_is _ _); [|apply evolves_refl]]; simpl.
  - match goal with |- evolves _ (@set_field _ _ _ _ _ (@set_field _ _ _ _ _ ?m)) => cut (evolves sm m) end.
    { intros E. eapply evolves_trans; [exact E|by apply evolves_heap]. }
    eapply evolves_trans; [apply evolves_if_grace|by apply evolves_update].
    eapply evolves_trans; [exact E1|by apply evolves_update].
  - eapply evolves_trans; [apply evolves_if_grace|by apply evolves_update].
    eapply evolves_trans; [exact E1|by apply evolves_update].
Qed.

(** Every operation but [createSession]. *)
Lemma evolves_step sm op sm' :
  sm_step sm op sm' →
  evolves sm sm' ∨ ∃ now cands p code share ttl clientID ip mp mt ready r,
    op = OpCreate now cands p code share ttl clientID ip mp mt ready
    ∧ createSession now cands p code share ttl clientID ip mp mt ready sm = Some (r, sm').
Proof.
  intros [_ Hex]. destruct op; simpl in Hex; try (injection Hex as <-; left).
  - destruct (createSession _ _ _ _ _ _ _ _ _ _ _ _) as [[r sm2]|] eqn:E; simpl in Hex; [|done].
    injection Hex as <-. right. repeat eexists; done.
  - unfold ReuseSessionByClientID. case_bool_decide; [apply evolves_refl|].
    destruct (deref _ _ _) as [[p s]|] eqn:Hd; [|apply evolves_refl].
    apply deref_Some in Hd as [_ Hp]. destruct (_ || _); [apply evolves_refl|].
    destruct (live_other _ _); [|by apply evolves_rebind with s].
    destruct (time_Before _ _); [by eapply evolves_same_insert|].
    destruct (_ <? _)%nat; [by eapply evolves_same_insert|].
    by apply evolves_rebind with s.
  - unfold MarkShareReady. destruct (deref _ _ _) as [[p s]|] eqn:Hd; [|apply evolves_refl].
    apply deref_Some in Hd as [_ Hp]. destruct (_ || _); [apply evolves_refl|].
    by eapply evolves_same_insert.
  - unfold JoinSession. destruct (deref _ _ _) as [[p s]|] eqn:Hd; [|apply evolves_refl].
    apply deref_Some in Hd as [_ Hp].
    destruct (time_After _ _); [apply evolves_refl|]. destruct (s_closed s) eqn:Hc; [apply evolves_refl|].
    destruct (_ && _); [apply evolves_refl|]. destruct (s_Share s); [|apply evolves_refl].
    destruct (negb _); [apply evolves_refl|].
    eapply evolves_insert; [exact Hp| | |]; simpl.
    + by rewrite heap_drop_conn, heap_stop_timer.
    + left. constructor; simpl; by destruct (s_helpDisconnectTimer s).
    + by rewrite sessions_drop_conn, sessions_stop_timer.
  - unfold RollbackJoin. destruct (deref _ _ _) as [[p s]|] eqn:Hd; [|apply evolves_refl].
    apply deref_Some in Hd as [_ Hp].
    destruct (conn_is _ _); [|apply evolves_refl]. by eapply evolves_same_insert.
  - unfold ActivateDataPlane. destruct (deref _ _ _) as [[p s]|] eqn:Hd; [|apply evolves_refl].
    apply deref_Some in Hd as [_ Hp].
    destruct (s_closed s); [apply evolves_refl|]. destruct (_ || _); [apply evolves_refl|].
    destruct (_ || _); [apply evolves_refl|]. destruct (bool_decide _); [apply evolves_refl|].
    by eapply evolves_same_insert.
  - unfold CloseSession. destruct (deleteSessionLocked _ _ _) as [[[share help] b] sm2] eqn:E.
    eapply evolves_delete, E.
  - apply evolves_disconnect.
  - unfold timer_fire. by destruct (armed sm !! t); [apply evolves_heap|apply evolves_refl].
  - unfold debounce_callback. destruct (running sm !! t) as [p|]; [|apply evolves_refl].
    simpl. destruct (heap sm !! p) as [s|] eqn:Hp; [|by apply evolves_heap].
    destruct (conn_is _ _); [|by apply evolves_heap].
    by eapply evolves_same_insert.
  - apply evolves_cleanup.
  - unfold UpdatePeerAddr. destruct (deref _ _ _) as [[p s]|] eqn:Hd; [|apply evolves_refl].
    apply deref_Some in Hd as [_ Hp].
    destruct (conn_is _ _); [|destruct (conn_is _ _); [|apply evolves_refl]];
      by eapply evolves_same_insert.
Qed.

(** ** The quotas *)

(** The limits a server was configured with, which it passes to every creation. *)
Definition limits_are (mp mt : Z) (op : sm_op) : Prop :=
  match op with
  | OpCreate _ _ _ _ _ _ _ _ mp' mt' _ => mp' = mp ∧ mt' = mt
  | _ => True
  end.

(** The open sessions that came from address [ip]. *)
Definition open_from (ip : string) (kv : ptr * TunnelSession) : Prop :=
  s_closed kv.2 = false ∧ s_CreatorIP kv.2 = ip.
#[export] Instance open_from_dec ip kv : Decision (open_from ip kv).
Proof. unfold open_from. apply _. Defined.

Definition open_sessions (ip : string) (sm : SessionManager) : nat :=
  size (filter (open_from ip) (heap sm)).

(** Sizes of two filtered maps, when the one's entries are a part of the other's. *)
Lemma size_filter_le {A : Type} (P Q : ptr * A → Prop)
  `{!∀ x, Decision (P x)} `{!∀ x, Decision (Q x)} (m m' : gmap ptr A) :
  (∀ p a, m !! p = Some a → P (p, a) → ∃ b, m' !! p = Some b ∧ Q (p, b)) →
  (size (filter P m) ≤ size (filter Q m'))%nat.
Proof.
  intros Hsub. rewrite <- !size_dom. apply subseteq_size. intros p.
  rewrite !elem_of_dom. intros [a [Ha HP]%map_lookup_filter_Some].
  destruct (Hsub p a Ha HP) as (b & Hb & HQ). exists b. by apply map_lookup_filter_Some.
Qed.

Record within (mp mt : Z) (sm : SessionManager) : Prop := {
  wi_total : Z.of_nat (size (sessions sm)) ≤ mt;
  wi_ip : ∀ ip, Z.of_nat (counted ip (heap sm)) ≤ mp;
  wi_counted : ∀ p s, heap sm !! p = Some s → s_closed s = false →
    s_CreatorIP s ≠ ""%string → s_countedByIP s = true;
}.

Lemma within_evolves mp mt sm sm' : evolves sm sm' → within mp mt sm → within mp mt sm'.
Proof.
  intros [Hs Hh _] [Ht Hi Hc]. constructor.
  - etrans; [|exact Ht]. apply Nat2Z.inj_le. rewrite <- !size_dom. apply subseteq_size.
    by apply subseteq_dom.
  - intros ip. etrans; [|apply (Hi ip)]. apply Nat2Z.inj_le. apply size_filter_le.
    intros p s' Hp [Hct Hip]; simpl in *. destruct (Hh p s' Hp) as (s & Hs0 & E%evolved_identity).
    exists s. split; [done|]. split; simpl; [naive_solver|]. destruct E as (_ & _ & _ & <- & _). done.
  - intros p s' Hp Hopen Hip. destruct (Hh p s' Hp) as (s & Hs0 & E%evolved_identity).
    destruct E as (_ & _ & _ & E & _ & _ & E'). destruct (E' Hopen) as [Hc0 ->].
    apply (Hc p); [done..|congruence].
Qed.

Lemma within_create mp mt sm now cands p code share ttl clientID ip ready r sm' :
  0 < mp → heap sm !! p = None → wf sm → within mp mt sm →
  createSession now cands p code share ttl clientID ip mp mt ready sm = Some (r, sm') →
  within mp mt sm'.
Proof.
  intros Hmp Hfresh W [Ht Hi Hc] [(e & _ & ->)|(id & _ & C)]%createSession_cases; [done|].
  destruct C as [[Hid _] Htot Hper Hh Hs _ _ _ _]. constructor.
  - rewrite Hs, map_size_insert_None by done. lia.
  - intros j. rewrite Hh, counted_insert_new by done. specialize (Hi j).
    simpl. destruct (limited mp ip) eqn:Hl; simpl; [|lia].
    specialize (Hper eq_refl). rewrite (wf_count W) in Hper.
    destruct (bool_decide_reflect (ip = j)); subst; simpl; lia.
  - rewrite Hh. intros q s [[<- <-]|[_ Hq]]%lookup_insert_Some; [|by apply (Hc q)].
    simpl. intros _ Hip. unfold limited. rewrite bool_decide_true by done.
    by apply Z.ltb_lt in Hmp as ->.
Qed.

Lemma within_run mp mt sm ops sm' :
  0 < mp → wf sm → within mp mt sm → Forall (limits_are mp mt) ops → run sm ops sm' →
  within mp mt sm'.
Proof.
  intros Hmp W Hw Hl Hrun. revert W Hw Hl.
  induction Hrun as [|sm op sm1 ops sm2 Hstep Hrun IH]; [done|].
  intros W Hw [Hop Hl]%Forall_cons. apply IH; [eauto using wf_step| |done].
  destruct (evolves_step _ _ _ Hstep) as [E|(?&?&?&?&?&?&?&?&?&?&?&?& -> & Hcr)];
    [by eapply within_evolves|].
  destruct Hop as [-> ->]. destruct Hstep as [[Hf _] _]. eapply within_create; eauto.
Qed.

(** The total holds whether or not the addresses are limited. *)
Lemma total_run mp mt sm ops sm' :
  wf sm → Z.of_nat (size (sessions sm)) ≤ mt → Forall (limits_are mp mt) ops → run sm ops sm' →
  Z.of_nat (size (sessions sm')) ≤ mt.
Proof.
  intros W Ht Hl Hrun. revert W Ht Hl.
  induction Hrun as [|sm op sm1 ops sm2 Hstep Hrun IH]; [done|].
  intros W Ht [Hop Hl]%Forall_cons. apply IH; [eauto using wf_step| |done].
  destruct (evolves_step _ _ _ Hstep) as [[Hs _ _]|(?&?&?&?&?&?&?&?&?&?&?&?& -> & Hcr)].
  - etrans; [|exact Ht]. apply Nat2Z.inj_le. rewrite <- !size_dom. apply subseteq_size. by apply subseteq_dom.
  - destruct Hop as [-> ->].
    apply createSession_cases in Hcr as [(e & _ & ->)|(id & _ & C)]; [done|].
    destruct C as [[Hid _] Htot _ _ Hs _ _ _ _]. rewrite Hs, map_size_insert_None by done. lia.
Qed.

(** The quotas of every reachable state: at most [mt] sessions are listed, and an
    address owns at most [mp] open ones. *)
Lemma quota_bounds (mp mt grace : Z) (ops : list sm_op) (sm : SessionManager) :
  0 < mp → 0 ≤ mt → Forall (limits_are mp mt) ops → run (NewSessionManager grace) ops sm →
  Z.of_nat (GetActiveSessions sm) ≤ mt
  ∧ ∀ ip, ip ≠ ""%string → Z.of_nat (open_sessions ip sm) ≤ mp.
Proof.
  intros Hmp Hmt Hl Hrun. pose proof (wf_NewSessionManager grace) as W.
  assert (within mp mt (NewSessionManager grace)) as Hw.
  { constructor; simpl; [by rewrite map_size_empty| |by intros ?? []%lookup_empty_Some].
    intros ip. unfold counted. rewrite map_filter_empty, map_size_empty. lia. }
  destruct (within_run mp mt _ _ _ Hmp W Hw Hl Hrun) as [Ht Hi Hc].
  split; [done|]. intros ip Hip. etrans; [|apply (Hi ip)]. apply Nat2Z.inj_le, size_filter_le.
  intros p s Hp [Hopen HI]; simpl in *. exists s. split; [done|]. split; [|done].
  simpl. apply (Hc p); [done..|by rewrite HI].
Qed.
