(* ===== verification/RelayServerThms.v ===== *)
(** * What the relay server guarantees

    Every event of the server drives the session table by a sequence of the
    table's own operations, so the theorems on the table hold for the server; the
    limits a server was configured with bound its sessions and its connections. *)

From S2P Require Import Prelude GoNet GoText Update RelayText GoFloat Ratelimit Limits.
From S2P Require Import StunCandidates RelaySession RelayServer RelaySessionInv RelaySessionThms RelaySessionQuota.

Open Scope Z_scope.

(** ** The server as a driver of the session table *)

Definition max_per_ip (s : Server) : Z :=
  if sourceIPLimitsDisabled s then 0 else TCP.MaxActiveSessionsPerIP (sv_limits s).

(** What never changes once a server is built, *)
Definition same_settings (s s' : Server) : Prop :=
  sv_config s' = sv_config s ∧ sv_limits s' = sv_limits s ∧ sv_stun s' = sv_stun s ∧ sv_codes s' = sv_codes s.

(** And what only the coming and going of connections changes. *)
Definition same_conns (s s' : Server) : Prop :=
  sv_clients s' = sv_clients s ∧ sv_connTotal s' = sv_connTotal s ∧ sv_connPerIP s' = sv_connPerIP s.

Definition untouched (s s' : Server) : Prop := same_settings s s' ∧ same_conns s s'.

(** [s'] is reached from [s] by operations of the table, under the limits of the
    server. *)
Definition drives (s s' : Server) : Prop :=
  untouched s s' ∧
  ∃ ops, run (sv_sessions s) ops (sv_sessions s')
    ∧ Forall (limits_are (max_per_ip s) (TCP.MaxActiveSessionsTotal (sv_limits s))) ops.

Lemma run_app sm1 ops1 sm2 ops2 sm3 : run sm1 ops1 sm2 → run sm2 ops2 sm3 → run sm1 (ops1 ++ ops2) sm3.
Proof. intros H. revert ops2 sm3. induction H; simpl; eauto using run. Qed.

Lemma run_one sm op sm' : sm_step sm op sm' → run sm [op] sm'.
Proof. eauto using run. Qed.

Lemma drives_same s s' : sv_sessions s' = sv_sessions s → untouched s s' → drives s s'.
Proof. intros E H. split; [done|]. exists []. rewrite E. eauto using run. Qed.

Lemma drives_refl s : drives s s.
Proof. by apply drives_same. Qed.

Lemma drives_trans s1 s2 s3 : drives s1 s2 → drives s2 s3 → drives s1 s3.
Proof.
  intros [[(C1 & L1 & S1 & D1) (K1 & T1 & P1)] (ops1 & R1 & F1)]
    [[(C2 & L2 & S2 & D2) (K2 & T2 & P2)] (ops2 & R2 & F2)].
  split; [split; split_and!; congruence|]. exists (ops1 ++ ops2). split; [by eapply run_app|].
  apply Forall_app. split; [done|]. unfold max_per_ip, sourceIPLimitsDisabled in *. by rewrite C1, L1 in F2.
Qed.

(** A handler all of whose runs drive the table. *)
Definition driver {A : Type} (m : M A) : Prop := ∀ s a s' out, m s = Some (a, s', out) → drives s s'.

Lemma driver_ret {A} (a : A) : driver (ret a).
Proof. intros s a' s' out [= _ <- _]. apply drives_refl. Qed.

Lemma bind_inv {A B} (m : M A) (f : A → M B) s b s' out :
  bind m f s = Some (b, s', out) →
  ∃ a s1 o1 o2, m s = Some (a, s1, o1) ∧ f a s1 = Some (b, s', o2) ∧ out = o1 ++ o2.
Proof.
  unfold bind. destruct (m s) as [[[a s1] o1]|] eqn:Em; [|done].
  destruct (f a s1) as [[[b' s2] o2]|] eqn:Ef; [|done]. intros [= <- <- <-]. eauto 10.
Qed.

Lemma driver_bind {A B} (m : M A) (f : A → M B) :
  driver m → (∀ a, driver (f a)) → driver (bind m f).
Proof.
  intros Hm Hf s b s' out (a & s1 & o1 & o2 & E1 & E2 & _)%bind_inv.
  eapply drives_trans; [by eapply Hm|by eapply Hf].
Qed.

Lemma driver_get : driver get.
Proof. intros s a s' out [= _ <- _]. apply drives_refl. Qed.

Lemma driver_emit o : driver (emit o).
Proof. intros s a s' out [= _ <- _]. apply drives_refl. Qed.

Lemma driver_sendMsg c m : driver (sendMsg c m).
Proof. unfold sendMsg. destruct (c_Conn c); [apply driver_emit|apply driver_ret]. Qed.

Lemma driver_close c : driver (close_conn c).
Proof.
  destruct c as [c|]; simpl; [destruct (c_Conn c); [apply driver_emit|apply driver_ret]|apply driver_ret].
Qed.

Lemma driver_invalidate sid : driver (invalidate sid).
Proof.
  apply driver_bind; [apply driver_get|]. intros s. destruct (sv_stun s); [apply driver_emit|apply driver_ret].
Qed.

(** One operation of the table. *)
Lemma driver_op {A} (f : SessionManager → A * SessionManager) op :
  (∀ sm, op_ok op sm) → (∀ sm, exec op sm = Some (f sm).2) →
  (∀ mp mt, limits_are mp mt op) → driver (on_sessions f).
Proof.
  intros Hok Hex Hlim s a s' out. unfold on_sessions. destruct (f (sv_sessions s)) as [x sm] eqn:E.
  intros [= <- <- _]. split; [done|]. exists [op]. split; [|by constructor].
  apply run_one. split; [done|]. simpl. rewrite Hex. by rewrite E.
Qed.

Lemma driver_keyed (f : Server → KeyedLimiter) `{SetField _ _ f} now key n :
  (∀ k s, sv_sessions (s <| f := k |>) = sv_sessions s ∧ untouched s (s <| f := k |>)) →
  driver (ask_keyed f now key n).
Proof.
  intros Hf s a s' out. unfold ask_keyed. destruct (KeyedAllowN _ _ _ _) as [b k]. intros [= _ <- _].
  destruct (Hf k s). by apply drives_same.
Qed.

Lemma driver_bucket (f : Server → Bucket) `{SetField _ _ f} now n :
  (∀ k s, sv_sessions (s <| f := k |>) = sv_sessions s ∧ untouched s (s <| f := k |>)) →
  driver (ask_bucket f now n).
Proof.
  intros Hf s a s' out. unfold ask_bucket. destruct (AllowN _ _ _) as [b k]. intros [= _ <- _].
  destruct (Hf k s). by apply drives_same.
Qed.

(** Handlers are built from these pieces. *)
Create HintDb driver.
#[export] Hint Resolve driver_ret driver_get driver_emit driver_sendMsg driver_close driver_invalidate : driver.
#[export] Hint Extern 1 (driver (bind _ _)) => apply driver_bind; [|intros] : driver.
#[export] Hint Extern 1 (driver (ask_keyed _ _ _ _)) => apply driver_keyed; done : driver.
#[export] Hint Extern 1 (driver (ask_bucket _ _ _)) => apply driver_bucket; done : driver.
#[export] Hint Extern 1 (driver (sendError _ _ _)) => apply driver_sendMsg : driver.
#[export] Hint Extern 2 (driver (match ?x with _ => _ end)) => destruct x : driver.

Lemma driver_allowData now c : driver (allowDataMessage now c).
Proof. unfold allowDataMessage. eauto 10 with driver. Qed.

Lemma driver_allowControl now c : driver (allowControlMessage now c).
Proof. unfold allowControlMessage. eauto 10 with driver. Qed.

Lemma driver_tool ticks deadline id cost : ∀ paid, driver (tool_loop ticks deadline id cost paid).
Proof.
  induction ticks as [|now ticks IH]; intros paid; simpl; [by intros s a s' out|].
  apply driver_bind; [auto with driver|]. intros b. apply driver_bind; [auto with driver|].
  intros ok. destruct ok; [auto with driver|]. destruct (negb _); [auto with driver|apply IH].
Qed.

Lemma driver_forward c ty p : driver (forwardToPeer c ty p).
Proof. unfold forwardToPeer. eauto 10 with driver. Qed.

Lemma driver_advertise c a : driver (handlePeerAddrAdvertise c a).
Proof.
  unfold handlePeerAddrAdvertise. destruct a as [a|]; [|auto with driver].
  apply driver_bind; [|intros [u|]; auto with driver].
  apply (driver_op _ (OpPeerAddr (c_ID c) (advertised_addr c a) (ad_PrivateAddr a) (ad_NATType a))); done.
Qed.

Lemma driver_business env client msg : driver (handleBusiness env client msg).
Proof.
  unfold handleBusiness.
  pose proof driver_allowData. pose proof driver_allowControl. pose proof driver_forward.
  pose proof driver_advertise. pose proof driver_tool. unfold allowToolMessage.
  repeat case_bool_decide; eauto 12 with driver.
Qed.

Lemma driver_reject client : driver (rejectJoin client).
Proof. unfold rejectJoin. eauto 10 with driver. Qed.

Lemma driver_join now client code : c_ID (cl_conn client) ≠ ""%string → driver (handleJoin now client code).
Proof.
  intros Hid. unfold handleJoin. pose proof driver_reject.
  apply driver_bind; [auto with driver|]. intros s.
  apply driver_bind; [auto with driver|]. intros ok. destruct (negb ok); [auto|].
  apply driver_bind; [auto with driver|]. intros ok2. destruct (negb ok2); [auto|].
  apply driver_bind.
  { by apply (driver_op _ (OpJoin now (string_of (normalizeCode (bytes_of code))) (cl_conn client))). }
  intros [j|e]; [|auto].
  apply driver_bind; [auto with driver|]. intros _.
  apply driver_bind.
  { by apply (driver_op _ (OpActivate (j_SessionID j) (j_ShareID j) (c_ID (cl_conn client)))). }
  intros active. destruct (negb active); [|eauto 10 with driver].
  apply driver_bind; [|auto].
  by apply (driver_op _ (OpRollback (j_SessionID j) (c_ID (cl_conn client)))).
Qed.

Lemma driver_finish client code expiresAt sid oldHelp : driver (finishRegister client code expiresAt sid oldHelp).
Proof.
  unfold finishRegister. apply driver_bind; [auto with driver|]. intros s.
  apply driver_bind; [auto with driver|]. intros _. apply driver_bind.
  { by apply (driver_op _ (OpMarkReady sid (c_ID (cl_conn client)))). }
  intros ready. destruct (negb ready); [auto with driver|]. eauto 10 with driver.
Qed.

(** The creation of a session, at an unused address. *)
Lemma drives_registerNew now fresh client s r s' out :
  c_ID (cl_conn client) ≠ ""%string → heap (sv_sessions s) !! fr_ptr fresh = None →
  registerNew now fresh client s = Some (r, s', out) → drives s s'.
Proof.
  intros Hid Hfresh. unfold registerNew. intros (s0 & s1 & o1 & o2 & [= <- <- <-] & H & _)%bind_inv.
  destruct (if cf_NoAuth _ then _ else _) as [code|].
  2:{ revert H. apply (driver_bind (sendError _ _ _) (fun _ => ret (true, client))); eauto with driver. }
  apply bind_inv in H as (cr & s2 & o3 & o4 & Hc & H & _). eapply drives_trans with s2.
  - unfold create_pending, createPendingSession in Hc.
    destruct (createSession _ _ _ _ _ _ _ _ _ _ _ _) as [[r0 sm]|] eqn:E; [|done]. injection Hc as _ <- _.
    split; [done|].
    exists [OpCreate now (fr_cands fresh) (fr_ptr fresh) code (Some (cl_conn client)) (cf_CodeTTL (sv_config s))
              (c_ClientID (cl_conn client)) (clientHost (cl_conn client)) (max_per_ip s)
              (TCP.MaxActiveSessionsTotal (sv_limits s)) false].
    split; [|constructor; [done|constructor]].
    apply run_one. split; [split; [done|exact Hid]|]. unfold exec, max_per_ip. by rewrite E.
  - destruct cr as [session|e]; revert H; [apply driver_finish|].
    apply (driver_bind (sendError _ _ _) (fun _ => ret (true, client))); eauto with driver.
Qed.

Lemma drives_register now fresh client s r s' out :
  c_ID (cl_conn client) ≠ ""%string → heap (sv_sessions s) !! fr_ptr fresh = None →
  handleRegister now fresh client s = Some (r, s', out) → drives s s'.
Proof.
  intros Hid Hfresh. unfold handleRegister. intros (s0 & s1 & o1 & o2 & [= <- <- <-] & H & _)%bind_inv.
  apply bind_inv in H as (ok & s2 & o3 & o4 & H1 & H & _).
  assert (drives s s2 ∧ sv_sessions s2 = sv_sessions s) as [D1 E1].
  { destruct (sourceIPLimitsDisabled s); [injection H1 as _ <- _; split; [apply drives_refl|done]|].
    unfold ask_keyed in H1. destruct (KeyedAllowN _ _ _ _). injection H1 as _ <- _. split; [by apply drives_same|done]. }
  destruct (negb ok).
  { eapply drives_trans; [exact D1|]. revert H.
    apply (driver_bind (sendError _ _ _) (fun _ => ret (true, client))); eauto with driver. }
  apply bind_inv in H as (ok2 & s3 & o5 & o6 & H2 & H & _).
  assert (drives s2 s3 ∧ sv_sessions s3 = sv_sessions s2) as [D2 E2].
  { unfold ask_bucket in H2. destruct (AllowN _ _ _). injection H2 as _ <- _. split; [by apply drives_same|done]. }
  eapply drives_trans; [exact D1|]. eapply drives_trans; [exact D2|]. clear D1 D2 H1 H2.
  destruct (negb ok2).
  { revert H. apply (driver_bind (sendError _ _ _) (fun _ => ret (true, client))); eauto with driver. }
  case_bool_decide as Hcid; [eapply drives_registerNew; [done| |exact H]; by rewrite E2, E1|].
  apply bind_inv in H as (o & s4 & o7 & o8 & Hr & H & _).
  assert (drives s3 s4) as D3.
  { revert Hr. by apply (driver_op _ (OpReuse now (c_ClientID (cl_conn client)) (cl_conn client))). }
  eapply drives_trans; [exact D3|]. unfold on_sessions in Hr.
  destruct (ReuseSessionByClientID _ _ _ _) as [oc sm] eqn:Ereuse. injection Hr as <- <- _.
  destruct oc as [|r0|r0].
  - assert (sm = sv_sessions s3) as ->.
    { unfold ReuseSessionByClientID in Ereuse. destruct (bool_decide _); [by injection Ereuse as <-|].
      destruct (deref _ _ _) as [[p ss]|]; [|by injection Ereuse as <-].
      destruct (_ || _); [by injection Ereuse as <-|]. destruct (live_other _ _); [|done].
      destruct (time_Before _ _); [done|]. by destruct (_ <? _)%nat. }
    eapply drives_registerNew; [done| |exact H]. simpl. by rewrite E2, E1.
  - revert H. apply (driver_bind (invalidate _)); [auto with driver|]. intros _.
    apply driver_bind; [|intros _; apply driver_finish].
    destruct (r_OldShare r0); [|auto with driver]. destruct (bool_decide _); auto with driver.
  - revert H. apply (driver_bind (sendError _ _ _) (fun _ => ret (true, client))); eauto with driver.
Qed.
