(* ===== verification/RelayLoopThms.v ===== *)
(** * What the relay as a whole guarantees

    Every history of the relay is a run of the session table under the configured
    limits, and the connection counters always agree with the open connections. *)

From S2P Require Import Prelude GoNet GoText Update RelayText GoFloat Ratelimit Limits.
From S2P Require Import StunCandidates RelaySession RelayServer RelayLoop RelaySessionInv RelaySessionThms RelaySessionQuota RelayServerThms.

Open Scope Z_scope.

(** ** Handlers keep the identity of their client *)

Definition keeps_id (id : string) {A : Type} (m : M (A * Client)) : Prop :=
  ∀ s a c s' out, m s = Some ((a, c), s', out) → c_ID (cl_conn c) = id.

Lemma keeps_id_ret id {A} (a : A) c : c_ID (cl_conn c) = id → keeps_id id (ret (a, c)).
Proof. by intros H s a' c' s' out [= _ <- _ _]. Qed.

Lemma keeps_id_bind id {A B} (m : M B) (f : B → M (A * Client)) : (∀ b, keeps_id id (f b)) → keeps_id id (bind m f).
Proof. intros Hf s a c s' out (b & s1 & o1 & o2 & _ & H & _)%bind_inv. by eapply Hf. Qed.

Ltac keeps :=
  repeat first
    [ solve [auto]
    | apply keeps_id_ret; done
    | apply keeps_id_bind; intros ?
    | match goal with |- keeps_id _ (match ?x with _ => _ end) => destruct x end ].

Lemma keeps_finish id client code e sid old :
  c_ID (cl_conn client) = id → keeps_id id (finishRegister client code e sid old).
Proof. intros H. unfold finishRegister. keeps. Qed.

Lemma keeps_new id now fresh client : c_ID (cl_conn client) = id → keeps_id id (registerNew now fresh client).
Proof. intros H. pose proof (keeps_finish id client). unfold registerNew. keeps. Qed.

Lemma keeps_message env client msg : keeps_id (c_ID (cl_conn client)) (handleMessage env client msg).
Proof.
  set (id := c_ID (cl_conn client)). unfold handleMessage.
  destruct (bool_decide _).
  { destruct (bool_decide _); [by apply keeps_id_ret|]. destruct (m_register msg) as [req|]; [|by apply keeps_id_ret].
    unfold handleRegister. set (client1 := client <| cl_conn := _ |>).
    assert (c_ID (cl_conn client1) = id) as H by done. clearbody client1.
    pose proof (keeps_finish id client1). pose proof (keeps_new id (e_now env) (e_fresh env) client1). keeps. }
  destruct (bool_decide _).
  { destruct (bool_decide _); [by apply keeps_id_ret|]. destruct (m_join msg) as [req|]; [|by apply keeps_id_ret].
    unfold handleJoin. set (client1 := client <| cl_conn := _ |>).
    assert (c_ID (cl_conn client1) = id) as H by done. clearbody client1.
    assert (keeps_id id (rejectJoin client1)) by (unfold rejectJoin; keeps). keeps. }
  destruct (bool_decide _); [|by apply keeps_id_ret].
  destruct (bool_decide _); [by apply keeps_id_ret|]. unfold handleBusiness.
  repeat case_bool_decide; keeps.
Qed.

(** ** Every event drives the session table *)

Lemma drives_message env client msg s r s' out :
  c_ID (cl_conn client) ≠ ""%string → heap (sv_sessions s) !! fr_ptr (e_fresh env) = None →
  handleMessage env client msg s = Some (r, s', out) → drives s s'.
Proof.
  intros Hid Hfresh. unfold handleMessage.
  destruct (bool_decide _).
  { destruct (bool_decide _); [apply driver_ret|]. destruct (m_register msg); [|apply driver_ret].
    by apply drives_register. }
  destruct (bool_decide _).
  { destruct (bool_decide _); [apply driver_ret|]. destruct (m_join msg); [|apply driver_ret].
    by apply driver_join. }
  destruct (bool_decide _); [|apply driver_ret].
  destruct (bool_decide _); [apply driver_ret|]. apply driver_business.
Qed.

Lemma driver_rest now c :
  driver (do r <- on_sessions (DisconnectClient now (c_ID c));
    do _ <- (match r with
         | Some d =>
             do _ <- (if d_ResetDataPlane d then invalidate (d_SessionID d) else ret tt);
             match d_PeerToNotify d with
             | Some peer => sendError peer ErrCodePeerDisconnected "被协助端已断开连接"
             | None => ret tt
             end
         | None => ret tt
         end);
    close_conn (Some c)).
Proof.
  apply driver_bind; [by apply (driver_op _ (OpDisconnect now (c_ID c)))|]. intros r.
  apply driver_bind; [|intros; auto with driver]. destruct r as [d|]; [|auto with driver].
  apply driver_bind; [destruct (d_ResetDataPlane d); auto with driver|]. intros _.
  destruct (d_PeerToNotify d); auto with driver.
Qed.

(** [disconnect] takes the connection off the table of clients first. *)
Lemma drives_disconnect now c s u s' out :
  disconnect now c s = Some (u, s', out) → drives (s <| sv_clients := sv_clients s ∖ {[c_ID c]} |>) s'.
Proof.
  unfold disconnect. intros (u1 & s1 & o1 & o2 & [= <- <- <-] & H & _)%bind_inv.
  by apply driver_rest in H.
Qed.

Lemma driver_debounce t : driver (debounce t).
Proof.
  apply driver_bind; [by apply (driver_op _ (OpCallback t))|].
  intros [c|]; [apply driver_sendMsg|auto with driver].
Qed.

Lemma driver_fire t : driver (on_sessions (fun sm => (tt, timer_fire t sm))).
Proof. by apply (driver_op _ (OpFire t)). Qed.

Lemma driver_invalidate_all ids : driver (invalidate_all ids).
Proof.
  induction ids as [|id ids IH]; simpl; [auto with driver|]. apply driver_bind; [auto with driver|auto].
Qed.

Lemma driver_cleanup now order : driver (cleanup_tick now order).
Proof.
  apply driver_bind.
  { apply (driver_op _ (OpCleanup now order)); [done| |done].
    intros sm. simpl. by destruct (CleanupExpired now order sm) as [[? ?] ?]. }
  intros r. apply driver_bind; [auto with driver|intros _; apply driver_invalidate_all].
Qed.

Lemma driver_reload base file : driver (reload_update_info base file).
Proof. intros s a s' out [= _ <- _]. by apply drives_same. Qed.

(** ** The connection slots *)

(** The open connections counted under [ip]. *)
Definition from_host (ip : string) (kv : string * OpenConn) : Prop := host_of (o_remote kv.2) = ip.
#[export] Instance from_host_dec ip kv : Decision (from_host ip kv).
Proof. unfold from_host. apply _. Defined.

Definition open_conns (ip : string) (r : Relay) : nat := size (filter (from_host ip) (rl_open r)).

Record slots_ok (r : Relay) : Prop := {
  sl_total : sv_connTotal (rl_server r) = Z.of_nat (size (rl_open r));
  sl_ip : ∀ ip, conns_of (rl_server r) ip = Z.of_nat (open_conns ip r);
  sl_clients : sv_clients (rl_server r) = dom (rl_open r);
  sl_named : ∀ id o, rl_open r !! id = Some o → c_ID (cl_conn (o_client o)) = id ∧ id ≠ ""%string;
  sl_max_total : sv_connTotal (rl_server r) ≤ Z.max 0 (TCP.MaxConnectionsTotal (sv_limits (rl_server r)));
  sl_max_ip : sourceIPLimitsDisabled (rl_server r) = false →
    ∀ ip, conns_of (rl_server r) ip ≤ Z.max 0 (TCP.MaxConnectionsPerIP (sv_limits (rl_server r)));
}.

(** A handler leaves them as they are. *)
Lemma slots_driven r s' : slots_ok r → drives (rl_server r) s' → slots_ok (r <| rl_server := s' |>).
Proof.
  intros [? ? ? ? ? ?] [[(C & L & _ & _) (K & T & P)] _].
  constructor; unfold open_conns, conns_of, sourceIPLimitsDisabled in *; simpl; rewrite ?C, ?L, ?K, ?T, ?P; done.
Qed.

(** So does an update of an open connection that keeps its name and address. *)
Lemma slots_update r id o o' :
  rl_open r !! id = Some o → o_remote o' = o_remote o → c_ID (cl_conn (o_client o')) = c_ID (cl_conn (o_client o)) →
  slots_ok r → slots_ok (r <| rl_open := <[id := o']> (rl_open r) |>).
Proof.
  intros Ho Hr Hid [Ht Hi Hc Hn Hm Hp]. constructor; simpl; [..|done|done].
  - by rewrite map_size_insert_Some by eauto.
  - intros ip. rewrite Hi. unfold open_conns. simpl.
    rewrite (size_filter_replace _ _ _ o _ Ho); [done|]. unfold from_host. simpl. by rewrite Hr.
  - rewrite Hc, dom_insert_L. apply elem_of_dom_2 in Ho. set_solver.
  - intros id' o2 [[<- <-]|[_ H]]%lookup_insert_Some; [|by apply Hn]. rewrite Hid. by apply Hn.
Qed.

Lemma slots_accept p remote tokens r r' out :
  slots_ok r → handleConn p remote tokens r = Some (r', out) → slots_ok r'.
Proof.
  intros I. unfold handleConn, acquireConnSlot.
  destruct (_ <=? _) eqn:Htot; [intros [= <- _]; by destruct r|].
  destruct (_ && _) eqn:Hip; [intros [= <- _]; by destruct r|]. cbn [negb].
  apply Z.leb_gt in Htot. destruct I as [Ht Hi Hc Hn Hm Hp].
  unfold registerClient. destruct (find _ _) as [id|] eqn:Hf; [|done]. intros [= <- _].
  apply find_some in Hf as [Hin Hnew]. apply negb_true_iff, bool_decide_eq_false in Hnew. simpl in Hnew.
  rewrite Hc, elem_of_dom, <- eq_None_not_Some in Hnew.
  apply in_map_iff in Hin as ([t1 t2] & Hgen & _).
  constructor; simpl.
  - rewrite map_size_insert_None by done. lia.
  - intros ip. unfold conns_of, open_conns. simpl. rewrite size_filter_insert by done.
    specialize (Hi ip). unfold conns_of, open_conns in Hi. unfold from_host at 1. simpl.
    destruct (decide (host_of remote = ip)) as [<-|Hne].
    + rewrite lookup_insert_eq. simpl. lia.
    + rewrite lookup_insert_ne by done. simpl. exact Hi.
  - rewrite dom_insert_L. by rewrite Hc.
  - intros id' o [[<- <-]|[_ H]]%lookup_insert_Some; [|by apply Hn].
    split; [done|]. by rewrite <- Hgen.
  - lia.
  - intros Hd ip. specialize (Hp Hd ip). unfold conns_of in *. simpl in *.
    unfold sourceIPLimitsDisabled in *. simpl in Hd. rewrite Hd in Hip. simpl in Hip. apply Z.leb_gt in Hip.
    destruct (decide (host_of remote = ip)) as [<-|Hne].
    + rewrite lookup_insert_eq. simpl. lia.
    + rewrite lookup_insert_ne by done. exact Hp.
Qed.

Lemma release_slot ip s cur :
  sv_connPerIP s !! ip = Some cur → 1 ≤ cur → 1 ≤ sv_connTotal s →
  sv_connTotal (releaseConnSlot ip s) = sv_connTotal s - 1
  ∧ (∀ j, conns_of (releaseConnSlot ip s) j = conns_of s j - (if decide (ip = j) then 1 else 0))
  ∧ sv_clients (releaseConnSlot ip s) = sv_clients s ∧ same_settings s (releaseConnSlot ip s)
  ∧ sv_sessions (releaseConnSlot ip s) = sv_sessions s.
Proof.
  intros Hcur H1 Htot. unfold releaseConnSlot. rewrite Hcur.
  assert (0 <? sv_connTotal s = true) as Hpos by (apply Z.ltb_lt; lia).
  destruct (cur <=? 1) eqn:Hle; simpl; rewrite Hpos; unfold conns_of; simpl; split_and!; try done; intros j.
  - apply Z.leb_le in Hle. destruct (decide (ip = j)) as [<-|]; [rewrite lookup_delete_eq, Hcur; simpl; lia|].
    rewrite lookup_delete_ne by done. lia.
  - destruct (decide (ip = j)) as [<-|]; [rewrite lookup_insert_eq, Hcur; simpl; lia|].
    rewrite lookup_insert_ne by done. lia.
Qed.

(** The connection that goes away still holds its slot. *)
Lemma held_slot r id o :
  slots_ok r → rl_open r !! id = Some o →
  1 ≤ sv_connTotal (rl_server r)
  ∧ ∃ cur, sv_connPerIP (rl_server r) !! host_of (o_remote o) = Some cur ∧ 1 ≤ cur.
Proof.
  intros [Ht Hi _ _ _ _] Ho. specialize (Hi (host_of (o_remote o))).
  unfold open_conns in Hi. rewrite (size_filter_delete _ _ _ _ Ho) in Hi.
  rewrite decide_True in Hi by done. split.
  - rewrite Ht. assert (size (rl_open r) ≠ 0%nat); [|lia].
    intros E%map_size_empty_inv. rewrite E in Ho. by apply lookup_empty_Some in Ho.
  - unfold conns_of in Hi. destruct (sv_connPerIP (rl_server r) !! _) as [cur|]; simpl in Hi; [|lia].
    exists cur. split; [done|lia].
Qed.

Lemma slots_deferred id now r r' out :
  slots_ok r → run_deferred id now r = Some (r', out) →
  slots_ok r' ∧ same_settings (rl_server r) (rl_server r') ∧
  ∃ s1, drives ((rl_server r) <| sv_clients := sv_clients (rl_server r) ∖ {[id]} |>) s1
        ∧ sv_sessions (rl_server r') = sv_sessions s1.
Proof.
  intros I. unfold run_deferred. destruct (rl_open r !! id) as [o|] eqn:Ho; [|done].
  destruct (negb (o_closing o)); [done|].
  destruct (disconnect _ _ _) as [[[u s] o1]|] eqn:Hd; [|done]. intros [= <- _]. simpl.
  apply drives_disconnect in Hd as D. destruct (sl_named r I id o Ho) as [Hid Hne]. rewrite Hid in D.
  destruct (held_slot r id o I Ho) as (Htot & cur & Hcur & H1).
  pose proof D as [[(C & L & S & G) (K & T & P)] _]. simpl in C, L, S, G, K, T, P.
  destruct (release_slot (host_of (o_remote o)) s cur) as (RT & RC & RK & (RC' & RL & RS & RG) & RSe);
    [by rewrite P|done|by rewrite T|].
  assert (∀ j, conns_of s j = conns_of (rl_server r) j) as Pj by (intros j; unfold conns_of; by rewrite P).
  split; [|split; [|by exists s]].
  2:{ split_and!; congruence. }
  destruct I as [Ht Hi Hc Hn Hm Hp]. constructor; simpl.
  - rewrite RT, T, Ht, <- (insert_delete_id _ _ _ Ho) at 1. rewrite map_size_insert_None by apply lookup_delete_eq. lia.
  - intros j. rewrite RC, Pj, Hi. unfold open_conns. simpl. rewrite (size_filter_delete _ _ _ _ Ho).
    destruct (decide (host_of (o_remote o) = j)) as [E|E];
      [rewrite decide_True by exact E|rewrite decide_False by exact E]; lia.
  - rewrite RK, K, Hc, dom_delete_L. done.
  - intros id' o' [_ H]%lookup_delete_Some. by apply Hn.
  - rewrite RL, L, RT, T. lia.
  - intros Hdis j. rewrite RC, RL, L, Pj. unfold sourceIPLimitsDisabled in *. rewrite RC', C in Hdis.
    specialize (Hp Hdis j). destruct (decide _); lia.
Qed.

(** ** Histories *)

(** [r'] is within the reach of [r]: the same settings, a run of the table. *)
Definition follows (r r' : Relay) : Prop :=
  same_settings (rl_server r) (rl_server r') ∧
  ∃ ops, run (sv_sessions (rl_server r)) ops (sv_sessions (rl_server r'))
    ∧ Forall (limits_are (max_per_ip (rl_server r)) (TCP.MaxActiveSessionsTotal (sv_limits (rl_server r)))) ops.

Lemma drives_follows r s' : drives (rl_server r) s' → follows r (r <| rl_server := s' |>).
Proof. by intros [[? _] ?]. Qed.

Lemma follows_refl r : follows r r.
Proof. split; [done|]. exists []. eauto using run. Qed.

Lemma follows_trans r1 r2 r3 : follows r1 r2 → follows r2 r3 → follows r1 r3.
Proof.
  intros [(C1 & L1 & S1 & D1) (ops1 & R1 & F1)] [(C2 & L2 & S2 & D2) (ops2 & R2 & F2)].
  split; [split_and!; congruence|]. exists (ops1 ++ ops2). split; [by eapply run_app|].
  apply Forall_app. split; [done|]. unfold max_per_ip, sourceIPLimitsDisabled in *. by rewrite C1, L1 in F2.
Qed.

Lemma follows_accept p remote tokens r r' out : handleConn p remote tokens r = Some (r', out) → follows r r'.
Proof.
  unfold handleConn, acquireConnSlot.
  destruct (_ <=? _); [intros [= <- _]; apply drives_follows; by apply drives_same|].
  destruct (_ && _); [intros [= <- _]; apply drives_follows; by apply drives_same|]. cbn [negb].
  unfold registerClient. destruct (find _ _) as [id|]; [|done]. intros [= <- _].
  split; [done|]. exists []. split; [apply run_nil|done].
Qed.

Lemma on_server_step m r r' out :
  driver m → slots_ok r → on_server m r = Some (r', out) → follows r r' ∧ slots_ok r'.
Proof.
  intros Hm I. unfold on_server. destruct (m (rl_server r)) as [[[u s] o]|] eqn:E; [|done].
  intros [= <- _]. apply Hm in E. split; [by apply drives_follows|by apply slots_driven].
Qed.

Lemma relay_step_ok e r r' out :
  slots_ok r → event_ok e r → relay_step e r = Some (r', out) → follows r r' ∧ slots_ok r'.
Proof.
  intros I Hok H. destruct e as [p remote tokens|id env msg|id|id now|t|t|now order|file]; simpl in H.
  - split; [by eapply follows_accept|by eapply slots_accept].
  - unfold read_message in H. destruct (rl_open r !! id) as [o|] eqn:Ho; [|done].
    destruct (o_closing o); [done|].
    destruct (handleMessage _ _ _ _) as [[[[close client] s] o1]|] eqn:Hm; [|done]. injection H as <- _.
    destruct (sl_named r I id o Ho) as [Hid Hne].
    assert (drives (rl_server r) s) as D by (eapply drives_message; [by rewrite Hid|exact Hok|exact Hm]).
    apply keeps_message in Hm. split; [by destruct D as [[? _] ?]|].
    refine (slots_update (r <| rl_server := s |>) id o (o <| o_client := client |> <| o_closing := close |>) _ _ _ _);
      [done|done|exact Hm|by apply slots_driven].
  - destruct (rl_open r !! id) as [o|] eqn:Ho; [|done]. injection H as <- _.
    split; [|by eapply slots_update]. split; [done|]. exists []. split; [apply run_nil|done].
  - apply slots_deferred in H as (I' & Hs & s1 & [[_ _] Hrun] & E); [|done].
    split; [|done]. split; [done|]. by rewrite E.
  - eapply on_server_step; [apply driver_fire|done|exact H].
  - eapply on_server_step; [apply driver_debounce|done|exact H].
  - eapply on_server_step; [apply driver_cleanup|done|exact H].
  - eapply on_server_step; [apply driver_reload|done|exact H].
Qed.

Lemma history_ok r es r' out : history r es r' out → slots_ok r → follows r r' ∧ slots_ok r'.
Proof.
  induction 1 as [r|r e r1 o1 es r2 o2 Hok Hs _ IH]; intros I; [split; [apply follows_refl|done]|].
  destruct (relay_step_ok _ _ _ _ I Hok Hs) as [F I1]. destruct (IH I1) as [F2 I2].
  split; [by eapply follows_trans|done].
Qed.

(** A relay that was just started satisfies all that, and its limits were validated. *)
Lemma started_ok cfg stun now r :
  started cfg stun now r →
  slots_ok r ∧ TCP.ValidateLimits (sv_limits (rl_server r)) = None
  ∧ sv_limits (rl_server r) = TCP.normalizeLimits (cf_Limits cfg)
  ∧ cf_DisableSourceIPLimits (sv_config (rl_server r)) = cf_DisableSourceIPLimits cfg
  ∧ ∃ g, sv_sessions (rl_server r) = NewSessionManager g.
Proof.
  intros [H Ho]. destruct r as [s o]. simpl in H, Ho. subst o. cbn [rl_server].
  assert (∃ cfg', cf_Limits cfg' = cf_Limits cfg ∧ cf_DisableSourceIPLimits cfg' = cf_DisableSourceIPLimits cfg
            ∧ s = build_server cfg' (TCP.normalizeLimits (cf_Limits cfg)) stun now
            ∧ TCP.ValidateLimits (TCP.normalizeLimits (cf_Limits cfg)) = None) as (cfg' & EL & ED & -> & Hv).
  { exists (code_defaults cfg).
    assert (cf_Limits (code_defaults cfg) = cf_Limits cfg
      ∧ cf_DisableSourceIPLimits (code_defaults cfg) = cf_DisableSourceIPLimits cfg) as [EL ED].
    { unfold code_defaults. destruct (_ =? 0); cbn; by destruct (_ =? 0). }
    split; [done|]. split; [done|]. revert H. unfold NewServer. rewrite EL.
    destruct (TCP.ValidateLimits _); [done|]. destruct (negb _); [done|]. destruct (_ && _); [done|].
    by intros [= <-]. }
  generalize dependent (TCP.normalizeLimits (cf_Limits cfg)). intros lim _ Hv.
  split_and!; [|done|done|done|by exists (cf_CodeTTL cfg')].
  constructor; simpl.
  - done.
  - intros ip. unfold conns_of, open_conns. simpl. by rewrite lookup_empty, map_filter_empty.
  - by rewrite dom_empty_L.
  - by intros ?? []%lookup_empty_Some.
  - lia.
  - intros _ ip. unfold conns_of. simpl. rewrite lookup_empty. simpl. lia.
Qed.

Lemma positive_limits l :
  TCP.ValidateLimits l = None →
  0 < TCP.MaxConnectionsTotal l ∧ 0 < TCP.MaxConnectionsPerIP l ∧ 0 < TCP.MaxJoinFailures l
  ∧ 0 < TCP.MaxActiveSessionsPerIP l ∧ 0 < TCP.MaxActiveSessionsTotal l.
Proof. intros [H _]%TCP.ValidateLimits_ok. unfold TCP.positive in H. destruct_and! H. done. Qed.

(** The table of a relay with a history is reached from the empty one under the
    limits of the configuration. *)
Lemma table_run cfg stun now r0 es r out :
  started cfg stun now r0 → history r0 es r out →
  ∃ g ops, run (NewSessionManager g) ops (sv_sessions (rl_server r))
    ∧ Forall (limits_are (max_per_ip (rl_server r0)) (TCP.MaxActiveSessionsTotal (sv_limits (rl_server r0)))) ops.
Proof.
  intros (I & _ & _ & _ & g & E)%started_ok [[_ (ops & Hrun & Hl)] _]%history_ok; [|done].
  exists g, ops. by rewrite E in Hrun.
Qed.

Lemma table_reachable cfg stun now r0 es r out :
  started cfg stun now r0 → history r0 es r out → reachable (sv_sessions (rl_server r)).
Proof. intros Hs Hh. destruct (table_run _ _ _ _ _ _ _ Hs Hh) as (g & ops & Hrun & _). by exists g, ops. Qed.

(** C3: whatever connects, sends, hangs up or expires, a relay started from a
    configuration [NewServer] accepts never has more open connections or listed
    sessions than its limits allow in all, nor - unless the limits per source
    address were switched off - more than they allow for one address. *)
Theorem relay_within_limits (cfg : Config) (stun : bool) (now : Z) (r0 : Relay) (es : list Event) (r : Relay)
  (out : list Out) :
  started cfg stun now r0 → history r0 es r out →
  let lim := TCP.normalizeLimits (cf_Limits cfg) in
  Z.of_nat (size (rl_open r)) ≤ TCP.MaxConnectionsTotal lim
  ∧ Z.of_nat (GetActiveSessions (sv_sessions (rl_server r))) ≤ TCP.MaxActiveSessionsTotal lim
  ∧ (cf_DisableSourceIPLimits cfg = false → ∀ ip,
      Z.of_nat (open_conns ip r) ≤ TCP.MaxConnectionsPerIP lim
      ∧ (ip ≠ ""%string → Z.of_nat (open_sessions ip (sv_sessions (rl_server r))) ≤ TCP.MaxActiveSessionsPerIP lim)).
Proof.
  intros Hs Hh lim. destruct (table_run _ _ _ _ _ _ _ Hs Hh) as (g & ops & Hrun & Hl).
  apply started_ok in Hs as (I0 & Hv & El & Ed & _). apply history_ok in Hh as [[(C & L & _ & _) _] I]; [|done].
  destruct I as [Ht Hi _ _ Hm Hp]. unfold max_per_ip, sourceIPLimitsDisabled in *.
  rewrite L in Hm, Hp. rewrite C in Hp. rewrite Ed in *. rewrite El in *. fold lim in Hv, Hm, Hp, Hl. clearbody lim.
  apply positive_limits in Hv as (P1 & P2 & _ & P3 & P4).
  split; [lia|]. split.
  { eapply total_run; [apply (wf_NewSessionManager g)| |exact Hl|exact Hrun]. simpl. rewrite map_size_empty. lia. }
  intros Hd ip. rewrite Hd in Hl. specialize (Hp Hd ip). rewrite Hi in Hp. split; [lia|]. intros Hip.
  apply (proj2 (quota_bounds _ _ _ _ _ P3 (Z.lt_le_incl _ _ P4) Hl Hrun) ip Hip).
Qed.

(** ** A concrete relay, used in the witnesses *)

Fixpoint exec_history (es : list Event) (r : Relay) : option (Relay * list Out) :=
  match es with
  | [] => Some (r, [])
  | e :: es =>
      let fresh := match e with Received _ env _ => fr_ptr (e_fresh env) | _ => 1%positive end in
      let clash := match e with Received _ _ _ => bool_decide (is_Some (heap (sv_sessions (rl_server r)) !! fresh)) | _ => false end in
      if clash then None else
      match relay_step e r with
      | None => None
      | Some (r, out1) =>
          match exec_history es r with
          | None => None
          | Some (r, out2) => Some (r, out1 ++ out2)
          end
      end
  end.

Lemma exec_history_sound es r r' out : exec_history es r = Some (r', out) → history r es r' out.
Proof.
  revert r r' out. induction es as [|e es IH]; simpl; intros r r' out; [intros [= <- <-]; apply history_nil|].
  destruct (match e with Received _ _ _ => _ | _ => false end) eqn:Hc; [done|].
  destruct (relay_step e r) as [[r1 out1]|] eqn:Hs; [|done].
  destruct (exec_history es r1) as [[r2 out2]|] eqn:Hr; [|done]. intros [= <- <-].
  eapply history_cons; [|exact Hs|by apply IH].
  destruct e; simpl in *; try done. by apply bool_decide_eq_false, eq_None_not_Some in Hc.
Qed.

(** The relay [NewServer] builds. *)
Definition fresh_relay (cfg : Config) (stun : bool) (now : Z) : option Relay :=
  match NewServer cfg stun now with Ok s => Some (mkRelay s ∅) | Err _ => None end.

Lemma fresh_started cfg stun now r : fresh_relay cfg stun now = Some r → started cfg stun now r.
Proof. unfold fresh_relay, started. destruct (NewServer cfg stun now) as [s|e]; [by intros [= <-]|done]. Qed.

Module DemoRelay.
Definition config : Config := mkConfig 0 0 false false TCP.zeroLimits (mkUpdateInfo [] [] []) [] "".
Definition relay : option Relay := fresh_relay config false 0.
Definition server : option Server := rl_server <$> relay.
Definition draws : nat → option Z := fun n => Some (Z.of_nat n).
Definition fresh : Fresh := mkFresh draws ["ses_1"%string] 1 "".
Definition env (now : Z) : Env := mkEnv now [now + 20000000; now + 2 * Second] fresh.
Definition env2 (now : Z) : Env := mkEnv now [now + 20000000; now + 2 * Second] (mkFresh draws ["ses_2"%string] 2 "").
Definition register : Message :=
  mkMessage "register_request" "" (Some (mkRegisterRequest "cid_1" "1.0.0" "uos@pc uos arm64" true)) None None.
Definition join (code : string) : Message :=
  mkMessage "join_request" "" None (Some (mkJoinRequest code "1.0.0" "a@b linux amd64" true)) None.
Definition data : Message := mkMessage "tunnel_data" "{}" None None None.
Definition share_id : string := "cli_20260101000000_a".
Definition help_id : string := "cli_20260101000001_b".
Definition connect : list Event :=
  [Accepted 1 "198.51.100.7:40000" [("20260101000000"%string, "a"%string)];
   Received share_id (env Second) register;
   Accepted 2 "203.0.113.9:50000" [("20260101000001"%string, "b"%string)]].
End DemoRelay.

Lemma relay_within_limits_witness :
  match DemoRelay.relay with
  | Some r0 =>
      match exec_history DemoRelay.connect r0 with
      | Some (r, _) => Z.of_nat (size (rl_open r)) ≤ 2000 ∧ Z.of_nat (open_conns "203.0.113.9" r) ≤ 128
      | None => False
      end
  | None => False
  end.
Proof.
  destruct DemoRelay.relay as [r0|] eqn:E0; [|by vm_compute in E0].
  destruct (exec_history DemoRelay.connect r0) as [[r sent]|] eqn:E1.
  2:{ assert ((r ← DemoRelay.relay; exec_history DemoRelay.connect r) = None) as H by (rewrite E0; exact E1).
      by vm_compute in H. }
  destruct (relay_within_limits DemoRelay.config false 0 r0 DemoRelay.connect r sent) as (H1 & _ & H2);
    [by apply fresh_started|by apply exec_history_sound|].
  destruct (H2 eq_refl "203.0.113.9"%string) as [H3 _]. split.
  - etrans; [exact H1|]. by vm_compute.
  - etrans; [exact H3|]. by vm_compute.
Defined.
