(* ===== verification/RelaySessionGrace.v ===== *)
(** * How long an assistance code stays valid

    [alive sid code p until sm]: the code leads to the open session [sid], which
    does not expire before [until].  Every operation but the closing of that
    session, a creation that takes its code over, and an expiry pass after [until]
    preserves it.  The reconnect grace and the exactness of [CleanupExpired]
    follow. *)

From S2P Require Import Prelude GoNet RelaySession RelaySessionInv RelaySessionThms.

Open Scope Z_scope.

Definition alive (sid code : string) (p : ptr) (until : Z) (sm : SessionManager) : Prop :=
  byCode sm !! code = Some p ∧
  ∃ s, heap sm !! p = Some s ∧ s_closed s = false ∧ s_ID s = sid ∧ s_Code s = code ∧ until ≤ s_ExpiresAt s.

Section alive.
Context (sid code : string) (p : ptr) (until : Z).
Notation alive := (alive sid code p until).

(** A write to one session that neither closes it nor shortens its life. *)
Lemma alive_insert sm sm' q s s' :
  heap sm !! q = Some s → heap sm' = <[q := s']> (heap sm) → same_identity s s' →
  s_ExpiresAt s ≤ s_ExpiresAt s' → byCode sm' = byCode sm → alive sm → alive sm'.
Proof.
  intros Hq Hh [] Hexp Hcodes (Hk & s0 & Hp & Hc & HID & HC & Hu).
  split; [by rewrite Hcodes|]. rewrite Hh. destruct (decide (q = p)) as [->|Hne].
  - simplify_eq. exists s'. rewrite lookup_insert_eq. split_and!; try done; try congruence. lia.
  - exists s0. by rewrite lookup_insert_ne.
Qed.

Lemma alive_same sm sm' : heap sm' = heap sm → byCode sm' = byCode sm → alive sm → alive sm'.
Proof. intros E1 E2. unfold RelaySessionGrace.alive. by rewrite E1, E2. Qed.

Lemma alive_delete sm sid' q r sm' :
  wf sm → alive sm → q ≠ Some p → deleteSessionLocked sid' q sm = (r, sm') → alive sm'.
Proof.
  intros W A Hq Hdel. destruct (sessions sm !! sid') as [q'|] eqn:Hs.
  - destruct (wf_sessions W sid' q' Hs) as (s & Hp & HID & Hc).
    destruct (decide (q = Some q')) as [->|Hne].
    + destruct (deleteSessionLocked_spec sm sid' q' s W Hs Hp)
        as (sm2 & E & Hh & _ & Hco & _). rewrite E in Hdel. injection Hdel as _ <-.
      destruct A as (Hk & s0 & Hp0 & A). assert (q' ≠ p) by congruence. split.
      * rewrite Hco. apply delete_if_Some. naive_solver.
      * exists s0. rewrite Hh, lookup_insert_ne by done. done.
    + unfold deleteSessionLocked in Hdel.
      replace (deref _ _ _) with (Some (q', s)) in Hdel by (symmetry; by apply deref_Some).
      rewrite bool_decide_true in Hdel by done. by injection Hdel as _ <-.
  - unfold deleteSessionLocked, deref in Hdel. rewrite Hs in Hdel. by injection Hdel as _ <-.
Qed.

Lemma alive_cleanup_one now acc k :
  wf acc.2 → now ≤ until → alive acc.2 → alive (cleanup_one now acc k).2.
Proof.
  destruct acc as [[ex cl] sm]. simpl. intros W Hnow A. unfold cleanup_one.
  destruct (deref _ _ _) as [[q s]|] eqn:Hd; [|done]. apply deref_Some in Hd as [Hk Hq].
  destruct (time_After now (s_ExpiresAt s)) eqn:Hexp; [|done].
  unfold time_After in Hexp. apply Z.ltb_lt in Hexp.
  assert (q ≠ p) as Hne. { intros ->. destruct A as (_ & s0 & ? & _ & _ & _ & ?). simplify_eq. lia. }
  assert (alive (sm <| byCode := delete_if (s_Code s) q (byCode sm) |>)) as A1.
  { destruct A as (HA & A). split; [|done]. simpl. apply delete_if_Some. naive_solver. }
  destruct (_ && _); [done|].
  destruct (deleteSessionLocked _ _ _) as [[[share help] []] sm2] eqn:E; simpl;
    (eapply alive_delete; [|exact A1| |exact E]; [by apply wf_delete_code|congruence]).
Qed.

Lemma alive_cleanup now order sm :
  wf sm → now ≤ until → alive sm → alive (CleanupExpired now order sm).2.
Proof.
  intros W Hnow A. unfold CleanupExpired.
  change sm with (([] : list string, [] : list ClientConn, sm).2) in W, A.
  revert W A. generalize (([] : list string, [] : list ClientConn, sm)).
  induction order as [|k order IH]; intros acc W A; simpl; [done|].
  apply IH; [by apply wf_cleanup_one|by apply alive_cleanup_one].
Qed.

Lemma alive_update sm q f :
  (∀ s, same_identity s (f s)) → (∀ s, s_ExpiresAt s ≤ s_ExpiresAt (f s)) →
  alive sm → alive (update q f sm).
Proof.
  intros Hf He A. unfold update. destruct (heap sm !! q) as [s|] eqn:Hq; [|done].
  by eapply alive_insert.
Qed.

Lemma alive_grace sm q now : alive sm → alive (graceAfterInUseLocked q now sm).
Proof.
  intros A. destruct (heap sm !! q) as [s|] eqn:Hq.
  - destruct (grace_heap sm q now s Hq) as (e & He & Hh).
    assert (alive (write q (s <| s_ExpiresAt := e |>) sm)) as [_ A1].
    { eapply alive_insert; [exact Hq|done|by constructor|done|done|done]. }
    split; [|by rewrite Hh].
    destruct A as [Hk _]. unfold graceAfterInUseLocked. rewrite Hq.
    destruct (_ || _); [done|].
    destruct (byCode (write q _ sm) !! _) as [q'|] eqn:E; [done|]. simpl.
    rewrite lookup_insert_ne; [done|]. intros Heq. simpl in E. rewrite Heq in E. congruence.
  - unfold graceAfterInUseLocked. by rewrite Hq.
Qed.

Lemma alive_disconnect sm now k : alive sm → alive (DisconnectClient now k sm).2.
Proof.
  intros A. unfold DisconnectClient. destruct (deref _ _ _) as [[q s]|]; [|done].
  assert (∀ (b : bool) sm0, alive sm0 → alive (if b then sm0 else graceAfterInUseLocked q now sm0)) as G.
  { intros [] sm0 A0; [done|by apply alive_grace]. }
  destruct (conn_is _ _); [|destruct (conn_is _ _); [|done]]; simpl.
  - eapply alive_same; [done|done|].
    apply alive_update; [by constructor|done|]. by apply G, alive_update; [by constructor|done|].
  - apply alive_update; [by constructor|done|]. by apply G, alive_update; [by constructor|done|].
Qed.
End alive.

(** Operations that may end the life of a code: the closing of its session, a
    creation that is given the same code, an expiry pass after [until]. *)
Definition spares (sid code : string) (until : Z) (op : sm_op) : Prop :=
  match op with
  | OpCreate _ _ _ code' _ _ _ _ _ _ _ => code' ≠ code
  | OpClose sid' => sid' ≠ sid
  | OpCleanup now _ => now ≤ until
  | _ => True
  end.

Ltac alive_write :=
  eapply alive_insert; [eassumption|reflexivity|by constructor|simpl; lia|done|eassumption].

Lemma codes_drop_conn c sm : byCode (drop_conn c sm) = byCode sm.
Proof. by destruct c. Qed.
Lemma codes_stop_timer t sm : byCode (stop_timer t sm) = byCode sm.
Proof. by destruct t. Qed.

Lemma alive_step sid code p until sm op sm' :
  wf sm → sm_step sm op sm' → spares sid code until op →
  alive sid code p until sm → alive sid code p until sm'.
Proof.
  intros W [Hok Hex] Hsp A. destruct op; simpl in Hex, Hsp; try (injection Hex as <-).
  - destruct (createSession _ _ _ _ _ _ _ _ _ _ _ _) as [[r sm2]|] eqn:E; simpl in Hex; [|done].
    injection Hex as <-. apply createSession_cases in E as [(e & _ & ->)|(id & _ & C)]; [done|].
    destruct A as (Hk & s & Hp & A), Hok as [Hf _]. split.
    + by rewrite (cr_codes _ _ _ _ _ _ _ _ _ _ _ _ _ _ C), lookup_insert_ne.
    + exists s. rewrite (cr_heap _ _ _ _ _ _ _ _ _ _ _ _ _ _ C), lookup_insert_ne by congruence. done.
  - unfold ReuseSessionByClientID. case_bool_decide; [done|].
    destruct (deref _ _ _) as [[q s]|] eqn:Hd; [|done].
    apply deref_Some in Hd as [_ Hq]. destruct (_ || _); [done|].
    assert (∀ l, alive sid code p until (rebind q (s <| s_liveReplaces := l |>) newShare sm)) as R.
    { intros l. eapply alive_insert; [exact Hq| | | | |exact A];
        [unfold rebind; simpl; by rewrite heap_stop_timer, !heap_drop_conn|by constructor|done|].
      unfold rebind; simpl. by rewrite codes_stop_timer, !codes_drop_conn. }
    destruct (live_other _ _); [|specialize (R (s_liveReplaces s)); by destruct s].
    destruct (time_Before _ _); [alive_write|].
    destruct (_ <? _)%nat; [alive_write|]. apply R.
  - unfold MarkShareReady. destruct (deref _ _ _) as [[q s]|] eqn:Hd; [|done].
    apply deref_Some in Hd as [_ Hq]. destruct (_ || _); [done|].
    alive_write.
  - unfold JoinSession. destruct (deref _ _ _) as [[q s]|] eqn:Hd; [|done].
    apply deref_Some in Hd as [_ Hq].
    destruct (time_After _ _); [done|]. destruct (s_closed s) eqn:Hc; [done|].
    destruct (_ && _); [done|]. destruct (s_Share s); [|done]. destruct (negb _); [done|].
    eapply alive_insert; [exact Hq| | | | |exact A]; simpl.
    + by rewrite heap_drop_conn, heap_stop_timer.
    + constructor; simpl; by destruct (s_helpDisconnectTimer s).
    + by destruct (s_helpDisconnectTimer s).
    + by rewrite codes_drop_conn, codes_stop_timer.
  - unfold RollbackJoin. destruct (deref _ _ _) as [[q s]|] eqn:Hd; [|done].
    apply deref_Some in Hd as [_ Hq]. destruct (conn_is _ _); [|done].
    alive_write.
  - unfold ActivateDataPlane. destruct (deref _ _ _) as [[q s]|] eqn:Hd; [|done].
    apply deref_Some in Hd as [_ Hq].
    destruct (s_closed s); [done|]. destruct (_ || _); [done|].
    destruct (_ || _); [done|]. destruct (bool_decide _); [done|].
    alive_write.
  - unfold CloseSession. destruct (deleteSessionLocked _ _ _) as [[[share help] b] sm2] eqn:E.
    eapply alive_delete; [done|exact A| |exact E]. intros Hs.
    destruct (wf_sessions W _ _ Hs) as (s & ? & ? & _). destruct A as (_ & s0 & ? & _ & ? & _). naive_solver.
  - by apply alive_disconnect.
  - unfold timer_fire. by destruct (armed sm !! t).
  - unfold debounce_callback. destruct (running sm !! t) as [q|]; [|done].
    simpl. destruct (heap sm !! q) as [s|] eqn:Hq; [|done].
    destruct (conn_is _ _); [|done]. alive_write.
  - by apply alive_cleanup.
  - unfold UpdatePeerAddr. destruct (deref _ _ _) as [[q s]|] eqn:Hd; [|done].
    apply deref_Some in Hd as [_ Hq].
    destruct (conn_is _ _); [|destruct (conn_is _ _); [|done]];
      (alive_write).
Qed.

Lemma alive_run sid code p until sm ops sm' :
  wf sm → run sm ops sm' → Forall (spares sid code until) ops →
  alive sid code p until sm → alive sid code p until sm'.
Proof.
  intros W Hrun. revert W. induction Hrun as [|sm op sm1 ops sm2 Hstep Hrun IH]; [done|].
  intros W [Hop Hops]%Forall_cons A. apply IH; [eauto using wf_step|done|by eapply alive_step].
Qed.

Lemma alive_GetSessionByCode sid code p until sm t :
  alive sid code p until sm → t ≤ until →
  ∃ s, heap sm !! p = Some s ∧ s_ID s = sid ∧ s_Code s = code ∧ GetSessionByCode t code sm = Ok s.
Proof.
  intros (Hk & s & Hp & Hc & HID & HC & Hu) Ht. exists s. split_and!; [done..|].
  unfold GetSessionByCode. replace (deref _ _ _) with (Some (p, s)) by (symmetry; by apply deref_Some).
  unfold time_After. rewrite (proj2 (Z.ltb_ge _ _)) by lia. by rewrite Hc.
Qed.

(** The state right after an end of a session in use went away. *)
Lemma disconnect_alive sm now k d sm' p s :
  wf sm → DisconnectClient now k sm = (Some d, sm') →
  byConnID sm !! k = Some p → heap sm !! p = Some s →
  in_use s = true → 0 < reconnectGrace sm → (∀ q, byCode sm !! s_Code s = Some q → q = p) →
  alive (s_ID s) (s_Code s) p (now + reconnectGrace sm) sm'.
Proof.
  intros W Hdis Hk Hp Huse Hg Hcode.
  destruct (disconnect_spec _ _ _ _ _ W Hdis)
    as (q & s0 & s' & Hq & Hp0 & Hc & _ & Hh & Hco & _ & HID & HC & Hc' & He). simplify_eq.
  unfold graced, graced_codes in *. rewrite Huse in *. apply Z.ltb_lt in Hg. rewrite Hg in *. simpl in *.
  split.
  - rewrite Hco. destruct (byCode sm !! s_Code s) as [q'|] eqn:E; simpl; [|apply lookup_insert_eq].
    rewrite E. f_equal. by apply Hcode.
  - exists s'. rewrite Hh, lookup_insert_eq. split_and!; [done..|]. lia.
Qed.

(** C8: the reconnect grace.  When either end of a session in use disconnects at
    [now], the code of the session stays valid for at least the grace: whatever
    the relay does in the meantime, short of closing that session or giving its
    code away (joins, reuse, the debounce timer, expiry passes before the grace
    ends, even when the session had expired long ago), [GetSessionByCode] finds
    that same session at any time up to [now + reconnectGrace]. *)
Theorem code_survives_disconnect (sm sm1 sm2 : SessionManager) (now t : Z) (k : string) (p : ptr)
  (s : TunnelSession) (d : DisconnectResult) (ops : list sm_op) :
  reachable sm → byConnID sm !! k = Some p → heap sm !! p = Some s →
  in_use s = true → 0 < reconnectGrace sm → (∀ q, byCode sm !! s_Code s = Some q → q = p) →
  DisconnectClient now k sm = (Some d, sm1) →
  run sm1 ops sm2 → Forall (spares (s_ID s) (s_Code s) (now + reconnectGrace sm)) ops →
  t ≤ now + reconnectGrace sm →
  ∃ s', heap sm2 !! p = Some s' ∧ s_ID s' = s_ID s ∧ GetSessionByCode t (s_Code s) sm2 = Ok s'.
Proof.
  intros W%wf_reachable Hk Hp Huse Hg Hcode Hdis Hrun Hsp Ht.
  pose proof (disconnect_alive _ _ _ _ _ _ _ W Hdis Hk Hp Huse Hg Hcode) as A.
  eapply alive_run in A; [|eauto using wf_DisconnectClient|exact Hrun|exact Hsp].
  destruct (alive_GetSessionByCode _ _ _ _ _ _ A Ht) as (s' & ? & ? & _ & ?). eauto.
Qed.

(** The demo session, past its expiry when the share goes away; the helper's
    side is cleaned up later. *)
Definition late : Z := 45 * Minute.
Definition share_gone : option DisconnectResult * SessionManager :=
  DisconnectClient late "cli_share" Demo.connected.
Definition swept_ops : list sm_op :=
  [OpCleanup (late + Minute) ["ses_1"%string]; OpDisconnect (late + 2 * Minute) "cli_help"; OpFire 1;
   OpCallback 1; OpCleanup (late + 20 * Minute) ["ses_1"%string]].
Definition swept : SessionManager := Demo.exec_all swept_ops (snd share_gone).

Lemma swept_run : run (snd share_gone) swept_ops swept.
Proof.
  unfold swept_ops. repeat (eapply run_cons; [split; [by vm_compute|vm_compute; reflexivity]|]).
  vm_compute. apply run_nil.
Qed.

Lemma code_survives_disconnect_witness :
  ∃ s', heap swept !! 1%positive = Some s' ∧ s_ID s' = "ses_1"%string
    ∧ GetSessionByCode (late + 30 * Minute) "ABCD" swept = Ok s'.
Proof.
  destruct (heap Demo.connected !! 1%positive) as [s|] eqn:Hs; [|vm_compute in Hs; discriminate].
  assert (s_ID s = "ses_1"%string ∧ s_Code s = "ABCD"%string) as [HI HC].
  { vm_compute in Hs. by injection Hs as <-. }
  rewrite <- HI, <- HC.
  refine (code_survives_disconnect Demo.connected (snd share_gone) swept late (late + 30 * Minute)
    "cli_share" 1 s _ swept_ops Demo.connected_reachable _ Hs _ _ _ _ swept_run _ _).
  - vm_compute; reflexivity.
  - vm_compute in Hs. by injection Hs as <-.
  - done.
  - rewrite HC. vm_compute. by intros q [= <-].
  - vm_compute; reflexivity.
  - rewrite HC, HI. repeat constructor; vm_compute; done.
  - vm_compute. done.
Defined.
