(* ===== verification/RelaySessionExpiry.v ===== *)
(** * Expiry passes

    [CleanupExpired] removes exactly the sessions that expired and are not in use,
    and frees exactly the codes of the sessions that expired. *)

From S2P Require Import Prelude GoNet RelaySession RelaySessionInv RelaySessionThms.

Open Scope Z_scope.

(** ** Expiry *)

Definition expired (now : Z) (s : TunnelSession) : bool := time_After now (s_ExpiresAt s).
Definition dead (now : Z) (s : TunnelSession) : bool := expired now s && negb (in_use s).

Definition dead_key (now : Z) (sm : SessionManager) (k : string) : bool :=
  match deref sm (sessions sm) k with Some (_, s) => dead now s | None => false end.

Lemma dead_key_eq now sm k p s :
  sessions sm !! k = Some p → heap sm !! p = Some s → dead_key now sm k = dead now s.
Proof. intros Hk Hp. unfold dead_key, deref. rewrite Hk. simpl. by rewrite Hp. Qed.

(** The code index after the pass over one session. *)
Definition codes_left (now : Z) (p : ptr) (s : TunnelSession) (codes codes' : gmap string ptr) : Prop :=
  ∀ c q, codes' !! c = Some q ↔ codes !! c = Some q ∧ ¬ (q = p ∧ expired now s = true).

Lemma codes_left_delete sm p s :
  wf sm → heap sm !! p = Some s →
  ∀ c q, delete_if (s_Code s) p (byCode sm) !! c = Some q ↔ byCode sm !! c = Some q ∧ q ≠ p.
Proof.
  intros W Hp c q. rewrite delete_if_Some. split; [|naive_solver].
  intros [Hc Hn]. split; [done|]. intros ->. destruct (wf_code W c p Hc) as (t & ? & ? & _). naive_solver.
Qed.

Lemma cleanup_one_spec now ex cl sm k p s :
  wf sm → sessions sm !! k = Some p → heap sm !! p = Some s →
  ∃ cl' sm', cleanup_one now (ex, cl, sm) k = (if dead now s then ex ++ [k] else ex, cl', sm')
    ∧ heap sm' = (if dead now s then <[p := closed s]> (heap sm) else heap sm)
    ∧ sessions sm' = (if dead now s then delete k (sessions sm) else sessions sm)
    ∧ codes_left now p s (byCode sm) (byCode sm').
Proof.
  intros W Hk Hp. unfold cleanup_one, dead, codes_left.
  replace (deref sm (sessions sm) k) with (Some (p, s)) by (symmetry; by apply deref_Some).
  fold (expired now s). destruct (expired now s); simpl; [|naive_solver].
  fold (in_use s). destruct (in_use s); simpl.
  - eexists _, _. split; [done|]. split_and!; [done..|]. intros c q. simpl.
    rewrite codes_left_delete by done. naive_solver.
  - set (sm1 := sm <| byCode := _ |>).
    assert (wf sm1) as W1 by by apply wf_delete_code.
    destruct (deleteSessionLocked_spec sm1 k p s W1 Hk Hp) as (sm2 & -> & Hh & Hs & Hc & _).
    eexists _, sm2. split; [done|]. split_and!; [done..|]. intros c q. rewrite Hc.
    rewrite (codes_left_delete sm1 p s W1 Hp). simpl.
    rewrite (codes_left_delete sm p s W Hp). naive_solver.
Qed.

(** The state after a pass over the keys of [order]. *)
Record swept (now : Z) (order : list string) (sm sm' : SessionManager) : Prop := {
  sw_dead : ∀ k p s, k ∈ order → sessions sm !! k = Some p → heap sm !! p = Some s →
    dead now s = true → sessions sm' !! k = None ∧ heap sm' !! p = Some (closed s);
  sw_kept : ∀ k p s, sessions sm !! k = Some p → heap sm !! p = Some s →
    k ∉ order ∨ dead now s = false → sessions sm' !! k = Some p ∧ heap sm' !! p = Some s;
  sw_closed : ∀ p s, heap sm !! p = Some s → s_closed s = true → heap sm' !! p = Some s;
  sw_none : ∀ k, sessions sm !! k = None → sessions sm' !! k = None;
  sw_codes : ∀ c q, byCode sm' !! c = Some q ↔ byCode sm !! c = Some q
    ∧ ∀ s, heap sm !! q = Some s → s_ID s ∈ order → expired now s = false;
}.

Lemma swept_cons now k order sm sm1 sm2 p s :
  wf sm → sessions sm !! k = Some p → heap sm !! p = Some s → k ∉ order →
  heap sm1 = (if dead now s then <[p := closed s]> (heap sm) else heap sm) →
  sessions sm1 = (if dead now s then delete k (sessions sm) else sessions sm) →
  codes_left now p s (byCode sm) (byCode sm1) →
  swept now order sm1 sm2 → swept now (k :: order) sm sm2.
Proof.
  intros W Hk Hp Hnk Hh Hs Hc [Sd Sk Sx Sn Sc].
  destruct (wf_sessions W k p Hk) as (s0 & Hp0 & HID & Hopen).
  rewrite Hp in Hp0. injection Hp0 as <-.
  assert (∀ q t, q ≠ p → heap sm !! q = Some t → heap sm1 !! q = Some t) as Hheap.
  { intros q t Hne Hq. rewrite Hh. by destruct (dead now s); rewrite ?lookup_insert_ne. }
  assert (∀ k' p' s', k' ≠ k → sessions sm !! k' = Some p' → heap sm !! p' = Some s' →
    p' ≠ p ∧ sessions sm1 !! k' = Some p' ∧ heap sm1 !! p' = Some s') as Hother.
  { intros k' p' s' Hne Hk' Hp'. assert (p' ≠ p) as Hpp.
    { intros ->. destruct (wf_sessions W k' p Hk') as (? & ? & ? & _). congruence. }
    split_and!; [done| |by apply Hheap]. rewrite Hs. by destruct (dead now s); rewrite ?lookup_delete_ne. }
  constructor.
  - intros k' p' s' [->|Hin]%elem_of_cons Hk' Hp' Hd.
    + assert (p' = p) as -> by congruence. assert (s' = s) as -> by congruence.
      rewrite Hd in *. split; [apply Sn; by rewrite Hs, lookup_delete_eq|].
      apply Sx; [by rewrite Hh, lookup_insert_eq|done].
    + assert (k' ≠ k) by set_solver. destruct (Hother k' p' s') as (_ & ? & ?); eauto.
  - intros k' p' s' Hk' Hp' Hcase. destruct (decide (k' = k)) as [->|Hne].
    + assert (p' = p) as -> by congruence. assert (s' = s) as -> by congruence.
      destruct Hcase as [Hno|Hd]; [set_solver|].
      apply Sk; [by rewrite Hs, Hd|by rewrite Hh, Hd|by left].
    + destruct (Hother k' p' s') as (_ & ? & ?); [done..|]. apply Sk; [done..|]. set_solver.
  - intros q t Hq Ht. apply Sx; [|done]. apply Hheap; [congruence|done].
  - intros k' Hk'. apply Sn. rewrite Hs. destruct (dead now s); [|done].
    by apply lookup_delete_None; right.
  - intros c q. rewrite Sc, (Hc c q). split.
    + intros [[Hcq Hne] Hrest]. split; [done|]. intros t Ht Hin.
      destruct (decide (q = p)) as [->|Hqp].
      * apply not_true_is_false. naive_solver.
      * destruct (wf_code W c q Hcq) as (t' & Ht' & _ & Hopen'). assert (t' = t) as -> by congruence.
        apply (Hrest t); [by apply Hheap|].
        apply elem_of_cons in Hin as [E|]; [|done]. exfalso.
        pose proof (so_listed _ _ _ _ (wf_session W q t Ht) Hopen') as Hl. congruence.
    + intros [Hcq Hrest]. split.
      * split; [done|]. intros [-> He]. rewrite (Hrest s) in He; [done|done|set_solver].
      * intros t Ht Hin. destruct (decide (q = p)) as [->|Hqp].
        -- exfalso. rewrite Hh in Ht. apply Hnk. rewrite <- HID.
           destruct (dead now s); [rewrite lookup_insert_eq in Ht; by injection Ht as <-|naive_solver].
        -- apply (Hrest t); [|set_solver]. rewrite Hh in Ht.
           destruct (dead now s); [by rewrite lookup_insert_ne in Ht|done].
Qed.

Lemma swept_nil now sm : swept now [] sm sm.
Proof.
  constructor; try done.
  - by intros k p s Hin%not_elem_of_nil.
  - intros c q. split; [|naive_solver]. intros Hc. split; [done|]. by intros s _ Hin%not_elem_of_nil.
Qed.

Lemma cleanup_pass now order : ∀ ex cl sm,
  wf sm → NoDup order → (∀ k, k ∈ order → is_Some (sessions sm !! k)) →
  ∃ cl' sm', fold_left (cleanup_one now) order (ex, cl, sm)
      = (ex ++ List.filter (dead_key now sm) order, cl', sm')
    ∧ swept now order sm sm'.
Proof.
  induction order as [|k order IH]; intros ex cl sm W Hnd Hlisted.
  { exists cl, sm. split; [by rewrite app_nil_r|apply swept_nil]. }
  apply NoDup_cons in Hnd as [Hnk Hnd].
  destruct (Hlisted k) as [p Hk]; [set_solver|].
  destruct (wf_sessions W k p Hk) as (s & Hp & HID & Hopen).
  destruct (cleanup_one_spec now ex cl sm k p s W Hk Hp) as (cl1 & sm1 & E & Hh & Hs & Hc).
  assert (∀ k', k' ∈ order → sessions sm1 !! k' = sessions sm !! k') as Hkeep.
  { intros k' Hin. rewrite Hs. destruct (dead now s); [|done]. rewrite lookup_delete_ne; set_solver. }
  destruct (IH (if dead now s then ex ++ [k] else ex) cl1 sm1) as (cl2 & sm2 & E2 & Hsw);
    [|done|intros k' Hin; rewrite Hkeep by done; apply Hlisted; set_solver|].
  { change sm1 with ((if dead now s then ex ++ [k] else ex, cl1, sm1).2). rewrite <- E.
    by apply wf_cleanup_one. }
  exists cl2, sm2. split; [|by eapply swept_cons].
  cbn [fold_left]. rewrite E, E2. do 2 f_equal. cbn [List.filter].
  rewrite (dead_key_eq now sm k p s) by done.
  assert (List.filter (dead_key now sm1) order = List.filter (dead_key now sm) order) as ->.
  { apply List.filter_ext_in. intros k' Hin%list_elem_of_In. unfold dead_key, deref.
    rewrite Hkeep by done. destruct (sessions sm !! k') as [q|] eqn:Hk'; [|done]. simpl.
    assert (q ≠ p) as Hqp.
    { intros ->. destruct (wf_sessions W k' p Hk') as (? & ? & ? & _).
      assert (k' = k) as -> by congruence. done. }
    rewrite Hh. by destruct (dead now s); rewrite ?lookup_insert_ne. }
  destruct (dead now s); [|done]. by rewrite <- app_assoc.
Qed.

(** An expiry pass is exact.  In whatever order the map of sessions is
    ranged over, [CleanupExpired] reports and closes exactly the sessions that
    expired and do not have both ends connected, leaves every other session
    untouched, and frees exactly the codes of the expired sessions. *)
Theorem CleanupExpired_exact (sm sm' : SessionManager) (now : Z) (order gone : list string)
  (cl : list ClientConn) :
  reachable sm → NoDup order → (∀ k, k ∈ order ↔ is_Some (sessions sm !! k)) →
  CleanupExpired now order sm = (gone, cl, sm') →
  gone = List.filter (dead_key now sm) order
  ∧ (∀ k p s, sessions sm !! k = Some p → heap sm !! p = Some s →
     if expired now s && negb (in_use s)
     then sessions sm' !! k = None ∧ heap sm' !! p = Some (closed s)
     else sessions sm' !! k = Some p ∧ heap sm' !! p = Some s)
  ∧ (∀ k, sessions sm !! k = None → sessions sm' !! k = None)
  ∧ (∀ c p, byCode sm' !! c = Some p ↔
     byCode sm !! c = Some p ∧ ∀ s, heap sm !! p = Some s → expired now s = false).
Proof.
  intros W%wf_reachable Hnd Hord. unfold CleanupExpired.
  destruct (cleanup_pass now order [] [] sm W Hnd) as (cl' & sm2 & -> & [Sd Sk Sx Sn Sc]);
    [by intros k ?%Hord|]. intros [= <- <- <-]. split_and!; [done| |done|].
  - intros k p s Hk Hp. fold (dead now s). destruct (dead now s) eqn:Hd; [|eauto].
    apply (Sd k p s); [apply Hord; eauto|done..].
  - intros c p. rewrite Sc. split; intros [Hc Hs]; (split; [done|]); intros s Hp.
    + apply (Hs s Hp). destruct (wf_code W c p Hc) as (t & Ht & _ & Hopen).
      assert (t = s) as -> by congruence.
      apply Hord. exists p. by apply (so_listed _ _ _ _ (wf_session W p s Hp)).
    + intros _. eauto.
Qed.

Lemma CleanupExpired_exact_witness :
  ∃ p, byCode (CleanupExpired (Minute * 45) ["ses_1"%string] Demo.connected).2 !! "ABCD"%string = None
    ∧ sessions (CleanupExpired (Minute * 45) ["ses_1"%string] Demo.connected).2 !! "ses_1"%string = Some p.
Proof.
  destruct (CleanupExpired (Minute * 45) ["ses_1"%string] Demo.connected) as [[gone cl] sm'] eqn:E.
  destruct (heap Demo.connected !! 1%positive) as [s|] eqn:Hp; [|vm_compute in Hp; discriminate].
  destruct (CleanupExpired_exact Demo.connected sm' (Minute * 45) ["ses_1"%string] gone cl)
    as (_ & Hs & _ & Hc); [apply Demo.connected_reachable|apply NoDup_singleton| |exact E|].
  { assert (sessions Demo.connected = {["ses_1"%string := 1%positive]}) as -> by reflexivity.
    intros k. rewrite list_elem_of_singleton, lookup_singleton_is_Some. done. }
  exists 1%positive. simpl. split.
  - apply eq_None_not_Some. intros [q Hq]. apply Hc in Hq as [Hq Hexp].
    vm_compute in Hq. injection Hq as <-. specialize (Hexp s Hp).
    vm_compute in Hp. injection Hp as <-. vm_compute in Hexp. discriminate.
  - specialize (Hs "ses_1"%string 1%positive s). 
    assert (expired (Minute * 45) s && negb (in_use s) = false) as Hd.
    { vm_compute in Hp. injection Hp as <-. by vm_compute. }
    rewrite Hd in Hs. apply Hs; [by vm_compute|exact Hp].
Defined.
