(* ===== verification/RelaySessionJoin.v ===== *)
(** * Joining, debouncing, and shares that fight over one identity

    [JoinSession] pairs a helper with the share of a code and touches no other
    session; a debounce timer, however late its callback runs, never evicts a
    helper that is connected; two live shares with one client id cannot evict
    each other for ever. *)

From S2P Require Import Prelude GoNet RelaySession RelaySessionInv RelaySessionThms.

Open Scope Z_scope.

(** ** Joining *)

(** Why a join is refused, in the order the code looks. *)
Definition join_refusal (now : Z) (code : string) (sm : SessionManager) : option SessionError :=
  match deref sm (byCode sm) code with
  | None => Some ErrCodeInvalid
  | Some (_, s) =>
      if time_After now (s_ExpiresAt s) then Some ErrCodeExpired
      else if s_closed s then Some ErrSessionNotFound
      else if negb (is_nil (s_Help s)) && bool_decide (s_pendingHelpID s = ""%string)
      then Some ErrSessionHasHelper
      else if is_nil (s_Share s) || negb (s_shareReady s) then Some ErrSessionNotFound
      else None
  end.

Lemma JoinSession_ok sm now code c j sm' :
  wf sm → JoinSession now code c sm = (Ok j, sm') →
  ∃ p s s', join_refusal now code sm = None
    ∧ byCode sm !! code = Some p ∧ heap sm !! p = Some s
    ∧ s_Share s = Some (j_Share j) ∧ s_ID s = j_SessionID j ∧ s_closed s = false
    ∧ (∀ h, s_Help s = Some h → byConnID sm !! c_ID h ≠ Some p)
    ∧ sessions sm' = sessions sm ∧ heap sm' = <[p := s']> (heap sm)
    ∧ s_Share s' = s_Share s ∧ s_Help s' = Some c ∧ s_dataPlaneReady s' = false
    ∧ s_pendingHelpID s' = ""%string ∧ s_ID s' = s_ID s ∧ s_closed s' = false
    ∧ byConnID sm' = <[c_ID c := p]> (match s_Help s with
                                      | Some h => delete (c_ID h) (byConnID sm)
                                      | None => byConnID sm end).
Proof.
  intros W. unfold JoinSession, join_refusal.
  destruct (deref _ _ _) as [[p s]|] eqn:Hd; [|done]. pose proof Hd as [Hk _]%deref_Some.
  apply deref_code in Hd as (Hp & _ & Hc & Hok); [|done].
  destruct (time_After _ _); [done|]. rewrite Hc.
  destruct (_ && bool_decide _) eqn:Hbusy; [done|].
  destruct (s_Share s) as [share|] eqn:HS; [|done]. destruct (s_shareReady s) eqn:Hr; [|done].
  intros [= <- <-]. simpl.
  exists p, s. eexists. split; [done|]. do 3 (split; [done|]).
  split; [by destruct (s_helpDisconnectTimer s)|]. split; [done|]. split.
  { intros h Hh. rewrite Hh in Hbusy. simpl in Hbusy. apply bool_decide_eq_false in Hbusy.
    destruct (so_pending _ _ _ _ Hok h Hh Hbusy) as [<- ?]. done. }
  rewrite sessions_drop_conn, sessions_stop_timer, heap_drop_conn, heap_stop_timer.
  split; [done|]. split; [done|]. simpl.
  assert (s_pendingHelpID s = ""%string ∨ is_nil (s_helpDisconnectTimer s) = false) as Hpend.
  { destruct (decide (s_pendingHelpID s = ""%string)); [by left|right].
    by apply (so_timer _ _ _ _ Hok). }
  destruct (s_helpDisconnectTimer s); simpl; split_and!; try done.
  all: try (destruct Hpend; [done|discriminate]).
  all: by destruct (s_Help s).
Qed.

Lemma JoinSession_err sm now code c e sm' :
  JoinSession now code c sm = (Err e, sm') → join_refusal now code sm = Some e ∧ sm' = sm.
Proof.
  unfold JoinSession, join_refusal. destruct (deref _ _ _) as [[p s]|]; [|by intros [= <- <-]].
  destruct (time_After _ _); [by intros [= <- <-]|]. destruct (s_closed s); [by intros [= <- <-]|].
  destruct (_ && bool_decide _); [by intros [= <- <-]|].
  destruct (s_Share s); [|by intros [= <- <-]]. by destruct (s_shareReady s); [|intros [= <- <-]].
Qed.

(** [FindPeer] through an index entry, from the ends of the session. *)
Lemma FindPeer_share sm k p s x :
  byConnID sm !! k = Some p → heap sm !! p = Some s → s_Share s = Some x → c_ID x = k →
  FindPeer k sm = s_Help s.
Proof.
  intros Hk Hp HS Hx. unfold FindPeer.
  replace (deref _ _ _) with (Some (p, s)) by (symmetry; by apply deref_Some).
  by rewrite HS, <- Hx, conn_is_self.
Qed.

Lemma FindPeer_help sm k p s x :
  byConnID sm !! k = Some p → heap sm !! p = Some s → s_Help s = Some x → c_ID x = k →
  conn_is (s_Share s) k = false → FindPeer k sm = s_Share s.
Proof.
  intros Hk Hp HH Hx HS. unfold FindPeer.
  replace (deref _ _ _) with (Some (p, s)) by (symmetry; by apply deref_Some).
  by rewrite HS, HH, <- Hx, conn_is_self.
Qed.

(** [JoinSession] pairs the helper with the share the code belongs to.  It is
    refused, leaving the table as it was, exactly when the code is unknown or
    expired, a helper is connected, or the share is absent or not yet published.
    When it succeeds each end finds the other through [FindPeer], the data plane
    is shut until it is activated, and no other session changes. *)
Theorem JoinSession_pairs (sm sm' : SessionManager) (now : Z) (code : string) (help : ClientConn)
  (r : result SessionError JoinSessionResult) :
  reachable sm → c_ID help ≠ ""%string → JoinSession now code help sm = (r, sm') →
  match r with
  | Err e => join_refusal now code sm = Some e ∧ sm' = sm
  | Ok j =>
      join_refusal now code sm = None
      ∧ (c_ID help ≠ c_ID (j_Share j) → FindPeer (c_ID help) sm' = Some (j_Share j))
      ∧ (c_ID help ≠ c_ID (j_Share j) → byConnID sm !! c_ID (j_Share j) = byCode sm !! code →
         FindPeer (c_ID (j_Share j)) sm' = Some help)
      ∧ IsActiveDataSession (j_SessionID j) sm' = false
      ∧ ∀ q s, heap sm !! q = Some s → byCode sm !! code ≠ Some q → heap sm' !! q = Some s
  end.
Proof.
  intros W%wf_reachable Hname Hjoin. destruct r as [j|e]; [|by eapply JoinSession_err].
  pose proof (wf_JoinSession _ _ _ _ _ _ W Hname Hjoin) as W'.
  destruct (JoinSession_ok _ _ _ _ _ _ W Hjoin) as (p & s & s' & Href & Hk & Hp & HS & HID & _ & Hstale
    & Hss & Hh & HS' & HH' & Hd' & _ & HID' & Hcl' & Hconn).
  assert (heap sm' !! p = Some s') as Hp' by (rewrite Hh; apply lookup_insert_eq).
  split_and!; [done|..].
  - intros Hne. rewrite <- HS, <- HS'. eapply FindPeer_help; [|exact Hp'|exact HH'|done|].
    + rewrite Hconn. apply lookup_insert_eq.
    + rewrite HS', HS. simpl. apply bool_decide_eq_false. congruence.
  - intros Hne Hidx. rewrite <- HH'.
    eapply FindPeer_share with (p := p) (x := j_Share j); [|done|congruence|done].
    rewrite Hconn, lookup_insert_ne by done. rewrite Hk in Hidx.
    destruct (s_Help s) as [h|]; [|done]. rewrite lookup_delete_ne; [done|].
    intros E. apply (Hstale h eq_refl). by rewrite E.
  - apply not_true_iff_false. intros (q & t & Hq & Ht & Hact)%IsActiveDataSession_true.
    rewrite (data_active_iff sm' q t W' Ht) in Hact.
    destruct (wf_sessions W' _ q Hq) as (t' & Ht' & HIDt & _).
    assert (sessions sm' !! j_SessionID j = Some p) as Hl.
    { rewrite <- HID, <- HID'. by apply (so_listed _ _ _ _ (wf_session W' p s' Hp')). }
    congruence.
  - intros q t Hq Hne. rewrite Hh, lookup_insert_ne; [done|congruence].
Qed.

(** The demo session before anyone joined. *)
Definition waiting_ops : list sm_op := [Demo.create; OpMarkReady "ses_1" "cli_share"].
Definition waiting : SessionManager := Demo.exec_all waiting_ops (NewSessionManager Demo.grace).

Lemma waiting_reachable : reachable waiting.
Proof.
  exists Demo.grace, waiting_ops. unfold waiting_ops.
  repeat (eapply run_cons; [split; [by vm_compute|vm_compute; reflexivity]|]). vm_compute. apply run_nil.
Qed.

Lemma JoinSession_pairs_witness :
  ∃ sm', (JoinSession Second "ABCD" Demo.help waiting).2 = sm'
    ∧ FindPeer "cli_help" sm' = Some Demo.share ∧ FindPeer "cli_share" sm' = Some Demo.help.
Proof.
  destruct (JoinSession Second "ABCD" Demo.help waiting) as [r sm'] eqn:E.
  exists sm'. split; [done|].
  pose proof (JoinSession_pairs waiting sm' Second "ABCD" Demo.help r waiting_reachable ltac:(done) E) as H.
  assert (r = Ok (mkJoin "ses_1" Demo.share "cli_share" "1.0.0" "uos@pc uos arm64")) as ->.
  { change r with ((r, sm').1). rewrite <- E. by vm_compute. }
  destruct H as (_ & H1 & H2 & _). simpl in H1, H2. split; [by apply H1|].
  apply H2; [done|by vm_compute].
Defined.

(** ** The debounce timer *)

(** The debounce timer of a departed helper cannot evict a helper that is
    connected.  [Stop] does not recall a callback that was already started, so it
    may run long after the helper came back or another one joined; whenever it
    runs, the helper of every session that is indexed under it stays, the index
    itself does not change, and a helper that was indexed still finds its share. *)
Theorem debounce_keeps_connected_helper (sm sm' : SessionManager) (t : timer) (r : option ClientConn) :
  reachable sm → debounce_callback t sm = (r, sm') →
  byConnID sm' = byConnID sm ∧ sessions sm' = sessions sm
  ∧ (∀ p s h, heap sm !! p = Some s → s_Help s = Some h → byConnID sm !! c_ID h = Some p →
       heap sm' !! p = Some s)
  ∧ (∀ p s, heap sm !! p = Some s → s_pendingHelpID s = ""%string → heap sm' !! p = Some s).
Proof.
  intros W%wf_reachable. unfold debounce_callback.
  destruct (running sm !! t) as [q|] eqn:Ht; [|by intros [= _ <-]]. simpl.
  destruct (heap sm !! q) as [s0|] eqn:Hq; [|by intros [= _ <-]].
  pose proof (wf_session W q s0 Hq) as Hok.
  destruct (conn_is _ _) eqn:Hh; intros [= _ <-]; simpl; [|done].
  apply conn_is_true in Hh as (h0 & HH & Hid).
  assert (s_pendingHelpID s0 ≠ ""%string) as Hne.
  { rewrite <- Hid. destruct (so_named _ _ _ _ Hok) as [_ Hn]. by rewrite HH in Hn. }
  destruct (so_pending _ _ _ _ Hok h0 HH Hne) as [_ Hgone].
  split_and!; [done|done|..]; intros p s.
  - intros h Hp Hs Hk. rewrite lookup_insert_ne; [done|]. intros ->. simplify_eq. congruence.
  - intros Hp Hpend. rewrite lookup_insert_ne; [done|]. intros ->. simplify_eq.
Qed.

(** The helper drops, its timer fires, another helper joins before the callback
    gets the mutex. *)
Definition raced_ops : list sm_op :=
  Demo.connect ++ [OpDisconnect Minute "cli_help"; OpFire 1;
                   OpJoin (Minute + 6 * Second) "ABCD" Demo.share2].
Definition raced : SessionManager := Demo.exec_all raced_ops (NewSessionManager Demo.grace).

Lemma raced_reachable : reachable raced.
Proof.
  exists Demo.grace, raced_ops. unfold raced_ops, Demo.connect. simpl.
  repeat (eapply run_cons; [split; [by vm_compute|vm_compute; reflexivity]|]). vm_compute. apply run_nil.
Qed.

Lemma debounce_keeps_connected_helper_witness :
  running raced !! 1%positive = Some 1%positive
  ∧ ∃ s, heap (debounce_callback 1 raced).2 !! 1%positive = Some s ∧ s_Help s = Some Demo.share2.
Proof.
  split; [by vm_compute|].
  destruct (heap raced !! 1%positive) as [s|] eqn:Hp; [|vm_compute in Hp; discriminate].
  assert (s_Help s = Some Demo.share2) as HH by (vm_compute in Hp; by injection Hp as <-).
  exists s. split; [|done].
  apply (debounce_keeps_connected_helper raced _ 1 _ raced_reachable (surjective_pairing _)) with Demo.share2;
    [done|done|by vm_compute].
Defined.
