(* ===== verification/RelayTraffic.v ===== *)
(** * What a message can do

    The protocol a connection must follow, who its traffic can reach, what a join
    tells the one who asks, and the throttle of the tool channel. *)

From S2P Require Import Prelude GoNet GoText Update RelayText GoFloat Ratelimit Limits.
From S2P Require Import StunCandidates RelaySession RelayServer RelayLoop RelaySessionInv RelaySessionThms RelaySessionQuota RelayServerThms.
From S2P Require Import RelayLoopThms RelaySessionJoin.

Open Scope Z_scope.

(** ** Messages out of turn *)

(** What the protocol allows at each stage: register or join first and once, with a
    payload that decodes; business only after that. *)
Definition in_turn (client : Client) (msg : Message) : bool :=
  if bool_decide (m_Type msg = "register_request"%string)
  then bool_decide (cl_Type client = connStateNew) && negb (is_nil (m_register msg))
  else if bool_decide (m_Type msg = "join_request"%string)
  then bool_decide (cl_Type client = connStateNew) && negb (is_nil (m_join msg))
  else bool_decide (m_Type msg ∈ business_types) && bool_decide (cl_Type client ≠ connStateNew).

(** C5: a message out of turn - traffic before the connection registered or joined,
    a second registration or join, a payload that does not decode, an unknown
    type - ends the connection and does nothing else: nothing is sent to anyone,
    and the server is as it was. *)
Theorem out_of_turn_closes (env : Env) (client : Client) (msg : Message) (s : Server) :
  in_turn client msg = false → handleMessage env client msg s = Some ((true, client), s, []).
Proof.
  unfold in_turn, handleMessage. intros H.
  destruct (bool_decide (m_Type msg = "register_request"%string)).
  { destruct (bool_decide_reflect (cl_Type client = connStateNew)) as [->|?]; simpl in H.
    - destruct (m_register msg); [done|]. by rewrite bool_decide_false by congruence.
    - by rewrite bool_decide_true. }
  destruct (bool_decide (m_Type msg = "join_request"%string)).
  { destruct (bool_decide_reflect (cl_Type client = connStateNew)) as [->|?]; simpl in H.
    - destruct (m_join msg); [done|]. by rewrite bool_decide_false by congruence.
    - by rewrite bool_decide_true. }
  destruct (bool_decide (m_Type msg ∈ business_types)); [|done]. simpl in H.
  apply bool_decide_eq_false, dec_stable in H. by rewrite bool_decide_true.
Qed.

(** A connection that sends data before it joined. *)
Definition stranger : Client := new_client 9 "cli_x" "192.0.2.1:1".

Lemma out_of_turn_closes_witness :
  match DemoRelay.server with
  | Some s => handleMessage (DemoRelay.env 0) stranger DemoRelay.data s = Some ((true, stranger), s, [])
  | None => False
  end.
Proof.
  destruct DemoRelay.server as [s|] eqn:E; [|by vm_compute in E].
  apply out_of_turn_closes. by vm_compute.
Defined.

(** ** Whom traffic reaches *)

(** [to] is the other end of an open session [id] takes part in. *)
Definition other_end (id : string) (to : ClientConn) (sm : SessionManager) : Prop :=
  ∃ p s, byConnID sm !! id = Some p ∧ heap sm !! p = Some s ∧ s_closed s = false
    ∧ ((c_ID <$> s_Share s = Some id ∧ s_Help s = Some to)
       ∨ (c_ID <$> s_Help s = Some id ∧ s_Share s = Some to)).

Lemma FindPeer_end sm id to : wf sm → FindPeer id sm = Some to → other_end id to sm.
Proof.
  intros W. unfold FindPeer. destruct (deref sm (byConnID sm) id) as [[p s]|] eqn:Hd; [|done].
  pose proof Hd as [Ha _]%deref_Some. apply deref_conn in Hd as (Hp & _ & Hc & _); [|done].
  intros H. exists p, s. split_and!; [done..|].
  destruct (conn_is (s_Share s) id) eqn:HS; [apply conn_is_true in HS as (x & -> & <-); by left|].
  destruct (conn_is (s_Help s) id) eqn:HH; [|done]. apply conn_is_true in HH as (x & -> & <-). by right.
Qed.

Lemma UpdatePeerAddr_end sm id a b n u sm' :
  wf sm → UpdatePeerAddr id a b n sm = (Some u, sm') → other_end id (u_Peer u) sm.
Proof.
  intros W. unfold UpdatePeerAddr. destruct (deref sm (byConnID sm) id) as [[p s]|] eqn:Hd; [|done].
  pose proof Hd as [Ha _]%deref_Some. apply deref_conn in Hd as (Hp & _ & Hc & _); [|done].
  intros H. exists p, s. split_and!; [done..|].
  destruct (conn_is (s_Share s) id) eqn:HS.
  { apply conn_is_true in HS as (x & Hx & <-). cbn -[detectSameNetwork] in H. rewrite Hx in *.
    destruct (s_Help s) as [h|]; [|done]. injection H as <- _. by left. }
  destruct (conn_is (s_Help s) id) eqn:HH; [|done].
  apply conn_is_true in HH as (x & Hx & <-). cbn -[detectSameNetwork] in H. rewrite Hx in *.
  destruct (s_Share s) as [h|]; [|done]. injection H as <- _. by right.
Qed.

(** A computation that leaves the table alone and sends nothing. *)
Definition mute {A : Type} (m : M A) : Prop :=
  ∀ s a s' out, m s = Some (a, s', out) → out = [] ∧ sv_sessions s' = sv_sessions s.

Lemma mute_ret {A} (a : A) : mute (ret a).
Proof. by intros s a' s' out [= _ <- <-]. Qed.
Lemma mute_get : mute get.
Proof. by intros s a' s' out [= _ <- <-]. Qed.
Lemma mute_bind {A B} (m : M A) (f : A → M B) : mute m → (∀ a, mute (f a)) → mute (bind m f).
Proof.
  intros Hm Hf s b s' out (a & s1 & o1 & o2 & [-> E1]%Hm & [-> E2]%Hf & ->)%bind_inv. by rewrite E2.
Qed.
Lemma mute_bucket (f : Server → Bucket) `{SetField _ _ f} now n :
  (∀ k s, sv_sessions (s <| f := k |>) = sv_sessions s) → mute (ask_bucket f now n).
Proof. intros Hf s a s' out. unfold ask_bucket. destruct (AllowN _ _ _). by intros [= _ <- <-]. Qed.
Lemma mute_keyed (f : Server → KeyedLimiter) `{SetField _ _ f} now key n :
  (∀ k s, sv_sessions (s <| f := k |>) = sv_sessions s) → mute (ask_keyed f now key n).
Proof. intros Hf s a s' out. unfold ask_keyed. destruct (KeyedAllowN _ _ _ _). by intros [= _ <- <-]. Qed.

Create HintDb mute.
#[export] Hint Resolve mute_ret mute_get : mute.
#[export] Hint Extern 1 (mute (ask_keyed _ _ _ _)) => apply mute_keyed; done : mute.
#[export] Hint Extern 1 (mute (ask_bucket _ _ _)) => apply mute_bucket; done : mute.
#[export] Hint Extern 1 (mute (bind _ _)) => apply mute_bind; [|intros] : mute.
#[export] Hint Extern 2 (mute (match ?x with _ => _ end)) => destruct x : mute.

Lemma mute_tool ticks deadline id cost paid : mute (tool_loop ticks deadline id cost paid).
Proof.
  revert paid. induction ticks as [|now ticks IH]; intros paid; simpl; [by intros s a s' out|].
  apply mute_bind; [auto with mute|]. intros b. apply mute_bind; [auto with mute|].
  intros ok. destruct ok; [auto with mute|]. destruct (negb _); [auto with mute|apply IH].
Qed.

(** [m] sends to nobody but those of [ok], which may depend on the table. *)
Definition sends_to (ok : SessionManager → ClientConn → Prop) {A : Type} (m : M A) : Prop :=
  ∀ s a s' out, wf (sv_sessions s) → m s = Some (a, s', out) →
  ∀ to msg, Send to msg ∈ out → ok (sv_sessions s) to.

Lemma sends_ret ok {A} (a : A) : sends_to ok (ret a).
Proof. by intros s a' s' out _ [= _ _ <-] to msg ?%elem_of_nil. Qed.

(** After a silent step. *)
Lemma sends_after ok {A B} (m : M A) (f : A → M B) : mute m → (∀ a, sends_to ok (f a)) → sends_to ok (bind m f).
Proof.
  intros Hm Hf s b s' out W (a & s1 & o1 & o2 & [-> E1]%Hm & H2 & ->)%bind_inv. simpl.
  rewrite <- E1. eapply Hf; [by rewrite E1|exact H2].
Qed.

(** Before a silent end. *)
Lemma sends_before ok {A B} (m : M A) (f : A → M B) : sends_to ok m → (∀ a, mute (f a)) → sends_to ok (bind m f).
Proof.
  intros Hm Hf s b s' out W (a & s1 & o1 & o2 & H1 & [-> _]%Hf & ->)%bind_inv. rewrite app_nil_r. by eapply Hm.
Qed.

Lemma sends_self (ok : SessionManager → ClientConn → Prop) c m : (∀ sm, ok sm c) → sends_to ok (sendMsg c m).
Proof.
  intros Hok s a s' out _. unfold sendMsg. destruct (c_Conn c).
  - by intros [= _ _ <-] to m' [= -> ->]%list_elem_of_singleton.
  - by intros [= _ _ <-] to m' ?%elem_of_nil.
Qed.

Definition reachable_by (c : ClientConn) (sm : SessionManager) (to : ClientConn) : Prop :=
  to = c ∨ other_end (c_ID c) to sm.

Lemma sends_forward c ty p : sends_to (reachable_by c) (forwardToPeer c ty p).
Proof.
  intros s a s' out W (s0 & s1 & o1 & o2 & [= <- <- <-] & H & ->)%bind_inv to msg Hin. simpl in Hin.
  destruct (FindPeer (c_ID c) (sv_sessions s)) as [t|] eqn:Hf; [|injection H as _ _ <-; by apply elem_of_nil in Hin].
  pose proof (sends_self (fun _ t' => t' = t) t _ (fun _ => eq_refl) _ _ _ _ W H to msg Hin) as ->.
  right. by apply FindPeer_end.
Qed.

Lemma sends_advertise c a : sends_to (reachable_by c) (handlePeerAddrAdvertise c a).
Proof.
  unfold handlePeerAddrAdvertise. destruct a as [a|]; [|apply sends_ret].
  intros s x s' out W (u & s1 & o1 & o2 & H1 & H & ->)%bind_inv to msg Hin.
  unfold on_sessions in H1. destruct (UpdatePeerAddr _ _ _ _ _) as [u0 sm] eqn:Hu. injection H1 as <- <- <-.
  simpl in Hin. destruct u0 as [u|]; [|injection H as _ _ <-; by apply elem_of_nil in Hin].
  assert (∃ pub, sendMsg (u_Peer u) pub (s <| sv_sessions := sm |>) = Some (x, s', o2)) as [pub H'] by by eexists.
  unfold sendMsg in H'. destruct (c_Conn (u_Peer u)); injection H' as _ _ <-; [|by apply elem_of_nil in Hin].
  apply list_elem_of_singleton in Hin as [= -> _]. right. by eapply UpdatePeerAddr_end.
Qed.

Lemma sends_business env client msg : sends_to (reachable_by (cl_conn client)) (handleBusiness env client msg).
Proof.
  assert (∀ m : OutMsg, sends_to (reachable_by (cl_conn client)) (sendMsg (cl_conn client) m)) as Hself.
  { intros m. apply sends_self. by left. }
  unfold handleBusiness, allowDataMessage, allowControlMessage, allowToolMessage.
  repeat case_bool_decide;
    repeat first
      [ apply sends_ret
      | apply sends_after; [solve [auto with mute|apply mute_tool]|intros ?]
      | match goal with |- sends_to _ (if ?b then _ else _) => destruct b end
      | apply sends_before; [first [apply sends_forward|apply sends_advertise|apply Hself]|intros ?; apply mute_ret] ].
Qed.

(** C4: traffic stays within its session.  In every history, a message other than a
    registration or a join, whatever its type and payload, makes the server write
    to nobody but the connection it came from and the other end of the open
    session that connection takes part in. *)
Theorem traffic_isolated (cfg : Config) (stun : bool) (now : Z) (r0 : Relay) (es : list Event) (r r' : Relay)
  (sent out : list Out) (id : string) (o : OpenConn) (env : Env) (msg : Message) :
  started cfg stun now r0 → history r0 es r sent → rl_open r !! id = Some o →
  m_Type msg ≠ "register_request"%string → m_Type msg ≠ "join_request"%string →
  read_message id env msg r = Some (r', out) →
  ∀ to m, Send to m ∈ out → to = cl_conn (o_client o) ∨ other_end id to (sv_sessions (rl_server r)).
Proof.
  intros Hs Hh Ho H1 H2 Hm to m Hin.
  pose proof (wf_reachable _ (table_reachable _ _ _ _ _ _ _ Hs Hh)) as W.
  apply started_ok in Hs as [I0 _]. apply history_ok in Hh as [_ I]; [|done].
  destruct (sl_named r I id o Ho) as [<- _].
  unfold read_message in Hm. rewrite Ho in Hm. destruct (o_closing o); [done|].
  destruct (handleMessage _ _ _ _) as [[[[close client] s] o1]|] eqn:Hh; [|done]. injection Hm as _ <-.
  unfold handleMessage in Hh. rewrite !bool_decide_false in Hh by done.
  destruct (bool_decide _); [|injection Hh as _ _ _ <-; by apply elem_of_nil in Hin].
  destruct (bool_decide _); [injection Hh as _ _ _ <-; by apply elem_of_nil in Hin|].
  exact (sends_business env (o_client o) msg _ _ _ _ W Hh to m Hin).
Qed.

(** The demo pair, and a message of the helper. *)
Definition pair_events : list Event :=
  DemoRelay.connect ++ [Received DemoRelay.help_id (DemoRelay.env2 (2 * Second)) (DemoRelay.join "ABCD-EFGHJK")].
Definition paired : option (Relay * list Out) :=
  r ← DemoRelay.relay; exec_history pair_events r.

Lemma traffic_isolated_witness :
  match DemoRelay.relay with
  | Some r0 =>
      match exec_history pair_events r0 with
      | Some (r, sent) =>
          match rl_open r !! DemoRelay.help_id,
                read_message DemoRelay.help_id (DemoRelay.env2 (3 * Second)) DemoRelay.data r with
          | Some o, Some (r', out) =>
              length out = 1%nat
              ∧ ∀ to m, Send to m ∈ out →
                  to = cl_conn (o_client o) ∨ other_end DemoRelay.help_id to (sv_sessions (rl_server r))
          | _, _ => False
          end
      | None => False
      end
  | None => False
  end.
Proof.
  destruct DemoRelay.relay as [r0|] eqn:E0; [|by vm_compute in E0].
  destruct (exec_history pair_events r0) as [[r sent]|] eqn:E1.
  2:{ assert (paired = None) as H by (unfold paired; rewrite E0; exact E1). by vm_compute in H. }
  assert (paired = Some (r, sent)) as H by (unfold paired; rewrite E0; exact E1).
  destruct (rl_open r !! DemoRelay.help_id) as [o|] eqn:E2.
  2:{ assert ((p ← paired; rl_open p.1 !! DemoRelay.help_id) = None) as H2 by (rewrite H; exact E2).
      by vm_compute in H2. }
  destruct (read_message _ _ _ r) as [[r' out]|] eqn:E3.
  2:{ assert ((p ← paired; read_message DemoRelay.help_id (DemoRelay.env2 (3 * Second)) DemoRelay.data p.1) = None)
        as H2 by (rewrite H; exact E3). by vm_compute in H2. }
  split.
  - assert ((fun p => length p.2) <$> (p ← paired; read_message DemoRelay.help_id (DemoRelay.env2 (3 * Second))
      DemoRelay.data p.1) = Some 1%nat) as H2 by (vm_compute; reflexivity).
    rewrite H in H2. cbn [mbind option_bind fst] in H2. rewrite E3 in H2. by injection H2.
  - apply (traffic_isolated DemoRelay.config false 0 r0 pair_events r r' sent out DemoRelay.help_id o
      (DemoRelay.env2 (3 * Second)) DemoRelay.data); 
      [by apply fresh_started|by apply exec_history_sound|exact E2|by vm_compute|by vm_compute|exact E3].
Defined.

(** ** Joining *)

(** What was sent, and to whom. *)
Definition sends (out : list Out) : list (ClientConn * OutMsg) :=
  omap (fun o => match o with Send to m => Some (to, m) | _ => None end) out.

Lemma sends_app o1 o2 : sends (o1 ++ o2) = sends o1 ++ sends o2.
Proof. apply omap_app. Qed.

(** The one refusal. *)
Definition refusal : OutMsg := JoinResponse false "" "join failed" "" "" (mkUpdateInfo [] [] []) [].

Definition counted_refusal (client : Client) : Client :=
  client <| cl_joinFailures := cl_joinFailures client + 1 |>.

Lemma rejectJoin_result client s a r s' out :
  c_Conn (cl_conn client) = Some a → rejectJoin client s = Some (r, s', out) →
  r = (TCP.MaxJoinFailures (sv_limits s) <=? cl_joinFailures client + 1, counted_refusal client)
  ∧ s' = s ∧ out = [Send (cl_conn client) refusal].
Proof. unfold rejectJoin, sendMsg, bind, get, ret, emit. simpl. intros ->. by intros [= <- <- <-]. Qed.

(** The effect of a join on the table, when the relay lets it through. *)
Record joined (now : Z) (code : string) (client : Client) (s s' : Server) (j : JoinSessionResult)
  (client' : Client) (out : list Out) : Prop := {
  jn_session : ∃ sm, JoinSession now (string_of (normalizeCode (bytes_of code))) (cl_conn client) (sv_sessions s) = (Ok j, sm)
    ∧ ActivateDataPlane (j_SessionID j) (j_ShareID j) (c_ID (cl_conn client)) sm = (true, sv_sessions s');
  jn_type : cl_Type client' = connStateHelp;
  jn_failures : cl_joinFailures client' = 0;
  jn_out : ∃ r1 r2, out = (if sv_stun s then [InvalidateRelaySession (j_SessionID j)] else [])
    ++ [Send (cl_conn client) r1] ++ (match c_Conn (j_Share j) with Some _ => [Send (j_Share j) r2] | None => [] end)
    ∧ (∃ host, r1 = JoinResponse true (j_SessionID j) "" (j_ShareVersion j) host (sv_updateInfo s) (cf_AdvertiseSTUN (sv_config s)))
    ∧ (∃ host, r2 = SessionReady (j_SessionID j) (c_Version (cl_conn client)) host);
}.

Lemma invalidate_result sid s a s' out :
  invalidate sid s = Some (a, s', out) → s' = s ∧ out = if sv_stun s then [InvalidateRelaySession sid] else [].
Proof. unfold invalidate, bind, get, emit, ret. destruct (sv_stun s); by intros [= _ <- <-]. Qed.

Lemma sendMsg_result c m s a s' out :
  sendMsg c m s = Some (a, s', out) → s' = s ∧ out = match c_Conn c with Some _ => [Send c m] | None => [] end.
Proof. unfold sendMsg, emit, ret. destruct (c_Conn c); by intros [= _ <- <-]. Qed.

(** The limiters a join asks are the only thing that changes before the table is read. *)
Lemma ask_join_limiters now key (b : bool) s ok s' out :
  (if b then ret true else ask_keyed sv_joinLimiterPerIP now key one) s = Some (ok, s', out) →
  out = [] ∧ untouched s s' ∧ sv_sessions s' = sv_sessions s ∧ sv_updateInfo s' = sv_updateInfo s.
Proof.
  destruct b; [by intros [= _ <- <-]|]. unfold ask_keyed. destruct (KeyedAllowN _ _ _ _). by intros [= _ <- <-].
Qed.

Lemma ask_join_global now s ok s' out :
  ask_bucket sv_joinLimiterGlobal now one s = Some (ok, s', out) →
  out = [] ∧ untouched s s' ∧ sv_sessions s' = sv_sessions s ∧ sv_updateInfo s' = sv_updateInfo s.
Proof. unfold ask_bucket. destruct (AllowN _ _ _). by intros [= _ <- <-]. Qed.

(** The limiters of a join, in the order they are asked. *)
Definition join_admitted (now : Z) (c : ClientConn) : M bool :=
  do s <- get;
  do ok <- (if sourceIPLimitsDisabled s then ret true else ask_keyed sv_joinLimiterPerIP now (clientHost c) one);
  if negb ok then ret false else ask_bucket sv_joinLimiterGlobal now one.

Lemma handleJoin_cases now client code s close client' s' out a :
  c_Conn (cl_conn client) = Some a → handleJoin now client code s = Some ((close, client'), s', out) →
  (sends out = [(cl_conn client, refusal)] ∧ client' = counted_refusal client
   ∧ close = (TCP.MaxJoinFailures (sv_limits s) <=? cl_joinFailures client + 1)
   ∧ ∀ s1 o1 j sm, join_admitted now (cl_conn client) s = Some (true, s1, o1) →
       JoinSession now (string_of (normalizeCode (bytes_of code))) (cl_conn client) (sv_sessions s) = (Ok j, sm) →
       (ActivateDataPlane (j_SessionID j) (j_ShareID j) (c_ID (cl_conn client)) sm).1 = false)
  ∨ (close = false ∧ ∃ j, joined now code client s s' j client' out).
Proof.
  intros Hconn. unfold handleJoin, join_admitted.
  intros (s0 & ? & o0 & o0' & [= <- <- <-] & H & ->)%bind_inv.
  apply bind_inv in H as (ok1 & s1 & o1 & o1' & H1 & H & ->).
  pose proof H1 as (-> & [(C1 & L1 & T1 & _) _] & E1 & U1)%ask_join_limiters.
  unfold bind at 1, get at 1. unfold bind at 1. rewrite H1.
  destruct ok1; cbn [negb] in H |- *.
  2:{ left. apply (rejectJoin_result _ _ a) in H as ([= -> ->] & _ & ->); [by rewrite L1|done]. }
  apply bind_inv in H as (ok2 & s2 & o2 & o2' & H2 & H & ->). rewrite H2.
  pose proof H2 as (-> & [(C2 & L2 & T2 & _) _] & E2 & U2)%ask_join_global.
  destruct ok2; cbn [negb] in H.
  2:{ left. apply (rejectJoin_result _ _ a) in H as ([= -> ->] & _ & ->); [by rewrite L2, L1|done]. }
  apply bind_inv in H as (jr & s3 & o3 & o3' & H3 & H & ->). unfold on_sessions in H3. rewrite E2, E1 in H3.
  destruct (JoinSession _ _ _ (sv_sessions s)) as [jr0 sm] eqn:EJ. injection H3 as <- <- <-.
  destruct jr0 as [j|e].
  2:{ left. apply (rejectJoin_result _ _ a) in H as ([= -> ->] & _ & ->); [simpl; by rewrite L2, L1|done]. }
  apply bind_inv in H as (u4 & s4 & o4 & o4' & (-> & ->)%invalidate_result & H & ->). simpl in H.
  apply bind_inv in H as (act & s5 & o5 & o5' & H5 & H & ->). unfold on_sessions in H5. simpl in H5.
  destruct (ActivateDataPlane _ _ _ sm) as [act0 sm5] eqn:EA. injection H5 as <- <- <-.
  destruct act0; cbn [negb] in H.
  - right. apply bind_inv in H as (u6 & s6 & o6 & o6' & (-> & ->)%sendMsg_result & H & ->).
    apply bind_inv in H as (u7 & s7 & o7 & o7' & (-> & ->)%sendMsg_result & H & ->).
    injection H as <- <- <- <-. split; [done|]. exists j. constructor; simpl.
    + by exists sm.
    + done.
    + done.
    + rewrite Hconn. do 2 eexists. rewrite T2, T1, app_nil_r. split; [done|]. eauto.
  - left. apply bind_inv in H as (u6 & s6 & o6 & o6' & [= _ <- <-] & H & ->).
    apply (rejectJoin_result _ _ a) in H as ([= -> ->] & _ & ->); [|done]. simpl. rewrite L2, L1.
    split; [by destruct (sv_stun s2)|]. split; [done|]. split; [done|].
    intros ???? _ [= <- <-]. by rewrite EA.
Qed.

(** C7: a refused join tells nothing about why: whether the limiter of the address
    or the global one refused, the code does not exist or expired, the session has
    a helper or is not ready, the asking connection gets the same one message,
    nobody else gets any, its failures count one more, and it is closed exactly
    when they reach the limit. *)
Theorem refused_join_uniform (now : Z) (client client' : Client) (code : string) (s s' : Server) (close : bool)
  (out : list Out) (addr : string) :
  c_Conn (cl_conn client) = Some addr →
  handleJoin now client code s = Some ((close, client'), s', out) →
  cl_Type client' ≠ connStateHelp →
  sends out = [(cl_conn client, refusal)]
  ∧ cl_joinFailures client' = cl_joinFailures client + 1
  ∧ (close = true ↔ TCP.MaxJoinFailures (sv_limits s) ≤ cl_joinFailures client').
Proof.
  intros Ha H Ht. destruct (handleJoin_cases _ _ _ _ _ _ _ _ _ Ha H) as [(H1 & -> & -> & _)|(_ & j & J)].
  - split; [done|]. split; [done|]. simpl. by rewrite Z.leb_le.
  - by destruct (Ht (jn_type _ _ _ _ _ _ _ _ J)).
Qed.

Lemma refused_join_uniform_witness :
  match DemoRelay.server with
  | Some s =>
      match handleJoin 0 stranger "NOSUCHCODE" s with
      | Some (_, _, out) => sends out = [(cl_conn stranger, refusal)]
      | None => False
      end
  | None => False
  end.
Proof.
  destruct DemoRelay.server as [s|] eqn:E; [|by vm_compute in E].
  assert (bind_res : match DemoRelay.server with
          | Some s => (fun x => cl_Type x.1.1.2) <$> handleJoin 0 stranger "NOSUCHCODE" s
          | None => None end = Some connStateNew) by (vm_compute; reflexivity).
  rewrite E in bind_res.
  destruct (handleJoin 0 stranger "NOSUCHCODE" s) as [[[[close client'] s'] out]|] eqn:H; [|done].
  apply (refused_join_uniform 0 stranger client' "NOSUCHCODE" s s' close out "192.0.2.1:1" eq_refl H).
  injection bind_res as ->. done.
Defined.

Lemma JoinSession_shareID now code c sm j sm' :
  JoinSession now code c sm = (Ok j, sm') → j_ShareID j = c_ID (j_Share j).
Proof.
  unfold JoinSession. destruct (deref _ _ _) as [[p s]|]; [|done]. destruct (time_After _ _); [done|].
  destruct (s_closed s); [done|]. destruct (_ && bool_decide _); [done|]. destruct (s_Share s); [|done].
  destruct (s_shareReady s); [|done]. by intros [= <- _].
Qed.

Lemma JoinSession_accepts now code c sm :
  join_refusal now code sm = None → ∃ j sm', JoinSession now code c sm = (Ok j, sm').
Proof.
  unfold JoinSession, join_refusal. destruct (deref _ _ _) as [[p s]|]; [|done].
  destruct (time_After _ _); [done|]. destruct (s_closed s); [done|]. destruct (_ && bool_decide _); [done|].
  destruct (s_Share s); [|done]. destruct (s_shareReady s); [|done]. eauto.
Qed.

(** The activation that follows a join at once succeeds. *)
Lemma activate_after_join sm now code c j sm' :
  wf sm → JoinSession now code c sm = (Ok j, sm') →
  ∃ sm'', ActivateDataPlane (j_SessionID j) (j_ShareID j) (c_ID c) sm' = (true, sm'')
    ∧ byConnID sm'' = byConnID sm'
    ∧ ∃ p s, sessions sm'' !! j_SessionID j = Some p ∧ heap sm'' !! p = Some s ∧ s_dataPlaneReady s = true
        ∧ byConnID sm'' !! c_ID c = Some p ∧ s_Help s = Some c ∧ s_Share s = Some (j_Share j).
Proof.
  intros W E. pose proof (JoinSession_shareID _ _ _ _ _ _ E) as Hid.
  destruct (JoinSession_ok _ _ _ _ _ _ W E) as (p & s & s' & _ & _ & Hp & HS & HID & Hcl & _ & Hss & Hh & HS' & HH'
    & _ & Hpe & HID' & Hcl' & Hconn).
  assert (deref sm' (sessions sm') (j_SessionID j) = Some (p, s')) as Hd.
  { apply deref_Some. rewrite Hss, Hh, <- HID. split; [|apply lookup_insert_eq].
    by apply (so_listed _ _ _ _ (wf_session W p s Hp)). }
  pose proof Hd as [Hs1 _]%deref_Some.
  unfold ActivateDataPlane. rewrite Hd, Hcl', HS', HS, HH', Hid, !conn_is_self, Hpe. simpl.
  eexists. split; [done|]. split; [done|]. simpl.
  exists p. eexists. split; [done|]. split; [apply lookup_insert_eq|]. split; [done|]. simpl.
  split; [rewrite Hconn; apply lookup_insert_eq|]. by rewrite HS', HS, HH'.
Qed.

(** Handlers that always return. *)
Definition returns {A : Type} (m : M A) : Prop := ∀ s, ∃ x, m s = Some x.

Lemma returns_ret {A} (a : A) : returns (ret a).
Proof. intros s. by eexists. Qed.
Lemma returns_bind {A B} (m : M A) (f : A → M B) : returns m → (∀ a, returns (f a)) → returns (bind m f).
Proof.
  intros Hm Hf s. unfold bind. destruct (Hm s) as [[[a s1] o1] ->]. destruct (Hf a s1) as [[[b s2] o2] ->]. by eexists.
Qed.
Lemma returns_keyed (f : Server → KeyedLimiter) `{SetField _ _ f} now key n : returns (ask_keyed f now key n).
Proof. intros s. unfold ask_keyed. destruct (KeyedAllowN _ _ _ _). by eexists. Qed.
Lemma returns_bucket (f : Server → Bucket) `{SetField _ _ f} now n : returns (ask_bucket f now n).
Proof. intros s. unfold ask_bucket. destruct (AllowN _ _ _). by eexists. Qed.
Lemma returns_sessions {A} (f : SessionManager → A * SessionManager) : returns (on_sessions f).
Proof. intros s. unfold on_sessions. destruct (f _). by eexists. Qed.
Lemma returns_emit o : returns (emit o).
Proof. intros s. by eexists. Qed.
Lemma returns_get : returns get.
Proof. intros s. by eexists. Qed.

Ltac returns :=
  repeat first
    [ apply returns_ret | apply returns_get | apply returns_emit | apply returns_keyed | apply returns_bucket
    | apply returns_sessions | solve [auto]
    | apply returns_bind; [|intros ?]
    | match goal with |- returns (match ?x with _ => _ end) => destruct x end ].

Lemma handleJoin_returns now client code : returns (handleJoin now client code).
Proof. unfold handleJoin, rejectJoin, invalidate, sendMsg. returns. Qed.

(** C6: a join with a code that stands for a published share without a helper goes
    through once the limiters agree: the connection stays, becomes a helper, and
    its failures are forgotten.  The old UDP relay entry is dropped first, then the
    helper is answered, then the share is told; at that point the data plane is
    active and the helper's traffic goes to the share. *)
Theorem join_goes_through (now : Z) (client : Client) (code : string) (s s1 : Server) (o1 : list Out) (addr : string) :
  reachable (sv_sessions s) → c_ID (cl_conn client) ≠ ""%string → c_Conn (cl_conn client) = Some addr →
  join_admitted now (cl_conn client) s = Some (true, s1, o1) →
  join_refusal now (string_of (normalizeCode (bytes_of code))) (sv_sessions s) = None →
  ∃ client' s' out j,
    handleJoin now client code s = Some ((false, client'), s', out)
    ∧ joined now code client s s' j client' out
    ∧ IsActiveDataSession (j_SessionID j) (sv_sessions s') = true
    ∧ (c_ID (j_Share j) ≠ c_ID (cl_conn client) → FindPeer (c_ID (cl_conn client)) (sv_sessions s') = Some (j_Share j)).
Proof.
  intros W%wf_reachable Hne Ha Hadm Href.
  destruct (JoinSession_accepts _ _ (cl_conn client) _ Href) as (j & sm & EJ).
  pose proof (wf_JoinSession _ _ _ _ _ _ W Hne EJ) as W1.
  destruct (activate_after_join _ _ _ _ _ _ W EJ) as (sm' & EA & _ & p & t & Hsid & Ht & Hd & Hc & HH & HS).
  pose proof (wf_ActivateDataPlane _ _ _ _ _ _ W1 EA) as W2.
  destruct (handleJoin_returns now client code s) as [[[[close client'] s'] out] H].
  destruct (handleJoin_cases _ _ _ _ _ _ _ _ _ Ha H) as [(_ & _ & _ & Hact)|(-> & j' & J)].
  { specialize (Hact _ _ _ _ Hadm EJ). by rewrite EA in Hact. }
  pose proof (jn_session _ _ _ _ _ _ _ _ J) as (sm2 & EJ' & EA'). rewrite EJ in EJ'. injection EJ' as <- <-.
  rewrite EA in EA'. injection EA' as ->.
  exists client', s', out, j. split; [done|]. split; [done|]. split.
  - apply IsActiveDataSession_true. exists p, t. split_and!; [done..|]. by rewrite (data_active_iff _ p t W2 Ht).
  - intros Hne2. rewrite <- HS. eapply FindPeer_help; [exact Hc|exact Ht|exact HH|done|].
    rewrite HS. simpl. by apply bool_decide_eq_false.
Qed.

(** The helper of the demo, about to join. *)
Definition helper : Client := new_client 2 DemoRelay.help_id "203.0.113.9:50000".

Lemma join_goes_through_witness :
  match DemoRelay.relay with
  | Some r0 =>
      match exec_history DemoRelay.connect r0 with
      | Some (r, _) =>
          ∃ client' s' out, handleJoin (2 * Second) helper "ABCD-EFGHJK" (rl_server r) = Some ((false, client'), s', out)
      | None => False
      end
  | None => False
  end.
Proof.
  destruct DemoRelay.relay as [r0|] eqn:E0; [|by vm_compute in E0].
  destruct (exec_history DemoRelay.connect r0) as [[r sent]|] eqn:E1.
  2:{ assert ((r ← DemoRelay.relay; exec_history DemoRelay.connect r) = None) as H by (rewrite E0; exact E1).
      by vm_compute in H. }
  assert ((fun p => fst <$> (fst <$> join_admitted (2 * Second) (cl_conn helper) (rl_server p.1)))
            <$> (r ← DemoRelay.relay; exec_history DemoRelay.connect r) = Some (Some true)) as Hadm
    by (vm_compute; reflexivity).
  assert ((fun p => join_refusal (2 * Second) (string_of (normalizeCode (bytes_of "ABCD-EFGHJK")))
             (sv_sessions (rl_server p.1))) <$> (r ← DemoRelay.relay; exec_history DemoRelay.connect r) = Some None)
    as Href by (vm_compute; reflexivity).
  rewrite E0 in Hadm, Href. cbn [mbind option_bind] in Hadm, Href. rewrite E1 in Hadm, Href.
  cbn [fmap option_fmap option_map fst] in Hadm, Href.
  destruct (join_admitted (2 * Second) (cl_conn helper) (rl_server r)) as [[[b s1] o1]|] eqn:EA; [|done].
  injection Hadm as ->. injection Href as Href.
  destruct (join_goes_through (2 * Second) helper "ABCD-EFGHJK" (rl_server r) s1 o1 "203.0.113.9:50000")
    as (client' & s' & out & j & H & _); [|by vm_compute|reflexivity|exact EA|exact Href|].
  - eapply table_reachable; [by apply fresh_started|by apply exec_history_sound].
  - by exists client', s', out.
Defined.

(** ** The throttle of the tool channel *)

(** Readings of the clock by a loop that sleeps [toolThrottleStep] between rounds. *)
Fixpoint steady (now : Z) (ticks : list Z) : Prop :=
  match ticks with
  | [] => True
  | t :: ticks => now ≤ t ∧ steady (t + toolThrottleStep) ticks
  end.

(** Asked until it grants, then left alone. *)
Inductive charged_once (id : string) (cost : float64) : KeyedLimiter → bool → KeyedLimiter → Prop :=
| charged_not k : charged_once id cost k false k
| charged_refused t k k1 b k2 :
    KeyedAllowN t id cost k = (false, k1) → charged_once id cost k1 b k2 → charged_once id cost k b k2
| charged_granted t k k1 : KeyedAllowN t id cost k = (true, k1) → charged_once id cost k true k1.

(** One round, from the result of the loop. *)
Lemma tool_round now ticks deadline id cost paid s r :
  tool_loop (now :: ticks) deadline id cost paid s = r →
  let (p, k) := if paid then (true, sv_toolLimiterPerConn s) else KeyedAllowN now id cost (sv_toolLimiterPerConn s) in
  let s1 := s <| sv_toolLimiterPerConn := k |> in
  let (g, bu) := if p then AllowN now cost (sv_toolLimiterGlobal s) else (false, sv_toolLimiterGlobal s) in
  let s2 := s1 <| sv_toolLimiterGlobal := bu |> in
  r = if g then Some (true, s2, [])
      else if negb (time_Before now deadline) then Some (false, s2, [])
      else tool_loop ticks deadline id cost p s2.
Proof.
  intros <-. cbn [tool_loop].
  assert (∀ x : option (bool * Server * list Out),
    match x with Some (b, s', o) => Some (b, s', o) | None => None end = x) as Hid by by intros [[[? ?] ?]|].
  destruct s. unfold bind at 1. destruct paid.
  - unfold ret at 1. cbv beta iota. unfold bind at 1, ask_bucket at 1. simpl.
    destruct (AllowN _ _ _) as [g bu]. destruct g; [done|].
    destruct (negb _); [done|]. by destruct (tool_loop _ _ _ _ _ _) as [[[? ?] ?]|].
  - unfold ask_keyed at 1. simpl. destruct (KeyedAllowN _ _ _ _) as [p k]. unfold bind at 1. destruct p.
    + unfold ask_bucket at 1. simpl. destruct (AllowN _ _ _) as [g bu]. destruct g; [done|].
      destruct (negb _); [done|]. by destruct (tool_loop _ _ _ _ _ _) as [[[? ?] ?]|].
    + unfold ret at 1. simpl. destruct (negb _); [done|]. by destruct (tool_loop _ _ _ _ _ _) as [[[? ?] ?]|].
Qed.

(** The rounds that are left reach the deadline. *)
Lemma tool_loop_returns ticks deadline id cost : ∀ now paid s,
  steady now ticks → deadline ≤ now + (Z.of_nat (length ticks) - 1) * toolThrottleStep → ticks ≠ [] →
  ∃ b s', tool_loop ticks deadline id cost paid s = Some (b, s', [])
    ∧ (∃ t, t ∈ ticks ∧ (b = false → deadline ≤ t)
         ∧ (b = true → ∃ g, AllowN t cost g = (true, sv_toolLimiterGlobal s')))
    ∧ (if paid then sv_toolLimiterPerConn s' = sv_toolLimiterPerConn s
       else ∃ c, charged_once id cost (sv_toolLimiterPerConn s) c (sv_toolLimiterPerConn s') ∧ (b = true → c = true)).
Proof.
  induction ticks as [|t ticks IH]; [done|]. intros now paid s [Ht Hst] Hd _.
  pose proof (tool_round t ticks deadline id cost paid s _ eq_refl) as HR.
  destruct (if paid then _ else _) as [p k] eqn:Ep.
  destruct (if p then _ else _) as [g bu] eqn:Eg. cbv zeta in HR. rewrite HR. clear HR.
  assert (if paid then p = true ∧ k = sv_toolLimiterPerConn s
          else KeyedAllowN t id cost (sv_toolLimiterPerConn s) = (p, k)) as HP by (destruct paid; [by injection Ep as <- <-|done]).
  assert (p = true → AllowN t cost (sv_toolLimiterGlobal s) = (g, bu)) as HG by by intros ->.
  assert (p = false → g = false) as HG0 by by intros ->; injection Eg.
  clear Ep Eg. destruct g.
  - destruct p; [|by discriminate HG0]. do 2 eexists. split; [done|]. split.
    + exists t. split; [left|]. split; [done|]. intros _. exists (sv_toolLimiterGlobal s). by rewrite HG.
    + simpl. destruct paid; [by destruct HP|]. exists true. split; [by eapply charged_granted|done].
  - assert (∀ c k2, (if paid then True else p = false → charged_once id cost k c k2) → (p = true → k2 = k ∧ c = true) →
        if paid then p = true → k2 = sv_toolLimiterPerConn s
        else charged_once id cost (sv_toolLimiterPerConn s) c k2) as Hcharge.
    { intros c k2 H1 H2. destruct paid; [intros Hp; destruct (H2 Hp) as [-> _]; by destruct HP|].
      destruct p; [destruct (H2 eq_refl) as [-> ->]; by eapply charged_granted|].
      eapply charged_refused; [exact HP|by apply H1]. }
    unfold time_Before. destruct (Z.ltb_spec t deadline) as [Hlt|Hge]; cbn [negb].
    + assert (ticks ≠ []) as Hne.
      { intros ->. simpl in Hd. lia. }
      set (s2 := s <| sv_toolLimiterPerConn := k |> <| sv_toolLimiterGlobal := bu |>).
      destruct (IH (t + toolThrottleStep) p s2 Hst) as (b & s' & Hl & (t' & Hin & Hf & Htr) & Hc); [|done|].
      { rewrite length_cons, Nat2Z.inj_succ in Hd. unfold toolThrottleStep in *. lia. }
      exists b, s'. split; [done|]. split; [exists t'; split; [by right|done]|].
      destruct paid.
      * destruct HP as [-> ->]. exact Hc.
      * destruct p; [|destruct Hc as (c & Hc & Hb); exists c; split; [|done]; by eapply charged_refused].
        exists true. split; [|done]. rewrite Hc. by eapply charged_granted.
    + do 2 eexists. split; [done|]. split; [exists t; split; [left|by split]|]. simpl.
      destruct paid; [by destruct HP|]. destruct p; [exists true|exists false]; (split; [|done]).
      * by eapply charged_granted.
      * eapply charged_refused; [done|apply charged_not].
Qed.

(** The throttle of the tool channel always comes to an end: with a clock that
    advances by at least the sleep of each round, a hundred and one rounds are
    enough.  A frame is dropped only once the whole waiting time has passed, is
    let through only when the global limiter paid for it, and charges the limiter
    of its connection at most once however often it had to wait. *)
Theorem tool_throttle_ends (now : Z) (ticks : list Z) (c : ClientConn) (bytes : Z) (s : Server) :
  steady now ticks → (101 ≤ length ticks)%nat →
  ∃ ok s', allowToolMessage now ticks c bytes s = Some (ok, s', [])
    ∧ (∃ t, t ∈ ticks ∧ (ok = false → now + toolThrottleMaxWait ≤ t)
         ∧ (ok = true → ∃ g, AllowN t (tool_cost bytes) g = (true, sv_toolLimiterGlobal s')))
    ∧ ∃ paid, charged_once (c_ID c) (tool_cost bytes) (sv_toolLimiterPerConn s) paid (sv_toolLimiterPerConn s')
        ∧ (ok = true → paid = true).
Proof.
  intros Hs Hl. unfold allowToolMessage.
  destruct (tool_loop_returns ticks (now + toolThrottleMaxWait) (c_ID c) (tool_cost bytes) now false s Hs)
    as (b & s' & H & Ht & Hc); [|intros ->; simpl in Hl; lia|by exists b, s'].
  unfold toolThrottleMaxWait, toolThrottleStep, Second. lia.
Qed.

(** Rounds twenty milliseconds apart. *)
Definition rounds : list Z := map (fun n => Z.of_nat n * toolThrottleStep) (seq 0 101).

Lemma tool_throttle_ends_witness :
  match DemoRelay.server with
  | Some s => ∃ ok s', allowToolMessage 0 rounds (cl_conn helper) 4194304 s = Some (ok, s', [])
  | None => False
  end.
Proof.
  destruct DemoRelay.server as [s|] eqn:E; [|by vm_compute in E].
  destruct (tool_throttle_ends 0 rounds (cl_conn helper) 4194304 s) as (ok & s' & H & _);
    [|apply Nat.leb_le; reflexivity|by exists ok, s'].
  vm_compute. repeat (split; [discriminate|]). exact I.
Defined.
