(* ===== verification/RelaySessionConflict.v ===== *)
(** * Two live shares with one client id

    A machine image cloned with its client id makes two shares evict each other.
    [ReuseSessionByClientID] lets a newcomer replace a live share three times
    within a minute; the next attempt is a conflict, and from then on every
    attempt is refused until the newcomers stay away for the cool-down. *)

From S2P Require Import Prelude GoNet RelaySession RelaySessionInv RelaySessionThms RelaySessionGrace.

Open Scope Z_scope.

(** The session of [cid], open and not expired at [now], with its address. *)
Definition owned_by (cid : string) (now : Z) (p : ptr) (s : TunnelSession) (sm : SessionManager) : Prop :=
  cid ≠ ""%string ∧ byClientID sm !! cid = Some p ∧ heap sm !! p = Some s
  ∧ s_closed s = false ∧ now ≤ s_ExpiresAt s.

Lemma clients_drop_conn c sm : byClientID (drop_conn c sm) = byClientID sm.
Proof. by destruct c. Qed.
Lemma clients_stop_timer t sm : byClientID (stop_timer t sm) = byClientID sm.
Proof. by destruct t. Qed.

(** What is left of a session after an attempt. *)
Record attempted (s : TunnelSession) (share : option ClientConn) (lives : list Z) (until : Z)
  (s' : TunnelSession) : Prop := {
  at_share : s_Share s' = share;
  at_lives : s_liveReplaces s' = lives;
  at_until : s_conflictUntil s' = until;
  at_closed : s_closed s' = s_closed s;
  at_expires : s_ExpiresAt s' = s_ExpiresAt s;
}.

Lemma owned_deref cid now p s sm :
  owned_by cid now p s sm →
  bool_decide (cid = ""%string) = false
  ∧ deref sm (byClientID sm) cid = Some (p, s)
  ∧ time_After now (s_ExpiresAt s) || s_closed s = false.
Proof.
  intros (Hne & Hk & Hp & Hc & He). split_and!.
  - by apply bool_decide_eq_false.
  - by apply deref_Some.
  - unfold time_After. rewrite Hc, (proj2 (Z.ltb_ge _ _)) by lia. done.
Qed.

Lemma owned_after cid now p s s' sm sm' t share lives until :
  owned_by cid now p s sm → byClientID sm' = byClientID sm → heap sm' !! p = Some s' →
  attempted s share lives until s' → t ≤ s_ExpiresAt s → owned_by cid t p s' sm'.
Proof.
  intros (? & ? & ? & ? & ?) E ? [_ _ _ Hc He] ?. split_and!; [done|by rewrite E|done|congruence|lia].
Qed.

(** An attempt by a share that is not the one the session is bound to. *)
Lemma reuse_live cid now p s sm c :
  owned_by cid now p s sm → live_other s c = true →
  ∃ o sm' s', ReuseSessionByClientID now cid c sm = (o, sm')
    ∧ byClientID sm' = byClientID sm ∧ heap sm' !! p = Some s'
    ∧ (if time_Before now (s_conflictUntil s)
       then (∃ r, o = ConflictWith r)
            ∧ attempted s (s_Share s) (s_liveReplaces s) (now + shareConflictCooldown) s'
       else if (shareConflictMaxReplaces <? length (recordLiveReplace (s_liveReplaces s) now))%nat
       then (∃ r, o = ConflictWith r) ∧ attempted s (s_Share s) [] (now + shareConflictCooldown) s'
       else (∃ r, o = Reused r)
            ∧ attempted s (Some c) (recordLiveReplace (s_liveReplaces s) now) (s_conflictUntil s) s').
Proof.
  intros Hown Hlive. destruct (owned_deref _ _ _ _ _ Hown) as (E1 & E2 & E3).
  unfold ReuseSessionByClientID. rewrite E1, E2, E3, Hlive.
  destruct (time_Before _ _) eqn:Hu; [|cbn zeta; simpl s_liveReplaces; destruct (_ <? _)%nat eqn:Hl].
  1,2: (do 3 eexists; split; [done|]; split; [done|];
        split; [simpl; apply lookup_insert_eq|]; split; [eauto|by constructor]).
  do 3 eexists. split; [done|]. unfold rebind. simpl. split.
  { by rewrite clients_stop_timer, !clients_drop_conn. }
  split; [apply lookup_insert_eq|]. split; [eauto|]. by constructor.
Qed.

Lemma record_suffix x y now :
  Forall (fun t => now - shareConflictWindow < t) y →
  (length (recordLiveReplace (x ++ y) now) ≤ shareConflictMaxReplaces)%nat →
  ∃ x', recordLiveReplace (x ++ y) now = x' ++ y ++ [now].
Proof.
  intros Hy. unfold recordLiveReplace. destruct (_ <? _)%nat eqn:E.
  - rewrite length_drop. apply Nat.ltb_lt in E. lia.
  - intros _. rewrite filter_app. eexists. rewrite <- app_assoc. do 2 f_equal.
    clear E. induction Hy as [|t y Ht _ IH]; [done|].
    rewrite filter_cons_True by (unfold time_After; by apply Z.ltb_lt). by rewrite IH.
Qed.

(** Attempts on one client id, in order: their times and the newcomers. *)
Fixpoint attempts (cid : string) (l : list (Z * ClientConn)) (sm : SessionManager)
  : list ReuseOutcome * SessionManager :=
  match l with
  | [] => ([], sm)
  | (t, c) :: l =>
      let '(o, sm1) := ReuseSessionByClientID t cid c sm in
      let '(os, sm2) := attempts cid l sm1 in
      (o :: os, sm2)
  end.

Definition is_conflict (o : ReuseOutcome) : bool :=
  match o with ConflictWith _ => true | _ => false end.

(** Newcomers that each meet another live share than themselves. *)
Fixpoint rivals (bound : option ClientConn) (l : list (Z * ClientConn)) : Prop :=
  match l with
  | [] => True
  | (_, c) :: l =>
      match bound with Some old => c_ptr old ≠ c_ptr c | None => False end ∧ rivals (Some c) l
  end.

Lemma rivals_live s t c l : rivals (s_Share s) ((t, c) :: l) → live_other s c = true.
Proof.
  unfold live_other. simpl. destruct (s_Share s); [|naive_solver]. intros [? _].
  by apply bool_decide_eq_true.
Qed.

(** Accepted takeovers accumulate at the end of [liveReplaces]. *)
Lemma takeovers_accumulate cid p l : ∀ s sm x y t0,
  owned_by cid t0 p s sm → s_liveReplaces s = x ++ y → rivals (s_Share s) l →
  Forall (fun tc => ∀ t, t ∈ y ++ map fst l → fst tc - shareConflictWindow < t) l →
  Forall (fun tc => fst tc ≤ s_ExpiresAt s) l →
  existsb is_conflict (attempts cid l sm).1 = false →
  (length y + length l ≤ shareConflictMaxReplaces)%nat ∨ l = [].
Proof.
  induction l as [|[t c] l IH]; intros s sm x y t0 Hown Hl Hr Hw He Hno; [by right|left].
  apply Forall_cons in Hw as [Hw Hwl]. apply Forall_cons in He as [Het Hel]. simpl in *.
  assert (owned_by cid t p s sm) as Hown1 by (destruct Hown as (? & ? & ? & ? & _); done).
  destruct (reuse_live cid t p s sm c Hown1 (rivals_live s t c l Hr))
    as (o & sm1 & s1 & E & Hcl & Hp1 & Hcase).
  rewrite E in Hno. destruct (attempts cid l sm1) as [os sm2] eqn:Eos. simpl in Hno.
  apply orb_false_iff in Hno as [Ho Hos].
  destruct (time_Before _ _); [destruct Hcase as [[r ->] _]; done|].
  destruct (_ <? _)%nat eqn:Hlen; [destruct Hcase as [[r ->] _]; done|].
  apply Nat.ltb_ge in Hlen. destruct Hcase as [_ Hat].
  assert (∃ x', s_liveReplaces s1 = x' ++ (y ++ [t])) as [x' Hx'].
  { rewrite (at_lives _ _ _ _ _ Hat). rewrite Hl in *.
    destruct (record_suffix x y t) as [x' ->]; [|done|eauto].
    apply Forall_forall. intros u Hu. apply Hw. set_solver. }
  assert (length y + 1 ≤ shareConflictMaxReplaces)%nat as Hshort.
  { rewrite <- (at_lives _ _ _ _ _ Hat), Hx', !length_app in Hlen. simpl in Hlen. lia. }
  destruct (IH s1 sm1 x' (y ++ [t]) t) as [Hn| ->].
  - by eapply owned_after.
  - done.
  - rewrite (at_share _ _ _ _ _ Hat). by destruct Hr.
  - eapply Forall_impl; [exact Hwl|]. simpl. intros tc Htc u Hu. apply Htc.
    rewrite <- app_assoc in Hu. done.
  - by rewrite (at_expires _ _ _ _ _ Hat).
  - by rewrite Eos.
  - rewrite length_app in Hn. simpl in Hn. lia.
  - simpl. lia.
Qed.

(** Shares that fight over one client id do not take its session from each
    other for ever: of any four attempts made within a minute, each by another
    live share than the one the session is bound to, at least one is refused. *)
Theorem takeover_storm_refused (cid : string) (p : ptr) (s : TunnelSession) (sm : SessionManager)
  (t1 t2 t3 t4 : Z) (c1 c2 c3 c4 : ClientConn) :
  owned_by cid t1 p s sm → t1 ≤ t2 → t2 ≤ t3 → t3 ≤ t4 → t4 < t1 + shareConflictWindow →
  t4 ≤ s_ExpiresAt s → rivals (s_Share s) [(t1, c1); (t2, c2); (t3, c3); (t4, c4)] →
  existsb is_conflict (attempts cid [(t1, c1); (t2, c2); (t3, c3); (t4, c4)] sm).1 = true.
Proof.
  intros Hown H12 H23 H34 Hw He Hr. apply not_false_is_true. intros Hno.
  assert (0 < shareConflictWindow) as HW by done.
  destruct (takeovers_accumulate cid p
    [(t1, c1); (t2, c2); (t3, c3); (t4, c4)] s sm (s_liveReplaces s) [] t1 Hown) as [Hlen|Hlen];
    [by rewrite app_nil_r|exact Hr| | |exact Hno| |done].
  - rewrite !Forall_cons; simpl; split_and!; [..|constructor]; intros t Ht;
      repeat (apply elem_of_cons in Ht as [->|Ht]; [lia|]); by apply not_elem_of_nil in Ht.
  - rewrite !Forall_cons; simpl. split_and!; [lia..|constructor].
  - unfold shareConflictMaxReplaces in Hlen. simpl in Hlen. lia.
Qed.

(** Two clones of the demo share, which reconnect in turn every ten seconds. *)
Definition clone (p : ptr) (id : string) : ClientConn :=
  mkClientConn p id "cid_1" "1.0.0" "uos@pc uos arm64" true (Some "198.51.100.8:40001"%string).
Definition storm : list (Z * ClientConn) :=
  [(10 * Second, clone 11 "cli_a"); (20 * Second, clone 12 "cli_b");
   (30 * Second, clone 13 "cli_c"); (40 * Second, clone 14 "cli_d")].
Definition after_storm : SessionManager := (attempts "cid_1" storm Demo.connected).2.

Lemma takeover_storm_refused_witness :
  existsb is_conflict (attempts "cid_1" storm Demo.connected).1 = true.
Proof.
  destruct (heap Demo.connected !! 1%positive) as [s|] eqn:Hp; [|vm_compute in Hp; discriminate].
  assert (s_Share s = Some Demo.share ∧ s_ExpiresAt s = 30 * Minute ∧ s_closed s = false) as (HS & HE & HC)
    by (vm_compute in Hp; by injection Hp as <-).
  apply (takeover_storm_refused "cid_1" 1 s Demo.connected); [|by vm_compute..| |].
  - split_and!; [done|by vm_compute|done|done|by rewrite HE].
  - by rewrite HE.
  - rewrite HS. simpl. split_and!; done.
Defined.

(** Attempts that each come within the cool-down of the one before. *)
Fixpoint insisting (until : Z) (s : TunnelSession) (l : list (Z * ClientConn)) : Prop :=
  match l with
  | [] => True
  | (t, c) :: l =>
      t < until ∧ t ≤ s_ExpiresAt s ∧ live_other s c = true
      ∧ insisting (t + shareConflictCooldown) s l
  end.

Lemma live_other_share s s' c : s_Share s' = s_Share s → live_other s' c = live_other s c.
Proof. unfold live_other. by intros ->. Qed.

Lemma insisting_same s s' l u :
  s_Share s' = s_Share s → s_ExpiresAt s' = s_ExpiresAt s → insisting u s l → insisting u s' l.
Proof.
  intros HS HE. revert u. induction l as [|[t c] l IH]; intros u; simpl; [done|].
  rewrite HE, (live_other_share s s') by done. naive_solver.
Qed.

(** A conflict lasts as long as the rivals insist.  While a conflict is
    pending, every attempt by another live share is refused and prolongs it, so
    however many attempts follow, each within the cool-down of the one before,
    none succeeds and the bound share keeps its session. *)
Theorem conflict_lasts_while_insisting (cid : string) (p : ptr) (l : list (Z * ClientConn))
  (s : TunnelSession) (sm : SessionManager) (t0 : Z) :
  owned_by cid t0 p s sm → insisting (s_conflictUntil s) s l →
  Forall (fun o => is_conflict o = true) (attempts cid l sm).1
  ∧ ∃ s', heap (attempts cid l sm).2 !! p = Some s' ∧ s_Share s' = s_Share s ∧ s_closed s' = false
     ∧ s_conflictUntil s' = fold_left (fun _ tc => fst tc + shareConflictCooldown) l (s_conflictUntil s).
Proof.
  revert s sm t0. induction l as [|[t c] l IH]; intros s sm t0 Hown Hin; simpl.
  { destruct Hown as (? & ? & ? & ? & ?). eauto 6. }
  destruct Hin as (Hlt & He & Hlive & Hin).
  assert (owned_by cid t p s sm) as Hown1 by (destruct Hown as (? & ? & ? & ? & _); done).
  destruct (reuse_live cid t p s sm c Hown1 Hlive) as (o & sm1 & s1 & -> & Hcl & Hp1 & Hcase).
  unfold time_Before in Hcase. rewrite (proj2 (Z.ltb_lt _ _) Hlt) in Hcase.
  destruct Hcase as [[r ->] Hat].
  destruct (IH s1 sm1 t) as [Hall (s' & Hp' & HS & Hc & Hu)].
  - by eapply owned_after.
  - rewrite (at_until _ _ _ _ _ Hat).
    eapply insisting_same; [exact (at_share _ _ _ _ _ Hat)|exact (at_expires _ _ _ _ _ Hat)|done].
  - destruct (attempts cid l sm1) as [os sm2]. simpl in *. split; [by constructor|].
    exists s'. rewrite Hu, (at_until _ _ _ _ _ Hat), <- (at_share _ _ _ _ _ Hat). done.
Qed.

Definition later_attempts : list (Z * ClientConn) :=
  [(2 * Minute, clone 15 "cli_e"); (11 * Minute, clone 16 "cli_f"); (20 * Minute, clone 17 "cli_g")].

Lemma conflict_lasts_while_insisting_witness :
  ∃ s', heap (attempts "cid_1" later_attempts after_storm).2 !! 1%positive = Some s'
    ∧ c_ID <$> s_Share s' = Some "cli_c"%string ∧ s_closed s' = false.
Proof.
  destruct (heap after_storm !! 1%positive) as [s|] eqn:Hp; [|vm_compute in Hp; discriminate].
  assert (s_Share s = Some (clone 13 "cli_c") ∧ s_ExpiresAt s = 30 * Minute ∧ s_closed s = false
    ∧ s_conflictUntil s = 40 * Second + 10 * Minute) as (HS & HE & HC & HU)
    by (vm_compute in Hp; by injection Hp as <-).
  destruct (conflict_lasts_while_insisting "cid_1" 1 later_attempts s after_storm (40 * Second))
    as [_ (s' & Hs' & HS' & Hc' & _)].
  - split_and!; [done|by vm_compute|done|done|by rewrite HE].
  - rewrite HU. unfold later_attempts, insisting, live_other. rewrite HS, HE. vm_compute. split_and!; done.
  - exists s'. split; [exact Hs'|]. split; [by rewrite HS', HS|exact Hc'].
Defined.
