(* ===== verification/AgentReplay.v ===== *)
(** * The anti-replay window of the agent ([internal/agent/replay.go])

    A call is identified by a 64-bit number, and the guard remembers which of the
    last 1024 numbers it has seen in sixteen words of sixty-four bits. *)

From S2P Require Import Prelude.

Open Scope Z_scope.

Definition replayWindowBits : Z := 1024.
Definition replayWindowWords : Z := replayWindowBits / 64.

Record replayGuard := mkGuard {
  started : bool;
  highest : Z;
  bits : list Z;
}.

#[export] Instance replayGuard_eta : Eta replayGuard := fun g => mkGuard (started g) (highest g) (bits g).

Definition no_bits : list Z := replicate (Z.to_nat replayWindowWords) 0.

(** The zero value, which is also what [reset] leaves. *)
Definition new_guard : replayGuard := mkGuard false 0 no_bits.
Definition reset (g : replayGuard) : replayGuard := new_guard.

Definition slot (id : Z) : nat * Z :=
  let pos := id mod replayWindowBits in (Z.to_nat (pos / 64), Z.shiftl 1 (pos mod 64)).

Definition word (g : replayGuard) (w : nat) : Z := default 0 (bits g !! w).

Definition set_bit (id : Z) (g : replayGuard) : replayGuard :=
  let (w, m) := slot id in g <| bits := <[w := Z.lor (word g w) m]> (bits g) |>.

(** [&^=]. *)
Definition clear_bit (id : Z) (g : replayGuard) : replayGuard :=
  let (w, m) := slot id in g <| bits := <[w := Z.ldiff (word g w) m]> (bits g) |>.

Definition isSet (id : Z) (g : replayGuard) : bool :=
  let (w, m) := slot id in negb (Z.land (word g w) m =? 0).

(** [for v := ...; v <= id; v++]: the counter is a [uint64] and wraps around.
    [None]: the loop is still running when the fuel is used up. *)
Fixpoint clear_from (fuel : nat) (v id : Z) (g : replayGuard) : option replayGuard :=
  if id <? v then Some g else
  match fuel with
  | O => None
  | S fuel => clear_from fuel (wrap 64 (v + 1)) id (clear_bit v g)
  end.

Definition accept (fuel : nat) (id : Z) (g : replayGuard) : option (bool * replayGuard) :=
  if negb (started g) then
    Some (true, set_bit id (g <| started := true |> <| highest := id |>))
  else if highest g <? id then
    (if replayWindowBits <=? id - highest g then Some (g <| bits := no_bits |>)
     else clear_from fuel (wrap 64 (highest g + 1)) id g) ≫= fun g =>
    Some (true, set_bit id (g <| highest := id |>))
  else if replayWindowBits <=? highest g - id then Some (false, g)
  else if isSet id g then Some (false, g)
  else Some (true, set_bit id g).

(** ** Examples *)

Definition answers (ids : list Z) : list bool :=
  (fix go ids g := match ids with
     | [] => []
     | id :: ids => match accept 1024 id g with Some (b, g) => b :: go ids g | None => [] end
     end) ids new_guard.

Example in_order : answers [5; 6; 7; 6; 5; 4; 4; 2000; 7; 977; 976] =
  [true; true; true; false; false; true; false; true; false; true; false].
Proof. by vm_compute. Qed.

(** ** Bits *)

Definition shaped (g : replayGuard) : Prop := length (bits g) = 16%nat.

Lemma slot_word id : (0 ≤ id mod 1024 / 64 < 16) ∧ 0 ≤ id mod 64 < 64.
Proof. zdiv. Qed.

(** The bit a number stands for. *)
Definition bit_of (id : Z) (g : replayGuard) : bool :=
  Z.testbit (word g (Z.to_nat (id mod 1024 / 64))) (id mod 1024 mod 64).

Lemma land_one_bit x n : 0 ≤ n → negb (Z.land x (Z.shiftl 1 n) =? 0) = Z.testbit x n.
Proof.
  intros Hn. rewrite Z.shiftl_1_l. destruct (Z.testbit x n) eqn:Hb.
  - apply negb_true_iff, Z.eqb_neq. intros E. apply (f_equal (fun y => Z.testbit y n)) in E.
    rewrite Z.land_spec, Z.bits_0, Hb, Z.pow2_bits_true in E by done. done.
  - apply negb_false_iff, Z.eqb_eq. apply Z.bits_inj'. intros k Hk.
    rewrite Z.land_spec, Z.bits_0. destruct (decide (n = k)) as [<-|Hne]; [by rewrite Hb|].
    rewrite Z.pow2_bits_false by done. by rewrite andb_false_r.
Qed.

Lemma isSet_bit id g : isSet id g = bit_of id g.
Proof. unfold isSet, slot, bit_of, replayWindowBits. apply land_one_bit. apply Z.mod_pos_bound. lia. Qed.

(** Two numbers share a bit exactly when they agree modulo the window. *)
Lemma same_slot a b :
  a mod 1024 / 64 = b mod 1024 / 64 → a mod 1024 mod 64 = b mod 1024 mod 64 → a mod 1024 = b mod 1024.
Proof.
  intros E1 E2. pose proof (Z.div_mod (a mod 1024) 64 ltac:(lia)). pose proof (Z.div_mod (b mod 1024) 64 ltac:(lia)). lia.
Qed.

Section change.
Context (f : Z → Z → Z) (v : bool → bool).
Hypothesis f_here : ∀ x n, 0 ≤ n → Z.testbit (f x (Z.shiftl 1 n)) n = v (Z.testbit x n).
Hypothesis f_there : ∀ x n k, 0 ≤ n → 0 ≤ k → n ≠ k → Z.testbit (f x (Z.shiftl 1 n)) k = Z.testbit x k.

Lemma change_bit id id' g :
  shaped g →
  let w := Z.to_nat (id mod 1024 / 64) in
  bit_of id' (g <| bits := <[w := f (word g w) (Z.shiftl 1 (id mod 1024 mod 64))]> (bits g) |>) =
  if decide (id mod 1024 = id' mod 1024) then v (bit_of id' g) else bit_of id' g.
Proof.
  intros Hs w. unfold bit_of, word. simpl.
  pose proof (slot_word id) as [H1 _]. pose proof (slot_word id') as [H1' _].
  assert (0 ≤ id mod 1024 mod 64) as Hn by (apply Z.mod_pos_bound; lia).
  assert (0 ≤ id' mod 1024 mod 64) as Hn' by (apply Z.mod_pos_bound; lia).
  destruct (decide (id mod 1024 / 64 = id' mod 1024 / 64)) as [Ew|Ew].
  - rewrite <- Ew. fold w. rewrite list_lookup_insert_eq by (rewrite Hs; unfold w; lia). simpl. unfold word.
    destruct (decide (id mod 1024 = id' mod 1024)) as [E|E].
    + rewrite <- E. by rewrite f_here.
    + rewrite f_there; [done..|]. intros E'. by apply E, same_slot.
  - rewrite list_lookup_insert_ne by (unfold w; lia).
    rewrite decide_False; [done|]. congruence.
Qed.
End change.

Lemma set_bit_spec id id' g :
  shaped g → bit_of id' (set_bit id g) = if decide (id mod 1024 = id' mod 1024) then true else bit_of id' g.
Proof.
  intros Hs. unfold set_bit, slot, replayWindowBits.
  rewrite (change_bit Z.lor (fun _ => true)); [by destruct (decide _)|..|done].
  - intros x n Hn. rewrite Z.lor_spec, Z.shiftl_1_l, Z.pow2_bits_true by done. apply orb_true_r.
  - intros x n k Hn Hk Hne. rewrite Z.lor_spec, Z.shiftl_1_l, Z.pow2_bits_false by done. apply orb_false_r.
Qed.

Lemma clear_bit_spec id id' g :
  shaped g → bit_of id' (clear_bit id g) = if decide (id mod 1024 = id' mod 1024) then false else bit_of id' g.
Proof.
  intros Hs. unfold clear_bit, slot, replayWindowBits.
  rewrite (change_bit Z.ldiff (fun _ => false)); [by destruct (decide _)|..|done].
  - intros x n Hn. rewrite Z.ldiff_spec, Z.shiftl_1_l, Z.pow2_bits_true by done. apply andb_false_r.
  - intros x n k Hn Hk Hne. rewrite Z.ldiff_spec, Z.shiftl_1_l, Z.pow2_bits_false by done. apply andb_true_r.
Qed.

Lemma shaped_set id g : shaped g → shaped (set_bit id g).
Proof. unfold shaped, set_bit. destruct (slot id). simpl. by rewrite length_insert. Qed.
Lemma shaped_clear id g : shaped g → shaped (clear_bit id g).
Proof. unfold shaped, clear_bit. destruct (slot id). simpl. by rewrite length_insert. Qed.
Lemma bit_of_none id g : bits g = no_bits → bit_of id g = false.
Proof.
  intros E. unfold bit_of, word. rewrite E. unfold no_bits.
  destruct (replicate _ 0 !! _) as [x|] eqn:Hx; simpl; [apply lookup_replicate in Hx as [-> _]|]; apply Z.testbit_0_l.
Qed.

(** Distinct numbers of one window have distinct bits. *)
Lemma window_mod a b : Z.abs (a - b) < 1024 → a mod 1024 = b mod 1024 → a ≠ b → False.
Proof. intros H E. Z.to_euclidean_division_equations. lia. Qed.

(** The loop, while the counter does not wrap: it clears [v] to [id], whose bits
    are distinct. *)
Lemma clear_from_spec fuel v id g :
  shaped g → 0 ≤ v → id < 2 ^ 64 - 1 → id - v < Z.of_nat fuel → id - v < 1024 →
  ∃ g', clear_from fuel v id g = Some g' ∧ shaped g' ∧ started g' = started g ∧ highest g' = highest g
    ∧ (∀ y, v ≤ y ≤ id → bit_of y g' = false)
    ∧ (∀ x, (∀ y, v ≤ y ≤ id → y mod 1024 ≠ x mod 1024) → bit_of x g' = bit_of x g).
Proof.
  revert v g. induction fuel as [|fuel IH]; intros v g Hs Hv Hid Hf Hw; cbn [clear_from];
    destruct (Z.ltb_spec id v) as [Hlt|Hge]; try lia.
  1, 2: exists g; split_and!; [done..|intros y ?; lia|done].
  rewrite wrap_small by lia.
  destruct (IH (v + 1) (clear_bit v g)) as (g' & -> & Hs' & E1 & E2 & Hc & Hk); [by apply shaped_clear|lia..|].
  exists g'. split; [done|]. split; [done|].
  assert (started (clear_bit v g) = started g ∧ highest (clear_bit v g) = highest g) as [S1 S2].
  { unfold clear_bit. by destruct (slot v). }
  split; [by rewrite E1|]. split; [by rewrite E2|]. split.
  - intros y Hy. destruct (decide (y = v)) as [->|Hne]; [|apply Hc; lia].
    rewrite Hk, clear_bit_spec by first [done|intros y ? E; apply (window_mod y v); [lia|done|lia]].
    by rewrite decide_True.
  - intros x Hx. rewrite Hk by (intros; apply Hx; lia). rewrite clear_bit_spec by done.
    rewrite decide_False; [done|]. apply Hx. lia.
Qed.

(** ** The abstract guard: the set of the numbers it accepted *)

Section abstract.
Implicit Types (S : gset Z) (id : Z) (g : replayGuard).

(** [top] is the greatest number accepted so far. *)
Definition spec_accept (top : option Z) S id : bool :=
  match top with
  | None => true
  | Some m => (m <? id) || negb (1024 <=? m - id) && negb (bool_decide (id ∈ S))
  end.

Definition spec_top (top : option Z) id : option Z :=
  match top with None => Some id | Some m => Some (Z.max m id) end.

(** A history of requests, newest last, with the answers they get. *)
Fixpoint spec_run (top : option Z) S (ids : list Z) : list bool :=
  match ids with
  | [] => []
  | id :: ids =>
      if spec_accept top S id then true :: spec_run (spec_top top id) ({[id]} ∪ S) ids
      else false :: spec_run top S ids
  end.

Fixpoint guard_run g (ids : list Z) : option (list bool) :=
  match ids with
  | [] => Some []
  | id :: ids =>
      r ← accept 1024 id g;
      bs ← guard_run r.2 ids;
      Some (r.1 :: bs)
  end.

(** The window of the guard shows the set. *)
Definition shows g (top : option Z) S : Prop :=
  shaped g ∧
  match top with
  | None => started g = false ∧ bits g = no_bits ∧ S = ∅
  | Some m => started g = true ∧ highest g = m ∧ 0 ≤ m < 2 ^ 64 - 1 ∧ (∀ x, x ∈ S → 0 ≤ x ≤ m)
      ∧ ∀ v, v ≤ m → m - v < 1024 → 0 ≤ v → bit_of v g = bool_decide (v ∈ S)
  end.

Lemma in_added id S : id ∈ {[id]} ∪ S.
Proof. set_solver. Qed.
Lemma not_added v id S : v ≠ id → bool_decide (v ∈ S) = bool_decide (v ∈ {[id]} ∪ S).
Proof. intros. apply bool_decide_ext. set_solver. Qed.

Lemma shows_new : shows new_guard None ∅.
Proof. by vm_compute. Qed.

(** A new greatest number, over bits that show what is left of the window. *)
Lemma shows_top g m S id :
  shaped g → m < id → 0 ≤ id < 2 ^ 64 - 1 → (∀ x, x ∈ S → 0 ≤ x ≤ m) →
  (∀ v, v < id → id - v < 1024 → 0 ≤ v → bit_of v g = bool_decide (v ∈ S)) →
  started g = true →
  shows (set_bit id (g <| highest := id |>)) (Some id) ({[id]} ∪ S).
Proof.
  intros Hs Hlt Hid HS Hb Hst. set (g1 := g <| highest := id |>).
  assert (shaped g1) as Hs1 by done. split; [by apply shaped_set|].
  assert (started (set_bit id g1) = started g1 ∧ highest (set_bit id g1) = highest g1) as [-> ->].
  { unfold set_bit. by destruct (slot id). }
  split; [done|]. split; [done|]. split; [lia|]. split.
  - intros x [->%elem_of_singleton|Hx]%elem_of_union; [lia|]. specialize (HS x Hx). lia.
  - intros v Hv Hw H0. rewrite set_bit_spec by done.
    destruct (decide (v = id)) as [->|Hne].
    { rewrite decide_True by done. symmetry. apply bool_decide_eq_true, in_added. }
    rewrite decide_False by (intros E; apply (window_mod id v); [lia|done|congruence]).
    change (bit_of v g1) with (bit_of v g). rewrite Hb by lia. by apply not_added.
Qed.

Lemma bit_of_mod x y g : x mod 1024 = y mod 1024 → bit_of x g = bit_of y g.
Proof. intros E. unfold bit_of. by rewrite E. Qed.

Lemma accept_refines g top S id :
  shows g top S → 0 ≤ id < 2 ^ 64 - 1 →
  ∃ g', accept 1024 id g = Some (spec_accept top S id, g') ∧
    if spec_accept top S id then shows g' (spec_top top id) ({[id]} ∪ S) else shows g' top S.
Proof.
  intros [Hs H] Hid. unfold accept, replayWindowBits.
  destruct top as [m|]; cbn [spec_accept spec_top].
  - destruct H as (Hst & Hm & Hm0 & HS & Hb). rewrite Hst, Hm. cbn [negb].
    destruct (Z.ltb_spec m id) as [Hlt|Hge]; cbn [orb].
    + destruct (Z.leb_spec 1024 (id - m)) as [Hfar|Hnear].
      * eexists. split; [done|]. rewrite Z.max_r by lia. apply (shows_top _ m); try done; try lia.
        intros v Hv Hw H0. rewrite bit_of_none by done. symmetry. apply bool_decide_eq_false.
        intros Hx%HS. lia.
      * rewrite wrap_small by lia.
        destruct (clear_from_spec 1024 (m + 1) id g Hs) as (g' & -> & Hs' & E1 & E2 & Hc & Hk); [lia..|].
        eexists. split; [done|]. rewrite Z.max_r by lia. apply (shows_top _ m); try done; try lia; [|congruence].
        intros v Hv Hw H0. destruct (decide (v ≤ m)) as [Hle|].
        -- rewrite Hk; [by apply Hb; lia|]. intros y Hy E. apply (window_mod y v); [lia|done|lia].
        -- rewrite Hc by lia. symmetry. apply bool_decide_eq_false. intros Hx%HS. lia.
    + destruct (Z.leb_spec 1024 (m - id)) as [Hfar|Hnear].
      { by exists g. }
      rewrite isSet_bit, Hb by lia. cbn [andb negb].
      case_bool_decide as Hin; [by exists g|]. eexists. split; [done|]. cbn [negb].
      rewrite Z.max_l by lia. split; [by apply shaped_set|].
      assert (started (set_bit id g) = started g ∧ highest (set_bit id g) = highest g) as [-> ->].
      { unfold set_bit. by destruct (slot id). }
      split_and!; [done|done|lia|lia| |].
      * intros x [->%elem_of_singleton|Hx]%elem_of_union; [lia|by apply HS].
      * intros v Hv Hw H0. rewrite set_bit_spec by done. destruct (decide (v = id)) as [->|Hne].
        { rewrite decide_True by done. symmetry. apply bool_decide_eq_true, in_added. }
        rewrite decide_False by (intros E; apply (window_mod id v); [lia|done|congruence]).
        rewrite Hb by done. by apply not_added.
  - destruct H as (Hst & Hb & ->). rewrite Hst. cbn [negb]. eexists. split; [done|].
    apply (shows_top (g <| started := true |>) (id - 1)); try done; try lia.
    intros v Hv Hw H0. rewrite bit_of_none by done. by rewrite bool_decide_false.
Qed.

Definition usable id : Prop := 0 ≤ id < 2 ^ 64 - 1.

Lemma guard_run_refines ids : ∀ g top S,
  Forall usable ids → shows g top S → guard_run g ids = Some (spec_run top S ids).
Proof.
  induction ids as [|id ids IH]; [done|]. intros g top S [Hid Hids]%Forall_cons Hg.
  destruct (accept_refines g top S id Hg Hid) as (g' & E & Hg'). cbn [guard_run spec_run]. rewrite E.
  cbn [mbind option_bind fst snd]. destruct (spec_accept top S id); by rewrite (IH g' _ _ Hids Hg').
Qed.

(** What the abstract guard accepted stays at or below the top. *)
Definition capped (top : option Z) S : Prop := ∀ x, x ∈ S → ∃ m, top = Some m ∧ x ≤ m.

Lemma capped_add top S id : capped top S → capped (spec_top top id) ({[id]} ∪ S).
Proof.
  intros H x [->%elem_of_singleton|Hx]%elem_of_union.
  - destruct top as [m|]; simpl; eexists; (split; [done|lia]).
  - destruct (H x Hx) as (m & -> & Hm). simpl. eexists. split; [done|lia].
Qed.

Lemma spec_run_refuses ids : ∀ top S id j, capped top S → id ∈ S →
  ids !! j = Some id → spec_run top S ids !! j = Some false.
Proof.
  induction ids as [|id0 ids IH]; [done|]. intros top S id j Hc Hin Hj. cbn [spec_run].
  destruct j as [|j]; simpl in Hj.
  - injection Hj as ->. destruct (Hc id Hin) as (m & -> & Hm). unfold spec_accept.
    rewrite (bool_decide_true (id ∈ S)) by done. cbn [negb]. rewrite andb_false_r, orb_false_r.
    destruct (Z.ltb_spec m id); [lia|done].
  - destruct (spec_accept top S id0); simpl.
    + apply (IH _ _ id); [by apply capped_add|set_solver|done].
    + by apply (IH _ _ id).
Qed.

Lemma spec_run_once ids : ∀ top S i j id, capped top S →
  (i < j)%nat → ids !! i = Some id → ids !! j = Some id → spec_run top S ids !! i = Some true →
  spec_run top S ids !! j = Some false.
Proof.
  induction ids as [|id0 ids IH]; [done|]. intros top S i j id Hc Hlt Hi Hj.
  destruct j as [|j]; [lia|]. cbn [spec_run]. simpl in Hj. destruct i as [|i]; simpl in Hi.
  - injection Hi as ->. destruct (spec_accept top S id); [|done]. intros _. simpl.
    apply (spec_run_refuses _ _ _ id); [by apply capped_add|set_solver|done].
  - destruct (spec_accept top S id0); simpl; intros Ht.
    + by apply (IH _ _ i j id); [apply capped_add|lia|..].
    + by apply (IH _ _ i j id); [|lia|..].
Qed.

(** C12: the window of bits is the set it stands for.  On every sequence of call
    numbers short of the very last 64-bit one, the guard always answers, and its
    answers are those of the abstract guard: a number above all accepted ones is
    accepted, one that lags by 1024 or more is refused, and in between it is
    accepted exactly when it was not accepted before. *)
Theorem replay_window_refines (ids : list Z) :
  Forall usable ids → guard_run new_guard ids = Some (spec_run None ∅ ids).
Proof. intros H. by apply guard_run_refines; [|apply shows_new]. Qed.

Lemma replay_window_refines_witness :
  guard_run new_guard [7; 3; 2000; 3; 990; 990] = Some [true; true; true; false; true; false].
Proof.
  rewrite (replay_window_refines [7; 3; 2000; 3; 990; 990]) by (unfold usable; repeat constructor; lia).
  vm_compute. reflexivity.
Defined.


(** The loop that counts up to the greatest 64-bit number never ends: every value
    of the counter is at most that number. *)
Lemma clear_from_diverges fuel : ∀ v g, 0 ≤ v < 2 ^ 64 → clear_from fuel v (2 ^ 64 - 1) g = None.
Proof.
  induction fuel as [|fuel IH]; intros v g Hv; cbn [clear_from];
    (destruct (Z.ltb_spec (2 ^ 64 - 1) v); [lia|]); [done|]. apply IH, wrap_range. lia.
Qed.

(** The greatest 64-bit number is the exception: when it arrives while the
    window is less than 1024 behind it, the loop that clears the bits in between
    does not end, since its counter wraps around below its bound; no amount of
    steps is enough. *)
Theorem replay_last_number_hangs (g : replayGuard) :
  started g = true → 2 ^ 64 - 1 - 1024 < highest g < 2 ^ 64 - 1 →
  ∀ fuel, accept fuel (2 ^ 64 - 1) g = None.
Proof.
  intros Hs Hh fuel. unfold accept, replayWindowBits. rewrite Hs. cbn [negb].
  destruct (Z.ltb_spec (highest g) (2 ^ 64 - 1)); [|lia].
  destruct (Z.leb_spec 1024 (2 ^ 64 - 1 - highest g)); [lia|].
  rewrite clear_from_diverges; [done|]. apply wrap_range. lia.
Qed.

Lemma replay_last_number_hangs_witness :
  match accept 0 (2 ^ 64 - 2) new_guard with
  | Some (ok, g) => ok = true ∧ accept 100000 (2 ^ 64 - 1) g = None
  | None => False
  end.
Proof.
  destruct (accept 0 (2 ^ 64 - 2) new_guard) as [[ok g]|] eqn:E; [|by vm_compute in E].
  vm_compute in E. injection E as <- <-. split; [reflexivity|].
  apply replay_last_number_hangs; [reflexivity|]. cbn [highest]. lia.
Defined.

End abstract.
