(* ===== verification/AgentDaemon.v ===== *)
(** * The tool daemon of the share ([internal/agent/agent.go])

    Requests queue up, are authenticated and checked for replay, run a tool, and are
    answered under the session they were read with.  Each goroutine appears as an
    event: a message put into the queue, the loop taking one out, a tool producing
    output, a tool ending or running out of time, a change of connection or session.

    A message comes decoded.  The log, the activity and the transfer hooks, and the
    summaries they print, are left out.  [None] means that the event is not enabled
    or, for a request, that the replay guard does not answer. *)

From S2P Require Import Prelude GoNet GoText ProtoAad ProtoHandshake ProtoSession ProtoAead AgentReplay.

Open Scope Z_scope.

Definition Millisecond : Z := 1000000.

(** ** Messages *)

Record ToolReq := mkReq { q_ID : Z; q_Tool : gostring; q_Args : Raw; q_DeadlineMs : Z }.
Record ToolResp := mkResp { p_ID : Z; p_OK : bool; p_Result : Raw; p_ErrorCode : gostring; p_ErrorMsg : gostring }.
Record StreamChunk := mkChunk { k_ID : Z; k_Seq : Z; k_Fin : bool; k_Stream : gostring; k_Data : list Z }.

Inductive InMsg :=
| MsgToolReq (req : ToolReq)
| MsgToolCancel (id : Z)
| MsgOtherTool.

Inductive OutMsg :=
| MsgToolResp (resp : ToolResp)
| MsgToolStream (c : StreamChunk).

(** The bytes of a raw value. *)
Definition raw_bytes (r : Raw) : list Z :=
  match r with
  | RawAbsent => []
  | RawNull => lit "null"
  | RawString s => [34] ++ s ++ [34]
  | RawOther b => b
  end.

(** ** The registry *)

Definition classifyError (s : gostring) : gostring :=
  if contains (lit "path_outside_root") s then lit "path_outside_root"
  else if contains (lit "exec_denied") s then lit "exec_denied"
  else if contains (lit "deadline_exceeded") s || contains (lit "context deadline exceeded") s then lit "deadline_exceeded"
  else if contains (lit "permission denied") s then lit "permission_denied"
  else if contains (lit "no such file") s || contains (lit "file does not exist") s then lit "file_not_found"
  else lit "internal_error".

(** [out] is what the registered tool returned; [quoted] is [strconv.Quote]. *)
Definition Dispatch (quoted : gostring → gostring) (tools : gset gostring) (id : Z) (tool : gostring)
  (out : result gostring Raw) : ToolResp :=
  if bool_decide (tool ∉ tools)
  then mkResp id false RawAbsent (lit "unknown_tool") (lit "tool " ++ quoted tool ++ lit " not registered")
  else match out with
       | Err msg => mkResp id false RawAbsent (classifyError msg) msg
       | Ok result => mkResp id true result [] []
       end.

Definition defaultToolTimeout (tool : gostring) : Z :=
  if bool_decide (tool ∈ [lit "stat"; lit "list_dir"; lit "process_list"; lit "tail_log"; lit "glob"])
  then 30 * Second else 5 * Minute.

Definition timeout_of (req : ToolReq) : Z :=
  let t := q_DeadlineMs req * Millisecond in if t <=? 0 then defaultToolTimeout (q_Tool req) else t.

(** [isBlankArgs]. *)
Definition isBlankArgs (raw : Raw) : bool :=
  match raw with RawAbsent | RawNull => true | _ => false end.

(** ** State *)

(** [chunkSink]. *)
Record chunkSink := mkSink { sk_id : Z; sk_seq : Z; sk_active : bool; sk_finished : bool }.
#[export] Instance chunkSink_eta : Eta chunkSink := fun s => mkSink (sk_id s) (sk_seq s) (sk_active s) (sk_finished s).

(** A request in flight: its session is the one it was read with; [r_args] are the
    arguments the tool gets. *)
Record Run := mkRun {
  r_id : Z;
  r_tool : gostring;
  r_args : Raw;
  r_sess : Session;
  r_timeout : Z;
  r_cancelled : bool;
  r_sink : chunkSink;
}.
#[export] Instance Run_eta : Eta Run := fun r =>
  mkRun (r_id r) (r_tool r) (r_args r) (r_sess r) (r_timeout r) (r_cancelled r) (r_sink r).

(** [d_conn] names the outbound connection; [d_runs] holds the requests in flight,
    [d_cancels] the one a cancel for an id reaches. *)
Record Daemon := mkDaemon {
  d_tools : gset gostring;
  d_conn : positive;
  d_sess : Session;
  d_inbound : list InMsg;
  d_replay : replayGuard;
  d_cancels : gmap Z positive;
  d_runs : gmap positive Run;
}.
#[export] Instance Daemon_eta : Eta Daemon := fun d =>
  mkDaemon (d_tools d) (d_conn d) (d_sess d) (d_inbound d) (d_replay d) (d_cancels d) (d_runs d).

Definition NewDaemon (tools : gset gostring) (conn : positive) (sess : Session) : Daemon :=
  mkDaemon tools conn sess [] new_guard ∅ ∅.

Definition inbound_capacity : nat := 64.

Inductive Out :=
| Sent (conn : positive) (m : OutMsg)
| Started (id : Z) (tool : gostring) (args : Raw) (deadlineMs : Z).

(** How a tool ended. *)
Inductive Outcome :=
| ToolReturned (out : result gostring Raw)
| ToolPanicked
| ContextDone.

Section daemon.
Context `{Aead}.

(** The texts of the library's errors, of a duration and of a quoted string. *)
Context (aead_error_text : AeadError → gostring) (duration_string : Z → gostring) (quoted : gostring → gostring).

(** ** Answering *)

(** [sendResp]: what goes out for [resp] under [sess]; [nonce] is [None] when the
    random source fails. *)
Definition seal_resp (sess : Session) (nonce : option (list Z)) (resp : ToolResp) : ToolResp :=
  if negb (Active sess) then resp else
  let empty := bool_decide (raw_bytes (p_Result resp) = []) in
  if empty && negb (RequireSealedResp sess) then resp else
  let plain := if empty then lit "{}" else raw_bytes (p_Result resp) in
  let sealed := match nonce with
                | Some nonce => AEADSealJSON (ss_Key sess) nonce plain
                    (RespAAD sess (p_ID resp) (p_OK resp) (p_ErrorCode resp) (p_ErrorMsg resp))
                | None => RawAbsent
                end in
  mkResp (p_ID resp) (p_OK resp) sealed (p_ErrorCode resp) (p_ErrorMsg resp).

Definition sendResp (d : Daemon) (sess : Session) (nonce : option (list Z)) (resp : ToolResp) : list Out :=
  [Sent (d_conn d) (MsgToolResp (seal_resp sess nonce resp))].

Definition failure (id : Z) (code msg : gostring) : ToolResp := mkResp id false RawAbsent code msg.

(** ** Admission of a request *)

Inductive Admission :=
| Refused (code msg : gostring)
| Let_in (args : Raw).

(** The checks of [handleReq], in order: sealed arguments, authentication, replay. *)
Definition admit_req (sess : Session) (guard : replayGuard) (req : ToolReq) : option (Admission * replayGuard) :=
  if negb (Active sess) then Some (Let_in (q_Args req), guard)
  else if isBlankArgs (q_Args req) then Some (Refused (lit "unauthenticated") (lit "args must be AEAD-sealed after handshake"), guard)
  else match AEADOpenJSON (ss_Key sess) (q_Args req) (ReqAAD sess (q_ID req) (q_Tool req) (q_DeadlineMs req)) with
       | Err e => Some (Refused (lit "decrypt_failed") (aead_error_text e), guard)
       | Ok plain =>
           if negb (AntiReplay sess) then Some (Let_in (RawOther plain), guard)
           else '(fresh, guard) ← accept 1024 (q_ID req) guard;
                Some (if fresh : bool then Let_in (RawOther plain)
                      else Refused (lit "replayed") (lit "duplicate or out-of-window request id"), guard)
       end.

(** [requestWantsStream] looks at the decoded arguments. *)
Context (requestWantsStream : Raw → bool).

(** [handleReq] until the tool starts; [p] is the new goroutine. *)
Definition handleReq (p : positive) (nonce : option (list Z)) (req : ToolReq) (d : Daemon) : option (Daemon * list Out) :=
  let sess := d_sess d in
  '(adm, guard) ← admit_req sess (d_replay d) req;
  let d := d <| d_replay := guard |> in
  match adm with
  | Refused code msg => Some (d, sendResp d sess nonce (failure (q_ID req) code msg))
  | Let_in args =>
      let run := mkRun (q_ID req) (q_Tool req) args sess (timeout_of req) false
                   (mkSink (q_ID req) 0 (requestWantsStream args) false) in
      Some (d <| d_cancels := <[q_ID req := p]> (d_cancels d) |> <| d_runs := <[p := run]> (d_runs d) |>,
            [Started (q_ID req) (q_Tool req) args (q_DeadlineMs req)])
  end.

(** ** Streaming *)

(** A frame, sealed under the current session. *)
Definition seal_chunk (sess : Session) (nonce : list Z) (c : StreamChunk) : StreamChunk :=
  if Active sess
  then mkChunk (k_ID c) (k_Seq c) (k_Fin c) (k_Stream c)
         (AEADSeal (ss_Key sess) nonce (k_Data c) (StreamAAD sess (k_ID c) (k_Seq c) (k_Stream c) (k_Fin c)))
  else c.

(** [chunkSink.Send]: the frame to send, if any. *)
Definition sink_send (sess : Session) (nonce : list Z) (stream : gostring) (data : list Z) (s : chunkSink)
  : option StreamChunk * chunkSink :=
  if sk_finished s then (None, s)
  else (Some (seal_chunk sess nonce (mkChunk (sk_id s) (sk_seq s) false stream data)),
        s <| sk_active := true |> <| sk_seq := wrap 32 (sk_seq s + 1) |>).

(** [chunkSink.Finish]. *)
Definition sink_finish (sess : Session) (nonce : list Z) (s : chunkSink) : option StreamChunk * chunkSink :=
  if negb (sk_active s) || sk_finished s then (None, s)
  else (Some (seal_chunk sess nonce (mkChunk (sk_id s) (sk_seq s) true [] [])),
        s <| sk_finished := true |> <| sk_seq := wrap 32 (sk_seq s + 1) |>).

Definition chunk_out (d : Daemon) (c : option StreamChunk) : list Out :=
  match c with Some c => [Sent (d_conn d) (MsgToolStream c)] | None => [] end.

(** ** The end of a request *)

(** The answer of [handleReq]. *)
Definition outcome_resp (d : Daemon) (r : Run) (o : Outcome) : ToolResp :=
  match o with
  | ToolReturned out => Dispatch quoted (d_tools d) (r_id r) (r_tool r) out
  | ToolPanicked => failure (r_id r) (lit "remote_panic") (lit "tool panic")
  | ContextDone =>
      let code := if r_cancelled r then lit "cancelled" else lit "deadline_exceeded" in
      failure (r_id r) code (lit "tool " ++ r_tool r ++ lit ": " ++ code ++ lit " (limit "
        ++ duration_string (r_timeout r) ++ lit ")")
  end.

(** The terminator of the stream first, then the response. *)
Definition finish_req (p : positive) (o : Outcome) (nonce1 : list Z) (nonce2 : option (list Z)) (d : Daemon)
  : option (Daemon * list Out) :=
  r ← d_runs d !! p;
  let (c, _) := sink_finish (d_sess d) nonce1 (r_sink r) in
  Some (d <| d_runs := delete p (d_runs d) |> <| d_cancels := delete (r_id r) (d_cancels d) |>,
        chunk_out d c ++ sendResp d (r_sess r) nonce2 (outcome_resp d r o)).

(** ** The queue, sessions and connections *)

Definition cancel_run (p : positive) (d : Daemon) : Daemon :=
  d <| d_runs := alter (fun r => r <| r_cancelled := true |>) p (d_runs d) |>.

Definition RotateSession (sess : Session) (d : Daemon) : Daemon :=
  if bool_decide (d_sess d = sess) then d
  else let d := d <| d_sess := sess |> <| d_replay := reset (d_replay d) |> in
       foldr cancel_run d (map snd (map_to_list (d_cancels d))).

Definition SwapConn (conn : positive) (sess : Session) (d : Daemon) : Daemon :=
  RotateSession sess (d <| d_conn := conn |>).

(** [Inject]: a request that finds the queue full is answered at once. *)
Definition Inject (nonce : option (list Z)) (m : InMsg) (d : Daemon) : Daemon * list Out :=
  if (length (d_inbound d) <? inbound_capacity)%nat then (d <| d_inbound := d_inbound d ++ [m] |>, [])
  else match m with
       | MsgToolReq req => (d, sendResp d (d_sess d) nonce (failure (q_ID req) (lit "server_busy") (lit "daemon inbound full")))
       | _ => (d, [])
       end.

(** One round of [RunLoop]. *)
Definition RunLoop (p : positive) (nonce : option (list Z)) (d : Daemon) : option (Daemon * list Out) :=
  match d_inbound d with
  | [] => None
  | m :: rest =>
      let d := d <| d_inbound := rest |> in
      match m with
      | MsgToolReq req => handleReq p nonce req d
      | MsgToolCancel id => Some (match d_cancels d !! id with Some p => cancel_run p d | None => d end, [])
      | MsgOtherTool => Some (d, [])
      end
  end.

Inductive Event :=
| Injected (nonce : option (list Z)) (m : InMsg)
| Looped (p : positive) (nonce : option (list Z))
| Chunk (p : positive) (nonce : list Z) (stream : gostring) (data : list Z)
| Finished (p : positive) (o : Outcome) (nonce1 : list Z) (nonce2 : option (list Z))
| Swapped (conn : positive) (sess : Session).

Definition daemon_step (e : Event) (d : Daemon) : option (Daemon * list Out) :=
  match e with
  | Injected nonce m => Some (Inject nonce m d)
  | Looped p nonce => if bool_decide (is_Some (d_runs d !! p)) then None else RunLoop p nonce d
  | Chunk p nonce stream data =>
      r ← d_runs d !! p;
      let (c, s) := sink_send (d_sess d) nonce stream data (r_sink r) in
      Some (d <| d_runs := <[p := r <| r_sink := s |>]> (d_runs d) |>, chunk_out d c)
  | Finished p o n1 n2 => finish_req p o n1 n2 d
  | Swapped conn sess => Some (SwapConn conn sess d, [])
  end.

Fixpoint daemon_run (es : list Event) (d : Daemon) : option (Daemon * list Out) :=
  match es with
  | [] => Some (d, [])
  | e :: es =>
      '(d, out1) ← daemon_step e d;
      '(d, out2) ← daemon_run es d;
      Some (d, out1 ++ out2)
  end.
End daemon.
