(* ===== verification/AgentDaemonThms.v ===== *)
(** * What the tool daemon guarantees

    Nothing runs that the holder of the key did not ask for, nothing runs twice,
    and every answer is authenticated. *)

From S2P Require Import Prelude GoNet GoText GoBase64 ProtoAad ProtoHandshake ProtoSession ProtoAead AgentReplay AgentDaemon.

Open Scope Z_scope.

Section daemon.
Context `{Aead}.
Context (aead_error_text : AeadError → gostring) (duration_string : Z → gostring) (quoted : gostring → gostring)
  (requestWantsStream : Raw → bool).

Notation step := (daemon_step aead_error_text duration_string quoted requestWantsStream).
Notation drun := (daemon_run aead_error_text duration_string quoted requestWantsStream).

(** The calls that were started. *)
Definition started_ids (out : list Out) : list Z :=
  omap (fun o => match o with Started id _ _ _ => Some id | _ => None end) out.

(** [log] lists the frames the holders of the key of [s] sealed, with their
    contents.  What [req] carries was not forged: under whatever additional data it
    opens, it was sealed for a frame of the log with that additional data. *)
Definition unforged (s : Session) (log : list (frame * list Z)) (req : ToolReq) : Prop :=
  ∀ aad plain, AEADOpenJSON (ss_Key s) (q_Args req) aad = Ok plain →
  ∃ f, (f, plain) ∈ log ∧ frame_ok f ∧ aad = frame_aad f.

(** The fields of a decoded request have the widths of their types. *)
Definition req_ok (req : ToolReq) : Prop := usable (q_ID req) ∧ short (q_Tool req) ∧ uint 32 (q_DeadlineMs req).

Definition event_ok (s : Session) (log : list (frame * list Z)) (e : Event) : Prop :=
  match e with
  | Injected _ (MsgToolReq req) => req_ok req ∧ unforged s log req
  | Swapped _ sess => sess = s
  | _ => True
  end.

(** Asked for by the holder of the key. *)
Definition asked (log : list (frame * list Z)) (o : Out) : Prop :=
  match o with
  | Started id tool args dl => ∃ plain, args = RawOther plain ∧ (ReqFrame id tool dl, plain) ∈ log
  | _ => True
  end.

(** The state between events: the guard shows the ids that were started. *)
Record guarded (s : Session) (log : list (frame * list Z)) (d : Daemon) (ids : list Z) : Prop := {
  gd_sess : d_sess d = s;
  gd_queue : Forall (fun m => match m with MsgToolReq req => req_ok req ∧ unforged s log req | _ => True end) (d_inbound d);
  gd_shows : ∃ top S, shows (d_replay d) top S ∧ capped top S ∧ ∀ id, id ∈ ids → id ∈ S;
  gd_once : NoDup ids;
}.

Lemma guarded_frame s log d d' ids :
  d_sess d' = d_sess d → d_inbound d' = d_inbound d → d_replay d' = d_replay d →
  guarded s log d ids → guarded s log d' ids.
Proof. intros E1 E2 E3 [? ? ? ?]. constructor; by rewrite ?E1, ?E2, ?E3. Qed.

Lemma accept_guarded g top S id fresh g' :
  shows g top S → capped top S → usable id → accept 1024 id g = Some (fresh, g') →
  ∃ top' S', shows g' top' S' ∧ capped top' S' ∧ S ⊆ S' ∧ (fresh = true → id ∈ S' ∧ id ∉ S).
Proof.
  intros Hg Hc Hid E. destruct (accept_refines g top S id Hg Hid) as (g2 & E2 & Hg2).
  rewrite E in E2. injection E2 as -> <-. destruct (spec_accept top S id) eqn:Ha.
  - exists (spec_top top id), ({[id]} ∪ S). split; [done|]. split; [by apply capped_add|].
    split; [set_solver|]. intros _. split; [apply in_added|]. intros Hin.
    unfold spec_accept in Ha. destruct (Hc id Hin) as (m & -> & Hm). rewrite bool_decide_true in Ha by done.
    cbn [negb] in Ha. rewrite andb_false_r, orb_false_r in Ha. apply Z.ltb_lt in Ha. lia.
  - exists top, S. by split_and!.
Qed.

(** The admission of one request. *)
Lemma admit_guarded s log g ids req adm g' :
  Active s = true → Legacy s = false → req_ok req → unforged s log req → NoDup ids →
  (∃ top S, shows g top S ∧ capped top S ∧ ∀ id, id ∈ ids → id ∈ S) →
  admit_req aead_error_text s g req = Some (adm, g') →
  (∃ code msg, adm = Refused code msg ∧ ∃ top S, shows g' top S ∧ capped top S ∧ ∀ id, id ∈ ids → id ∈ S)
  ∨ (∃ plain, adm = Let_in (RawOther plain) ∧ (ReqFrame (q_ID req) (q_Tool req) (q_DeadlineMs req), plain) ∈ log
     ∧ NoDup (q_ID req :: ids)
     ∧ ∃ top S, shows g' top S ∧ capped top S ∧ ∀ id, id ∈ q_ID req :: ids → id ∈ S).
Proof.
  intros HA HL (Hid & Htool & Hdl) Hun Hnd (top & S & Hg & Hc & HS). unfold admit_req. rewrite HA. cbn [negb].
  destruct (isBlankArgs _); [intros [= <- <-]; left; eauto 10|].
  destruct (AEADOpenJSON _ _ _) as [plain|e] eqn:Eo; [|intros [= <- <-]; left; eauto 10].
  unfold AntiReplay. rewrite HL. cbn [negb]. intros ([fresh g2] & Ea & E)%bind_Some. injection E as <- <-.
  destruct (accept_guarded g top S _ fresh g2 Hg Hc Hid Ea) as (top' & S' & Hg' & Hc' & Hsub & Hfresh).
  destruct fresh.
  2:{ left. do 2 eexists. split; [done|]. exists top', S'. split; [done|]. split; [done|]. set_solver. }
  right. exists plain. split; [done|]. destruct (Hfresh eq_refl) as [Hin Hnin].
  destruct (Hun _ _ Eo) as (f & Hf & Hok & Eaad). split; [|split].
  - unfold ReqAAD in Eaad. rewrite HL in Eaad.
    assert (ReqFrame (q_ID req) (q_Tool req) (q_DeadlineMs req) = f) as ->; [|done].
    apply frame_aad_inj; [|done|exact Eaad]. split; [|done]. unfold usable in Hid. unfold uint. lia.
  - constructor; [|done]. intros Hx. by apply Hnin, HS.
  - exists top', S'. split; [done|]. split; [done|]. set_solver.
Qed.

Lemma handleReq_guarded s log d ids req p nonce d' out :
  Active s = true → Legacy s = false → req_ok req → unforged s log req → guarded s log d ids →
  handleReq aead_error_text requestWantsStream p nonce req d = Some (d', out) →
  guarded s log d' (reverse (started_ids out) ++ ids) ∧ Forall (asked log) out.
Proof.
  intros HA HL Hreq Hun [Es Eq Hg Hnd]. unfold handleReq. rewrite Es.
  intros ([adm g'] & Ea & E)%bind_Some.
  destruct (admit_guarded s log _ ids req adm g' HA HL Hreq Hun Hnd Hg Ea)
    as [(code & msg & -> & Hg')|(plain & -> & Hlog & Hnd' & Hg')]; injection E as <- <-.
  - split; [by constructor|]. by repeat constructor.
  - split; [by constructor|]. repeat constructor. simpl. eauto.
Qed.

Lemma cancel_frame p d :
  d_sess (cancel_run p d) = d_sess d ∧ d_inbound (cancel_run p d) = d_inbound d ∧ d_replay (cancel_run p d) = d_replay d.
Proof. done. Qed.

Lemma silent_started d c resp sess nonce :
  started_ids (chunk_out d c ++ sendResp d sess nonce resp) = [] ∧ ∀ log, Forall (asked log) (chunk_out d c ++ sendResp d sess nonce resp).
Proof. destruct c; (split; [done|intros log; by repeat constructor]). Qed.

Lemma step_guarded s log e d ids d' out :
  Active s = true → Legacy s = false → event_ok s log e → guarded s log d ids →
  step e d = Some (d', out) →
  guarded s log d' (reverse (started_ids out) ++ ids) ∧ Forall (asked log) out.
Proof.
  intros HA HL He G. pose proof G as [Es Eq Hg Hnd].
  destruct e as [nonce m|p nonce|p nonce stream data|p o n1 n2|conn sess]; cbn [daemon_step].
  - unfold Inject. destruct (_ <? _)%nat.
    + intros [= <- <-]. split; [|constructor]. constructor; [done| |done|done]. simpl.
      apply Forall_app. split; [done|]. constructor; [|constructor]. by destruct m.
    + destruct m; intros [= <- <-]; (split; [done|by repeat constructor]).
  - destruct (bool_decide _); [done|]. unfold RunLoop. destruct (d_inbound d) as [|m rest] eqn:Ei; [done|].
    apply Forall_cons in Eq as [Hm Hrest].
    assert (guarded s log (d <| d_inbound := rest |>) ids) as G1 by by constructor.
    destruct m as [req|id|].
    + destruct Hm as [Hreq Hun]. by apply handleReq_guarded.
    + intros [= <- <-]. split; [|constructor]. destruct (d_cancels _ !! id); [|done]. by eapply guarded_frame; [..|exact G1].
    + intros [= <- <-]. by split; [|constructor].
  - intros (r & Er & E)%bind_Some. destruct (sink_send _ _ _ _ _) as [c sk]. injection E as <- <-.
    assert (started_ids (chunk_out d c) = [] ∧ Forall (asked log) (chunk_out d c)) as [-> Hc]
      by by destruct c; (split; [|repeat constructor]).
    split; [|done]. by eapply guarded_frame; [..|exact G].
  - unfold finish_req. intros (r & Er & E)%bind_Some. destruct (sink_finish _ _ _) as [c sk]. injection E as <- <-.
    match goal with |- context [chunk_out ?d ?c ++ sendResp ?d ?s ?n ?r] => destruct (silent_started d c r s n) as [-> Ha] end.
    split; [|apply Ha]. by eapply guarded_frame; [..|exact G].
  - simpl in He. subst sess. intros [= <- <-]. split; [|constructor]. unfold SwapConn, RotateSession.
    rewrite bool_decide_true by done. by eapply guarded_frame; [..|exact G].
Qed.

Lemma run_guarded s log es : ∀ d ids d' out,
  Active s = true → Legacy s = false → Forall (event_ok s log) es → guarded s log d ids →
  drun es d = Some (d', out) →
  guarded s log d' (reverse (started_ids out) ++ ids) ∧ Forall (asked log) out.
Proof.
  induction es as [|e es IH]; intros d ids d' out HA HL Hes G; cbn [daemon_run].
  { intros [= <- <-]. by split. }
  apply Forall_cons in Hes as [He Hes]. intros ([d1 o1] & E1 & E)%bind_Some.
  apply bind_Some in E as ([d2 o2] & E2 & E). injection E as <- <-.
  destruct (step_guarded s log e d ids d1 o1 HA HL He G E1) as [G1 A1].
  destruct (IH d1 _ d2 o2 HA HL Hes G1 E2) as [G2 A2]. split; [|by apply Forall_app].
  unfold started_ids in *. rewrite omap_app, reverse_app, <- (assoc_L (++)). done.
Qed.

(** C10: nothing runs that was not asked for, and nothing runs twice.  On a version 2
    session, whatever messages arrive in whatever order, repeated, redirected to
    another tool, stripped or made up: as long as what they carry was not forged,
    every call the daemon starts was sealed by a holder of the key for exactly that
    id, tool, deadline and those arguments, and no id is ever started twice.  Hot
    switches of the connection under the same session do not change that. *)
Theorem calls_authentic_and_once (s : Session) (log : list (frame * list Z)) (tools : gset gostring)
  (conn : positive) (es : list Event) (d : Daemon) (out : list Out) :
  Active s = true → Legacy s = false → Forall (event_ok s log) es →
  drun es (NewDaemon tools conn s) = Some (d, out) →
  (∀ id tool args dl, Started id tool args dl ∈ out →
     ∃ plain, args = RawOther plain ∧ (ReqFrame id tool dl, plain) ∈ log)
  ∧ NoDup (started_ids out).
Proof.
  intros HA HL Hes Hrun. destruct (run_guarded s log es (NewDaemon tools conn s) [] d out HA HL Hes) as [G A]; [|done|].
  - constructor; [done|constructor| |constructor]. exists None, ∅. split; [apply shows_new|].
    split; [by intros ? ?%elem_of_empty|by intros ? ?%elem_of_nil].
  - split.
    + rewrite Forall_forall in A. intros id tool args dl Hin. exact (A _ Hin).
    + destruct G as [_ _ _ Hnd]. by rewrite app_nil_r, reverse_Permutation in Hnd.
Qed.
End daemon.

(** ** A demo session *)

Module DemoDaemon.
Definition key : Key := replicate 32 7.
Definition nonce : list Z := replicate 24 9.
Definition sess : Session := mkSession key "2".
Definition tools : gset gostring := {[lit "read_file"; lit "exec"]}.
Definition args : list Z := lit "{}".
Definition call : frame := ReqFrame 1 (lit "read_file") 0.
Definition sealed : Raw := AEADSealJSON key nonce args (frame_aad call).
Definition req : ToolReq := mkReq 1 (lit "read_file") sealed 0.
(** The same text under another name. *)
Definition redirected : ToolReq := mkReq 2 (lit "exec") sealed 0.
Definition log : list (frame * list Z) := [(call, args)].
Definition deliver (r : ToolReq) (p : positive) : list Event := [Injected (Some nonce) (MsgToolReq r); Looped p (Some nonce)].
Definition events : list Event := deliver req 1 ++ deliver redirected 2 ++ deliver req 3.
Definition run : option (Daemon * list Out) :=
  daemon_run (fun _ => []) (fun _ => []) (fun s => s) (fun _ => false) events (NewDaemon tools 1 sess).

Lemma sealed_unforged id tool dl : unforged sess log (mkReq id tool sealed dl).
Proof.
  intros aad plain E. exists call.
  assert (seal_ok key nonce args (frame_aad call)) as Hok by (constructor; [reflexivity|by_compute..]).
  destruct (toy_open_only key nonce args (frame_aad call) aad plain Hok E) as [-> ->]. clear E.
  split; [left|]. split; [|done]. by vm_compute.
Qed.

Lemma active : Active sess = true.
Proof. by vm_compute. Qed.
Lemma current : Legacy sess = false.
Proof. by vm_compute. Qed.

Lemma events_ok : Forall (event_ok sess log) events.
Proof.
  assert (req_ok req ∧ req_ok redirected) as [H1 H2] by (unfold req_ok, usable, short, uint; by vm_compute).
  unfold events, deliver.
  repeat (apply Forall_cons; split; [first [exact I|(split; [first [exact H1|exact H2]|apply sealed_unforged])]|]).
  by apply Forall_nil.
Qed.
End DemoDaemon.

Lemma calls_authentic_and_once_witness :
  match DemoDaemon.run with
  | Some (_, out) => started_ids out = [1] ∧ NoDup (started_ids out)
  | None => False
  end.
Proof.
  destruct DemoDaemon.run as [[d out]|] eqn:E; [|by vm_compute in E].
  split.
  - assert ((fun p => started_ids p.2) <$> DemoDaemon.run = Some [1]) as H by (vm_compute; reflexivity).
    exact (fmap_value _ _ _ _ E H).
  - apply (calls_authentic_and_once (fun _ => []) (fun _ => []) (fun s => s) (fun _ => false)
      DemoDaemon.sess DemoDaemon.log DemoDaemon.tools 1 DemoDaemon.events d out); [exact DemoDaemon.active|exact DemoDaemon.current|exact DemoDaemon.events_ok|exact E].
Defined.
