(* ===== verification/P2pStun.v ===== *)
(** * STUN messages ([internal/p2p/stun.go] and the binding responder of [stun_server.go])

    Messages with their attributes, to bytes and back, and the mapped address of a
    binding.  A read beyond the end of a slice is a panic. *)

From S2P Require Import Prelude GoNet GoText GoBinary.

Open Scope Z_scope.

Definition STUNBindingRequest : Z := 1.
Definition STUNBindingResponse : Z := 257.
Definition STUNAttrMappedAddress : Z := 1.
Definition STUNAttrXorMappedAddr : Z := 32.
Definition STUNAttrSoftware : Z := 32802.
Definition stunMagicCookie : Z := 554869826.
Definition stunHeaderSize : nat := 20.

Record STUNAttribute := mkAttr { at_Type : Z; at_Length : Z; at_Value : list Z }.
Record STUNMessage := mkStun { st_Type : Z; st_Length : Z; st_Magic : Z; st_TID : list Z; st_Attrs : list STUNAttribute }.
Record MappedAddress := mkMapped { ma_Family : Z; ma_Port : Z; ma_IP : list Z }.

(** [tid] is what the random source yields. *)
Definition NewBindingRequest (tid : list Z) : STUNMessage := mkStun STUNBindingRequest 0 stunMagicCookie tid [].

(** ** Packing *)

(** Up to the next multiple of four. *)
Definition stun_pad (len : Z) : nat := Z.to_nat ((4 - len mod 4) mod 4).

(** [copy] into a zeroed field. *)
Definition fixed (n : nat) (l : list Z) : list Z := take n (l ++ replicate n 0).

Definition pack_attr (a : STUNAttribute) : list Z :=
  PutUint16 (at_Type a) ++ PutUint16 (at_Length a) ++ fixed (Z.to_nat (at_Length a)) (at_Value a)
  ++ replicate (stun_pad (at_Length a)) 0.

Definition Pack (m : STUNMessage) : list Z :=
  let body := flat_map pack_attr (st_Attrs m) in
  PutUint16 (st_Type m) ++ PutUint16 (wrap 16 (Z.of_nat (length body))) ++ PutUint32 (st_Magic m)
  ++ fixed 12 (st_TID m) ++ body.

(** ** Unpacking *)

(** The loop over the attributes, on the bytes up to [expectedLen]; each round takes
    at least four. *)
Fixpoint unpack_attrs (fuel : nat) (body : list Z) : list STUNAttribute :=
  match fuel with
  | O => []
  | S fuel =>
      if (length body <? 4)%nat then [] else
      let attrType := be_value (take 2 body) in
      let attrLen := be_value (take 2 (drop 2 body)) in
      let n := Z.to_nat attrLen in
      if (length body <? 4 + n)%nat then []
      else mkAttr attrType attrLen (take n (drop 4 body))
             :: unpack_attrs fuel (drop (4 + n + stun_pad attrLen) body)
  end.

Definition UnpackSTUN (data : list Z) : option STUNMessage :=
  if (length data <? stunHeaderSize)%nat then None else
  let len := be_value (take 2 (drop 2 data)) in
  let magic := be_value (take 4 (drop 4 data)) in
  if negb (magic =? stunMagicCookie) then None
  else if (length data <? stunHeaderSize + Z.to_nat len)%nat then None
  else
    let body := take (Z.to_nat len) (drop stunHeaderSize data) in
    Some (mkStun (be_value (take 2 data)) len magic (take 12 (drop 8 data)) (unpack_attrs (length body) body)).

(** ** The mapped address *)

(** The magic cookie and the transaction id, the key of the exclusive or. *)
Definition xor_key (magic : Z) (tid : list Z) : list Z := PutUint32 magic ++ tid.
Definition xor_bytes (a key : list Z) : list Z := zip_with Z.lxor a key.

Inductive AddrResult :=
| Addr (a : MappedAddress)
| AddrError
| AddrPanic.

Definition parseMappedAddress (data : list Z) (magic : Z) (tid : list Z) (xor : bool) : AddrResult :=
  if (length data <? 8)%nat then AddrError else
  let family := be_value (take 2 data) in
  let port := be_value (take 2 (drop 2 data)) in
  let port := if xor then Z.lxor port (Z.shiftr magic 16) else port in
  if family =? 1 then
    let ip := be_value (take 4 (drop 4 data)) in
    let ip := if xor then Z.lxor ip magic else ip in
    Addr (mkMapped family port (PutUint32 ip))
  else if family =? 2 then
    match slice 4 20 data with
    | None => AddrPanic
    | Some ip => Addr (mkMapped family port (if xor then xor_bytes ip (xor_key magic tid) else ip))
    end
  else Addr (mkMapped family port []).

Fixpoint mapped_in (attrs : list STUNAttribute) (magic : Z) (tid : list Z) : AddrResult :=
  match attrs with
  | [] => AddrError
  | a :: attrs =>
      if (at_Type a =? STUNAttrXorMappedAddr) || (at_Type a =? STUNAttrMappedAddress)
      then parseMappedAddress (at_Value a) magic tid (at_Type a =? STUNAttrXorMappedAddr)
      else mapped_in attrs magic tid
  end.

Definition GetMappedAddress (m : STUNMessage) : AddrResult := mapped_in (st_Attrs m) (st_Magic m) (st_TID m).

(** ** The responder *)

Definition add_attr (ty : Z) (value : list Z) (m : STUNMessage) : STUNMessage :=
  mkStun (st_Type m) (st_Length m) (st_Magic m) (st_TID m)
    (st_Attrs m ++ [mkAttr ty (wrap 16 (Z.of_nat (length value))) value]).

Definition AddSoftwareAttribute (name : gostring) (m : STUNMessage) : STUNMessage := add_attr STUNAttrSoftware name m.

(** [IP.To4] on an address of 4 or 16 bytes. *)
Definition To4 (ip : list Z) : option (list Z) :=
  if (length ip =? 4)%nat then Some ip
  else if (length ip =? 16)%nat && bool_decide (take 12 ip = v4InV6Prefix) then Some (drop 12 ip)
  else None.

Definition AddXorMappedAddress (ip : list Z) (port : Z) (magic : Z) (tid : list Z) (m : STUNMessage) : STUNMessage :=
  let xorPort := Z.lxor port (Z.shiftr magic 16) in
  add_attr STUNAttrXorMappedAddr
    (match To4 ip with
     | Some ip4 => PutUint16 1 ++ PutUint16 xorPort ++ PutUint32 (Z.lxor (be_value ip4) magic)
     | None => PutUint16 2 ++ PutUint16 xorPort ++ xor_bytes ip (xor_key magic tid)
     end) m.

(** [handlePacket]: the response, if the datagram is a binding request. *)
Definition handle_stun (data : list Z) (ip : list Z) (port : Z) : option (list Z) :=
  m ← UnpackSTUN data;
  if negb (st_Type m =? STUNBindingRequest) then None
  else
    let resp := mkStun STUNBindingResponse 0 (st_Magic m) (st_TID m) [] in
    let resp := AddXorMappedAddress ip port (st_Magic m) (st_TID m) resp in
    Some (Pack (AddSoftwareAttribute (lit "remote-assist-stun/1.0") resp)).

(** ** Round trips *)

Notation u16 := (fun v : Z => 0 ≤ v < 2 ^ 16).

Lemma Uint16_Put v rest : u16 v → be_value (take 2 (PutUint16 v ++ rest)) = v ∧ drop 2 (PutUint16 v ++ rest) = rest.
Proof.
  intros Hv. unfold PutUint16. rewrite take_app_length', drop_app_length' by (by rewrite length_be).
  split; [by apply be_value_be|done].
Qed.

Lemma Uint32_Put v rest : 0 ≤ v < 2 ^ 32 → be_value (take 4 (PutUint32 v ++ rest)) = v ∧ drop 4 (PutUint32 v ++ rest) = rest.
Proof.
  intros Hv. unfold PutUint32. rewrite take_app_length', drop_app_length' by (by rewrite length_be).
  split; [by apply be_value_be|done].
Qed.

Lemma fixed_exact n l : length l = n → fixed n l = l.
Proof. intros <-. unfold fixed. by rewrite take_app_length. Qed.

Definition attr_ok (a : STUNAttribute) : Prop :=
  u16 (at_Type a) ∧ u16 (at_Length a) ∧ length (at_Value a) = Z.to_nat (at_Length a).

Lemma unpack_pack_attrs attrs : ∀ fuel,
  Forall attr_ok attrs → (length (flat_map pack_attr attrs) ≤ fuel)%nat →
  unpack_attrs fuel (flat_map pack_attr attrs) = attrs.
Proof.
  induction attrs as [|a attrs IH]; intros fuel Hok Hf; [by destruct fuel|].
  apply Forall_cons in Hok as [(Ht & Hl & Hv) Hok]. cbn [flat_map] in *.
  set (rest := flat_map pack_attr attrs) in *.
  set (n := Z.to_nat (at_Length a)) in *. set (p := stun_pad (at_Length a)).
  assert (pack_attr a ++ rest = PutUint16 (at_Type a) ++ PutUint16 (at_Length a) ++ at_Value a ++ replicate p 0 ++ rest) as E.
  { unfold pack_attr. rewrite fixed_exact by done. by rewrite <- !(assoc_L (++)). }
  assert (length (pack_attr a ++ rest) = 4 + n + p + length rest)%nat as El.
  { rewrite E. unfold PutUint16. rewrite !length_app, !length_be, length_replicate. lia. }
  destruct fuel as [|fuel]; [rewrite length_app in Hf, El; lia|]. cbn [unpack_attrs].
  destruct (Nat.ltb_spec (length (pack_attr a ++ rest)) 4); [lia|].
  rewrite E. destruct (Uint16_Put (at_Type a) (PutUint16 (at_Length a) ++ at_Value a ++ replicate p 0 ++ rest) Ht) as [-> ->].
  destruct (Uint16_Put (at_Length a) (at_Value a ++ replicate p 0 ++ rest) Hl) as [-> E4]. fold n p. rewrite <- E.
  destruct (Nat.ltb_spec (length (pack_attr a ++ rest)) (4 + n)); [lia|].
  assert (drop 4 (pack_attr a ++ rest) = at_Value a ++ replicate p 0 ++ rest) as E5.
  { rewrite E. change 4%nat with (2 + 2)%nat. rewrite <- drop_drop.
    by destruct (Uint16_Put (at_Type a) (PutUint16 (at_Length a) ++ at_Value a ++ replicate p 0 ++ rest) Ht) as [_ ->]. }
  rewrite E5, take_app_length' by done.
  assert (drop (4 + n + p) (pack_attr a ++ rest) = rest) as ->.
  { rewrite <- !drop_drop, E5, drop_app_length' by done. by rewrite drop_app_length' by (by rewrite length_replicate). }
  rewrite IH; [by destruct a|done|]. rewrite length_app in Hf, El. lia.
Qed.

Definition stun_ok (m : STUNMessage) : Prop :=
  u16 (st_Type m) ∧ st_Magic m = stunMagicCookie ∧ length (st_TID m) = 12%nat ∧ Forall attr_ok (st_Attrs m)
  ∧ Z.of_nat (length (flat_map pack_attr (st_Attrs m))) < 2 ^ 16.

Lemma UnpackSTUN_Pack m rest :
  stun_ok m →
  UnpackSTUN (Pack m ++ rest)
  = Some (mkStun (st_Type m) (Z.of_nat (length (flat_map pack_attr (st_Attrs m)))) (st_Magic m) (st_TID m) (st_Attrs m)).
Proof.
  intros (Ht & Hm & Htid & Ha & Hb). set (body := flat_map pack_attr (st_Attrs m)) in *.
  assert (Pack m ++ rest = PutUint16 (st_Type m) ++ PutUint16 (Z.of_nat (length body)) ++ PutUint32 stunMagicCookie
    ++ st_TID m ++ body ++ rest) as E.
  { unfold Pack. cbv zeta. fold body. rewrite wrap_small, fixed_exact, Hm by (lia || done). by rewrite <- !(assoc_L (++)). }
  assert (length (Pack m ++ rest) = 20 + length body + length rest)%nat as El.
  { rewrite E. unfold PutUint16, PutUint32. rewrite !length_app, !length_be. lia. }
  destruct (Uint16_Put (st_Type m) (PutUint16 (Z.of_nat (length body)) ++ PutUint32 stunMagicCookie ++ st_TID m ++ body ++ rest) Ht) as [E1 E2].
  destruct (Uint16_Put (Z.of_nat (length body)) (PutUint32 stunMagicCookie ++ st_TID m ++ body ++ rest)) as [E3 E4]; [lia|].
  destruct (Uint32_Put stunMagicCookie (st_TID m ++ body ++ rest)) as [E5 E6]; [done|].
  rewrite <- E in E1, E2. rewrite <- E2 in E3, E4. rewrite drop_drop in E4. cbn [Nat.add] in E4.
  rewrite <- E4 in E5, E6. rewrite drop_drop in E6. cbn [Nat.add] in E6.
  assert (drop 20 (Pack m ++ rest) = body ++ rest) as E7.
  { change 20%nat with (8 + 12)%nat. rewrite <- drop_drop, E6. by rewrite drop_app_length' by done. }
  unfold UnpackSTUN, stunHeaderSize. rewrite El, E1, E3, E5, E6, E7, Nat2Z.id.
  destruct (Nat.ltb_spec (20 + length body + length rest) 20); [lia|]. cbn [negb]. rewrite Z.eqb_refl. cbn [negb].
  destruct (Nat.ltb_spec (20 + length body + length rest) (20 + length body)); [lia|].
  rewrite take_app_length, take_app_length' by done.
  assert (unpack_attrs (length body) body = st_Attrs m) as -> by (by apply unpack_pack_attrs). by rewrite Hm.
Qed.

(** ** A binding *)

Definition software : gostring := lit "remote-assist-stun/1.0".

(** The response to a request, before it is packed. *)
Definition binding_response (ip : list Z) (port : Z) (tid : list Z) : STUNMessage :=
  AddSoftwareAttribute software
    (AddXorMappedAddress ip port stunMagicCookie tid (mkStun STUNBindingResponse 0 stunMagicCookie tid [])).

Lemma port_xor_ok port : u16 port → u16 (Z.lxor port (Z.shiftr stunMagicCookie 16)).
Proof. intros Hp. apply lxor_range; [lia|done|by vm_compute]. Qed.

Lemma xor_bytes_undo a key : (length a ≤ length key)%nat → xor_bytes (xor_bytes a key) key = a.
Proof.
  unfold xor_bytes. revert key. induction a as [|x a IH]; intros [|y key] Hl; simpl in *; try done; [lia|].
  by rewrite lxor_undo, IH by lia.
Qed.

Lemma length_To4 ip ip4 : To4 ip = Some ip4 → length ip4 = 4%nat ∧ (ip4 = ip ∨ ip = v4InV6Prefix ++ ip4 ∧ length ip = 16%nat).
Proof.
  unfold To4. destruct (Nat.eqb_spec (length ip) 4) as [H4|_]; [intros [= <-]; auto|].
  destruct (Nat.eqb_spec (length ip) 16) as [H16|]; [|done]. case_bool_decide as Hp; [|done]. cbn [andb]. intros [= <-].
  split; [rewrite length_drop; lia|]. right. split; [|done]. rewrite <- Hp. by rewrite take_drop.
Qed.

Lemma drop_4 (l : list Z) : drop 4 l = drop 2 (drop 2 l).
Proof. by rewrite drop_drop. Qed.

(** The value of the attribute, and what the client reads from it. *)
Lemma mapped_value ip port tid :
  (length ip = 4 ∨ length ip = 16)%nat → Forall is_byte ip → u16 port → length tid = 12%nat →
  ∃ value ip', AddXorMappedAddress ip port stunMagicCookie tid (mkStun STUNBindingResponse 0 stunMagicCookie tid [])
      = mkStun STUNBindingResponse 0 stunMagicCookie tid [mkAttr STUNAttrXorMappedAddr (Z.of_nat (length value)) value]
    ∧ (length value = 8 ∨ length value = 20)%nat
    ∧ parseMappedAddress value stunMagicCookie tid true = Addr (mkMapped (if To4 ip then 1 else 2) port ip')
    ∧ IP_Equal ip' ip = true.
Proof.
  intros Hlen Hip Hport Htid. unfold AddXorMappedAddress, add_attr. cbn [st_Type st_Length st_Magic st_TID st_Attrs app].
  pose proof (port_xor_ok port Hport) as Hx. set (xp := Z.lxor port (Z.shiftr stunMagicCookie 16)) in *.
  assert (Z.lxor xp (Z.shiftr stunMagicCookie 16) = port) as Eport by apply lxor_undo.
  destruct (To4 ip) as [ip4|] eqn:E4.
  - destruct (length_To4 ip ip4 E4) as [H4 Heq].
    assert (Forall is_byte ip4) as Hb4 by (destruct Heq as [->|[-> _]]; [done|by apply Forall_app in Hip as [_ ?]]).
    pose proof (be_value_range ip4 Hb4) as Hr. rewrite H4 in Hr. change (256 ^ Z.of_nat 4) with (2 ^ 32) in Hr.
    assert (0 ≤ Z.lxor (be_value ip4) stunMagicCookie < 2 ^ 32) as Hxi by (apply lxor_range; [lia|done|by vm_compute]).
    set (xi := Z.lxor (be_value ip4) stunMagicCookie) in *.
    exists (PutUint16 1 ++ PutUint16 xp ++ PutUint32 xi), ip4. split; [|split; [by left|split]].
    + by unfold PutUint16, PutUint32; rewrite !length_app, !length_be, wrap_small by (simpl; lia).
    + unfold parseMappedAddress. rewrite !length_app. unfold PutUint32 at 1, PutUint16 at 1 2. rewrite !length_be.
      cbn [Nat.add Nat.ltb Nat.leb].
      destruct (Uint16_Put 1 (PutUint16 xp ++ PutUint32 xi)) as [E1 E2]; [lia|].
      destruct (Uint16_Put xp (PutUint32 xi) Hx) as [E3 E5]. destruct (Uint32_Put xi [] Hxi) as [E6 _].
      rewrite app_nil_r in E6. rewrite E1, E2, E3. rewrite drop_4, E2, E5, E6, Eport.
      cbn [Z.eqb Pos.eqb]. unfold xi. rewrite lxor_undo. unfold PutUint32. rewrite <- H4, be_be_value by done. done.
    + destruct Heq as [->|[-> _]]; [apply IP_Equal_refl|]. unfold IP_Equal. rewrite length_app, H4. cbn [length v4InV6Prefix Nat.add Nat.eqb andb]. by rewrite bool_decide_true.
  - assert (length ip = 16%nat) as H16 by (destruct Hlen as [H|]; [|done]; unfold To4 in E4; by rewrite H in E4).
    assert (length (xor_key stunMagicCookie tid) = 16%nat) as Hk by (unfold xor_key, PutUint32; rewrite length_app, length_be; lia).
    set (xi := xor_bytes ip (xor_key stunMagicCookie tid)).
    assert (length xi = 16%nat) as Hxi by (unfold xi, xor_bytes; rewrite length_zip_with; lia).
    exists (PutUint16 2 ++ PutUint16 xp ++ xi), ip. split; [|split; [right|split; [|apply IP_Equal_refl]]].
    + by unfold PutUint16; rewrite !length_app, !length_be, wrap_small by (rewrite Hxi; simpl; lia).
    + unfold PutUint16. rewrite !length_app, !length_be. lia.
    + assert (length (PutUint16 2 ++ PutUint16 xp ++ xi) = 20%nat) as Hl by (unfold PutUint16; rewrite !length_app, !length_be; lia).
      unfold parseMappedAddress, slice. rewrite Hl.
      cbn [Nat.add Nat.ltb Nat.leb andb Nat.sub].
      destruct (Uint16_Put 2 (PutUint16 xp ++ xi)) as [E1 E2]; [lia|].
      destruct (Uint16_Put xp xi Hx) as [E3 E5]. rewrite E1, E2, E3, Eport. cbn [Z.eqb Pos.eqb].
      rewrite drop_4, E2, E5, take_ge by lia. unfold xi. rewrite xor_bytes_undo by lia. done.
Qed.

(** Packing and unpacking a STUN message give it back, whatever follows it in
    the datagram: type, cookie, transaction and every attribute with its value; the
    length field is filled in. *)
Theorem stun_roundtrip (m : STUNMessage) (rest : list Z) :
  stun_ok m →
  UnpackSTUN (Pack m ++ rest)
  = Some (mkStun (st_Type m) (Z.of_nat (length (flat_map pack_attr (st_Attrs m)))) (st_Magic m) (st_TID m) (st_Attrs m)).
Proof. apply UnpackSTUN_Pack. Qed.

(** A binding tells the client its address.  For every transaction id, every
    IPv4 or IPv6 address of 4 or 16 bytes and every port, the server answers the
    client's own request, and the client finds in the answer its transaction id and
    the very address and port the server saw. *)
Theorem binding_roundtrip (tid ip : list Z) (port : Z) :
  length tid = 12%nat → (length ip = 4 ∨ length ip = 16)%nat → Forall is_byte ip → u16 port →
  ∃ d m a, handle_stun (Pack (NewBindingRequest tid)) ip port = Some d
    ∧ UnpackSTUN d = Some m ∧ st_Type m = STUNBindingResponse ∧ st_TID m = tid
    ∧ GetMappedAddress m = Addr a ∧ ma_Port a = port ∧ IP_Equal (ma_IP a) ip = true.
Proof.
  intros Htid Hlen Hip Hport.
  destruct (mapped_value ip port tid Hlen Hip Hport Htid) as (value & ip' & E & Hv & Ep & Eip).
  pose proof (UnpackSTUN_Pack (NewBindingRequest tid) []) as Hreq. rewrite app_nil_r in Hreq.
  unfold handle_stun. rewrite Hreq by (repeat split; done). clear Hreq.
  cbn [mbind option_bind NewBindingRequest st_Type st_Length st_Magic st_TID st_Attrs]. rewrite Z.eqb_refl. cbn [negb].
  do 3 eexists. split; [reflexivity|]. rewrite E.
  set (m := AddSoftwareAttribute _ _).
  assert (stun_ok m) as Hm.
  { subst m. unfold AddSoftwareAttribute, add_attr. cbn [st_Type st_Length st_Magic st_TID st_Attrs app].
    repeat split; try done; cbn [st_Attrs].
    - repeat constructor; cbn [at_Type at_Length at_Value]; try done; lia.
    - cbn [flat_map]. rewrite app_nil_r, length_app. unfold pack_attr, PutUint16, fixed. cbn [at_Type at_Length at_Value].
      rewrite !length_app, !length_be, !length_take, !length_app, !length_replicate. destruct Hv as [->| ->]; vm_compute; done. }
  pose proof (UnpackSTUN_Pack m [] Hm) as Hu. rewrite app_nil_r in Hu. split; [exact Hu|].
  subst m. unfold GetMappedAddress, AddSoftwareAttribute, add_attr. cbn [st_Type st_Length st_Magic st_TID st_Attrs app mapped_in at_Type at_Value].
  split; [done|]. split; [done|]. rewrite Z.eqb_refl. cbn [orb]. split; [exact Ep|]. done.
Qed.

Lemma binding_roundtrip_witness :
  ∃ d m a, handle_stun (Pack (NewBindingRequest (replicate 12 5))) [203; 0; 113; 9] 40000 = Some d
    ∧ UnpackSTUN d = Some m ∧ st_Type m = STUNBindingResponse ∧ st_TID m = replicate 12 5
    ∧ GetMappedAddress m = Addr a ∧ ma_Port a = 40000 ∧ IP_Equal (ma_IP a) [203; 0; 113; 9] = true.
Proof.
  apply binding_roundtrip; [reflexivity|left; reflexivity|repeat constructor; lia|lia].
Defined.

Lemma stun_roundtrip_witness :
  UnpackSTUN (Pack (NewBindingRequest (replicate 12 5)) ++ [1; 2])
  = Some (mkStun STUNBindingRequest 0 stunMagicCookie (replicate 12 5) []).
Proof.
  apply (stun_roundtrip (NewBindingRequest (replicate 12 5)) [1; 2]). repeat split; done.
Defined.

(** A response whose first mapped address claims IPv6 with an IPv4-sized value. *)
Definition short_v6_response : STUNMessage :=
  mkStun STUNBindingResponse 0 stunMagicCookie (replicate 12 5) [mkAttr STUNAttrXorMappedAddr 8 [0; 2; 0; 0; 1; 2; 3; 4]].

(** A reply can crash the client.  Reading the mapped address panics exactly
    when the first mapped address of a message claims IPv6 with a value of 8 to 19
    bytes, and such messages pass [UnpackSTUN]. *)
Theorem mapped_address_panics :
  (∀ m, GetMappedAddress m = AddrPanic ↔
     ∃ pre a post, st_Attrs m = pre ++ a :: post
       ∧ Forall (fun x => at_Type x ≠ STUNAttrXorMappedAddr ∧ at_Type x ≠ STUNAttrMappedAddress) pre
       ∧ (at_Type a = STUNAttrXorMappedAddr ∨ at_Type a = STUNAttrMappedAddress)
       ∧ be_value (take 2 (at_Value a)) = 2 ∧ (8 ≤ length (at_Value a) < 20)%nat)
  ∧ ∃ d m, UnpackSTUN d = Some m ∧ GetMappedAddress m = AddrPanic.
Proof.
  split; [|exists (Pack short_v6_response); eexists; split; [vm_compute; reflexivity|by vm_compute]].
  assert (∀ data magic tid xor, parseMappedAddress data magic tid xor = AddrPanic
    ↔ be_value (take 2 data) = 2 ∧ (8 ≤ length data < 20)%nat) as Hparse.
  { intros data magic tid xor. unfold parseMappedAddress, slice.
    destruct (Nat.ltb_spec (length data) 8); [split; [done|lia]|].
    destruct (Z.eqb_spec (be_value (take 2 data)) 1) as [->|H1]; [split; [done|lia]|].
    destruct (Z.eqb_spec (be_value (take 2 data)) 2) as [->|H2]; [|split; [done|by intros [? _]]].
    change (4 <=? 20)%nat with true. cbn [andb].
    destruct (Nat.leb_spec 20 (length data)); (split; [intros E; try done; lia|intros [_ ?]; try done; lia]). }
  intros [ty len magic tid attrs]. unfold GetMappedAddress. cbn [st_Attrs st_Magic st_TID].
  induction attrs as [|x attrs IH]; cbn [mapped_in].
  { split; [done|]. by intros (pre & a & post & E & _); destruct pre. }
  destruct (Z.eqb_spec (at_Type x) STUNAttrXorMappedAddr) as [Hx|Hx];
    [|destruct (Z.eqb_spec (at_Type x) STUNAttrMappedAddress) as [Hy|Hy]]; cbn [orb].
  3: { rewrite IH. split.
    - intros (pre & a & post & -> & Hpre & H). exists (x :: pre), a, post. split; [done|]. split; [by constructor|done].
    - intros ([|y pre] & a & post & [= <- ->] & Hpre & Ha & H); [by destruct Ha|].
      apply Forall_cons in Hpre as [_ Hpre]. by exists pre, a, post. }
  all: rewrite Hparse; split; [intros H; exists [], x, attrs; (split; [done|]); (split; [done|]); (split; [auto|done])|].
  all: intros ([|y pre] & a & post & [= -> ->] & Hpre & _ & H); [done|apply Forall_cons in Hpre as [[? ?] _]; congruence].
Qed.
