(* ===== verification/P2pTunnel.v ===== *)
(** * The reliable UDP tunnel ([internal/p2p/tunnel.go])

    Data packets are numbered, kept until acknowledged and sent again; the receiver
    puts them back in order and its reader sees a stream of bytes.  Each goroutine
    appears as operations: a round of [Write]'s loop, a tick of the retransmission,
    a packet of [recvLoop], a payload put into the channel, a [Read].

    Deflate is the standard library's codec, given by its two functions.  The write
    pool, the log lines and the debug text are left out, and so is one aliasing: a
    payload with an unknown compression mark, which no end sends, would share the
    receive buffer. *)

From S2P Require Import Prelude GoNet GoText GoBinary.

Open Scope Z_scope.

Definition pktTypeData : Z := 1.
Definition pktTypeAck : Z := 2.
Definition pktTypeKeepalive : Z := 3.

Definition tunnelMillisecond : Z := 1000000.
Definition maxPacketSize : nat := 1400.
Definition retransmitBase : Z := 200 * tunnelMillisecond.
Definition maxRTO : Z := 2 * Second.
Definition recvChanSize : nat := 1024.
Definition maxRecvBuf : nat := 1024.
Definition maxInflight : nat := 256.
Definition peerTimeout : Z := 60 * Second.
(** [make([]byte, 64*1024)]. *)
Definition partialSize : nat := Z.to_nat (64 * 1024).
Definition compressThreshold : nat := 128.
Definition compressFlag : Z := 1.
Definition rawFlag : Z := 0.

Record pendingPacket := mkPending { pp_data : list Z; pp_sentAt : Z; pp_retries : Z }.

(** [delivering] is what [recvLoop] still has to put into [recvCh]; [partial] is
    [partialData[:partialOff]]. *)
Record UDPTunnel := mkTunnel {
  remoteAddr : gostring;
  relayHeader : option (list Z);
  nextSendSeq : Z;
  sendWin : gmap Z pendingPacket;
  nextRecvSeq : Z;
  recvBuf : gmap Z (list Z);
  delivering : list (list Z);
  recvCh : list (list Z);
  lastRecvTime : Z;
  partial : list Z;
  closed : bool;
}.
#[export] Instance UDPTunnel_eta : Eta UDPTunnel := fun t =>
  mkTunnel (remoteAddr t) (relayHeader t) (nextSendSeq t) (sendWin t) (nextRecvSeq t) (recvBuf t) (delivering t)
    (recvCh t) (lastRecvTime t) (partial t) (closed t).

Definition NewUDPTunnel (addr : gostring) (now : Z) : UDPTunnel :=
  mkTunnel addr None 0 ∅ 0 ∅ [] [] now [] false.

(** [makeRelayHeader]: marker, length, session id. *)
Definition makeRelayHeader (sessionID : gostring) : list Z :=
  [255; wrap 8 (Z.of_nat (length sessionID))] ++ sessionID.

Definition NewUDPRelayTunnel (addr : gostring) (sessionID : gostring) (now : Z) : UDPTunnel :=
  mkTunnel addr (Some (makeRelayHeader sessionID)) 0 ∅ 0 ∅ [] [] now [] false.

(** [sendPacket]: the datagram that goes out. *)
Definition sendPacket (t : UDPTunnel) (pkt : list Z) : list Z :=
  match relayHeader t with Some h => h ++ pkt | None => pkt end.

Definition packet (ty seq : Z) (payload : list Z) : list Z := [ty] ++ PutUint32 seq ++ payload.

Section tunnel.
Context (deflate : list Z → list Z) (inflate : list Z → option (list Z)).

(** ** Compression *)

Definition compressData (data : list Z) : list Z :=
  if (length data <? compressThreshold)%nat then rawFlag :: data else
  let out := compressFlag :: deflate data in
  if (1 + length data <=? length out)%nat then rawFlag :: data else out.

Definition decompressData (data : list Z) : option (list Z) :=
  match data with
  | [] => None
  | flag :: rest =>
      if flag =? rawFlag then Some rest
      else if flag =? compressFlag then inflate rest
      else Some data
  end.

(** ** Sending *)

Inductive WriteRound :=
| WriteEOF
| WriteBlocked
| WriteSent (datagram : list Z) (n : nat) (t : UDPTunnel).

Definition chunk_size (b : list Z) : nat := Nat.min (length b) (maxPacketSize - 6).

(** A round of the loop of [Write] on what is left of the buffer.  The number is
    taken once the window has room: nothing looks at it while [Write] waits. *)
Definition write_round (now : Z) (b : list Z) (t : UDPTunnel) : WriteRound :=
  if closed t then WriteEOF
  else if (maxInflight <=? size (sendWin t))%nat then WriteBlocked
  else
    let n := chunk_size b in
    let seq := nextSendSeq t in
    let pkt := packet pktTypeData seq (compressData (take n b)) in
    WriteSent (sendPacket t pkt) n
      (t <| nextSendSeq := wrap 32 (seq + 1) |> <| sendWin := <[seq := mkPending pkt now 0]> (sendWin t) |>).

(** [Write] as far as it goes without waiting: the datagrams, the bytes taken and
    how the last round ended ([None]: all was taken). *)
Fixpoint Write (fuel : nat) (now : Z) (b : list Z) (t : UDPTunnel) : list (list Z) * nat * option WriteRound * UDPTunnel :=
  match b, fuel with
  | [], _ | _, O => ([], O, None, t)
  | _, S fuel =>
      match write_round now b t with
      | WriteSent d n t' =>
          let '(ds, k, r, t'') := Write fuel now (drop n b) t' in (d :: ds, (n + k)%nat, r, t'')
      | r => ([], O, Some r, t)
      end
  end.

(** ** Retransmission *)

Definition rto (retries : Z) : Z :=
  let shift := if 4 <? retries then 4 else retries in
  let r := retransmitBase * 2 ^ shift in
  if maxRTO <? r then maxRTO else r.

Definition due (now : Z) (p : pendingPacket) : bool := negb (now - pp_sentAt p <? rto (pp_retries p)).

Definition resend (now : Z) (p : pendingPacket) : pendingPacket :=
  if due now p then mkPending (pp_data p) now (pp_retries p + 1) else p.

(** A tick of [retransmitLoop]; the order of the map is unspecified. *)
Definition retransmit (now : Z) (t : UDPTunnel) : list (list Z) * UDPTunnel :=
  if closed t then ([], t) else
  (map (fun kp => sendPacket t (pp_data kp.2)) (List.filter (fun kp => due now kp.2) (map_to_list (sendWin t))),
   t <| sendWin := resend now <$> sendWin t |>).

Definition keepalive (t : UDPTunnel) : list (list Z) :=
  if closed t then [] else [sendPacket t (packet pktTypeKeepalive 0 [])].

(** ** Receiving *)

(** The buffered packets from [seq] on: what is delivered, the next number and the
    rest of the buffer.  Each round takes one out of the buffer. *)
Fixpoint drain (fuel : nat) (seq : Z) (buf : gmap Z (list Z)) : list (list Z) * Z * gmap Z (list Z) :=
  match fuel, buf !! seq with
  | S fuel, Some data =>
      let '(out, seq', buf') := drain fuel (wrap 32 (seq + 1)) (delete seq buf) in (data :: out, seq', buf')
  | _, _ => ([], seq, buf)
  end.

(** The body under [recvMu]. *)
Definition recv_data (seq : Z) (payload : list Z) (t : UDPTunnel) : UDPTunnel :=
  if seq =? nextRecvSeq t then
    let '(out, next, buf) := drain (size (recvBuf t)) (wrap 32 (seq + 1)) (recvBuf t) in
    t <| delivering := payload :: out |> <| nextRecvSeq := next |> <| recvBuf := buf |>
  else if nextRecvSeq t <? seq then
    if bool_decide (recvBuf t !! seq = None) && (size (recvBuf t) <? maxRecvBuf)%nat
    then t <| recvBuf := <[seq := payload]> (recvBuf t) |> else t
  else t.

(** [recvLoop] on one datagram, with what it sends back; [None] while the last
    payloads are not delivered, and after [Close]. *)
Definition handle_packet (now : Z) (src : gostring) (datagram : list Z) (t : UDPTunnel)
  : option (UDPTunnel * list (list Z)) :=
  if closed t || negb (bool_decide (delivering t = [])) then None else
  let buf := take maxPacketSize datagram in
  if bool_decide (src ≠ remoteAddr t) || (length buf <? 5)%nat then Some (t, []) else
  let t := t <| lastRecvTime := now |> in
  let pktType := default 0 (head buf) in
  let seq := be_value (take 4 (drop 1 buf)) in
  if pktType =? pktTypeAck then Some (t <| sendWin := delete seq (sendWin t) |>, [])
  else if pktType =? pktTypeData then
    let ack := [sendPacket t (packet pktTypeAck seq [])] in
    if (length buf - 5 =? 0)%nat then Some (t, ack) else
    match decompressData (drop 5 buf) with
    | None => Some (t, ack)
    | Some payload => Some (recv_data seq payload t, ack)
    end
  else Some (t, []).

(** The read deadline passed. *)
Definition read_timeout (now : Z) (t : UDPTunnel) : UDPTunnel :=
  if peerTimeout <? now - lastRecvTime t then t <| closed := true |> else t.

(** [deliverToChannel]: it waits while the channel is full; after [Close] the
    payload may be dropped instead. *)
Definition deliverToChannel (drop_it : bool) (t : UDPTunnel) : option UDPTunnel :=
  match delivering t with
  | [] => None
  | data :: rest =>
      if drop_it && closed t then Some (t <| delivering := rest |>)
      else if (length (recvCh t) <? recvChanSize)%nat
      then Some (t <| delivering := rest |> <| recvCh := recvCh t ++ [data] |>)
      else None
  end.

(** [Read] into [k] bytes: [None] while it waits, [inl tt] for the end of file.
    After [Close] it may take either way. *)
Definition Read (stop : bool) (k : nat) (t : UDPTunnel) : option (unit + list Z * UDPTunnel) :=
  if negb (bool_decide (partial t = []))
  then Some (inr (take k (partial t), t <| partial := drop k (partial t) |>))
  else if stop && closed t then Some (inl tt)
  else match recvCh t with
       | [] => if closed t then Some (inl tt) else None
       | data :: rest =>
           Some (inr (take k data, t <| recvCh := rest |> <| partial := take partialSize (drop k data) |>))
       end.

Definition Close (t : UDPTunnel) : UDPTunnel := t <| closed := true |>.

(** ** Two ends and the network between them

    One direction: [n_a] writes, [n_b] reads.  A datagram once sent may be delivered
    any number of times, at any time, or never. *)

Record Net := mkNet {
  n_a : UDPTunnel;
  n_b : UDPTunnel;
  n_ab : list (list Z);
  n_ba : list (list Z);
  n_written : list (list Z);
  n_read : list Z;
}.
#[export] Instance Net_eta : Eta Net := fun s => mkNet (n_a s) (n_b s) (n_ab s) (n_ba s) (n_written s) (n_read s).

Inductive NetEvent :=
| NWrite (now : Z) (b : list Z)
| NRetransmit (now : Z)
| NKeepalive
| NToB (now : Z) (i : nat)
| NToA (now : Z) (i : nat)
| NDeliver
| NRead (k : nat)
| NTimeoutB (now : Z).

Definition net_step (e : NetEvent) (s : Net) : option Net :=
  match e with
  | NWrite now b =>
      if bool_decide (b = []) then None else
      match write_round now b (n_a s) with
      | WriteSent d n a =>
          Some (s <| n_a := a |> <| n_ab := n_ab s ++ [d] |> <| n_written := n_written s ++ [take n b] |>)
      | _ => None
      end
  | NRetransmit now => let (ds, a) := retransmit now (n_a s) in Some (s <| n_a := a |> <| n_ab := n_ab s ++ ds |>)
  | NKeepalive => Some (s <| n_ab := n_ab s ++ keepalive (n_a s) |>)
  | NToB now i =>
      d ← n_ab s !! i;
      '(b, acks) ← handle_packet now (remoteAddr (n_b s)) d (n_b s);
      Some (s <| n_b := b |> <| n_ba := n_ba s ++ acks |>)
  | NToA now i =>
      d ← n_ba s !! i;
      '(a, acks) ← handle_packet now (remoteAddr (n_a s)) d (n_a s);
      Some (s <| n_a := a |> <| n_ab := n_ab s ++ acks |>)
  | NDeliver => b ← deliverToChannel false (n_b s); Some (s <| n_b := b |>)
  | NRead k =>
      match Read false k (n_b s) with
      | Some (inr (bytes, b)) => Some (s <| n_b := b |> <| n_read := n_read s ++ bytes |>)
      | _ => None
      end
  | NTimeoutB now => Some (s <| n_b := read_timeout now (n_b s) |>)
  end.

Fixpoint net_run (es : list NetEvent) (s : Net) : option Net :=
  match es with
  | [] => Some s
  | e :: es => s ← net_step e s; net_run es s
  end.

(** Two fresh ends that know each other. *)
Definition net_start (now : Z) : Net :=
  mkNet (NewUDPTunnel (lit "10.0.0.2:9") now) (NewUDPTunnel (lit "10.0.0.1:9") now) [] [] [] [].
End tunnel.
