(* ===== verification/P2pTunnelThms.v ===== *)
(** * What the UDP tunnel delivers

    Over a network that loses, repeats and reorders, the reader gets a prefix of
    what was written; everything, as long as the sender stays within the reach of
    the receiver's buffer; and beyond that reach the tunnel can lose a packet for
    good, since it acknowledges before it knows whether it can keep it. *)

From S2P Require Import Prelude GoNet GoText GoBinary P2pTunnel.

Open Scope Z_scope.

Notation u32 := (fun k : Z => 0 ≤ k < 2 ^ 32).

Section tunnel.
Context (deflate : list Z → list Z) (inflate : list Z → option (list Z)).
Hypothesis inflate_deflate : ∀ data, inflate (deflate data) = Some data.

Notation compress := (compressData deflate).
Notation decompress := (decompressData inflate).
Notation step := (net_step deflate inflate).
Notation run := (net_run deflate inflate).

Lemma decompress_compress data : decompress (compress data) = Some data.
Proof.
  unfold compressData. destruct (_ <? _)%nat; [done|]. cbv zeta. destruct (_ <=? _)%nat; [done|].
  cbn. apply inflate_deflate.
Qed.

Lemma length_compress data : (1 ≤ length (compress data) ≤ S (length data))%nat.
Proof.
  unfold compressData. destruct (_ <? _)%nat; [simpl; lia|]. cbv zeta.
  destruct (Nat.leb_spec (1 + length data) (length (compressFlag :: deflate data))); simpl in *; lia.
Qed.

(** ** Packets *)

Lemma length_packet ty seq payload : length (packet ty seq payload) = (5 + length payload)%nat.
Proof. unfold packet, PutUint32. rewrite !length_app, length_be. simpl. lia. Qed.

Lemma packet_fields ty seq payload :
  u32 seq →
  default 0 (head (packet ty seq payload)) = ty ∧ be_value (take 4 (drop 1 (packet ty seq payload))) = seq
  ∧ drop 5 (packet ty seq payload) = payload.
Proof.
  intros Hs. unfold packet, PutUint32. split; [done|]. split.
  - cbn [app drop]. rewrite drop_0, take_app_length' by (by rewrite length_be). by apply be_value_be.
  - cbn [app drop]. by rewrite drop_app_length' by (by rewrite length_be).
Qed.

Definition data_packet (seq : Z) (c : list Z) : list Z := packet pktTypeData seq (compress c).

Lemma data_packet_fits seq c : (length c ≤ maxPacketSize - 6)%nat → (length (data_packet seq c) ≤ maxPacketSize)%nat.
Proof. unfold data_packet. rewrite length_packet. pose proof (length_compress c). unfold maxPacketSize. lia. Qed.

(** What an open, idle end makes of a data packet, and of any other. *)
Lemma handle_data now seq c t :
  closed t = false → delivering t = [] → u32 seq → (length c ≤ maxPacketSize - 6)%nat →
  handle_packet inflate now (remoteAddr t) (data_packet seq c) t
  = Some (recv_data seq c (t <| lastRecvTime := now |>), [sendPacket t (packet pktTypeAck seq [])]).
Proof.
  intros Hc Hd Hs Hl. unfold handle_packet. rewrite Hc, (bool_decide_true (delivering t = [])) by done. cbn [negb orb].
  rewrite take_ge by by apply data_packet_fits. rewrite bool_decide_false by auto.
  destruct (packet_fields pktTypeData seq (compress c) Hs) as (E1 & E2 & E3).
  fold (data_packet seq c) in E1, E2, E3. cbv zeta. rewrite E1, E2, E3.
  assert (length (data_packet seq c) = 5 + length (compress c))%nat as El by apply length_packet.
  pose proof (length_compress c). rewrite El.
  destruct (Nat.ltb_spec (5 + length (compress c)) 5); [lia|].
  destruct (Nat.eqb_spec (5 + length (compress c) - 5) 0); [lia|].
  unfold sendPacket. cbn [orb]. cbn -[decompressData packet]. by rewrite decompress_compress.
Qed.

Lemma handle_ack now seq t :
  closed t = false → delivering t = [] → u32 seq →
  handle_packet inflate now (remoteAddr t) (packet pktTypeAck seq []) t
  = Some ((t <| lastRecvTime := now |>) <| sendWin := delete seq (sendWin t) |>, []).
Proof.
  intros Hc Hd Hs. unfold handle_packet. rewrite Hc, (bool_decide_true (delivering t = [])) by done. cbn [negb orb].
  rewrite take_ge by (rewrite length_packet; unfold maxPacketSize; simpl; lia). rewrite bool_decide_false by auto.
  destruct (packet_fields pktTypeAck seq [] Hs) as (E1 & E2 & E3). cbv zeta. rewrite E1, E2. done.
Qed.

Lemma handle_keepalive now t :
  closed t = false → delivering t = [] →
  handle_packet inflate now (remoteAddr t) (packet pktTypeKeepalive 0 []) t = Some (t <| lastRecvTime := now |>, []).
Proof.
  intros Hc Hd. unfold handle_packet. rewrite Hc, (bool_decide_true (delivering t = [])) by done. cbn [negb orb].
  rewrite bool_decide_false by auto. done.
Qed.

(** ** The reordering buffer *)

(** What the buffer holds is part of [cs], from [seq] on. *)
Definition buffered (cs : list (list Z)) (seq : Z) (buf : gmap Z (list Z)) : Prop :=
  ∀ k v, buf !! k = Some v → seq ≤ k ∧ cs !! Z.to_nat k = Some v.

Lemma drain_spec cs fuel : ∀ seq buf out seq' buf',
  Z.of_nat (length cs) < 2 ^ 32 → (size buf ≤ fuel)%nat → 0 ≤ seq ≤ Z.of_nat (length cs) → buffered cs seq buf →
  drain fuel seq buf = (out, seq', buf') →
  seq ≤ seq' ≤ Z.of_nat (length cs) ∧ take (Z.to_nat seq') cs = take (Z.to_nat seq) cs ++ out
  ∧ buffered cs (seq' + 1) buf' ∧ (∀ k, is_Some (buf !! k) → k < seq' ∨ is_Some (buf' !! k))
  ∧ (∀ v, v ∈ out → v ∈ cs).
Proof.
  induction fuel as [|fuel IH]; intros seq buf out seq' buf' Hlen Hf Hs Hb E; cbn [drain] in E.
  { injection E as <- <- <-. assert (buf = ∅) as -> by (apply map_size_empty_inv; lia).
    split_and!; [lia|lia|by rewrite app_nil_r|by intros k v ?|by intros k ?; right|by intros v ?%elem_of_nil]. }
  destruct (buf !! seq) as [data|] eqn:Ed.
  - destruct (Hb _ _ Ed) as [_ Hc]. assert (seq < Z.of_nat (length cs)) as Hlt by (apply lookup_lt_Some in Hc; lia).
    rewrite wrap_small in E by lia.
    destruct (drain fuel (seq + 1) (delete seq buf)) as [[o s'] b'] eqn:E'. injection E as <- <- <-.
    assert (size (delete seq buf) ≤ fuel)%nat as Hf' by (rewrite map_size_delete_Some by eauto; lia).
    assert (buffered cs (seq + 1) (delete seq buf)) as Hb'.
    { intros k v [Hne Hk]%lookup_delete_Some. destruct (Hb k v Hk). split; [lia|done]. }
    assert (0 ≤ seq + 1 ≤ Z.of_nat (length cs)) as Hs' by lia.
    destruct (IH _ _ _ _ _ Hlen Hf' Hs' Hb' E') as (H1 & H2 & H3 & H4 & H5).
    split; [lia|]. split; [|split; [done|split]].
    + rewrite H2. replace (Z.to_nat (seq + 1)) with (S (Z.to_nat seq)) by lia.
      rewrite (take_S_r _ _ _ Hc). by rewrite <- (assoc_L (++)).
    + intros k Hk. destruct (decide (k = seq)) as [->|Hne]; [left; lia|].
      apply H4. by rewrite lookup_delete_ne.
    + intros v [->|Hv]%elem_of_cons; [by eapply list_elem_of_lookup_2|by apply H5].
  - injection E as <- <- <-. split; [lia|]. split; [by rewrite app_nil_r|]. split; [|split; [by right|by intros v ?%elem_of_nil]].
    intros k v Hk. destruct (Hb k v Hk) as [H1 H2]. split; [|done]. destruct (decide (k = seq)) as [->|]; [congruence|lia].
Qed.

Definition held (t : UDPTunnel) (k : Z) : Prop := k < nextRecvSeq t ∨ is_Some (recvBuf t !! k).

(** Distinct numbers between two bounds are few. *)
Lemma size_between {A} (buf : gmap Z A) lo hi :
  lo ≤ hi → (∀ k v, buf !! k = Some v → lo ≤ k < hi) → Z.of_nat (size buf) ≤ hi - lo.
Proof.
  intros Hle Hb. rewrite <- size_dom.
  assert (dom buf ⊆ (list_to_set (seqZ lo (hi - lo)) : gset Z)) as Hsub.
  { intros k [v Hv]%elem_of_dom. apply elem_of_list_to_set, elem_of_seqZ. specialize (Hb k v Hv). lia. }
  apply subseteq_size in Hsub. rewrite size_list_to_set, length_seqZ in Hsub by apply NoDup_seqZ. lia.
Qed.

(** The state of a receiver with respect to the chunks written so far. *)
Record receiving (cs : list (list Z)) (t : UDPTunnel) : Prop := {
  rc_next : 0 ≤ nextRecvSeq t ≤ Z.of_nat (length cs);
  rc_buf : buffered cs (nextRecvSeq t + 1) (recvBuf t);
  rc_short : ∀ v, v ∈ recvCh t ++ delivering t → v ∈ cs;
}.

(** What [recv_data] leaves alone. *)
Definition same_side (t t' : UDPTunnel) : Prop :=
  remoteAddr t' = remoteAddr t ∧ relayHeader t' = relayHeader t ∧ nextSendSeq t' = nextSendSeq t ∧ sendWin t' = sendWin t
  ∧ recvCh t' = recvCh t ∧ partial t' = partial t ∧ closed t' = closed t.

Lemma recv_data_spec cs seq c t :
  Z.of_nat (length cs) < 2 ^ 32 → delivering t = [] → receiving cs t → 0 ≤ seq → cs !! Z.to_nat seq = Some c →
  let t' := recv_data seq c t in
  same_side t t' ∧ receiving cs t' ∧ nextRecvSeq t ≤ nextRecvSeq t'
  ∧ take (Z.to_nat (nextRecvSeq t')) cs = take (Z.to_nat (nextRecvSeq t)) cs ++ delivering t'
  ∧ (∀ k, held t k → held t' k)
  ∧ (Z.of_nat (length cs) - nextRecvSeq t ≤ Z.of_nat maxRecvBuf + 1 → held t' seq).
Proof.
  intros Hlen Hd [Hn Hb Hsh] H0 Hc. assert (seq < Z.of_nat (length cs)) as Hlt by (apply lookup_lt_Some in Hc; lia).
  unfold recv_data. destruct (Z.eqb_spec seq (nextRecvSeq t)) as [->|Hne].
  - rewrite wrap_small by lia. destruct (drain _ _ _) as [[out next] buf] eqn:E.
    apply (drain_spec cs) in E as (H1 & H2 & H3 & H4 & H5); [|done..|lia|done]. cbn zeta.
    assert (take (Z.to_nat next) cs = take (Z.to_nat (nextRecvSeq t)) cs ++ c :: out) as Et.
    { rewrite H2. replace (Z.to_nat (nextRecvSeq t + 1)) with (S (Z.to_nat (nextRecvSeq t))) by lia.
      rewrite (take_S_r _ _ _ Hc). by rewrite <- (assoc_L (++)). }
    unfold set_field. split; [done|]. split; [|split; [cbn; lia|split; [done|split]]].
    + constructor; cbn; [lia|done|]. intros v [Hv|[->|Hv]%elem_of_cons]%elem_of_app;
        [apply Hsh, elem_of_app; by left|by eapply list_elem_of_lookup_2|by apply H5].
    + intros k [Hk|Hk]; unfold held; cbn; [left; lia|by apply H4].
    + intros _. left. cbn. lia.
  - assert (∀ t', t' = t → (Z.of_nat (length cs) - nextRecvSeq t ≤ Z.of_nat maxRecvBuf + 1 → held t seq) →
      same_side t t' ∧ receiving cs t' ∧ nextRecvSeq t ≤ nextRecvSeq t'
      ∧ take (Z.to_nat (nextRecvSeq t')) cs = take (Z.to_nat (nextRecvSeq t)) cs ++ delivering t'
      ∧ (∀ k, held t k → held t' k)
      ∧ (Z.of_nat (length cs) - nextRecvSeq t ≤ Z.of_nat maxRecvBuf + 1 → held t' seq)) as Hsame.
    { intros t' -> Hh. split; [done|]. split; [done|]. split; [lia|]. rewrite Hd, app_nil_r. done. }
    destruct (Z.ltb_spec (nextRecvSeq t) seq) as [Hgt|Hle]; [|apply Hsame; [done|intros _; left; lia]].
    destruct (recvBuf t !! seq) as [v|] eqn:Ev.
    { rewrite bool_decide_false by done. apply Hsame; [done|]. intros _. right. by eexists. }
    rewrite bool_decide_true by done. cbn [andb].
    destruct (Nat.ltb_spec (size (recvBuf t)) maxRecvBuf) as [Hsz|Hsz].
    + cbn zeta. unfold set_field. split; [done|]. split; [|split; [cbn; lia|split; [cbn; by rewrite Hd, app_nil_r|split]]].
      * constructor; cbn [nextRecvSeq recvBuf recvCh delivering]; [done| |done].
        intros k v [[<- <-]|[? Hk]]%lookup_insert_Some; [split; [lia|done]|by apply Hb].
      * intros k [Hk|Hk]; [by left|right]. cbn [recvBuf]. rewrite lookup_insert_ne; [done|].
        intros ->. rewrite Ev in Hk. by destruct Hk.
      * intros _. right. cbn [recvBuf]. rewrite lookup_insert_eq. by eexists.
    + apply Hsame; [done|]. intros Hw. exfalso.
      assert (Z.of_nat (size (<[seq := c]> (recvBuf t))) ≤ Z.of_nat (length cs) - (nextRecvSeq t + 1)) as Hs.
      { apply size_between; [lia|]. intros k v [[<- <-]|[? Hk]]%lookup_insert_Some; [lia|].
        destruct (Hb k v Hk) as [? Hl]. apply lookup_lt_Some in Hl. lia. }
      rewrite map_size_insert_None in Hs by done. lia.
Qed.

(** ** The invariant of the two ends *)

Definition is_data (cs : list (list Z)) (k : Z) (d : list Z) : Prop :=
  ∃ c, 0 ≤ k ∧ cs !! Z.to_nat k = Some c ∧ d = data_packet k c.

Record net_inv (s : Net) : Prop := {
  ni_plain : relayHeader (n_a s) = None ∧ relayHeader (n_b s) = None ∧ delivering (n_a s) = [];
  ni_seq : nextSendSeq (n_a s) = Z.of_nat (length (n_written s));
  ni_chunks : ∀ c, c ∈ n_written s → (length c ≤ maxPacketSize - 6)%nat;
  ni_win : ∀ k p, sendWin (n_a s) !! k = Some p → is_data (n_written s) k (pp_data p);
  ni_ab : ∀ d, d ∈ n_ab s → (∃ k, is_data (n_written s) k d) ∨ d = packet pktTypeKeepalive 0 [];
  ni_ba : ∀ d, d ∈ n_ba s → ∃ k, u32 k ∧ d = packet pktTypeAck k [];
  ni_recv : receiving (n_written s) (n_b s);
  ni_stream : concat (take (Z.to_nat (nextRecvSeq (n_b s))) (n_written s))
    = n_read s ++ partial (n_b s) ++ concat (recvCh (n_b s)) ++ concat (delivering (n_b s));
  (** Every number given out is unacknowledged, or its acknowledgement was sent. *)
  ni_acks : ∀ k, 0 ≤ k < Z.of_nat (length (n_written s)) →
    is_Some (sendWin (n_a s) !! k) ∨ packet pktTypeAck k [] ∈ n_ba s;
}.

(** What was acknowledged is held; true while the sender is within reach. *)
Definition acks_true (s : Net) : Prop := ∀ k, u32 k → packet pktTypeAck k [] ∈ n_ba s → held (n_b s) k.
Definition within_reach (s : Net) : Prop :=
  Z.of_nat (length (n_written s)) - nextRecvSeq (n_b s) ≤ Z.of_nat maxRecvBuf + 1.

Lemma is_data_app cs cs' k d : is_data cs k d → is_data (cs ++ cs') k d.
Proof. intros (c & H0 & Hc & ->). exists c. split; [done|]. split; [|done]. by apply lookup_app_l_Some. Qed.

Lemma ack_inj k k' : u32 k → u32 k' → packet pktTypeAck k [] = packet pktTypeAck k' [] → k = k'.
Proof.
  intros H H' E. destruct (packet_fields pktTypeAck k [] H) as (_ & <- & _). rewrite E.
  by destruct (packet_fields pktTypeAck k' [] H') as (_ & -> & _).
Qed.

Lemma net_start_inv now : net_inv (net_start now) ∧ acks_true (net_start now).
Proof.
  split; [|by intros k _ ?%elem_of_nil].
  constructor; cbn; try done; try (by intros ? ?%elem_of_nil).
  intros k Hk. lia.
Qed.

Lemma receiving_app cs cs' t : receiving cs t → receiving (cs ++ cs') t.
Proof.
  intros [H1 H2 H3]. split.
  - rewrite length_app. lia.
  - intros k v Hk. destruct (H2 k v Hk). split; [done|]. by apply lookup_app_l_Some.
  - intros v Hv. apply elem_of_app. left. by apply H3.
Qed.

Lemma write_inv now b s s' :
  Z.of_nat (S (length (n_written s))) < 2 ^ 32 → net_inv s → step (NWrite now b) s = Some s' →
  net_inv s' ∧ n_b s' = n_b s ∧ n_ba s' = n_ba s ∧ length (n_written s') = S (length (n_written s)).
Proof.
  intros Hlen [[P1 [P2 P3]] Hq Hc Hw Hab Hba Hr Hst Hk]. cbn [net_step]. case_bool_decide as Hb; [done|].
  unfold write_round. destruct (closed _); [done|]. destruct (_ <=? _)%nat; [done|].
  set (c := take (chunk_size b) b). intros [= <-]. unfold set_field.
  assert ((n_written s ++ [c]) !! Z.to_nat (nextSendSeq (n_a s)) = Some c) as Hnew.
  { rewrite Hq, Nat2Z.id, lookup_app_r, Nat.sub_diag by lia. done. }
  assert (is_data (n_written s ++ [c]) (nextSendSeq (n_a s)) (data_packet (nextSendSeq (n_a s)) c)) as Hd
    by (exists c; split; [lia|done]).
  split; [|cbn; rewrite length_app; simpl; split_and!; [done..|lia]].
  constructor; cbn [n_a n_b n_ab n_ba n_written n_read relayHeader delivering nextSendSeq sendWin].
  - done.
  - rewrite Hq, length_app, wrap_small by lia. simpl. lia.
  - intros x [Hx| ->%list_elem_of_singleton]%elem_of_app; [by apply Hc|].
    unfold c, chunk_size. rewrite length_take. lia.
  - intros k p [[<- <-]|[_ Hp]]%lookup_insert_Some; [done|]. by apply is_data_app, Hw.
  - intros d [Hin| ->%list_elem_of_singleton]%elem_of_app.
    + destruct (Hab d Hin) as [[k Hk']|]; [left; exists k; by apply is_data_app|by right].
    + left. exists (nextSendSeq (n_a s)). unfold sendPacket. by rewrite P1.
  - done.
  - by apply receiving_app.
  - rewrite take_app_le; [done|]. destruct Hr as [Hn _ _]. lia.
  - intros k Hlt. rewrite length_app in Hlt. simpl in Hlt. destruct (decide (k = nextSendSeq (n_a s))) as [->|Hne].
    + left. rewrite lookup_insert_eq. by eexists.
    + destruct (Hk k) as [Hs|]; [lia| |by right]. left. by rewrite lookup_insert_ne.
Qed.

Lemma retransmit_inv now s s' :
  net_inv s → step (NRetransmit now) s = Some s' →
  net_inv s' ∧ n_b s' = n_b s ∧ n_ba s' = n_ba s ∧ n_written s' = n_written s.
Proof.
  intros [[P1 [P2 P3]] Hq Hc Hw Hab Hba Hr Hst Hk]. cbn [net_step]. unfold retransmit. destruct (closed _) eqn:Ecl.
  { intros [= <-]. unfold set_field. split; [|done]. constructor; cbn; try done. by rewrite app_nil_r. }
  intros [= <-]. unfold set_field. split; [|done].
  constructor; cbn [n_a n_b n_ab n_ba n_written n_read relayHeader delivering nextSendSeq sendWin]; try done.
  - intros k p Hp. rewrite lookup_fmap in Hp. apply fmap_Some in Hp as (q & Hq' & ->).
    unfold resend. destruct (due now q); exact (Hw k q Hq').
  - intros d [Hin|Hin]%elem_of_app; [by apply Hab|]. left.
    apply list_elem_of_In, in_map_iff in Hin as ([k p] & <- & [Hp _]%filter_In).
    apply list_elem_of_In, elem_of_map_to_list in Hp. exists k. unfold sendPacket. rewrite P1. by apply Hw.
  - intros k Hlt. rewrite lookup_fmap. destruct (Hk k Hlt) as [[p ->]|]; [left; by eexists|by right].
Qed.

Lemma to_b_inv now i s s' :
  Z.of_nat (length (n_written s)) < 2 ^ 32 → net_inv s → step (NToB now i) s = Some s' →
  net_inv s' ∧ n_written s' = n_written s ∧ nextRecvSeq (n_b s) ≤ nextRecvSeq (n_b s')
  ∧ (acks_true s → within_reach s → acks_true s').
Proof.
  intros Hlen Hs. pose proof Hs as [[P1 [P2 P3]] Hq Hc Hw Hab Hba Hr Hst Hk]. cbn [net_step].
  intros (d & Hd & ([b acks] & E & [= <-])%bind_Some)%bind_Some.
  assert (closed (n_b s) = false ∧ delivering (n_b s) = []) as [Hcl Hdl].
  { unfold handle_packet in E. destruct (closed _); [done|]. case_bool_decide; done. }
  apply list_elem_of_lookup_2, Hab in Hd as [(k & c & H0 & Hck & ->)| ->].
  - assert (u32 k) as Hk32 by (apply lookup_lt_Some in Hck; lia).
    assert (length c ≤ maxPacketSize - 6)%nat as Hlc by (apply Hc; by eapply list_elem_of_lookup_2).
    rewrite (handle_data now k c (n_b s) Hcl Hdl Hk32 Hlc) in E. injection E as <- <-.
    set (t := (n_b s) <| lastRecvTime := now |>).
    destruct (recv_data_spec (n_written s) k c t) as ((S1 & S2 & S3 & S4 & S5 & S6 & S7) & Hr' & Hn & Et & Hh & Hh');
      [done|done|by destruct Hr|done|done|].
    change (sendPacket (n_b s) (packet pktTypeAck k [])) with (sendPacket t (packet pktTypeAck k [])).
    unfold set_field. split; [|split; [done|split; [done|]]].
    + constructor; cbn [n_a n_b n_ab n_ba n_written n_read]; try done.
      * by rewrite S2.
      * intros x [Hx| ->%list_elem_of_singleton]%elem_of_app; [by apply Hba|]. exists k. split; [done|]. unfold sendPacket.
        change (relayHeader t) with (relayHeader (n_b s)). by rewrite P2.
      * rewrite Et, concat_app, S5, S6. change (nextRecvSeq t) with (nextRecvSeq (n_b s)). rewrite Hst, Hdl. cbn [concat].
        rewrite app_nil_r, <- !(assoc_L (++)). done.
      * intros j Hj. destruct (Hk j Hj) as [|Hin]; [by left|right]. apply elem_of_app. by left.
    + intros Hat Hreach j Hj. cbn [n_ba n_b]. intros [Hin|Hin]%elem_of_app; [by apply Hh, Hat|].
      apply list_elem_of_singleton in Hin. unfold sendPacket in Hin. change (relayHeader t) with (relayHeader (n_b s)) in Hin.
      rewrite P2 in Hin. apply ack_inj in Hin as ->; [|done..]. by apply Hh'.
  - rewrite handle_keepalive in E by done. injection E as <- <-. unfold set_field. rewrite app_nil_r. split; [|done].
    constructor; cbn [n_a n_b n_ab n_ba n_written n_read]; try done. destruct Hr. by split.
Qed.

Lemma to_a_inv now i s s' :
  net_inv s → step (NToA now i) s = Some s' →
  net_inv s' ∧ n_b s' = n_b s ∧ n_ba s' = n_ba s ∧ n_written s' = n_written s.
Proof.
  intros [[P1 [P2 P3]] Hq Hc Hw Hab Hba Hr Hst Hk]. cbn [net_step].
  intros (d & Hd & ([a out] & E & [= <-])%bind_Some)%bind_Some.
  assert (closed (n_a s) = false) as Hcl by (unfold handle_packet in E; by destruct (closed _)).
  apply list_elem_of_lookup_2 in Hd. destruct (Hba d Hd) as (k & Hk32 & ->).
  rewrite (handle_ack now k (n_a s) Hcl P3 Hk32) in E. injection E as <- <-. unfold set_field. rewrite app_nil_r.
  split; [|done]. constructor; cbn [n_a n_b n_ab n_ba n_written n_read relayHeader delivering nextSendSeq sendWin]; try done.
  - intros j p [_ Hp]%lookup_delete_Some. by apply Hw.
  - intros j Hj. destruct (decide (j = k)) as [->|Hne]; [by right|].
    destruct (Hk j Hj) as [Hs|]; [left|by right]. by rewrite lookup_delete_ne.
Qed.

(** Events on the receiver's side of the channel. *)
Lemma deliver_inv s s' :
  net_inv s → step NDeliver s = Some s' →
  net_inv s' ∧ nextRecvSeq (n_b s') = nextRecvSeq (n_b s) ∧ recvBuf (n_b s') = recvBuf (n_b s)
  ∧ n_ba s' = n_ba s ∧ n_written s' = n_written s.
Proof.
  intros [[P1 [P2 P3]] Hq Hc Hw Hab Hba [R1 R2 R3] Hst Hk]. cbn [net_step]. intros (b & E & [= <-])%bind_Some.
  unfold deliverToChannel in E. destruct (delivering (n_b s)) as [|data rest] eqn:Ed; [done|]. cbn [andb] in E.
  destruct (_ <? _)%nat; [|done]. injection E as <-. unfold set_field. split; [|done].
  constructor; cbn [n_a n_b n_ab n_ba n_written n_read]; try done.
  - split; cbn; [done..|]. intros v Hv. apply R3. rewrite <- (assoc_L (++)) in Hv. done.
  - cbn. rewrite Hst, concat_app. cbn. rewrite app_nil_r, <- !(assoc_L (++)). done.
Qed.

Lemma read_inv k s s' :
  net_inv s → step (NRead k) s = Some s' →
  net_inv s' ∧ nextRecvSeq (n_b s') = nextRecvSeq (n_b s) ∧ recvBuf (n_b s') = recvBuf (n_b s)
  ∧ n_ba s' = n_ba s ∧ n_written s' = n_written s.
Proof.
  intros [[P1 [P2 P3]] Hq Hc Hw Hab Hba [R1 R2 R3] Hst Hk]. cbn [net_step].
  destruct (Read false k (n_b s)) as [[|[bytes b]]|] eqn:E; [done| |done]. intros [= <-]. unfold Read in E.
  case_bool_decide as Hp; cbn [negb andb] in E.
  - destruct (recvCh (n_b s)) as [|data rest] eqn:Ec; [by destruct (closed _)|]. injection E as <- <-.
    assert (length data ≤ maxPacketSize - 6)%nat as Hl by (apply Hc, R3; left).
    rewrite (take_ge (drop k data)) by (rewrite length_drop; unfold maxPacketSize in Hl; unfold partialSize; lia).
    unfold set_field. split; [|done]. constructor; cbn [n_a n_b n_ab n_ba n_written n_read]; try done.
    + split; cbn; [done..|]. intros v Hv. apply R3. by right.
    + cbn [nextRecvSeq partial recvCh delivering]. rewrite Hst, Hp. cbn. rewrite <- !(assoc_L (++)). f_equal.
      rewrite (assoc_L (++) (take k data)), take_drop. done.
  - injection E as <- <-. unfold set_field. split; [|done].
    constructor; cbn [n_a n_b n_ab n_ba n_written n_read]; try done.
    cbn [nextRecvSeq partial recvCh delivering]. rewrite Hst, <- !(assoc_L (++)). f_equal.
    by rewrite (assoc_L (++) (take k _)), take_drop.
Qed.

Lemma other_inv e s s' :
  (e = NKeepalive ∨ ∃ now, e = NTimeoutB now) → net_inv s → step e s = Some s' →
  net_inv s' ∧ nextRecvSeq (n_b s') = nextRecvSeq (n_b s) ∧ recvBuf (n_b s') = recvBuf (n_b s)
  ∧ n_ba s' = n_ba s ∧ n_written s' = n_written s.
Proof.
  intros [->|[now ->]] [[P1 [P2 P3]] Hq Hc Hw Hab Hba [R1 R2 R3] Hst Hk]; cbn [net_step]; intros [= <-]; unfold set_field.
  - split; [|done]. constructor; try done. cbn [n_ab n_a n_written]. intros d [Hd|Hd]%elem_of_app; [by apply Hab|].
    right. unfold keepalive in Hd. destruct (closed _); [by apply elem_of_nil in Hd|]. unfold sendPacket in Hd. rewrite P1 in Hd.
    by apply list_elem_of_singleton in Hd.
  - unfold read_timeout. destruct (_ <? _); unfold set_field; (split; [|done]); (constructor; try done; by split).
Qed.

(** A step keeps the invariant; a held number stays held. *)
Lemma step_inv e s s' :
  Z.of_nat (S (length (n_written s))) < 2 ^ 32 → net_inv s → step e s = Some s' →
  net_inv s' ∧ (length (n_written s') ≤ S (length (n_written s)))%nat
  ∧ (acks_true s → within_reach s → acks_true s').
Proof.
  intros Hlen Hs E. destruct e as [now b|now| |now i|now i| |k|now].
  - destruct (write_inv _ _ _ _ Hlen Hs E) as (? & Eb & Eba & El). unfold acks_true. by rewrite Eb, Eba, El.
  - destruct (retransmit_inv _ _ _ Hs E) as (? & Eb & Eba & El). unfold acks_true. rewrite Eb, Eba, El. split_and!; [done|lia|done].
  - destruct (other_inv _ _ _ (or_introl eq_refl) Hs E) as (? & E1 & E2 & Eba & El).
    unfold acks_true, held. rewrite E1, E2, Eba, El. split_and!; [done|lia|done].
  - assert (Z.of_nat (length (n_written s)) < 2 ^ 32) as Hl by lia.
    destruct (to_b_inv _ _ _ _ Hl Hs E) as (? & El & _ & Ha). rewrite El. split_and!; [done|lia|done].
  - destruct (to_a_inv _ _ _ _ Hs E) as (? & Eb & Eba & El). unfold acks_true. rewrite Eb, Eba, El. split_and!; [done|lia|done].
  - destruct (deliver_inv _ _ Hs E) as (? & E1 & E2 & Eba & El).
    unfold acks_true, held. rewrite E1, E2, Eba, El. split_and!; [done|lia|done].
  - destruct (read_inv _ _ _ Hs E) as (? & E1 & E2 & Eba & El).
    unfold acks_true, held. rewrite E1, E2, Eba, El. split_and!; [done|lia|done].
  - destruct (other_inv _ _ _ (or_intror (ex_intro _ now eq_refl)) Hs E) as (? & E1 & E2 & Eba & El).
    unfold acks_true, held. rewrite E1, E2, Eba, El. split_and!; [done|lia|done].
Qed.

(** The sender stays within reach at every step. *)
Fixpoint keeps_reach (es : list NetEvent) (s : Net) : Prop :=
  within_reach s ∧
  match es with
  | [] => True
  | e :: es => match step e s with Some s' => keeps_reach es s' | None => True end
  end.

Lemma run_inv es : ∀ s s',
  Z.of_nat (length (n_written s) + length es) < 2 ^ 32 → net_inv s → run es s = Some s' →
  net_inv s' ∧ Z.of_nat (length (n_written s')) < 2 ^ 32 ∧ (acks_true s → keeps_reach es s → acks_true s').
Proof.
  induction es as [|e es IH]; intros s s' Hlen Hs; cbn [net_run keeps_reach].
  { intros [= <-]. split; [done|]. split; [lia|by intros]. }
  intros (s1 & E1 & E)%bind_Some. cbn [length] in Hlen. rewrite E1.
  destruct (step_inv e s s1 ltac:(lia) Hs E1) as (Hs1 & Hl1 & Ha1).
  destruct (IH s1 s' ltac:(lia) Hs1 E) as (Hs' & Hl' & Ha'). split; [done|]. split; [done|]. intros Ha [Hw Hr]. by apply Ha', Hr; apply Ha1.
Qed.

(** C17: the reader sees the stream of the writer.  Over any network that loses,
    repeats, delays and reorders datagrams, with any retransmissions and any sizes
    of reads, what was read is always a prefix of what was written - nothing is
    lost in between, doubled, reordered or made up (for fewer than 2^32 packets). *)
Theorem tunnel_reads_prefix (now : Z) (es : list NetEvent) (s : Net) :
  Z.of_nat (length es) < 2 ^ 32 → run es (net_start now) = Some s →
  ∃ rest, concat (n_written s) = n_read s ++ rest.
Proof.
  intros Hlen E. destruct (run_inv es (net_start now) s Hlen (proj1 (net_start_inv now)) E) as [[_ _ _ _ _ _ [Hn _ _] Hst _] _].
  eexists. rewrite <- (take_drop (Z.to_nat (nextRecvSeq (n_b s))) (n_written s)) at 1.
  rewrite concat_app, Hst, <- (assoc_L (++)). reflexivity.
Qed.

(** C18: nothing is missing once everything is acknowledged.  As long as the sender
    never got more than 1025 packets ahead of what the receiver put in order, an
    empty send window means that every byte written was read or is on its way to the
    reader, in order. *)
Theorem tunnel_complete (now : Z) (es : list NetEvent) (s : Net) :
  Z.of_nat (length es) < 2 ^ 32 → run es (net_start now) = Some s → keeps_reach es (net_start now) →
  sendWin (n_a s) = ∅ →
  concat (n_written s) = n_read s ++ partial (n_b s) ++ concat (recvCh (n_b s)) ++ concat (delivering (n_b s)).
Proof.
  intros Hlen E Hreach Hwin. destruct (net_start_inv now) as [H0 H0'].
  destruct (run_inv es (net_start now) s Hlen H0 E) as (Hs & Hl & Ha). specialize (Ha H0' Hreach).
  pose proof Hs as [_ _ _ _ _ _ [Hn Hb _] Hst Hk]. rewrite <- Hst.
  destruct (decide (nextRecvSeq (n_b s) = Z.of_nat (length (n_written s)))) as [->|Hne].
  { by rewrite Nat2Z.id, firstn_all. }
  exfalso. destruct (Hk (nextRecvSeq (n_b s))) as [Hw|Hack]; [lia|rewrite Hwin in Hw; by destruct Hw|].
  apply Ha in Hack as [|[v Hv]]; [lia| |lia]. apply Hb in Hv as [? _]. lia.
Qed.

(** ** Beyond the reach of the buffer *)

(** The receiver waits for packet [k] with nothing left to read, and only later
    packets are unacknowledged or among the datagrams from the [m]-th on. *)
Record stuck (k : Z) (m : nat) (s : Net) : Prop := {
  sk_inv : net_inv s;
  sk_next : nextRecvSeq (n_b s) = k;
  sk_empty : partial (n_b s) = [] ∧ recvCh (n_b s) = [] ∧ delivering (n_b s) = [];
  sk_sent : k < nextSendSeq (n_a s);
  sk_win : ∀ j p, sendWin (n_a s) !! j = Some p → k < j;
  sk_ab : ∀ i d, (m ≤ i)%nat → n_ab s !! i = Some d →
    (∃ j, k < j ∧ is_data (n_written s) j d) ∨ d = packet pktTypeKeepalive 0 [];
  sk_len : (m ≤ length (n_ab s))%nat;
}.

(** Only datagrams from the [m]-th on are delivered. *)
Definition newer (m : nat) (e : NetEvent) : Prop := match e with NToB _ i => (m ≤ i)%nat | _ => True end.

(** Appended datagrams that come late enough keep the clause of [stuck]. *)
Lemma late_app k m cs (l ds : list (list Z)) :
  (∀ i d, (m ≤ i)%nat → l !! i = Some d → (∃ j, k < j ∧ is_data cs j d) ∨ d = packet pktTypeKeepalive 0 []) →
  (∀ d, d ∈ ds → (∃ j, k < j ∧ is_data cs j d) ∨ d = packet pktTypeKeepalive 0 []) →
  ∀ i d, (m ≤ i)%nat → (l ++ ds) !! i = Some d → (∃ j, k < j ∧ is_data cs j d) ∨ d = packet pktTypeKeepalive 0 [].
Proof.
  intros Hl Hds i d Hi [Hd|[_ Hd]]%lookup_app_Some; [by eapply Hl|]. apply Hds. by eapply list_elem_of_lookup_2.
Qed.

Lemma stuck_step k m e s s' :
  Z.of_nat (S (length (n_written s))) < 2 ^ 32 → newer m e → stuck k m s → step e s = Some s' →
  stuck k m s' ∧ n_read s' = n_read s.
Proof.
  intros Hlen He [Hs Hn (Ep & Ec & Ed) Hsent Hw Hab Hm] E.
  pose proof (step_inv e s s' Hlen Hs E) as (Hs' & _ & _).
  pose proof Hs as [[P1 [P2 P3]] Hq Hc Hwd Habd Hba Hr Hst Hk].
  destruct e as [now b|now| |now i|now i| |j|now]; cbn [net_step] in E.
  - case_bool_decide; [done|]. unfold write_round in E. destruct (closed _); [done|]. destruct (_ <=? _)%nat; [done|].
    injection E as <-. unfold set_field in *. split; [|done].
    constructor; cbn [n_a n_b n_ab n_ba n_written n_read sendWin nextSendSeq] in *; try done.
    + rewrite wrap_small by lia. lia.
    + intros j p [[<- <-]|[_ Hp]]%lookup_insert_Some; [lia|by eapply Hw].
    + apply late_app.
      * intros i d Hi Hd. destruct (Hab i d Hi Hd) as [(j & Hj & Hj')|]; [left; exists j; split; [done|by apply is_data_app]|by right].
      * intros d ->%list_elem_of_singleton. left. exists (nextSendSeq (n_a s)). split; [done|].
        pose proof (ni_win _ Hs') as Hw'. cbn [n_a n_written sendWin] in Hw'. specialize (Hw' (nextSendSeq (n_a s))).
        rewrite lookup_insert_eq in Hw'. specialize (Hw' _ eq_refl). cbn [pp_data] in Hw'. unfold sendPacket. by rewrite P1.
    + rewrite length_app. lia.
  - unfold retransmit in E. destruct (closed (n_a s)) eqn:Ecl; injection E as <-; unfold set_field in *; (split; [|done]);
      constructor; cbn [n_a n_b n_ab n_ba n_written n_read sendWin nextSendSeq] in *; try done;
      try (rewrite ?length_app; lia).
    + apply late_app; [done|by intros d ?%elem_of_nil].
    + intros j p Hp. rewrite lookup_fmap in Hp. apply fmap_Some in Hp as (q & Hq' & _). by eapply Hw.
    + apply late_app; [done|]. intros d Hin. left.
      apply list_elem_of_In, in_map_iff in Hin as ([j p] & <- & [Hp _]%filter_In).
      apply list_elem_of_In, elem_of_map_to_list in Hp. exists j. split; [by eapply Hw|]. unfold sendPacket. rewrite P1. by apply Hwd.
  - injection E as <-. unfold set_field in *. split; [|done].
    constructor; cbn [n_a n_b n_ab n_ba n_written n_read] in *; try done; try (rewrite ?length_app; lia).
    apply late_app; [done|]. intros d Hd. right. unfold keepalive in Hd. destruct (closed _); [by apply elem_of_nil in Hd|].
    unfold sendPacket in Hd. rewrite P1 in Hd. by apply list_elem_of_singleton in Hd.
  - apply bind_Some in E as (d & Hd & E). apply bind_Some in E as ([b acks] & E & E'). injection E' as <-.
    assert (closed (n_b s) = false) as Hcl by (unfold handle_packet in E; by destruct (closed _)).
    destruct (Hab i d He Hd) as [(j & Hj & c & H0 & Hjc & ->)| ->].
    + assert (u32 j) as Hj32 by (apply lookup_lt_Some in Hjc; lia).
      assert (length c ≤ maxPacketSize - 6)%nat as Hlc by (apply Hc; by eapply list_elem_of_lookup_2).
      rewrite (handle_data now j c (n_b s) Hcl Ed Hj32 Hlc) in E. injection E as <- <-. unfold set_field in *. split; [|done].
      constructor; cbn [n_a n_b n_ab n_ba n_written n_read] in *; try done.
      all: unfold recv_data; cbn [nextRecvSeq recvBuf];
        destruct (Z.eqb_spec j (nextRecvSeq (n_b s))); [lia|];
        destruct (_ <? _); [|done]; destruct (_ && _); done.
    + rewrite (handle_keepalive now (n_b s) Hcl Ed) in E. injection E as <- <-. unfold set_field in *. split; [|done].
      by constructor.
  - apply bind_Some in E as (d & Hd & E). apply bind_Some in E as ([a out] & E & E'). injection E' as <-.
    assert (closed (n_a s) = false) as Hcl by (unfold handle_packet in E; by destruct (closed _)).
    apply list_elem_of_lookup_2 in Hd. destruct (Hba d Hd) as (j & Hj32 & ->).
    rewrite (handle_ack now j (n_a s) Hcl P3 Hj32) in E. injection E as <- <-. unfold set_field in *. rewrite app_nil_r in *.
    split; [|done]. constructor; cbn [n_a n_b n_ab n_ba n_written n_read sendWin nextSendSeq] in *; try done.
    intros x p [_ Hp]%lookup_delete_Some. by eapply Hw.
  - apply bind_Some in E as (b & E & _). unfold deliverToChannel in E. by rewrite Ed in E.
  - unfold Read in E. rewrite Ep, Ec in E. cbn in E. by destruct (closed (n_b s)).
  - injection E as <-. unfold set_field in *. split; [|done]. unfold read_timeout in *.
    destruct (_ <? _); by constructor.
Qed.

Lemma stuck_forever k m es : ∀ s s',
  Z.of_nat (length (n_written s) + length es) < 2 ^ 32 → Forall (newer m) es → stuck k m s → run es s = Some s' →
  n_read s' = n_read s.
Proof.
  induction es as [|e es IH]; intros s s' Hlen Hes Hs; cbn [net_run]; [by intros [= <-]|].
  apply Forall_cons in Hes as [He Hes]. cbn [length] in Hlen. intros (s1 & E1 & E)%bind_Some.
  assert (Z.of_nat (S (length (n_written s))) < 2 ^ 32) as Hl by lia.
  destruct (stuck_step k m e s s1 Hl He Hs E1) as [Hs1 <-].
  destruct (step_inv e s s1 Hl (sk_inv _ _ _ Hs) E1) as (_ & Hl1 & _). apply IH; [lia|done..].
Qed.

(** The first packet is late; the next 1024 fill the buffer; one more is
    acknowledged and dropped; then the first one arrives. *)
Definition stall_packet (k : nat) : list NetEvent := [NWrite 0 [7]; NToB 0 k; NToA 0 (k - 1)].
Definition stall_schedule : list NetEvent :=
  NWrite 0 [7] :: flat_map stall_packet (seq 1 1025) ++ [NToB 1 0; NToA 1 1025]
  ++ replicate 1024 NDeliver ++ replicate 1024 (NRead 10) ++ [NDeliver; NRead 10].

Definition stall_summary (s : Net) : bool :=
  bool_decide (nextRecvSeq (n_b s) = 1025) && bool_decide (partial (n_b s) = []) && bool_decide (recvCh (n_b s) = [])
  && bool_decide (delivering (n_b s) = []) && bool_decide (nextSendSeq (n_a s) = 1026) && bool_decide (size (sendWin (n_a s)) = O)
  && bool_decide (length (n_ab s) = 1026%nat) && bool_decide (length (n_written s) = 1026%nat)
  && bool_decide (concat (n_written s) = replicate 1026 7) && bool_decide (n_read s = replicate 1025 7).

Lemma stall_computed : stall_summary <$> run stall_schedule (net_start 0) = Some true.
Proof. vm_compute. reflexivity. Qed.

Lemma stall_reached : ∃ s, run stall_schedule (net_start 0) = Some s ∧ stall_summary s = true.
Proof. pose proof stall_computed as H. apply fmap_Some in H as (s & E & Hs). exact (ex_intro _ s (conj E (eq_sym Hs))). Qed.

Lemma stall_short : Z.of_nat (length stall_schedule) < 2 ^ 32.
Proof. vm_compute. reflexivity. Qed.

(** The tunnel can lose a packet for good.  There is a run in which every
    packet is acknowledged and the send window is empty, so nothing will be sent
    again, while one packet never reached the reader: the receiver acknowledged it
    and then dropped it, its reordering buffer being full.  From there on, whatever
    is written, retransmitted and delivered, the reader never gets another byte. *)
Theorem tunnel_stalls :
  ∃ es s, run es (net_start 0) = Some s
    ∧ sendWin (n_a s) = ∅ ∧ n_read s ≠ concat (n_written s)
    ∧ partial (n_b s) = [] ∧ recvCh (n_b s) = [] ∧ delivering (n_b s) = []
    ∧ ∀ es' s', Z.of_nat (length es') < 2 ^ 31 → Forall (newer (length (n_ab s))) es' → run es' s = Some s' →
        n_read s' = n_read s.
Proof.
  destruct stall_reached as (s & E & Hc). exists stall_schedule, s. split; [exact E|]. unfold stall_summary in Hc.
  rewrite !andb_true_iff, !bool_decide_eq_true in Hc. destruct Hc as (((((((((H1 & H2) & H3) & H4) & H5) & H6) & H7) & H8) & H9) & H10).
  apply map_size_empty_inv in H6. split; [exact H6|]. split; [rewrite H9, H10; by vm_compute|].
  split; [exact H2|]. split; [exact H3|]. split; [exact H4|]. intros es' s' Hl Hes Hrun. clear H9 H10.
  destruct (run_inv stall_schedule (net_start 0) s stall_short (proj1 (net_start_inv 0)) E) as [Hs _].
  apply (stuck_forever 1025 (length (n_ab s)) es' s s'); [rewrite H8; lia|exact Hes| |exact Hrun].
  constructor; [exact Hs|exact H1|exact (conj H2 (conj H3 H4))|lia|by rewrite H6| |lia].
  intros i d Hi Hd. apply lookup_lt_Some in Hd. lia.
Qed.
End tunnel.

(** ** Examples *)

(** Two writes, the second packet first and twice. *)
Definition demo_schedule : list NetEvent :=
  [NWrite 0 (lit "hello "); NWrite 0 (lit "world"); NToB 0 1; NToB 0 1; NRetransmit (200 * tunnelMillisecond); NToB 0 0;
   NToA 0 0; NToA 0 2; NDeliver; NDeliver; NRead 4; NRead 100].

Lemma demo_schedule_short : Z.of_nat (length demo_schedule) < 2 ^ 32.
Proof. reflexivity. Qed.

Lemma tunnel_reads_prefix_witness :
  match net_run id Some demo_schedule (net_start 0) with
  | Some s => n_read s = lit "hello " ∧ ∃ rest, concat (n_written s) = n_read s ++ rest
  | None => False
  end.
Proof.
  destruct (net_run id Some demo_schedule (net_start 0)) as [s|] eqn:E; [|by vm_compute in E].
  split.
  - assert (n_read <$> net_run id Some demo_schedule (net_start 0) = Some (lit "hello ")) as H by (vm_compute; reflexivity).
    exact (fmap_value _ _ _ _ E H).
  - exact (tunnel_reads_prefix id Some (fun _ => eq_refl) 0 demo_schedule s demo_schedule_short E).
Defined.

Lemma tunnel_complete_witness :
  match net_run id Some demo_schedule (net_start 0) with
  | Some s => concat (n_written s) = n_read s ++ partial (n_b s) ++ concat (recvCh (n_b s)) ++ concat (delivering (n_b s))
  | None => False
  end.
Proof.
  destruct (net_run id Some demo_schedule (net_start 0)) as [s|] eqn:E; [|by vm_compute in E].
  apply (tunnel_complete id Some (fun _ => eq_refl) 0 demo_schedule s demo_schedule_short E).
  - vm_compute. repeat split; intros H; discriminate H.
  - assert ((fun s => size (sendWin (n_a s))) <$> net_run id Some demo_schedule (net_start 0) = Some O) as H
      by (vm_compute; reflexivity).
    apply map_size_empty_inv. exact (fmap_value _ _ _ _ E H).
Defined.

Lemma tunnel_stalls_witness :
  ∃ es s, net_run id Some es (net_start 0) = Some s ∧ sendWin (n_a s) = ∅ ∧ n_read s ≠ concat (n_written s).
Proof.
  destruct (tunnel_stalls id Some (fun _ => eq_refl)) as (es & s & H1 & H2 & H3 & _).
  exists es, s. split; [exact H1|]. split; [exact H2|exact H3].
Defined.
