(* ===== verification/P2pRelay.v ===== *)
(** * The UDP relay and STUN server ([internal/p2p/stun_server.go])

    The read loop admits datagrams into a bounded queue; workers answer STUN
    requests and relay tagged datagrams between the two ends of a session, each
    learnt from its first datagram.  Whether a source belongs to an active session
    is asked of the control plane, before the lock and again under it; each answer
    is an argument.  The socket is an IPv4 one: an address has four bytes.

    A session is kept by value: whoever deletes one holds the lock and deletes the
    current one.  The log lines are left out, their sampling counter is not. *)

From S2P Require Import Prelude GoNet GoText GoFloat GoBinary Ratelimit Limits P2pStun P2pTunnel.

Open Scope Z_scope.

Definition relayMarker : Z := 255.
Definition relaySessionTTL : Z := 5 * Minute.
Definition maxSessionIDLen : nat := 64.
Definition maxUDPPayloadSize : nat := 1400.
Definition maxRelayDatagramSize : nat := 1 + 1 + maxSessionIDLen + maxUDPPayloadSize.

Record UDPAddr := mkAddr { ua_IP : list Z; ua_Port : Z }.
#[export] Instance UDPAddr_eq_dec : EqDecision UDPAddr.
Proof. solve_decision. Defined.

(** [IP.String] of four bytes. *)
Definition ip_string (ip : list Z) : string :=
  match map decimal ip with
  | [a; b; c; d] => string_of (a ++ [46] ++ b ++ [46] ++ c ++ [46] ++ d)
  | _ => "?"%string
  end.

Record stunTask := mkTask { tk_data : list Z; tk_addr : UDPAddr; tk_isRelay : bool }.

(** [rs_peers] holds [peers[:count]]. *)
Record relaySession := mkRelaySession {
  rs_peers : list UDPAddr;
  rs_lastSeen : Z;
  rs_creatorIP : string;
  rs_byteLimiter : Bucket;
}.
#[export] Instance relaySession_eta : Eta relaySession := fun s =>
  mkRelaySession (rs_peers s) (rs_lastSeen s) (rs_creatorIP s) (rs_byteLimiter s).

Record STUNServer := mkStunServer {
  relaySessions : gmap gostring relaySession;
  relayCountPerIP : gmap string Z;
  relayByteGlobal : Bucket;
  invalidPktCount : Z;
  taskQueue : list stunTask;
  udpLimiterPerIP : KeyedLimiter;
  udpLimiterGlobal : Bucket;
  limits : UDP.Limits;
}.
#[export] Instance STUNServer_eta : Eta STUNServer := fun s =>
  mkStunServer (relaySessions s) (relayCountPerIP s) (relayByteGlobal s) (invalidPktCount s) (taskQueue s)
    (udpLimiterPerIP s) (udpLimiterGlobal s) (limits s).

(** Everything [NewSTUNServerWithValidatorAndLimits] builds once the socket is open. *)
Definition NewSTUNServer (l : UDP.Limits) (now : Z) : result LimitError STUNServer :=
  let l := UDP.normalizeLimits l in
  match UDP.ValidateLimits l with
  | Some e => Err e
  | None => Ok (mkStunServer ∅ ∅
      (NewBucket (float_of (UDP.RelayBytesGlobal l)) (float_of (UDP.RelayBytesBurstGlobal l)) now) 0 []
      (NewKeyedLimiter (UDP.PacketsPerIPRate l) (UDP.PacketsPerIPBurst l) (UDP.LimiterMaxKeys l)
         (UDP.LimiterIdleSeconds l * Second))
      (NewBucket (UDP.PacketsGlobalRate l) (UDP.PacketsGlobalBurst l) now) l)
  end.

Definition logSampledInvalidPacket (s : STUNServer) : STUNServer :=
  s <| invalidPktCount := wrap 64 (invalidPktCount s + 1) |>.

Definition shouldSample (n every : Z) : bool := (every <=? 1) || ((n - 1) mod every =? 0).

(** ** Headers *)

Definition parseRelayHeader (data : list Z) : option (gostring * list Z) :=
  match data with
  | marker :: sidLen :: rest =>
      if negb (marker =? relayMarker) then None
      else if (sidLen =? 0) || (Z.of_nat maxSessionIDLen <? sidLen) then None
      else if (length rest <? Z.to_nat sidLen)%nat then None
      else Some (firstn (Z.to_nat sidLen) rest, drop (Z.to_nat sidLen) rest)
  | _ => None
  end.

(** ** The read loop *)

(** [serve] on one datagram. *)
Definition serve (now : Z) (datagram : list Z) (from : UDPAddr) (s : STUNServer) : STUNServer :=
  let data := firstn (S maxRelayDatagramSize) datagram in
  let (ok, perIP) := KeyedAllow now (ip_string (ua_IP from)) (udpLimiterPerIP s) in
  let s := s <| udpLimiterPerIP := perIP |> in
  if negb ok then logSampledInvalidPacket s else
  let (ok, global) := Allow now (udpLimiterGlobal s) in
  let s := s <| udpLimiterGlobal := global |> in
  if negb ok then logSampledInvalidPacket s else
  let isRelay := match data with m :: _ => m =? relayMarker | [] => false end in
  if isRelay && (maxRelayDatagramSize <? length data)%nat then logSampledInvalidPacket s
  else if Z.of_nat (length (taskQueue s)) <? UDP.TaskQueueDepth (limits s)
  then s <| taskQueue := taskQueue s ++ [mkTask data from isRelay] |>
  else logSampledInvalidPacket s.

(** ** Relaying *)

Definition same_addr (a b : UDPAddr) : bool := IP_Equal (ua_IP a) (ua_IP b) && (ua_Port a =? ua_Port b).

(** The index of the first peer a test accepts. *)
Fixpoint find_peer (test : UDPAddr → bool) (i : nat) (peers : list UDPAddr) : option nat :=
  match peers with
  | [] => None
  | p :: peers => if test p then Some i else find_peer test (S i) peers
  end.

(** Find or register the sender: its index and the peers; [None] when the session
    is full and the sender is unknown. *)
Definition place_peer (from : UDPAddr) (peers : list UDPAddr) : option (nat * list UDPAddr) :=
  match find_peer (fun p => same_addr p from) 0 peers with
  | Some i => Some (i, peers)
  | None =>
      if (2 <=? length peers)%nat then
        match find_peer (fun p => IP_Equal (ua_IP p) (ua_IP from)) 0 peers with
        | Some i => Some (i, <[i := from]> peers)
        | None => None
        end
      else Some (length peers, peers ++ [from])
  end.

Definition per_ip (s : STUNServer) (ip : string) : Z := default 0 (relayCountPerIP s !! ip).

(** The session of [sid], a new one where the limits allow it. *)
Definition session_for (now : Z) (sid : gostring) (from : UDPAddr) (s : STUNServer) : option (relaySession * STUNServer) :=
  match relaySessions s !! sid with
  | Some session => Some (session, s)
  | None =>
      let ip := ip_string (ua_IP from) in
      if (UDP.MaxRelaySessionsTotal (limits s) <=? Z.of_nat (size (relaySessions s)))
         || (UDP.MaxRelaySessionsPerIP (limits s) <=? per_ip s ip) then None else
      let session := mkRelaySession [] now ip
        (NewBucket (float_of (UDP.RelayBytesPerSession (limits s))) (float_of (UDP.RelayBytesBurstSession (limits s))) now) in
      Some (session, s <| relaySessions := <[sid := session]> (relaySessions s) |>
                       <| relayCountPerIP := <[ip := per_ip s ip + 1]> (relayCountPerIP s) |>)
  end.

Definition put_session (sid : gostring) (session : relaySession) (s : STUNServer) : STUNServer :=
  s <| relaySessions := <[sid := session]> (relaySessions s) |>.

(** The part of [handleRelayPacket] under [relayMu], with the datagram to forward. *)
Definition relay_locked (now : Z) (valid : bool) (sid : gostring) (payload : list Z) (from : UDPAddr) (s : STUNServer)
  : STUNServer * option (list Z * UDPAddr) :=
  if negb valid then (logSampledInvalidPacket s, None) else
  match session_for now sid from s with
  | None => (logSampledInvalidPacket s, None)
  | Some (session, s) =>
      match place_peer from (rs_peers session) with
      | None => (s, None)
      | Some (peerIdx, peers) =>
          let session := session <| rs_peers := peers |> in
          match peers !! (1 - peerIdx)%nat with
          | None => (put_session sid (session <| rs_lastSeen := now |>) s, None)
          | Some target =>
              let n := float_of (Z.of_nat (length payload)) in
              let (ok, b) := AllowN now n (rs_byteLimiter session) in
              let session := session <| rs_byteLimiter := b |> in
              if negb ok then (logSampledInvalidPacket (put_session sid session s), None) else
              let (ok, g) := AllowN now n (relayByteGlobal s) in
              let s := s <| relayByteGlobal := g |> in
              if negb ok then (logSampledInvalidPacket (put_session sid session s), None) else
              (put_session sid (session <| rs_lastSeen := now |>) s, Some (payload, target))
          end
      end
  end.

(** [handleRelayPacket]; [valid1] and [valid2] are the answers of the control plane
    before the lock and under it. *)
Definition handleRelayPacket (now : Z) (valid1 valid2 : gostring → list Z → bool) (data : list Z) (from : UDPAddr)
  (s : STUNServer) : STUNServer * option (list Z * UDPAddr) :=
  match parseRelayHeader data with
  | None => (logSampledInvalidPacket s, None)
  | Some (sid, payload) =>
      if bool_decide (payload = []) then (logSampledInvalidPacket s, None)
      else if negb (valid1 sid (ua_IP from)) then (logSampledInvalidPacket s, None)
      else relay_locked now (valid2 sid (ua_IP from)) sid payload from s
  end.

(** [handlePacket]. *)
Definition handlePacket (data : list Z) (from : UDPAddr) (s : STUNServer) : STUNServer * option (list Z * UDPAddr) :=
  match handle_stun data (ua_IP from) (ua_Port from) with
  | Some resp => (s, Some (resp, from))
  | None => (logSampledInvalidPacket s, None)
  end.

(** A worker takes the next task. *)
Definition worker (now : Z) (valid1 valid2 : gostring → list Z → bool) (s : STUNServer)
  : option (STUNServer * option (list Z * UDPAddr)) :=
  match taskQueue s with
  | [] => None
  | task :: rest =>
      let s := s <| taskQueue := rest |> in
      Some (if tk_isRelay task then handleRelayPacket now valid1 valid2 (tk_data task) (tk_addr task) s
            else handlePacket (tk_data task) (tk_addr task) s)
  end.

(** ** Removal *)

Definition deleteRelaySessionLocked (id : gostring) (s : STUNServer) : STUNServer :=
  match relaySessions s !! id with
  | None => s
  | Some cur =>
      let s := s <| relaySessions := delete id (relaySessions s) |> in
      if bool_decide (rs_creatorIP cur = ""%string) then s else
      let n := per_ip s (rs_creatorIP cur) in
      if n <=? 1 then s <| relayCountPerIP := delete (rs_creatorIP cur) (relayCountPerIP s) |>
      else s <| relayCountPerIP := <[rs_creatorIP cur := n - 1]> (relayCountPerIP s) |>
  end.

Definition InvalidateRelaySession (sid : gostring) (s : STUNServer) : STUNServer := deleteRelaySessionLocked sid s.

(** A tick of [cleanupRelaySessions]; [order] is the order of the map. *)
Definition cleanupRelaySessions (now : Z) (order : list gostring) (s : STUNServer) : STUNServer :=
  fold_left (fun s id => match relaySessions s !! id with
                         | Some session => if relaySessionTTL <? now - rs_lastSeen session then deleteRelaySessionLocked id s else s
                         | None => s
                         end) order s.

(** ** Events *)

Inductive UdpEvent :=
| UArrived (now : Z) (datagram : list Z) (from : UDPAddr)
| UWorked (now : Z) (valid1 valid2 : gostring → list Z → bool)
| UInvalidated (sid : gostring)
| UCleaned (now : Z) (order : list gostring).

Definition udp_step (e : UdpEvent) (s : STUNServer) : option (STUNServer * option (list Z * UDPAddr)) :=
  match e with
  | UArrived now d from => Some (serve now d from s, None)
  | UWorked now v1 v2 => worker now v1 v2 s
  | UInvalidated sid => Some (InvalidateRelaySession sid s, None)
  | UCleaned now order => Some (cleanupRelaySessions now order s, None)
  end.

Fixpoint udp_run (es : list UdpEvent) (s : STUNServer) : option (STUNServer * list (list Z * UDPAddr)) :=
  match es with
  | [] => Some (s, [])
  | e :: es =>
      '(s, o) ← udp_step e s;
      '(s, out) ← udp_run es s;
      Some (s, option_list o ++ out)
  end.
