(* ===== verification/P2pRelayThms.v ===== *)
(** * What the UDP relay guarantees

    Its tables stay within the limits; what it forwards stays within a session whose
    ends the control plane vouched for; a tunnel over it reaches the other end. *)

From S2P Require Import Prelude GoNet GoText GoFloat GoBinary Ratelimit Limits P2pStun P2pTunnel P2pRelay.

Open Scope Z_scope.

(** ** Bounds *)

Definition created_by (s : STUNServer) (ip : string) : nat :=
  size (filter (fun kv => rs_creatorIP kv.2 = ip) (relaySessions s)).

Lemma ip_string_nonempty ip : ip_string ip ≠ ""%string.
Proof.
  unfold ip_string. destruct (map decimal ip) as [|a [|b [|c [|d [|? ?]]]]]; try done.
  by destruct a.
Qed.

Record udp_inv (s : STUNServer) : Prop := {
  ui_total : Z.of_nat (size (relaySessions s)) ≤ UDP.MaxRelaySessionsTotal (limits s);
  ui_count : ∀ ip, per_ip s ip = Z.of_nat (created_by s ip);
  ui_per_ip : ∀ ip, Z.of_nat (created_by s ip) ≤ UDP.MaxRelaySessionsPerIP (limits s);
  ui_creator : ∀ sid session, relaySessions s !! sid = Some session → rs_creatorIP session ≠ ""%string;
  ui_peers : ∀ sid session, relaySessions s !! sid = Some session → (length (rs_peers session) ≤ 2)%nat;
  ui_queue : Z.of_nat (length (taskQueue s)) ≤ UDP.TaskQueueDepth (limits s);
}.

(** Steps that leave the tables alone. *)
Lemma udp_inv_frame s s' :
  relaySessions s' = relaySessions s → relayCountPerIP s' = relayCountPerIP s → limits s' = limits s →
  (length (taskQueue s') ≤ length (taskQueue s))%nat → udp_inv s → udp_inv s'.
Proof.
  intros E1 E2 E3 Hq [H1 H2 H3 H4 H5 H6]. unfold per_ip, created_by in *.
  constructor; unfold per_ip, created_by; rewrite ?E1, ?E2, ?E3; try done. lia.
Qed.

(** Replacing a session by one of the same creator. *)
Lemma put_session_inv sid session session' s :
  relaySessions s !! sid = Some session → rs_creatorIP session' = rs_creatorIP session →
  (length (rs_peers session') ≤ 2)%nat → udp_inv s → udp_inv (put_session sid session' s).
Proof.
  intros Hs Hc Hl [H1 H2 H3 H4 H5 H6].
  assert (∀ ip, created_by (put_session sid session' s) ip = created_by s ip) as Hcr.
  { intros ip. unfold created_by, put_session, set_field. cbn [relaySessions].
    apply size_filter_replace with session; [done|]. simpl. by rewrite Hc. }
  unfold put_session, set_field in *. constructor; cbn [relaySessions limits taskQueue] in *.
  - by rewrite map_size_insert_Some by eauto.
  - intros ip. rewrite Hcr. apply H2.
  - intros ip. rewrite Hcr. apply H3.
  - intros k x [[<- <-]|[_ Hk]]%lookup_insert_Some; [rewrite Hc; by eapply H4|by eapply H4].
  - intros k x [[<- <-]|[_ Hk]]%lookup_insert_Some; [done|by eapply H5].
  - done.
Qed.

Lemma session_for_inv now sid from s session s' :
  udp_inv s → session_for now sid from s = Some (session, s') →
  udp_inv s' ∧ relaySessions s' !! sid = Some session ∧ (length (rs_peers session) ≤ 2)%nat
  ∧ (rs_peers session = [] ∨ relaySessions s !! sid = Some session)
  ∧ limits s' = limits s ∧ taskQueue s' = taskQueue s ∧ relayByteGlobal s' = relayByteGlobal s
  ∧ (∀ k, k ≠ sid → relaySessions s' !! k = relaySessions s !! k).
Proof.
  intros Hs. pose proof Hs as [H1 H2 H3 H4 H5 H6]. unfold session_for.
  destruct (relaySessions s !! sid) as [x|] eqn:E.
  { intros [= <- <-]. split; [done|]. split; [done|]. split; [by eapply H5|]. by split_and!; [right|..]. }
  destruct (_ || _) eqn:Ht; [done|]. apply orb_false_iff in Ht as [T1%Z.leb_gt T2%Z.leb_gt].
  intros [= <- <-]. unfold set_field. cbn [relaySessions relayCountPerIP limits taskQueue].
  split; [|rewrite lookup_insert_eq; split_and!; [done|simpl; lia|by left|done..|]].
  2:{ intros k Hk. by rewrite lookup_insert_ne. }
  set (ip0 := ip_string (ua_IP from)) in *. set (x := mkRelaySession _ _ _ _).
  assert (∀ ip, size (filter (fun kv => rs_creatorIP kv.2 = ip) (<[sid := x]> (relaySessions s)))
    = ((if decide (ip0 = ip) then 1 else 0) + created_by s ip)%nat) as Hcr.
  { intros ip. by rewrite size_filter_insert. }
  constructor; unfold created_by, per_ip; cbn [relaySessions relayCountPerIP limits taskQueue].
  - rewrite map_size_insert_None by done. lia.
  - intros ip. rewrite Hcr. destruct (decide (ip0 = ip)) as [<-|Hne].
    + rewrite lookup_insert_eq. specialize (H2 ip0). unfold per_ip in H2. simpl. rewrite H2. lia.
    + rewrite lookup_insert_ne by done. apply H2.
  - intros ip. rewrite Hcr. destruct (decide (ip0 = ip)) as [<-|Hne]; [|apply H3]. rewrite H2 in T2. lia.
  - intros k y [[<- <-]|[_ Hk]]%lookup_insert_Some; [apply ip_string_nonempty|by eapply H4].
  - intros k y [[<- <-]|[_ Hk]]%lookup_insert_Some; [simpl; lia|by eapply H5].
  - done.
Qed.

Lemma find_peer_spec test i peers j :
  find_peer test i peers = Some j → ∃ p, (i ≤ j)%nat ∧ peers !! (j - i)%nat = Some p ∧ test p = true.
Proof.
  revert i. induction peers as [|p peers IH]; intros i; cbn [find_peer]; [done|].
  destruct (test p) eqn:E.
  - intros [= <-]. exists p. by rewrite Nat.sub_diag.
  - intros (q & Hle & Hq & Ht)%IH. exists q. split; [lia|]. split; [|done].
    replace (j - i)%nat with (S (j - S i)) by lia. done.
Qed.

Lemma place_peer_spec from peers i peers' :
  (length peers ≤ 2)%nat → place_peer from peers = Some (i, peers') →
  (length peers' ≤ 2)%nat ∧ (∀ p, p ∈ peers' → p = from ∨ p ∈ peers) ∧ ∀ q, peers' !! (1 - i)%nat = Some q → q ∈ peers.
Proof.
  intros Hl. unfold place_peer. destruct (find_peer _ 0 peers) as [j|] eqn:E.
  { intros [= <- <-]. apply find_peer_spec in E as (p & _ & Hp & _). rewrite Nat.sub_0_r in Hp.
    split; [lia|]. split; [by right|]. intros q Hq. by eapply list_elem_of_lookup_2. }
  destruct (Nat.leb_spec 2 (length peers)).
  - destruct (find_peer (fun p => IP_Equal _ _) 0 peers) as [j|] eqn:E2; [|done]. intros [= <- <-].
    apply find_peer_spec in E2 as (p & _ & Hp & _). rewrite Nat.sub_0_r in Hp. apply lookup_lt_Some in Hp.
    rewrite length_insert. split; [lia|]. split.
    + intros q Hq. apply list_elem_of_lookup_1 in Hq as [k Hk].
      apply list_lookup_insert_Some in Hk as [(_ & <- & _)|[_ Hk]]; [by left|right]. by eapply list_elem_of_lookup_2.
    + intros q Hq. apply list_lookup_insert_Some in Hq as [(Hj & _ & _)|[_ Hk]]; [lia|by eapply list_elem_of_lookup_2].
  - intros [= <- <-]. rewrite length_app. simpl. split; [lia|]. split.
    + intros q [Hq|Hq%list_elem_of_singleton]%elem_of_app; [by right|by left].
    + intros q Hq. apply lookup_app_Some in Hq as [Hq|[Hge Hq]]; [by eapply list_elem_of_lookup_2|].
      destruct (length peers) as [|[|]] eqn:El; [|lia..]. simpl in Hq. done.
Qed.

Lemma log_inv s : udp_inv s → udp_inv (logSampledInvalidPacket s).
Proof. by apply udp_inv_frame. Qed.

(** Under the lock: what changes, and what is forwarded. *)
Record locked_ok (valid : bool) (sid : gostring) (payload : list Z) (from : UDPAddr) (s s' : STUNServer)
  (o : option (list Z * UDPAddr)) : Prop := {
  lo_inv : udp_inv s';
  lo_limits : limits s' = limits s;
  lo_others : ∀ k, k ≠ sid → relaySessions s' !! k = relaySessions s !! k;
  lo_peers : ∀ session' p, relaySessions s' !! sid = Some session' → p ∈ rs_peers session' →
    valid = true ∧ p = from ∨ ∃ session, relaySessions s !! sid = Some session ∧ p ∈ rs_peers session;
  lo_out : ∀ d target, o = Some (d, target) →
    valid = true ∧ d = payload ∧ ∃ session, relaySessions s !! sid = Some session ∧ target ∈ rs_peers session;
}.

Lemma locked_frame valid sid payload from s s1 s' o :
  relaySessions s1 = relaySessions s' → relayCountPerIP s1 = relayCountPerIP s' → limits s1 = limits s' →
  taskQueue s1 = taskQueue s' → locked_ok valid sid payload from s s' o → locked_ok valid sid payload from s s1 o.
Proof.
  intros E1 E2 E3 E4 [H1 H2 H3 H4 H5]. constructor.
  - eapply udp_inv_frame; [exact E1|exact E2|exact E3|by rewrite E4|exact H1].
  - by rewrite E3.
  - intros k Hk. rewrite E1. by apply H3.
  - intros x p. rewrite E1. apply H4.
  - exact H5.
Qed.

Lemma locked_put sid payload from s s1 session session' peers o :
  udp_inv s1 → limits s1 = limits s → relaySessions s1 !! sid = Some session →
  (∀ k, k ≠ sid → relaySessions s1 !! k = relaySessions s !! k) →
  (rs_peers session = [] ∨ relaySessions s !! sid = Some session) →
  (length peers ≤ 2)%nat → (∀ p, p ∈ peers → p = from ∨ p ∈ rs_peers session) →
  rs_creatorIP session' = rs_creatorIP session → rs_peers session' = peers →
  (∀ d target, o = Some (d, target) → d = payload ∧ target ∈ rs_peers session) →
  locked_ok true sid payload from s (put_session sid session' s1) o.
Proof.
  intros Hs1 El Hx Hk Hor Hl Hp Hc <- Ho. constructor.
  - by eapply put_session_inv.
  - done.
  - intros k Hne. unfold put_session, set_field. cbn [relaySessions]. rewrite lookup_insert_ne by done. by apply Hk.
  - intros x p. unfold put_session, set_field. cbn [relaySessions]. rewrite lookup_insert_eq. intros [= <-] Hin.
    destruct (Hp p Hin) as [->|Hin']; [by left|right]. destruct Hor as [Hnil|Hs]; [rewrite Hnil in Hin'; by apply elem_of_nil in Hin'|].
    by exists session.
  - intros d target E. destruct (Ho d target E) as [-> Hin]. split; [done|]. split; [done|].
    destruct Hor as [Hnil|Hs]; [rewrite Hnil in Hin; by apply elem_of_nil in Hin|]. by exists session.
Qed.

Lemma locked_none valid sid payload from s : udp_inv s → locked_ok valid sid payload from s s None.
Proof. intros Hs. constructor; [done..| |done]. intros x p Hx Hp. right. by exists x. Qed.

Lemma relay_locked_ok now valid sid payload from s s' o :
  udp_inv s → relay_locked now valid sid payload from s = (s', o) → locked_ok valid sid payload from s s' o.
Proof.
  intros Hs. unfold relay_locked. destruct valid; cbn [negb].
  2:{ intros [= <- <-]. eapply locked_frame; [..|by apply locked_none]; done. }
  destruct (session_for now sid from s) as [[session s1]|] eqn:E1.
  2:{ intros [= <- <-]. eapply locked_frame; [..|by apply locked_none]; done. }
  destruct (session_for_inv _ _ _ _ _ _ Hs E1) as (Hs1 & Hx & Hl & Hor & El & Eq & Eg & Hk).
  destruct (place_peer from (rs_peers session)) as [[i peers]|] eqn:E2.
  2:{ intros [= <- <-]. replace s1 with (put_session sid session s1); [by eapply locked_put; [..|by right| | |]|].
      unfold put_session, set_field. rewrite insert_id by done. by destruct s1. }
  destruct (place_peer_spec _ _ _ _ Hl E2) as (Hl' & Hp & Hother).
  set (session1 := session <| rs_peers := peers |>).
  destruct (peers !! (1 - i)%nat) as [target|] eqn:Et.
  2:{ intros [= <- <-]. by eapply locked_put. }
  destruct (AllowN now _ (rs_byteLimiter session1)) as [[] b]; cbn [negb].
  2:{ intros [= <- <-]. eapply locked_frame; [..|by eapply (locked_put _ _ _ _ _ session (session1 <| rs_byteLimiter := b |>))]; done. }
  destruct (AllowN now _ (relayByteGlobal s1)) as [[] g]; cbn [negb].
  2:{ intros [= <- <-]. eapply locked_frame; [..|by eapply (locked_put _ _ _ _ _ session (session1 <| rs_byteLimiter := b |>))]; done. }
  intros [= <- <-].
  set (session2 := (session1 <| rs_byteLimiter := b |>) <| rs_lastSeen := now |>).
  apply (locked_frame _ _ _ _ _ _ (put_session sid session2 s1)); [done..|].
  apply (locked_put sid payload from s s1 session session2 peers _ Hs1 El Hx Hk Hor Hl' Hp eq_refl eq_refl).
  intros d q [= <- <-]. split; [done|]. by apply Hother.
Qed.

(** ** Removal *)

Lemma delete_inv sid s :
  udp_inv s → udp_inv (deleteRelaySessionLocked sid s)
    ∧ limits (deleteRelaySessionLocked sid s) = limits s
    ∧ relaySessions (deleteRelaySessionLocked sid s) = delete sid (relaySessions s).
Proof.
  intros Hs. pose proof Hs as [H1 H2 H3 H4 H5 H6]. unfold deleteRelaySessionLocked.
  destruct (relaySessions s !! sid) as [cur|] eqn:E; [|split_and!; [done..|by rewrite delete_id]].
  rewrite bool_decide_false by by eapply H4.
  assert (∀ ip, created_by s ip = ((if decide (rs_creatorIP cur = ip) then 1 else 0)
    + size (filter (fun kv => rs_creatorIP kv.2 = ip) (delete sid (relaySessions s))))%nat) as Hcr.
  { intros ip. unfold created_by. by rewrite (size_filter_delete _ _ _ _ E). }
  set (n := per_ip _ _). assert (n = per_ip s (rs_creatorIP cur)) as En by done. rewrite H2, Hcr, decide_True in En by done.
  assert (∀ cnt, (∀ ip, default 0 (cnt !! ip) = Z.of_nat (size (filter (fun kv => rs_creatorIP kv.2 = ip) (delete sid (relaySessions s))))) →
    udp_inv ((s <| relaySessions := delete sid (relaySessions s) |>) <| relayCountPerIP := cnt |>)) as Hmk.
  { intros cnt Hcnt. unfold set_field. constructor; unfold per_ip, created_by; cbn [relaySessions relayCountPerIP limits taskQueue]; try done.
    - rewrite map_size_delete_Some by eauto. lia.
    - intros ip. specialize (H3 ip). rewrite Hcr in H3. destruct (decide _); lia.
    - intros k x [_ Hk]%lookup_delete_Some. by eapply H4.
    - intros k x [_ Hk]%lookup_delete_Some. by eapply H5. }
  assert (∀ ip, ip ≠ rs_creatorIP cur → default 0 (relayCountPerIP s !! ip)
    = Z.of_nat (size (filter (fun kv => rs_creatorIP kv.2 = ip) (delete sid (relaySessions s))))) as Hother.
  { intros ip Hne. change (default 0 (relayCountPerIP s !! ip)) with (per_ip s ip). rewrite H2, Hcr, decide_False by done. lia. }
  destruct (Z.leb_spec n 1); (split; [|done]); apply Hmk; intros ip; destruct (decide (ip = rs_creatorIP cur)) as [->|Hne].
  - rewrite lookup_delete_eq. simpl. lia.
  - rewrite lookup_delete_ne by done. by apply Hother.
  - rewrite lookup_insert_eq. simpl. lia.
  - rewrite lookup_insert_ne by done. by apply Hother.
Qed.

Lemma cleanup_inv now order : ∀ s,
  udp_inv s → udp_inv (cleanupRelaySessions now order s) ∧ limits (cleanupRelaySessions now order s) = limits s
    ∧ relaySessions (cleanupRelaySessions now order s) ⊆ relaySessions s.
Proof.
  unfold cleanupRelaySessions. induction order as [|id order IH]; intros s Hs; cbn [fold_left]; [done|].
  set (s1 := match relaySessions s !! id with Some _ => _ | None => _ end).
  assert (udp_inv s1 ∧ limits s1 = limits s ∧ relaySessions s1 ⊆ relaySessions s) as (I1 & L1 & S1).
  { subst s1. destruct (relaySessions s !! id) as [x|]; [|done]. destruct (_ <? _); [|done].
    destruct (delete_inv id s Hs) as (? & ? & ->). split_and!; [done..|apply delete_subseteq]. }
  destruct (IH s1 I1) as (I2 & L2 & S2). split; [done|]. split; [by rewrite L2|by etrans].
Qed.

(** ** Runs *)

(** The sender that a worker's step admits to a session. *)
Definition admits (v1 v2 : gostring → list Z → bool) (s : STUNServer) : list (gostring * UDPAddr) :=
  match taskQueue s with
  | task :: _ =>
      if tk_isRelay task then
        match parseRelayHeader (tk_data task) with
        | Some (sid, payload) =>
            if negb (bool_decide (payload = [])) && v1 sid (ua_IP (tk_addr task)) && v2 sid (ua_IP (tk_addr task))
            then [(sid, tk_addr task)] else []
        | None => []
        end
      else []
  | [] => []
  end.

(** The senders admitted so far, less those of sessions invalidated since. *)
Fixpoint members (es : list UdpEvent) (s : STUNServer) (K : list (gostring * UDPAddr)) : list (gostring * UDPAddr) :=
  match es with
  | [] => K
  | e :: es =>
      match udp_step e s with
      | None => K
      | Some (s', _) =>
          members es s' (match e with
                         | UWorked _ v1 v2 => admits v1 v2 s ++ K
                         | UInvalidated sid => filter (fun x => x.1 ≠ sid) K
                         | _ => K
                         end)
      end
  end.

Definition known (s : STUNServer) (K : list (gostring * UDPAddr)) : Prop :=
  ∀ sid session p, relaySessions s !! sid = Some session → p ∈ rs_peers session → (sid, p) ∈ K.

(** A step of a worker on a relay datagram. *)
Lemma worker_relay now v1 v2 s s' o :
  udp_inv s → worker now v1 v2 s = Some (s', o) →
  (∃ task rest, taskQueue s = task :: rest ∧ tk_isRelay task = false
    ∧ handlePacket (tk_data task) (tk_addr task) (s <| taskQueue := rest |>) = (s', o))
  ∨ (admits v1 v2 s = [] ∧ o = None ∧ relaySessions s' = relaySessions s ∧ udp_inv s' ∧ limits s' = limits s)
  ∨ (∃ task rest sid payload, taskQueue s = task :: rest ∧ tk_isRelay task = true
    ∧ parseRelayHeader (tk_data task) = Some (sid, payload) ∧ v1 sid (ua_IP (tk_addr task)) = true
    ∧ admits v1 v2 s = (if v2 sid (ua_IP (tk_addr task)) then [(sid, tk_addr task)] else [])
    ∧ locked_ok (v2 sid (ua_IP (tk_addr task))) sid payload (tk_addr task) s s' o).
Proof.
  intros Hs. unfold worker, admits. destruct (taskQueue s) as [|task rest] eqn:Eq; [done|].
  assert (udp_inv (s <| taskQueue := rest |>)) as Hs1.
  { eapply udp_inv_frame; [..|exact Hs]; try done. unfold set_field. cbn [taskQueue]. rewrite Eq. simpl. lia. }
  destruct (tk_isRelay task) eqn:Er; intros [= E].
  2:{ left. exists task, rest. by rewrite E. }
  right. unfold handleRelayPacket in E. destruct (parseRelayHeader (tk_data task)) as [[sid payload]|] eqn:Ep.
  2:{ injection E as <- <-. left. split_and!; try done. by apply log_inv. }
  case_bool_decide as Hp; cbn [negb andb].
  { injection E as <- <-. left. split_and!; try done. by apply log_inv. }
  destruct (v1 sid (ua_IP (tk_addr task))) eqn:E1; cbn [negb andb] in *.
  2:{ injection E as <- <-. left. split_and!; try done. by apply log_inv. }
  right. exists task, rest, sid, payload. split_and!; try done.
  apply relay_locked_ok in E; [|done]. destruct E as [L1 L2 L3 L4 L5]. by constructor.
Qed.

Lemma handlePacket_frame data from s s' o :
  handlePacket data from s = (s', o) →
  relaySessions s' = relaySessions s ∧ relayCountPerIP s' = relayCountPerIP s ∧ limits s' = limits s ∧ taskQueue s' = taskQueue s.
Proof. unfold handlePacket. destruct (handle_stun _ _ _); by intros [= <- <-]. Qed.

Lemma serve_frame now d from s :
  udp_inv s → udp_inv (serve now d from s) ∧ limits (serve now d from s) = limits s
    ∧ relaySessions (serve now d from s) = relaySessions s.
Proof.
  intros Hs. unfold serve. destruct (KeyedAllow _ _ _) as [[] k]; cbn [negb]; [|by split_and!; [eapply udp_inv_frame; [..|exact Hs]|..]].
  destruct (Allow _ _) as [[] g]; cbn [negb]; [|by split_and!; [eapply udp_inv_frame; [..|exact Hs]|..]].
  destruct (_ && _); [by split_and!; [eapply udp_inv_frame; [..|exact Hs]|..]|].
  unfold set_field. cbn [taskQueue limits relaySessions].
  destruct (Z.ltb_spec (Z.of_nat (length (taskQueue s))) (UDP.TaskQueueDepth (limits s))) as [Hq|];
    [|by split_and!; [eapply udp_inv_frame; [..|exact Hs]|..]].
  split; [|done]. destruct Hs as [H1 H2 H3 H4 H5 H6].
  constructor; unfold per_ip, created_by in *; cbn [relaySessions relayCountPerIP limits taskQueue]; try done.
  rewrite length_app. simpl. lia.
Qed.

Lemma udp_step_inv e s s' o K :
  udp_inv s → known s K → udp_step e s = Some (s', o) →
  udp_inv s' ∧ limits s' = limits s
  ∧ known s' (match e with
              | UWorked _ v1 v2 => admits v1 v2 s ++ K
              | UInvalidated sid => filter (fun x => x.1 ≠ sid) K
              | _ => K
              end).
Proof.
  intros Hs HK. destruct e as [now d from|now v1 v2|sid|now order]; cbn [udp_step].
  - intros [= <- _]. destruct (serve_frame now d from s Hs) as (? & ? & E). split; [done|]. split; [done|].
    intros sid x p. rewrite E. apply HK.
  - intros Hw. destruct (worker_relay _ _ _ _ _ _ Hs Hw) as
      [(task & rest & Eq & Er & E)|[(Ha & _ & E & ? & ?)|(task & rest & sid & payload & Eq & Er & Ep & E1 & Ha & [L1 L2 L3 L4 L5])]].
    + apply handlePacket_frame in E as (E1 & E2 & E3 & E4).
      split; [apply (udp_inv_frame s s' E1 E2 E3); [|exact Hs]; rewrite E4; unfold set_field; cbn [taskQueue]; rewrite Eq; simpl; lia|].
      split; [done|]. intros k x p. rewrite E1. intros Hk Hp. apply elem_of_app. right. by eapply HK.
    + split; [done|]. split; [done|]. rewrite Ha. intros k x p. rewrite E. apply HK.
    + split; [done|]. split; [done|]. rewrite Ha. intros k x p Hk Hp. apply elem_of_app.
      destruct (decide (k = sid)) as [->|Hne]; [|right; rewrite L3 in Hk by done; by eapply HK].
      destruct (L4 x p Hk Hp) as [[-> ->]|(y & Hy & Hin)]; [left; by left|right; by eapply HK].
  - intros [= <- _]. unfold InvalidateRelaySession. destruct (delete_inv sid s Hs) as (? & ? & E). split; [done|]. split; [done|].
    intros k x p. rewrite E. intros [Hne Hk]%lookup_delete_Some Hp. apply list_elem_of_filter. split; [by apply not_eq_sym|by eapply HK].
  - intros [= <- _]. destruct (cleanup_inv now order s Hs) as (? & ? & E). split; [done|]. split; [done|].
    intros k x p Hk Hp. eapply HK; [|exact Hp]. by eapply lookup_weaken.
Qed.

Lemma udp_run_inv es : ∀ s s' out K,
  udp_inv s → known s K → udp_run es s = Some (s', out) →
  udp_inv s' ∧ limits s' = limits s ∧ known s' (members es s K).
Proof.
  induction es as [|e es IH]; intros s s' out K Hs HK; cbn [udp_run members]; [by intros [= <- _]|].
  intros ([s1 o1] & E1 & E)%bind_Some. apply bind_Some in E as ([s2 o2] & E2 & E). injection E as <- _. rewrite E1.
  destruct (udp_step_inv e s s1 o1 K Hs HK E1) as (Hs1 & El & HK1).
  destruct (IH s1 s2 o2 _ Hs1 HK1 E2) as (? & El2 & ?). split; [done|]. split; [by rewrite El2|done].
Qed.

Lemma fresh_server l now s : NewSTUNServer l now = Ok s → udp_inv s ∧ known s [].
Proof.
  unfold NewSTUNServer. destruct (UDP.ValidateLimits (UDP.normalizeLimits l)) eqn:Ev; [done|]. intros [= <-].
  set (l' := UDP.normalizeLimits l) in *. clearbody l'.
  apply UDP.udp_ValidateLimits_ok in Ev.
  destruct Ev as (_ & Hq & _ & _ & _ & _ & _ & _ & Ht & Hip & _).
  assert (∀ ip, size (filter (fun kv => rs_creatorIP kv.2 = ip) (∅ : gmap gostring relaySession)) = O) as Hemp
    by (intros ip; by rewrite map_filter_empty, map_size_empty).
  split; [|by intros sid x p ?].
  constructor; unfold per_ip, created_by; cbn [relaySessions relayCountPerIP limits taskQueue length].
  - rewrite map_size_empty. lia.
  - intros ip. rewrite Hemp. done.
  - intros ip. rewrite Hemp. lia.
  - done.
  - done.
  - lia.
Qed.

(** The state of the UDP relay stays bounded.  From any configuration it
    accepts, after any sequence of datagrams, worker steps, invalidations and
    cleanups: the sessions stay within the total limit, those created from one
    address within the limit per address - which the counters show exactly - a
    session has at most two ends, and the queue stays within its depth. *)
Theorem udp_relay_bounded (l : UDP.Limits) (now : Z) (es : list UdpEvent) (s0 s : STUNServer) (out : list (list Z * UDPAddr)) :
  NewSTUNServer l now = Ok s0 → udp_run es s0 = Some (s, out) →
  Z.of_nat (size (relaySessions s)) ≤ UDP.MaxRelaySessionsTotal (limits s0)
  ∧ (∀ ip, per_ip s ip = Z.of_nat (created_by s ip) ∧ per_ip s ip ≤ UDP.MaxRelaySessionsPerIP (limits s0))
  ∧ (∀ sid session, relaySessions s !! sid = Some session → (length (rs_peers session) ≤ 2)%nat)
  ∧ Z.of_nat (length (taskQueue s)) ≤ UDP.TaskQueueDepth (limits s0).
Proof.
  intros [H0 K0]%fresh_server Hrun. destruct (udp_run_inv es s0 s out [] H0 K0 Hrun) as ([H1 H2 H3 H4 H5 H6] & El & _).
  rewrite El in *. split; [done|]. split; [|done]. intros ip. rewrite H2. split; [done|apply H3].
Qed.

(** C19: the UDP relay forwards only within a session, between ends the control
    plane vouched for.  Whatever came before, when a worker sends something out it is
    either the answer to a STUN request, to its sender, or the payload of a tagged
    datagram, unchanged, whose sender the control plane accepted for that session
    under the lock, and its destination is an address that the control plane had
    accepted for the same session, not invalidated since. *)
Theorem udp_relay_isolated (l : UDP.Limits) (now0 now : Z) (es : list UdpEvent) (s0 s s' : STUNServer)
  (out : list (list Z * UDPAddr)) (v1 v2 : gostring → list Z → bool) (data : list Z) (target : UDPAddr) :
  NewSTUNServer l now0 = Ok s0 → udp_run es s0 = Some (s, out) →
  worker now v1 v2 s = Some (s', Some (data, target)) →
  ∃ task rest, taskQueue s = task :: rest
    ∧ (tk_isRelay task = false ∧ target = tk_addr task
       ∨ ∃ sid, parseRelayHeader (tk_data task) = Some (sid, data)
           ∧ v1 sid (ua_IP (tk_addr task)) = true ∧ v2 sid (ua_IP (tk_addr task)) = true
           ∧ (sid, target) ∈ members es s0 []).
Proof.
  intros [H0 K0]%fresh_server Hrun Hw. destruct (udp_run_inv es s0 s out [] H0 K0 Hrun) as (Hs & _ & HK).
  destruct (worker_relay _ _ _ _ _ _ Hs Hw) as
    [(task & rest & Eq & Er & E)|[(_ & E & _)|(task & rest & sid & payload & Eq & Er & Ep & E1 & _ & [_ _ _ _ L5])]]; [|done|].
  - exists task, rest. split; [done|]. left. split; [done|]. unfold handlePacket in E.
    destruct (handle_stun _ _ _); [|done]. by injection E.
  - destruct (L5 data target eq_refl) as (Ev & -> & x & Hx & Hp). exists task, rest. split; [done|]. right.
    exists sid. split_and!; [done..|]. by eapply HK.
Qed.

(** ** A tunnel over the relay *)

Lemma parse_relay_header sid payload :
  (1 ≤ length sid ≤ maxSessionIDLen)%nat → parseRelayHeader (makeRelayHeader sid ++ payload) = Some (sid, payload).
Proof.
  intros Hl. unfold parseRelayHeader, makeRelayHeader. cbn [app].
  assert (wrap 8 (Z.of_nat (length sid)) = Z.of_nat (length sid)) as -> by (apply wrap_small; unfold maxSessionIDLen in Hl; lia).
  rewrite Z.eqb_refl. cbn [negb]. destruct (Z.eqb_spec (Z.of_nat (length sid)) 0); [lia|].
  destruct (Z.ltb_spec (Z.of_nat maxSessionIDLen) (Z.of_nat (length sid))); [lia|]. cbn [orb].
  rewrite Nat2Z.id, length_app. destruct (Nat.ltb_spec (length sid + length payload) (length sid)); [lia|].
  by rewrite firstn_app, firstn_all, Nat.sub_diag, drop_app_length, app_nil_r.
Qed.

(** A tunnel in relay mode reaches the other end.  A packet of a tunnel, tagged
    for its session, fits in a relay datagram, and once both ends of the session are
    known, the control plane accepts the sender and the budgets allow it, the relay
    passes on to the other end exactly the packet the tunnel would have sent
    directly, in either direction. *)
Theorem relay_carries_tunnel (now : Z) (t : UDPTunnel) (sid : gostring) (pkt : list Z) (from to : UDPAddr)
  (s : STUNServer) (session : relaySession) (v : gostring → list Z → bool) :
  relayHeader t = Some (makeRelayHeader sid) → (1 ≤ length sid ≤ maxSessionIDLen)%nat →
  (1 ≤ length pkt ≤ maxPacketSize)%nat →
  relaySessions s !! sid = Some session → same_addr to from = false →
  rs_peers session = [from; to] ∨ rs_peers session = [to; from] →
  v sid (ua_IP from) = true →
  (AllowN now (float_of (Z.of_nat (length pkt))) (rs_byteLimiter session)).1 = true →
  (AllowN now (float_of (Z.of_nat (length pkt))) (relayByteGlobal s)).1 = true →
  (length (sendPacket t pkt) ≤ maxRelayDatagramSize)%nat
  ∧ ∃ s', handleRelayPacket now v v (sendPacket t pkt) from s = (s', Some (pkt, to)).
Proof.
  intros Et Hl Hp Hs Hne Hpeers Hv Hb1 Hb2. unfold sendPacket. rewrite Et. split.
  { unfold makeRelayHeader. rewrite !length_app. unfold maxRelayDatagramSize, maxUDPPayloadSize, maxPacketSize in *. simpl length. lia. }
  unfold handleRelayPacket. rewrite parse_relay_header by done.
  rewrite bool_decide_false by (intros ->; simpl in Hp; lia). rewrite Hv. cbn [negb]. unfold relay_locked. cbn [negb].
  unfold session_for. rewrite Hs.
  assert (same_addr from from = true) as Hself by (unfold same_addr; by rewrite IP_Equal_refl, Z.eqb_refl).
  assert (∃ i, place_peer from (rs_peers session) = Some (i, rs_peers session) ∧ rs_peers session !! (1 - i)%nat = Some to)
    as (i & Hplace & Hother).
  { unfold place_peer. destruct Hpeers as [->| ->]; cbn [find_peer]; rewrite ?Hself, ?Hne; eexists; split; reflexivity. }
  rewrite Hplace. cbn [rs_peers set_field]. unfold set_field. cbn [rs_peers rs_byteLimiter rs_lastSeen rs_creatorIP eta].
  rewrite Hother. destruct (AllowN _ _ (rs_byteLimiter session)) as [[] b]; [|done]. cbn [negb].
  destruct (AllowN _ _ (relayByteGlobal s)) as [[] g]; [|done]. cbn [negb]. by eexists.
Qed.

(** ** A demo session *)

Module DemoUdp.
Definition sid : gostring := lit "ses_1".
Definition share : UDPAddr := mkAddr [203; 0; 113; 5] 4000.
Definition help : UDPAddr := mkAddr [198; 51; 100; 7] 5000.
Definition thief : UDPAddr := mkAddr [192; 0; 2; 66] 6000.
(** The control plane knows the two ends. *)
Definition valid (s : gostring) (ip : list Z) : bool :=
  bool_decide (s = sid) && (bool_decide (ip = ua_IP share) || bool_decide (ip = ua_IP help)).
Definition tagged (payload : list Z) : list Z := makeRelayHeader sid ++ payload.
Definition datagram (now : Z) (from : UDPAddr) (payload : list Z) : list UdpEvent :=
  [UArrived now (tagged payload) from; UWorked now valid valid].
Definition before : list UdpEvent := datagram 1 share [3; 0; 0; 0; 0] ++ datagram 2 thief [9] ++ [UArrived 3 (tagged [7; 7]) help].
Definition server : STUNServer := match NewSTUNServer UDP.DefaultLimits 0 with Ok s => s | Err _ => mkStunServer ∅ ∅ (NewBucket fzero fzero 0) 0 [] (NewKeyedLimiter fzero fzero 0 0) (NewBucket fzero fzero 0) UDP.DefaultLimits end.
Definition run := udp_run before server.
Definition tunnel : UDPTunnel := NewUDPRelayTunnel (lit "relay:3478") sid 0.

Lemma server_ok : NewSTUNServer UDP.DefaultLimits 0 = Ok server.
Proof. by vm_compute. Qed.
End DemoUdp.

Lemma udp_relay_bounded_witness :
  match DemoUdp.run with
  | Some (s, _) => Z.of_nat (size (relaySessions s)) ≤ UDP.MaxRelaySessionsTotal (limits DemoUdp.server)
  | None => False
  end.
Proof.
  destruct DemoUdp.run as [[s out]|] eqn:E; [|by vm_compute in E].
  exact (proj1 (udp_relay_bounded UDP.DefaultLimits 0 DemoUdp.before DemoUdp.server s out DemoUdp.server_ok E)).
Defined.

Lemma udp_relay_isolated_witness :
  match DemoUdp.run with
  | Some (s, _) =>
      match worker 3 DemoUdp.valid DemoUdp.valid s with
      | Some (_, Some (data, target)) => data = [7; 7] ∧ target = DemoUdp.share ∧ (DemoUdp.sid, target) ∈ members DemoUdp.before DemoUdp.server []
      | _ => False
      end
  | None => False
  end.
Proof.
  destruct DemoUdp.run as [[s out]|] eqn:E; [|by vm_compute in E].
  destruct (worker 3 DemoUdp.valid DemoUdp.valid s) as [[s' [[data target]|]]|] eqn:E2.
  - pose proof (udp_relay_isolated UDP.DefaultLimits 0 3 DemoUdp.before DemoUdp.server s s' out DemoUdp.valid DemoUdp.valid
      data target DemoUdp.server_ok E E2) as (task & rest & Eq & Hcase).
    assert ((fun p => match worker 3 DemoUdp.valid DemoUdp.valid p.1 with Some (_, o) => (o, map tk_isRelay (taskQueue p.1), map tk_data (taskQueue p.1)) | None => (None, [], []) end)
      <$> DemoUdp.run = Some (Some ([7; 7], DemoUdp.share), [true], [DemoUdp.tagged [7; 7]])) as Hc by (vm_compute; reflexivity).
    pose proof (fmap_value _ _ _ _ E Hc) as Hv. cbn [fst] in Hv. rewrite E2, Eq in Hv. injection Hv as -> -> Er Hr Ed Hd.
    split; [done|]. split; [done|]. destruct Hcase as [[Hf _]|(sid & Hp & _ & _ & Hin)]; [congruence|].
    rewrite Ed in Hp. assert (parseRelayHeader (DemoUdp.tagged [7; 7]) = Some (DemoUdp.sid, [7; 7])) as Hp' by by vm_compute.
    rewrite Hp' in Hp. injection Hp as <-. exact Hin.
  - assert ((fun p => match worker 3 DemoUdp.valid DemoUdp.valid p.1 with Some (_, Some _) => true | _ => false end) <$> DemoUdp.run = Some true)
      as Hc by (vm_compute; reflexivity).
    pose proof (fmap_value _ _ _ _ E Hc) as Hv. cbn [fst] in Hv. by rewrite E2 in Hv.
  - assert ((fun p => match worker 3 DemoUdp.valid DemoUdp.valid p.1 with Some (_, Some _) => true | _ => false end) <$> DemoUdp.run = Some true)
      as Hc by (vm_compute; reflexivity).
    pose proof (fmap_value _ _ _ _ E Hc) as Hv. cbn [fst] in Hv. by rewrite E2 in Hv.
Defined.

Lemma relay_carries_tunnel_witness :
  ∃ s', handleRelayPacket 3 DemoUdp.valid DemoUdp.valid (sendPacket DemoUdp.tunnel (packet pktTypeAck 1 [])) DemoUdp.help
    (put_session DemoUdp.sid (mkRelaySession [DemoUdp.share; DemoUdp.help] 0 "x" (NewBucket (float_of 100) (float_of 100) 0)) DemoUdp.server)
  = (s', Some (packet pktTypeAck 1 [], DemoUdp.share)).
Proof.
  apply (relay_carries_tunnel 3 DemoUdp.tunnel DemoUdp.sid (packet pktTypeAck 1 []) DemoUdp.help DemoUdp.share _
    (mkRelaySession [DemoUdp.share; DemoUdp.help] 0 "x" (NewBucket (float_of 100) (float_of 100) 0)) DemoUdp.valid);
    try (by vm_compute); [vm_compute; lia|vm_compute; lia|by right].
Defined.
