(* ===== verification/McpBridge.v ===== *)
(** * The bridge of the helper ([internal/mcp/bridge.go])

    A call is sealed and sent; its response and the frames of its stream come in
    through [HandleInbound]; the call ends with a result or an error.  A call is cut
    at its [select]: [begin_call] runs up to it, [end_call] decides once a reply is
    there, [abandon] when the context is done first.  The receiver of a stream keeps
    what its callback was given. *)

From S2P Require Import Prelude GoNet GoText GoBinary ProtoAad ProtoHandshake ProtoSession ProtoAead AgentDaemon.

Open Scope Z_scope.

Definition callToolFallbackTimeout : Z := 10 * Minute.
Definition callToolQuickFallbackTimeout : Z := 2 * Minute.

Definition fallbackTimeoutFor (name : gostring) : Z :=
  if bool_decide (name ∈ [lit "stat"; lit "list_dir"; lit "process_list"; lit "tail_log"])
  then callToolQuickFallbackTimeout else callToolFallbackTimeout.

(** ** The receiver of a stream *)

Definition maxTrackedGaps : nat := 4096.

Record streamRecv := mkRecv {
  sr_next : Z;
  sr_missing : gset Z;
  sr_overflow : Z;
  sr_damaged : Z;
  sr_finished : bool;
  sr_given : list (gostring * list Z);
}.
#[export] Instance streamRecv_eta : Eta streamRecv := fun r =>
  mkRecv (sr_next r) (sr_missing r) (sr_overflow r) (sr_damaged r) (sr_finished r) (sr_given r).

Definition new_recv : streamRecv := mkRecv 0 ∅ 0 0 false [].

(** [for h := s.next; h < seq; h++]. Once the set is full the loop stops, so it has
    at most [maxTrackedGaps + 1] rounds ([fill_gaps_spec] shows that these are enough). *)
Fixpoint fill_gaps (fuel : nat) (h seq : Z) (r : streamRecv) : streamRecv :=
  match fuel with
  | O => r
  | S fuel =>
      if seq <=? h then r
      else if (maxTrackedGaps <=? size (sr_missing r))%nat then r <| sr_overflow := sr_overflow r + (seq - h) |>
      else fill_gaps fuel (h + 1) seq (r <| sr_missing := {[h]} ∪ sr_missing r |>)
  end.

Definition observe (seq : Z) (r : streamRecv) : streamRecv :=
  if seq <? sr_next r then r <| sr_missing := sr_missing r ∖ {[seq]} |>
  else (fill_gaps (S maxTrackedGaps) (sr_next r) seq r) <| sr_next := wrap 32 (seq + 1) |>.

Definition markDamaged (r : streamRecv) : streamRecv := r <| sr_damaged := sr_damaged r + 1 |>.
Definition markFinished (r : streamRecv) : streamRecv := r <| sr_finished := true |>.
Definition gapCount (r : streamRecv) : Z := Z.of_nat (size (sr_missing r)) + sr_overflow r + sr_damaged r.
Definition status (r : streamRecv) : Z * bool := (gapCount r, sr_finished r).

(** ** State *)

Record toolReply := mkReply { y_resp : ToolResp; y_local : bool }.

(** [b_pending]: a call and the reply its channel holds, if any. *)
Record Bridge := mkBridge {
  b_conn : positive;
  b_sess : Session;
  b_nextID : Z;
  b_pending : gmap Z (option toolReply);
  b_streamCbs : gmap Z streamRecv;
  b_closed : bool;
}.
#[export] Instance Bridge_eta : Eta Bridge := fun b =>
  mkBridge (b_conn b) (b_sess b) (b_nextID b) (b_pending b) (b_streamCbs b) (b_closed b).

(** [newIDEpoch]: the random bytes are the upper half; [None] when there are none. *)
Definition newIDEpoch (b : option (list Z)) : Z :=
  match b with None => 0 | Some b => wrap 64 (Z.shiftl (be_value (take 4 b)) 32) end.

Definition NewBridge (conn : positive) (sess : Session) (random : option (list Z)) : Bridge :=
  mkBridge conn sess (newIDEpoch random) ∅ ∅ false.

Definition SwapConn (conn : positive) (sess : Session) (b : Bridge) : Bridge :=
  b <| b_conn := conn |> <| b_sess := sess |>.

(** A send into a channel of capacity one that must not block. *)
Definition offer (id : Z) (y : toolReply) (b : Bridge) : Bridge :=
  match b_pending b !! id with
  | Some None => b <| b_pending := <[id := Some y]> (b_pending b) |>
  | _ => b
  end.

(** [msg] is the error's text, [None] for a nil error. *)
Definition Disconnect (msg : option gostring) (b : Bridge) : Bridge :=
  if b_closed b then b else
  let text := default (lit "tunnel_lost: 隧道已断开，请重新 connect") msg in
  let y := mkReply (mkResp 0 false RawAbsent (lit "tunnel_lost") text) true in
  let b := b <| b_closed := true |> in
  b <| b_pending := (fun c => Some (default y c)) <$> b_pending b |>.

(** ** Calls *)

Inductive CallError :=
| NotConnected
| SealFailed
| LocalEnd (code msg : gostring)
| UnsealedResponse
| ResponseNotAuthentic (e : AeadError)
| RemoteError (code msg : gostring)
| StreamUnterminated (gaps : Z)
| StreamGaps (gaps : Z)
| TunnelLost
| ContextCancelled.

(** What a call keeps across its [select]: its id and its snapshot of the session. *)
Record Call := mkCall { cl_id : Z; cl_sess : Session; cl_stream : bool }.

Section bridge.
Context `{Aead}.

(** The request of a call. *)
Definition seal_req (sess : Session) (nonce : option (list Z)) (req : ToolReq) : option ToolReq :=
  if negb (Active sess) then Some req else
  let plain := if bool_decide (raw_bytes (q_Args req) = []) then lit "{}" else raw_bytes (q_Args req) in
  nonce ← nonce;
  Some (mkReq (q_ID req) (q_Tool req)
    (AEADSealJSON (ss_Key sess) nonce plain (ReqAAD sess (q_ID req) (q_Tool req) (q_DeadlineMs req))) (q_DeadlineMs req)).

(** [callToolInner] up to the [select]; the request goes to [b_conn]. *)
Definition begin_call (name : gostring) (args : Raw) (stream : bool) (nonce : option (list Z)) (b : Bridge)
  : result CallError (Call * positive * ToolReq) * Bridge :=
  if b_closed b then (Err NotConnected, b) else
  let id := wrap 64 (b_nextID b + 1) in
  let b := b <| b_nextID := id |> in
  match seal_req (b_sess b) nonce (mkReq id name args 0) with
  | None => (Err SealFailed, b)
  | Some req =>
      (Ok (mkCall id (b_sess b) stream, b_conn b, req),
       let b := b <| b_pending := <[id := None]> (b_pending b) |> in
       if stream then b <| b_streamCbs := <[id := new_recv]> (b_streamCbs b) |> else b)
  end.

(** The verdict on a response from the wire: authenticity before anything else. *)
Definition check_resp (sess : Session) (resp : ToolResp) (recv : option streamRecv) : result CallError (list Z) :=
  let result := raw_bytes (p_Result resp) in
  if Active sess && bool_decide (result = []) && RequireSealedResp sess then Err UnsealedResponse else
  let opened := if Active sess && negb (bool_decide (result = []))
                then match AEADOpenJSON (ss_Key sess) (p_Result resp)
                             (RespAAD sess (p_ID resp) (p_OK resp) (p_ErrorCode resp) (p_ErrorMsg resp)) with
                     | Ok plain => Ok plain
                     | Err e => Err (ResponseNotAuthentic e)
                     end
                else Ok result in
  match opened with
  | Err e => Err e
  | Ok result =>
      if negb (p_OK resp) then Err (RemoteError (p_ErrorCode resp) (p_ErrorMsg resp)) else
      match recv with
      | None => Ok result
      | Some r =>
          let needFin := RequireStreamTerminator sess in
          let (n, finished) := status r in
          if negb finished && needFin then Err (StreamUnterminated n)
          else if 0 <? n then Err (StreamGaps n)
          else Ok result
      end
  end.

(** The deferred deletions. *)
Definition forget (id : Z) (b : Bridge) : Bridge :=
  b <| b_pending := delete id (b_pending b) |> <| b_streamCbs := delete id (b_streamCbs b) |>.

(** The rest of [callToolInner] once a reply is there, with the stream as it is then. *)
Definition end_call (c : Call) (b : Bridge) : option (result CallError (list Z) * Bridge) :=
  match b_pending b !! cl_id c with
  | Some (Some y) =>
      let recv := if cl_stream c then b_streamCbs b !! cl_id c else None in
      let r := if y_local y then Err (LocalEnd (p_ErrorCode (y_resp y)) (p_ErrorMsg (y_resp y)))
               else check_resp (cl_sess c) (y_resp y) recv in
      Some (r, forget (cl_id c) b)
  | _ => None
  end.

(** The context is done first: a cancel for the id goes to [b_conn]. *)
Definition abandon (c : Call) (deadline : bool) (b : Bridge) : CallError * positive * Bridge :=
  (if deadline then TunnelLost else ContextCancelled, b_conn b, forget (cl_id c) b).

(** ** Messages from the tunnel *)

(** A frame of the stream [r], opened under the current session. *)
Definition recv_chunk (sess : Session) (k : StreamChunk) (r : streamRecv) : streamRecv :=
  let opened := if Active sess
                then match AEADOpen (ss_Key sess) (k_Data k) (StreamAAD sess (k_ID k) (k_Seq k) (k_Stream k) (k_Fin k)) with
                     | Ok plain => Some plain
                     | Err _ => None
                     end
                else Some (k_Data k) in
  match opened with
  | None => markDamaged (observe (k_Seq k) r)
  | Some data =>
      let r := observe (k_Seq k) r in
      let r := if k_Fin k then markFinished r else r in
      if bool_decide (data = []) then r else r <| sr_given := sr_given r ++ [(k_Stream k, data)] |>
  end.

Definition HandleInbound (m : OutMsg) (b : Bridge) : Bridge :=
  match m with
  | MsgToolResp resp => offer (p_ID resp) (mkReply resp false) b
  | MsgToolStream k =>
      match b_streamCbs b !! k_ID k with
      | None => b
      | Some r => b <| b_streamCbs := <[k_ID k := recv_chunk (b_sess b) k r]> (b_streamCbs b) |>
      end
  end.

Definition inbound (ms : list OutMsg) (b : Bridge) : Bridge := fold_left (fun b m => HandleInbound m b) ms b.
End bridge.
