(* ===== verification/McpBridgeThms.v ===== *)
(** * What a tool call of the helper guarantees

    A streamed call that ends well has delivered the whole stream and an authentic
    response; a call, its execution by the daemon and its answer compose to what the
    tool returned; a lost tunnel ends every call. *)

From S2P Require Import Prelude GoNet GoText GoBase64 ProtoAad ProtoHandshake ProtoSession ProtoAead AgentReplay AgentDaemon McpBridge.

Open Scope Z_scope.

(** ** The gaps of a stream *)

Definition below (h : Z) (r : streamRecv) : Prop := ∀ x, x ∈ sr_missing r → 0 ≤ x < h.

(** What registering gaps does: it only adds, and either every number in between is
    registered or the overflow counts. *)
Record filled (h seq : Z) (r r' : streamRecv) : Prop := {
  fl_rest : sr_next r' = sr_next r ∧ sr_damaged r' = sr_damaged r ∧ sr_finished r' = sr_finished r ∧ sr_given r' = sr_given r;
  fl_below : below seq r';
  fl_missing : sr_missing r ⊆ sr_missing r';
  fl_overflow : sr_overflow r ≤ sr_overflow r';
  fl_all : sr_overflow r < sr_overflow r' ∨ ∀ k, h ≤ k < seq → k ∈ sr_missing r';
}.

Lemma fill_gaps_spec fuel : ∀ h seq r,
  (0 < fuel)%nat → (maxTrackedGaps < fuel + size (sr_missing r))%nat → 0 ≤ h ≤ seq → below h r →
  filled h seq r (fill_gaps fuel h seq r).
Proof.
  induction fuel as [|fuel IH]; intros h seq r Hp Hf Hh Hb; cbn [fill_gaps].
  { lia. }
  destruct (Z.leb_spec seq h).
  - constructor; [done|intros x Hx%Hb; lia|done|lia|right; lia].
  - destruct (Nat.leb_spec maxTrackedGaps (size (sr_missing r))).
    + constructor; [done|intros x Hx%Hb; lia|done|simpl; lia|left; simpl; lia].
    + assert (h ∉ sr_missing r) as Hn by (intros Hx%Hb; lia).
      destruct (IH (h + 1) seq (r <| sr_missing := {[h]} ∪ sr_missing r |>)) as [F1 F2 F3 F4 F5]; cbn in *.
      * lia.
      * rewrite size_union, size_singleton by set_solver. lia.
      * lia.
      * intros x [->%elem_of_singleton|Hx%Hb]%elem_of_union; lia.
      * constructor; [done|done|set_solver|done|]. destruct F5 as [|F5]; [by left|right].
        intros k Hk. destruct (decide (k = h)) as [->|]; [set_solver|apply F5; lia].
Qed.

(** A number of 32 bits other than the last. *)
Definition uint32_top (seq : Z) : Prop := 0 ≤ seq < 2 ^ 32 - 1.

Lemma observe_spec seq r :
  uint32_top seq → 0 ≤ sr_next r → below (sr_next r) r →
  let r' := observe seq r in
  sr_next r' = Z.max (sr_next r) (seq + 1) ∧ sr_damaged r' = sr_damaged r ∧ sr_finished r' = sr_finished r
  ∧ sr_given r' = sr_given r ∧ below (sr_next r') r' ∧ sr_overflow r ≤ sr_overflow r'
  ∧ (sr_overflow r < sr_overflow r'
     ∨ ∀ k, k ≠ seq → 0 ≤ k < sr_next r' → k ∉ sr_missing r' → k < sr_next r ∧ k ∉ sr_missing r).
Proof.
  intros Hs Hn Hb. unfold observe. destruct (Z.ltb_spec seq (sr_next r)); cbv zeta.
  - split_and!; cbn [set_field sr_next sr_damaged sr_finished sr_given sr_missing sr_overflow]; [lia|reflexivity..| | |]; [intros x Hx; apply Hb; set_solver|lia|right; set_solver].
  - destruct (fill_gaps_spec (S maxTrackedGaps) (sr_next r) seq r) as [(F1 & F2 & F3 & F4) F5 F6 F7 F8]; [lia|lia|lia|done|].
    set (r' := fill_gaps _ _ _ _) in *. clearbody r'. cbn [set_field sr_next sr_damaged sr_finished sr_given sr_missing sr_overflow]. rewrite wrap_small by (unfold uint32_top in Hs; lia).
    split_and!; [unfold uint32_top in Hs; lia|done..| |done|].
    + intros x Hx%F5. lia.
    + destruct F8 as [|F8]; [by left|right]. intros k Hne Hk Hm. destruct (Z.lt_ge_cases k (sr_next r)) as [Hlt|Hge].
      * split; [done|]. set_solver.
      * exfalso. apply Hm, F8. lia.
Qed.

Lemma observe_frame seq r :
  sr_damaged (observe seq r) = sr_damaged r ∧ sr_finished (observe seq r) = sr_finished r
  ∧ sr_given (observe seq r) = sr_given r ∧ (0 ≤ sr_overflow r → 0 ≤ sr_overflow (observe seq r)).
Proof.
  assert (∀ fuel h r, let r' := fill_gaps fuel h seq r in
    sr_damaged r' = sr_damaged r ∧ sr_finished r' = sr_finished r ∧ sr_given r' = sr_given r
    ∧ (0 ≤ sr_overflow r → 0 ≤ sr_overflow r')) as Hf.
  { induction fuel as [|fuel IH]; intros h r'; cbn [fill_gaps]; [done|].
    destruct (Z.leb_spec seq h); [done|].
    destruct (_ <=? _)%nat; [split_and!; [done..|cbn; lia]|].
    exact (IH (h + 1) (r' <| sr_missing := {[h]} ∪ sr_missing r' |>)). }
  unfold observe. destruct (_ <? _); [done|]. apply Hf.
Qed.

(** ** What the daemon's sink sends *)

Section stream.
Context `{Aead}.

(** The frames of a stream, with their contents. *)
Definition stream_frames (id : Z) (chunks : list (gostring * list Z)) : list (frame * list Z) :=
  imap (fun i c => (ChunkFrame id (Z.of_nat i) c.1 false, c.2)) chunks
  ++ [(ChunkFrame id (Z.of_nat (length chunks)) [] true, [])].

Lemma stream_frames_elem id chunks f plain :
  (f, plain) ∈ stream_frames id chunks →
  (∃ i st, f = ChunkFrame id (Z.of_nat i) st false ∧ chunks !! i = Some (st, plain))
  ∨ f = ChunkFrame id (Z.of_nat (length chunks)) [] true ∧ plain = [].
Proof.
  intros [Hin|Hin]%elem_of_app.
  - left. apply elem_of_lookup_imap in Hin as (i & [st data] & [= -> ->] & Hi). by exists i, st.
  - right. apply list_elem_of_singleton in Hin. by injection Hin as -> ->.
Qed.

(** A sealed frame. *)
Definition sealed_frame (s : Session) (nonce : list Z) (f : frame) (plain : list Z) : option StreamChunk :=
  match f with
  | ChunkFrame id seq st fin =>
      Some (mkChunk id seq fin st (AEADSeal (ss_Key s) nonce plain (frame_aad (ChunkFrame id seq st fin))))
  | _ => None
  end.

(** [chunkSink.Send] on each chunk, then [chunkSink.Finish]. *)
Fixpoint sink_all (s : Session) (nonces : list (list Z)) (chunks : list (gostring * list Z)) (sk : chunkSink)
  : list (option StreamChunk) :=
  match nonces, chunks with
  | n :: nonces, (st, data) :: chunks =>
      let (k, sk) := sink_send s n st data sk in k :: sink_all s nonces chunks sk
  | n :: _, [] => [(sink_finish s n sk).1]
  | [], _ => []
  end.

(** Exactly the frames of the stream, in order, under consecutive numbers. *)
Lemma sink_all_frames s id chunks nonces :
  Active s = true → Legacy s = false → Z.of_nat (length chunks) < 2 ^ 32 → length nonces = S (length chunks) →
  sink_all s nonces chunks (mkSink id 0 true false)
  = zip_with (fun n fp => sealed_frame s n fp.1 fp.2) nonces (stream_frames id chunks).
Proof.
  intros HA HL Hlen Hn. unfold stream_frames.
  assert (∀ chunks nonces o, Z.of_nat (o + length chunks) < 2 ^ 32 → length nonces = S (length chunks) →
    sink_all s nonces chunks (mkSink id (Z.of_nat o) true false)
    = zip_with (fun n fp => sealed_frame s n fp.1 fp.2) nonces
        (imap (fun i c => (ChunkFrame id (Z.of_nat (o + i)) c.1 false, c.2)) chunks
         ++ [(ChunkFrame id (Z.of_nat (o + length chunks)) [] true, [])])) as Hgen.
  2:{ pose proof (Hgen chunks nonces O Hlen Hn) as E. exact E. }
  clear - HA HL. induction chunks as [|[st data] chunks IH]; intros [|n nonces] o Ho Hl; try done.
  - cbn. unfold seal_chunk, StreamAAD. rewrite HA, HL. rewrite Nat.add_0_r. by destruct nonces.
  - cbn [sink_all sink_send sk_finished]. cbn [length] in *.
    assert (wrap 32 (Z.of_nat o + 1) = Z.of_nat (S o)) as Ew by (rewrite wrap_small; lia).
    unfold set_field. cbn [sk_id sk_seq sk_active sk_finished]. rewrite Ew, IH by lia.
    cbn. unfold seal_chunk, StreamAAD. rewrite HA, HL. cbn [k_ID k_Seq k_Fin k_Stream k_Data]. rewrite Nat.add_0_r. f_equal.
    f_equal. rewrite <- Nat.add_succ_comm. f_equal. apply imap_ext. intros i x _. simpl. do 3 f_equal. lia.
Qed.

(** ** What the receiver knows *)

(** What opens was sealed for a frame of the log. *)
Definition vouched (log : list (frame * list Z)) (opens : list Z → result AeadError (list Z)) : Prop :=
  ∀ aad plain, opens aad = Ok plain → ∃ f, (f, plain) ∈ log ∧ frame_ok f ∧ aad = frame_aad f.

(** A decoded message within the widths of its fields, not forged. *)
Definition inbound_ok (s : Session) (log : list (frame * list Z)) (m : OutMsg) : Prop :=
  match m with
  | MsgToolResp p =>
      vouched log (AEADOpenJSON (ss_Key s) (p_Result p)) ∧ frame_ok (RespFrame (p_ID p) (p_OK p) (p_ErrorCode p) (p_ErrorMsg p))
  | MsgToolStream k =>
      vouched log (AEADOpen (ss_Key s) (k_Data k)) ∧ frame_ok (ChunkFrame (k_ID k) (k_Seq k) (k_Stream k) (k_Fin k))
  end.

(** Of the call [id] the holders of the key sealed no other stream frame. *)
Definition only_stream (log : list (frame * list Z)) (id : Z) (chunks : list (gostring * list Z)) : Prop :=
  ∀ seq st fin plain, (ChunkFrame id seq st fin, plain) ∈ log →
  (ChunkFrame id seq st fin, plain) ∈ stream_frames id chunks.

Definition arrived (chunks : list (gostring * list Z)) (r : streamRecv) (k : Z) : Prop :=
  ∀ c, chunks !! Z.to_nat k = Some c → c.2 ≠ [] → c ∈ sr_given r.

Record sound (chunks : list (gostring * list Z)) (r : streamRecv) : Prop := {
  sd_overflow : 0 ≤ sr_overflow r;
  sd_damaged : 0 ≤ sr_damaged r;
  sd_given : ∀ c, c ∈ sr_given r → c ∈ chunks;
  sd_seen : 0 < sr_damaged r ∨
    0 ≤ sr_next r ≤ Z.of_nat (length chunks) + 1 ∧ below (sr_next r) r
    ∧ (sr_finished r = true → sr_next r = Z.of_nat (length chunks) + 1)
    ∧ (0 < sr_overflow r ∨ ∀ k, 0 ≤ k < sr_next r → k ∉ sr_missing r → arrived chunks r k);
}.

Lemma sound_new chunks : sound chunks new_recv.
Proof.
  constructor; cbn; [lia|lia|by intros c ?%elem_of_nil|right].
  split; [lia|]. split; [by intros x ?%elem_of_empty|]. split; [done|]. right. intros k Hk. lia.
Qed.

Lemma arrived_mono chunks r r' k : (∀ c, c ∈ sr_given r → c ∈ sr_given r') → arrived chunks r k → arrived chunks r' k.
Proof. intros Hsub Ha c Hc Hne. by apply Hsub, Ha. Qed.

(** A frame that opens. *)
Lemma sound_opened chunks seq st data (fin : bool) r r' :
  Z.of_nat (length chunks) < 2 ^ 32 - 1 →
  (fin = false ∧ chunks !! Z.to_nat seq = Some (st, data) ∧ 0 ≤ seq < Z.of_nat (length chunks)
   ∨ fin = true ∧ seq = Z.of_nat (length chunks) ∧ data = []) →
  sound chunks r →
  r' = (let r := observe seq r in
        let r := if fin then markFinished r else r in
        if bool_decide (data = []) then r else r <| sr_given := sr_given r ++ [(st, data)] |>) →
  sound chunks r'.
Proof.
  intros Hlen Hcase [S1 S2 S3 S4]. destruct (observe_frame seq r) as (Ed & Ef & Eg & Eo). specialize (Eo S1). cbv zeta.
  assert (∃ r1, sr_damaged r1 = sr_damaged r ∧ sr_given r1 = sr_given r ∧ sr_finished r1 = (fin || sr_finished r)
    ∧ sr_overflow r1 = sr_overflow (observe seq r) ∧ sr_next r1 = sr_next (observe seq r)
    ∧ sr_missing r1 = sr_missing (observe seq r)
    ∧ r1 = if fin then markFinished (observe seq r) else observe seq r) as (r1 & E1 & E2 & E3 & E4 & E5 & E6 & <-).
  { eexists. split_and!; [| | | | | |reflexivity]; by destruct fin. }
  set (r2 := if bool_decide _ then _ else _).
  assert (sr_damaged r2 = sr_damaged r ∧ sr_finished r2 = (fin || sr_finished r)
    ∧ sr_overflow r2 = sr_overflow (observe seq r) ∧ sr_next r2 = sr_next (observe seq r)
    ∧ sr_missing r2 = sr_missing (observe seq r)
    ∧ (∀ c, c ∈ sr_given r2 ↔ c ∈ sr_given r ∨ data ≠ [] ∧ c = (st, data))) as (F1 & F3 & F4 & F5 & F6 & F2).
  { subst r2. case_bool_decide as Hd; cbn [set_field sr_next sr_damaged sr_finished sr_given sr_missing sr_overflow];
      split_and!; try done; intros c; rewrite E2; [naive_solver|].
    rewrite elem_of_app, list_elem_of_singleton. naive_solver. }
  clearbody r2. clear r1 E1 E2 E3 E4 E5 E6. intros ->. constructor.
  - by rewrite F4.
  - by rewrite F1.
  - intros c [Hc|[Hne ->]]%F2; [by apply S3|]. destruct Hcase as [(_ & Hc & _)|(_ & _ & ->)]; [|done].
    by eapply list_elem_of_lookup_2.
  - rewrite F1, F3, F4, F5. destruct S4 as [|(N & B & Fi & S4)]; [by left|right].
    destruct (observe_spec seq r) as (O1 & _ & _ & _ & O2 & O3 & O4); [unfold uint32_top; lia|lia|done|].
    assert (0 ≤ seq ≤ Z.of_nat (length chunks)) as Hseq by lia.
    split_and!; [lia|lia|by intros x; rewrite F6; apply O2| |].
    + intros [->|Hfin]%orb_true_iff; [|specialize (Fi Hfin); lia]. destruct Hcase as [(? & _)|(_ & -> & _)]; [done|lia].
    + destruct S4 as [|S4]; [left; lia|]. destruct O4 as [|O4]; [left; lia|right].
      intros k Hk Hm. rewrite F6 in Hm. destruct (decide (k = seq)) as [->|Hne].
      * intros c Hc Hcne. apply F2. right. destruct Hcase as [(_ & Hc' & _)|(_ & -> & ->)].
        -- rewrite Hc in Hc'. injection Hc' as ->. done.
        -- apply lookup_lt_Some in Hc. lia.
      * destruct (O4 k Hne Hk Hm) as [Hlt Hm']. eapply arrived_mono; [|apply S4; [lia|done]]. intros c Hc. apply F2. by left.
Qed.

(** A frame that does not open. *)
Lemma sound_damaged chunks seq r : sound chunks r → sound chunks (markDamaged (observe seq r)).
Proof.
  intros [S1 S2 S3 S4]. destruct (observe_frame seq r) as (Ed & Ef & Eg & Eo). specialize (Eo S1).
  constructor; cbn [markDamaged set_field sr_next sr_damaged sr_finished sr_given sr_missing sr_overflow];
    rewrite ?Ed, ?Eg; [done|lia|done|left; lia].
Qed.

Lemma recv_chunk_sound s log chunks k r :
  Active s = true → Legacy s = false → Z.of_nat (length chunks) < 2 ^ 32 - 1 →
  only_stream log (k_ID k) chunks → inbound_ok s log (MsgToolStream k) →
  sound chunks r → sound chunks (recv_chunk s k r).
Proof.
  intros HA HL Hlen Honly [Hv Hok] Hr. unfold recv_chunk, StreamAAD. rewrite HA, HL.
  destruct (AEADOpen _ _ _) as [data|e] eqn:Eo; [|by apply sound_damaged].
  eapply sound_opened; [done| |done|reflexivity].
  destruct (Hv _ _ Eo) as (f & Hlog & Hf & E).
  assert (f = ChunkFrame (k_ID k) (k_Seq k) (k_Stream k) (k_Fin k)) as -> by (apply frame_aad_inj; done).
  apply Honly, stream_frames_elem in Hlog as [(i & st & [= -> <- ->] & Hi)|([= -> -> ->] & ->)].
  - left. rewrite Nat2Z.id. split; [done|]. split; [done|]. apply lookup_lt_Some in Hi. lia.
  - right. done.
Qed.

(** ** A streamed call *)

Record calling (s : Session) (log : list (frame * list Z)) (chunks : list (gostring * list Z)) (id : Z) (b : Bridge) : Prop := {
  cg_sess : b_sess b = s;
  cg_stream : ∃ r, b_streamCbs b !! id = Some r ∧ sound chunks r;
  cg_pending : ∀ y, b_pending b !! id = Some (Some y) →
    y_local y = false ∧ p_ID (y_resp y) = id ∧ inbound_ok s log (MsgToolResp (y_resp y));
}.

Lemma HandleInbound_calling s log chunks id m b :
  Active s = true → Legacy s = false → Z.of_nat (length chunks) < 2 ^ 32 - 1 → only_stream log id chunks →
  inbound_ok s log m → calling s log chunks id b → calling s log chunks id (HandleInbound m b).
Proof.
  intros HA HL Hlen Honly Hm Hb. pose proof Hb as [Es (r & Er & Hr) Hp]. destruct m as [p|k]; cbn [HandleInbound].
  - unfold offer. destruct (b_pending b !! p_ID p) as [[z|]|] eqn:E; [exact Hb| |exact Hb].
    constructor; [done|by exists r|]. unfold set_field; cbn [b_pending]. intros y. destruct (decide (p_ID p = id)) as [<-|Hne].
    + rewrite lookup_insert_eq. by intros [= <-].
    + rewrite lookup_insert_ne by done. apply Hp.
  - destruct (b_streamCbs b !! k_ID k) as [r'|] eqn:E; [|exact Hb].
    constructor; [done| |done]. unfold set_field; cbn [b_streamCbs]. destruct (decide (k_ID k = id)) as [Hid|Hne].
    + subst id. exists (recv_chunk (b_sess b) k r'). rewrite lookup_insert_eq. split; [done|].
      rewrite E in Er. injection Er as ->. rewrite Es. by eapply recv_chunk_sound.
    + rewrite lookup_insert_ne by done. by exists r.
Qed.

Lemma inbound_calling s log chunks id ms : ∀ b,
  Active s = true → Legacy s = false → Z.of_nat (length chunks) < 2 ^ 32 - 1 → only_stream log id chunks →
  Forall (inbound_ok s log) ms → calling s log chunks id b → calling s log chunks id (inbound ms b).
Proof.
  induction ms as [|m ms IH]; intros b HA HL Hlen Honly Hms Hb; [done|].
  apply Forall_cons in Hms as [Hm Hms]. unfold inbound. cbn [fold_left]. apply IH; try done. by apply HandleInbound_calling.
Qed.

(** What a good verdict says. *)
Lemma check_resp_ok s log chunks p r res :
  Active s = true → Legacy s = false → inbound_ok s log (MsgToolResp p) → sound chunks r →
  check_resp s p (Some r) = Ok res →
  (∃ code msg, (RespFrame (p_ID p) true code msg, res) ∈ log)
  ∧ (∀ c, c ∈ sr_given r → c ∈ chunks) ∧ (∀ c, c ∈ chunks → c.2 ≠ [] → c ∈ sr_given r).
Proof.
  intros HA HL [Hv Hok] [S1 S2 S3 S4]. unfold check_resp, RequireSealedResp, RequireStreamTerminator, RespAAD.
  rewrite HA, HL. cbn [negb andb]. rewrite andb_true_r. destruct (bool_decide _) eqn:Ee; [done|]. cbn [negb].
  destruct (AEADOpenJSON _ _ _) as [plain|e] eqn:Eo; [|done].
  destruct (p_OK p) eqn:Ep; cbn [negb]; [|done]. unfold status.
  destruct (sr_finished r) eqn:Ef; cbn [negb andb]; [|done].
  destruct (Z.ltb_spec 0 (gapCount r)) as [|Hg]; [done|]. intros [= <-]. split.
  { destruct (Hv _ _ Eo) as (f & Hlog & Hf & E).
    assert (f = RespFrame (p_ID p) true (p_ErrorCode p) (p_ErrorMsg p)) as -> by (apply frame_aad_inj; done). by do 2 eexists. }
  split; [done|]. unfold gapCount in Hg. destruct S4 as [|(N & B & Fi & S4)]; [lia|].
  specialize (Fi eq_refl). destruct S4 as [|S4]; [lia|]. intros c [i Hi]%list_elem_of_lookup_1 Hne.
  assert (sr_missing r = ∅) as Em.
  { apply leibniz_equiv, size_empty_iff. lia. }
  apply (fun H1 H2 H3 => S4 (Z.of_nat i) H1 H2 c H3 Hne).
  - apply lookup_lt_Some in Hi. lia.
  - rewrite Em. apply not_elem_of_empty.
  - by rewrite Nat2Z.id.
Qed.

End stream.

(** ** A call from end to end *)

Section roundtrip.
Context `{AeadLaws}.
Context (aead_error_text : AeadError → gostring) (duration_string : Z → gostring) (quoted : gostring → gostring)
  (requestWantsStream : Raw → bool).

(** What is sealed in place of an empty text. *)
Definition or_braces (bytes : list Z) : list Z := if bool_decide (bytes = []) then lit "{}" else bytes.

Lemma or_braces_nonempty bytes : or_braces bytes ≠ [].
Proof. unfold or_braces. by case_bool_decide. Qed.

(** What the tool's outcome is on either side. *)
Definition answer_of (id : Z) (out : result gostring Raw) : frame * list Z :=
  match out with
  | Ok r => (RespFrame id true [] [], or_braces (raw_bytes r))
  | Err msg => (RespFrame id false (classifyError msg) msg, lit "{}")
  end.
Definition verdict_of (out : result gostring Raw) : result CallError (list Z) :=
  match out with
  | Ok r => Ok (or_braces (raw_bytes r))
  | Err msg => Err (RemoteError (classifyError msg) msg)
  end.

Definition messages (out : list Out) : list OutMsg := omap (fun o => match o with Sent _ m => Some m | _ => None end) out.

(** The daemon admits an authentic request with a fresh number. *)
Lemma admit_sealed s nonce id tool dl plain g g' :
  Active s = true → Legacy s = false → seal_ok (ss_Key s) nonce plain (frame_aad (ReqFrame id tool dl)) →
  accept 1024 id g = Some (true, g') →
  admit_req aead_error_text s g (mkReq id tool (AEADSealJSON (ss_Key s) nonce plain (frame_aad (ReqFrame id tool dl))) dl)
  = Some (Let_in (RawOther plain), g').
Proof.
  intros HA HL Hs Ha. unfold admit_req, ReqAAD, AntiReplay. rewrite HA, HL. cbn [negb q_Args q_ID q_Tool q_DeadlineMs].
  unfold AEADSealJSON at 1. cbn [isBlankArgs]. change (ToolReqAAD id tool dl) with (frame_aad (ReqFrame id tool dl)).
  rewrite AEADOpenJSON_seal by done. by rewrite Ha.
Qed.

(** The answer, as it is sealed. *)
Lemma seal_resp_dispatch s nonce tools id tool out :
  Active s = true → Legacy s = false → tool ∈ tools →
  seal_resp s (Some nonce) (Dispatch quoted tools id tool out)
  = match answer_of id out with
    | (RespFrame id ok code msg, plain) =>
        mkResp id ok (AEADSealJSON (ss_Key s) nonce plain (frame_aad (RespFrame id ok code msg))) code msg
    | _ => mkResp id false RawAbsent [] []
    end.
Proof.
  intros HA HL Ht. unfold Dispatch. rewrite bool_decide_false by (intros Hn; by apply Hn).
  unfold seal_resp, RequireSealedResp, RespAAD. rewrite HA, HL.
  destruct out as [r|msg]; cbn [negb answer_of p_Result p_ID p_OK p_ErrorCode p_ErrorMsg raw_bytes].
  - rewrite andb_false_r. unfold or_braces. by destruct (bool_decide _).
  - reflexivity.
Qed.

(** The verdict on that answer. *)
Lemma check_resp_sealed s nonce tools id tool out recv :
  Active s = true → Legacy s = false → tool ∈ tools →
  seal_ok (ss_Key s) nonce (answer_of id out).2 (frame_aad (answer_of id out).1) →
  (∀ r, recv = Some r → sr_finished r = true ∧ gapCount r = 0) →
  check_resp s (seal_resp s (Some nonce) (Dispatch quoted tools id tool out)) recv = verdict_of out.
Proof.
  intros HA HL Ht Hs Hr. rewrite seal_resp_dispatch by done.
  unfold check_resp, RequireSealedResp, RequireStreamTerminator, RespAAD. rewrite HA, HL. destruct out as [r|msg];
    cbn [answer_of fst snd p_Result p_ID p_OK p_ErrorCode p_ErrorMsg negb andb] in *;
    (rewrite bool_decide_false by done); cbn [negb andb];
    [change (ToolRespAAD ?i ?o ?c ?m) with (frame_aad (RespFrame i o c m))|change (ToolRespAAD ?i ?o ?c ?m) with (frame_aad (RespFrame i o c m))];
    rewrite AEADOpenJSON_seal by done; [|done].
  destruct recv as [r'|]; [|done]. destruct (Hr r' eq_refl) as [Hf Hg]. unfold status. by rewrite Hf, Hg.
Qed.

(** The terminator of a stream without chunks. *)
Lemma recv_terminator s nonce id :
  Active s = true → Legacy s = false → length nonce = NonceSize →
  let r := recv_chunk s (seal_chunk s nonce (mkChunk id 0 true [] [])) new_recv in
  sr_finished r = true ∧ gapCount r = 0.
Proof.
  intros HA HL Hn. unfold seal_chunk, recv_chunk. rewrite HA. cbn [k_ID k_Seq k_Fin k_Stream k_Data].
  rewrite AEADOpen_seal by done. done.
Qed.

(** C11: a call does what it says.  Between two ends that hold the same version 2
    session, and when the number of the call is fresh, the daemon starts the named
    tool once, on the arguments of the call ([{}] when there are none), and the call
    ends with what the tool returned: its result ([{}] when it is empty), or its
    error under the code of its class. *)
Theorem call_roundtrip (s : Session) (b b1 : Bridge) (d : Daemon) (name : gostring) (args : Raw) (stream : bool)
  (n1 n2 n3 : list Z) (c : Call) (conn : positive) (req : ToolReq) (p : positive) (g : replayGuard)
  (out : result gostring Raw) :
  Active s = true → Legacy s = false → b_sess b = s → d_sess d = s → name ∈ d_tools d →
  begin_call name args stream (Some n1) b = (Ok (c, conn, req), b1) →
  accept 1024 (cl_id c) (d_replay d) = Some (true, g) →
  requestWantsStream (RawOther (or_braces (raw_bytes args))) = stream →
  seal_ok (ss_Key s) n1 (or_braces (raw_bytes args)) (frame_aad (ReqFrame (cl_id c) name 0)) →
  seal_ok (ss_Key s) n2 (answer_of (cl_id c) out).2 (frame_aad (answer_of (cl_id c) out).1) →
  length n3 = NonceSize →
  ∃ d1 d2 sent b2,
    handleReq aead_error_text requestWantsStream p None req d
      = Some (d1, [Started (cl_id c) name (RawOther (or_braces (raw_bytes args))) 0])
    ∧ finish_req duration_string quoted p (ToolReturned out) n3 (Some n2) d1 = Some (d2, sent)
    ∧ end_call c (inbound (messages sent) b1) = Some (verdict_of out, b2).
Proof.
  intros HA HL Eb Ed Ht Hb Hg Hw Hs1 Hs2 Hn3. unfold begin_call in Hb. destruct (b_closed b); [done|]. cbv zeta in Hb.
  set (id := wrap 64 (b_nextID b + 1)) in *. unfold set_field in Hb. cbn [b_sess b_conn b_nextID b_pending b_streamCbs b_closed] in Hb.
  rewrite Eb in Hb. unfold seal_req in Hb. rewrite HA in Hb. cbn [negb mbind option_bind q_Args q_ID q_Tool q_DeadlineMs] in Hb.
  injection Hb as Ec _ Er Eb1. subst c. cbn [cl_id cl_sess cl_stream] in *.
  unfold ReqAAD in Er. rewrite HL in Er.
  assert (req = mkReq id name (AEADSealJSON (ss_Key s) n1 (or_braces (raw_bytes args)) (frame_aad (ReqFrame id name 0))) 0)
    as -> by (symmetry; exact Er). clear Er.
  pose proof (admit_sealed s n1 id name 0 _ _ g HA HL Hs1 Hg) as Ha.
  set (resp := seal_resp s (Some n2) (Dispatch quoted (d_tools d) id name out)).
  set (k := seal_chunk s n3 (mkChunk id 0 true [] [])).
  assert (∃ b2, end_call (mkCall id s stream)
    (inbound ((if stream then [MsgToolStream k] else []) ++ [MsgToolResp resp]) b1) = Some (verdict_of out, b2)) as [b2 E2].
  { assert (p_ID resp = id) as Eid by (subst resp; rewrite seal_resp_dispatch by done; by destruct out).
    subst b1. destruct stream; unfold inbound; cbn [app fold_left HandleInbound].
    - replace (k_ID k) with id by (subst k; unfold seal_chunk; by rewrite HA).
      unfold set_field. cbn [b_streamCbs]. rewrite lookup_insert_eq. unfold offer. cbn [b_pending]. rewrite Eid, lookup_insert_eq.
      unfold end_call, set_field. cbn [cl_id cl_stream cl_sess b_pending b_streamCbs b_sess]. rewrite !lookup_insert_eq.
      cbn [y_local y_resp]. eexists. f_equal. f_equal. rewrite ?Eb. subst resp. apply check_resp_sealed; [done..|].
      intros r [= <-]. by apply recv_terminator.
    - unfold set_field, offer. cbn [b_pending]. rewrite Eid, lookup_insert_eq.
      unfold end_call, set_field. cbn [cl_id cl_stream cl_sess b_pending b_streamCbs b_sess]. rewrite !lookup_insert_eq.
      cbn [y_local y_resp]. eexists. f_equal. f_equal. subst resp. by apply check_resp_sealed. }
  assert (∃ sk, sink_finish s n3 (mkSink id 0 stream false) = (if stream then Some k else None, sk)) as [sk Ek].
  { subst k. destruct stream; unfold sink_finish; cbn; eauto. }
  do 4 eexists. split; [|split].
  - unfold handleReq. rewrite Ed, Ha. cbn [mbind option_bind q_ID q_Tool q_DeadlineMs]. rewrite Hw. reflexivity.
  - unfold finish_req, set_field. cbn [d_runs d_cancels d_sess d_conn d_tools d_replay d_inbound].
    rewrite lookup_insert_eq. cbn [mbind option_bind r_sink r_id r_sess q_ID q_Tool]. rewrite Ed, Ek. reflexivity.
  - unfold sendResp, outcome_resp. cbn [r_id r_tool d_tools]. fold resp. rewrite <- E2. f_equal. f_equal. by destruct stream.
Qed.
End roundtrip.

(** ** A lost tunnel *)

Lemma offer_keeps id y id' m b :
  b_pending b !! id = Some (Some y) → b_pending (offer id' m b) !! id = Some (Some y).
Proof.
  intros E. unfold offer. destruct (b_pending b !! id') as [[z|]|] eqn:E'; [done| |done].
  unfold set_field. cbn [b_pending]. rewrite lookup_insert_ne; [done|]. intros ->. congruence.
Qed.

Lemma HandleInbound_keeps `{Aead} id y m b :
  b_pending b !! id = Some (Some y) → b_pending (HandleInbound m b) !! id = Some (Some y).
Proof.
  intros E. destruct m as [p|k]; cbn [HandleInbound]; [by apply offer_keeps|].
  by destruct (b_streamCbs b !! k_ID k).
Qed.

Lemma inbound_keeps `{Aead} id y ms : ∀ b,
  b_pending b !! id = Some (Some y) → b_pending (inbound ms b) !! id = Some (Some y).
Proof.
  induction ms as [|m ms IH]; intros b E; [done|]. unfold inbound. cbn [fold_left]. by apply IH, HandleInbound_keeps.
Qed.


(** ** A demo call *)

Module DemoCall.
Definition key : Key := replicate 32 7.
Definition nonce : list Z := replicate 24 9.
Definition sess : Session := mkSession key "2".
Definition chunks : list (gostring * list Z) := [(lit "stdout", lit "hi"); (lit "stderr", lit "oh")].
Definition answer : frame := RespFrame 1 true [] [].
Definition log : list (frame * list Z) := stream_frames 1 chunks ++ [(answer, lit "{}")].
Definition seal (f : frame) (plain : list Z) : list Z := AEADSeal key nonce plain (frame_aad f).
Definition chunk (seq : Z) (st : gostring) (plain : list Z) (fin : bool) : OutMsg :=
  MsgToolStream (mkChunk 1 seq fin st (seal (ChunkFrame 1 seq st fin) plain)).
(** The response first, a frame twice, the last one before the others. *)
Definition msgs : list OutMsg :=
  [MsgToolResp (mkResp 1 true (AEADSealJSON key nonce (lit "{}") (frame_aad answer)) [] []);
   chunk 2 [] [] true; chunk 1 (lit "stderr") (lit "oh") false; chunk 1 (lit "stderr") (lit "oh") false;
   chunk 0 (lit "stdout") (lit "hi") false].
Definition bridge : Bridge := NewBridge 1 sess None.
Definition started := begin_call (lit "exec") RawAbsent true (Some nonce) bridge.

Lemma call_active : Active sess = true.
Proof. by vm_compute. Qed.
Lemma call_current : Legacy sess = false.
Proof. by vm_compute. Qed.

Lemma chunk_ok seq st plain fin :
  (ChunkFrame 1 seq st fin, plain) ∈ log → frame_ok (ChunkFrame 1 seq st fin) → inbound_ok sess log (chunk seq st plain fin).
Proof.
  intros Hin Hok. split; [|done]. intros aad p E. apply toy_open_seal in E as [-> ->]; [|reflexivity]. by eexists.
Qed.

Lemma msgs_ok : Forall (inbound_ok sess log) msgs.
Proof.
  assert (∀ k, k ∈ [chunk 2 [] [] true; chunk 1 (lit "stderr") (lit "oh") false; chunk 0 (lit "stdout") (lit "hi") false] →
    inbound_ok sess log k) as Hk.
  { intros k Hk. rewrite !elem_of_cons, elem_of_nil in Hk.
    destruct Hk as [->|[->|[->|[]]]]; (apply chunk_ok; [|by vm_compute]); by_compute. }
  repeat (apply Forall_cons; split); [|apply Hk; set_solver..|by apply Forall_nil].
  split; [|by vm_compute]. intros aad p E. apply toy_open_only in E as [-> ->]; [|by constructor; by_compute].
  exists answer. split; [by_compute|]. split; [by vm_compute|done].
Qed.

Lemma only : only_stream log 1 chunks.
Proof.
  intros seq st fin plain [Hin|Hin]%elem_of_app; [done|]. apply list_elem_of_singleton in Hin. done.
Qed.
End DemoCall.


Lemma call_roundtrip_witness :
  match begin_call (lit "exec") RawAbsent true (Some DemoCall.nonce) DemoCall.bridge with
  | (Ok (c, _, req), b1) =>
      ∃ d1 d2 sent b2,
        handleReq (fun _ => []) (fun _ => true) 1 None req (NewDaemon {[lit "exec"]} 1 DemoCall.sess)
          = Some (d1, [Started (cl_id c) (lit "exec") (RawOther (lit "{}")) 0])
        ∧ finish_req (fun _ => []) (fun s => s) 1 (ToolReturned (Err (lit "exec_denied: rm"))) DemoCall.nonce (Some DemoCall.nonce) d1
          = Some (d2, sent)
        ∧ end_call c (inbound (messages sent) b1) = Some (Err (RemoteError (lit "exec_denied") (lit "exec_denied: rm")), b2)
  | _ => False
  end.
Proof.
  destruct (begin_call _ _ _ _ _) as [[[[c conn] req]|e] b1] eqn:E; [|by vm_compute in E].
  assert (cl_id c = 1) as Ec by (vm_compute in E; injection E; intros; subst; by vm_compute).
  destruct (accept 1024 (cl_id c) (d_replay (NewDaemon {[lit "exec"]} 1 DemoCall.sess))) as [[[] g]|] eqn:Eg;
    rewrite Ec in Eg; [|by vm_compute in Eg..].
  refine (call_roundtrip (fun _ => []) (fun _ => []) (fun s => s) (fun _ => true) DemoCall.sess DemoCall.bridge b1
    (NewDaemon {[lit "exec"]} 1 DemoCall.sess) (lit "exec") RawAbsent true DemoCall.nonce DemoCall.nonce DemoCall.nonce
    c conn req 1 g (Err (lit "exec_denied: rm")) DemoCall.call_active DemoCall.call_current eq_refl eq_refl _ E _ eq_refl _ _ eq_refl);
    rewrite ?Ec; [by_compute|exact Eg|constructor; by_compute..].
Defined.

