(* ===== verification/AgentWinargs.v ===== *)
(** * Windows command lines ([internal/agent/winargs.go])

    A process that restarts itself elevated hands its arguments over as one string,
    which the Go runtime of the child splits again ([os.commandLineToArgv] of the
    standard library, written out below). *)

From S2P Require Import Prelude GoNet GoText.

Open Scope Z_scope.

Definition backslash : Z := 92.
Definition quote : Z := 34.
Definition space : Z := 32.
Definition tab : Z := 9.

Definition slashes (n : nat) : gostring := replicate n backslash.

(** The loop of [quoteWindowsArg], with its pending backslashes. *)
Fixpoint quote_loop (n : nat) (s : gostring) : gostring :=
  match s with
  | [] => slashes (n * 2)
  | c :: s =>
      if c =? backslash then quote_loop (S n) s
      else if c =? quote then slashes (n * 2 + 1) ++ quote :: quote_loop 0 s
      else slashes n ++ c :: quote_loop 0 s
  end.

(** Space, tab, line feed, vertical tab or quote. *)
Definition separator (c : Z) : bool :=
  (c =? space) || (c =? tab) || (c =? 10) || (c =? 11) || (c =? quote).

Definition quoteWindowsArg (s : gostring) : gostring :=
  if bool_decide (s ≠ []) && negb (existsb separator s) then s
  else [quote] ++ quote_loop 0 s ++ [quote].

(** [strings.Join] with a space. *)
Fixpoint join_space (l : list gostring) : gostring :=
  match l with
  | [] => []
  | [s] => s
  | s :: l => s ++ [space] ++ join_space l
  end.

Definition buildWindowsCommandLine (args : list gostring) : gostring := join_space (map quoteWindowsArg args).

(** ** The child's side *)

(** [readNextArg]: the argument read so far, whether inside quotes, and the
    backslashes seen last; the result is the argument and the rest. *)
Fixpoint read_arg (cmd b : gostring) (inquote : bool) (nslash : nat) : gostring * gostring :=
  match cmd with
  | [] => (b ++ slashes nslash, [])
  | c :: r =>
      if ((c =? space) || (c =? tab)) && negb inquote then (b ++ slashes nslash, r)
      else if c =? quote then
        let b := b ++ slashes (nslash / 2) in
        if Nat.even nslash then
          match r with
          | c' :: r' =>
              if inquote && (c' =? quote) then read_arg r' (b ++ [quote]) false 0
              else read_arg r b (negb inquote) 0
          | [] => read_arg r b (negb inquote) 0
          end
        else read_arg r (b ++ [quote]) inquote 0
      else if c =? backslash then read_arg r b inquote (S nslash)
      else read_arg r (b ++ slashes nslash ++ [c]) inquote 0
  end.

Fixpoint argv_loop (fuel : nat) (cmd : gostring) : list gostring :=
  match fuel with
  | O => []
  | S fuel =>
      match cmd with
      | [] => []
      | c :: r =>
          if (c =? space) || (c =? tab) then argv_loop fuel r
          else let (arg, rest) := read_arg cmd [] false 0 in arg :: argv_loop fuel rest
      end
  end.

(** Every round consumes a byte. *)
Definition commandLineToArgv (cmd : gostring) : list gostring := argv_loop (S (length cmd)) cmd.

Example torn : commandLineToArgv (lit "--root C:\Work Dir") = [lit "--root"; lit "C:\Work"; lit "Dir"].
Proof. by vm_compute. Qed.
Example kept_whole : buildWindowsCommandLine [lit "--root"; lit "C:\Work Dir\"] = lit "--root " ++ [34] ++ lit "C:\Work Dir\\" ++ [34].
Proof. by vm_compute. Qed.

(** ** The round trip *)

Lemma slashes_S n : slashes n ++ [backslash] = slashes (S n).
Proof. unfold slashes. by rewrite <- replicate_cons_app. Qed.

(** Backslashes are counted. *)
Lemma read_slashes m : ∀ x b q k, read_arg (slashes m ++ x) b q k = read_arg x b q (m + k).
Proof.
  induction m as [|m IH]; intros x b q k; [done|]. cbn [slashes replicate app read_arg]. simpl.
  change (replicate m backslash) with (slashes m). rewrite IH. f_equal. lia.
Qed.

(** What follows an argument on the command line. *)
Inductive follows : gostring → gostring → Prop :=
| follows_end : follows [] []
| follows_next rest : follows (space :: rest) rest.

Lemma read_stop x rest b n : follows x rest → read_arg x b false n = (b ++ slashes n, rest).
Proof. by intros []. Qed.

(** A byte that is neither a backslash nor a quote, inside quotes. *)
Lemma read_plain c r b n : c ≠ backslash → c ≠ quote →
  read_arg (c :: r) b true n = read_arg r (b ++ slashes n ++ [c]) true 0.
Proof.
  intros H1 H2. cbn [read_arg negb]. rewrite andb_false_r.
  apply Z.eqb_neq in H1 as ->. by apply Z.eqb_neq in H2 as ->.
Qed.

Lemma read_quoted s : ∀ n b x rest, follows x rest →
  read_arg (quote_loop n s ++ quote :: x) b true 0 = (b ++ slashes n ++ s, rest).
Proof.
  induction s as [|c s IH]; intros n b x rest Hx; cbn [quote_loop].
  - rewrite read_slashes. cbn [read_arg]. simpl ((quote =? space) || _). cbn [andb]. rewrite Z.eqb_refl.
    replace (n * 2 + 0)%nat with (n * 2)%nat by lia. rewrite Nat.div_mul by lia.
    assert (Nat.even (n * 2) = true) as -> by (rewrite Nat.even_mul; by rewrite orb_true_r).
    assert (read_arg x (b ++ slashes n) false 0 = (b ++ slashes n ++ [], rest)) as E.
    { rewrite (read_stop x rest) by done. f_equal. by rewrite !app_nil_r. }
    destruct Hx; exact E.
  - destruct (Z.eqb_spec c backslash) as [->|Hb].
    { rewrite IH with (rest := rest) by done. f_equal. rewrite <- slashes_S, <- (assoc_L (++)). done. }
    destruct (Z.eqb_spec c quote) as [->|Hq].
    + rewrite <- (assoc_L (++)), read_slashes. cbn [app read_arg]. simpl ((quote =? space) || _). cbn [andb].
      rewrite Z.eqb_refl. replace (n * 2 + 1 + 0)%nat with (1 + n * 2)%nat by lia.
      rewrite Nat.div_add by lia. rewrite Nat.even_add, Nat.even_mul, orb_true_r. cbn [Nat.even eqb].
      rewrite IH with (rest := rest) by done. f_equal. simpl. by rewrite <- !(assoc_L (++)).
    + rewrite <- (assoc_L (++)), read_slashes. cbn [app]. rewrite read_plain by done.
      rewrite IH with (rest := rest) by done. f_equal. rewrite Nat.add_0_r. simpl. by rewrite <- !(assoc_L (++)).
Qed.

Lemma read_unquoted s : ∀ n b x rest, existsb separator s = false → follows x rest →
  read_arg (s ++ x) b false n = (b ++ slashes n ++ s, rest).
Proof.
  induction s as [|c s IH]; intros n b x rest Hs Hx.
  - simpl. rewrite (read_stop x rest) by done. by rewrite app_nil_r.
  - cbn [existsb] in Hs. apply orb_false_iff in Hs as [Hc Hs]. unfold separator in Hc.
    rewrite !orb_false_iff in Hc. destruct Hc as [[[[H1 H2] H3] H4] H5].
    cbn [app read_arg]. rewrite H1, H2, H5. cbn [orb andb].
    destruct (Z.eqb_spec c backslash) as [->|Hb].
    + rewrite IH with (rest := rest) by done. f_equal. rewrite <- slashes_S, <- (assoc_L (++)). done.
    + rewrite IH with (rest := rest) by done. f_equal. simpl. by rewrite <- !(assoc_L (++)).
Qed.

Lemma read_back s x rest : follows x rest → read_arg (quoteWindowsArg s ++ x) [] false 0 = (s, rest).
Proof.
  intros Hx. unfold quoteWindowsArg. destruct (_ && _) eqn:E.
  - apply andb_prop in E as [_ E%negb_true_iff]. by apply (read_unquoted s 0 [] x rest).
  - cbn [app]. rewrite <- (assoc_L (++)). cbn [app].
    transitivity (read_arg (quote_loop 0 s ++ quote :: x) [] true 0); [|by apply (read_quoted s 0 [] x rest)].
    cbn [read_arg]. simpl ((quote =? space) || _). cbn [andb]. rewrite Z.eqb_refl. cbn [Nat.even Nat.div].
    destruct (quote_loop 0 s ++ quote :: x); done.
Qed.

Lemma quoted_head s : ∃ c r, quoteWindowsArg s = c :: r ∧ (c =? space) || (c =? tab) = false.
Proof.
  unfold quoteWindowsArg. destruct (_ && _) eqn:E; [|by do 2 eexists].
  apply andb_prop in E as [H1%bool_decide_eq_true H2%negb_true_iff]. destruct s as [|c r]; [done|].
  exists c, r. split; [done|]. cbn [existsb] in H2. unfold separator in H2.
  apply orb_false_iff in H2 as [H2 _]. rewrite !orb_false_iff in H2. destruct H2 as [[[[-> ->] _] _] _]. done.
Qed.

Lemma argv_roundtrip args : ∀ fuel, (length (buildWindowsCommandLine args) < fuel)%nat →
  argv_loop fuel (buildWindowsCommandLine args) = args.
Proof.
  unfold buildWindowsCommandLine.
  assert (∀ s x rest fuel, follows x rest → (0 < fuel)%nat →
    argv_loop fuel (quoteWindowsArg s ++ x) = s :: argv_loop (pred fuel) rest) as Hstep.
  { intros s x rest fuel Hx Hf. destruct fuel as [|fuel]; [lia|]. pose proof (read_back s x rest Hx) as E.
    destruct (quoted_head s) as (c & r & Hs & Hc). cbn [argv_loop pred]. rewrite Hs in *. cbn [app] in *.
    by rewrite Hc, E. }
  induction args as [|s args IH]; intros fuel Hf; [by destruct fuel|].
  destruct (quoted_head s) as (c & r & Hs & _). destruct args as [|s' args].
  - cbn [map join_space] in *. rewrite <- (app_nil_r (quoteWindowsArg s)).
    rewrite (Hstep s [] [] fuel follows_end) by lia. by destruct (pred fuel).
  - change (join_space (map quoteWindowsArg (s :: s' :: args)))
      with (quoteWindowsArg s ++ space :: join_space (map quoteWindowsArg (s' :: args))) in *.
    rewrite (Hstep s _ _ fuel (follows_next _)) by lia. f_equal. apply IH.
    rewrite length_app in Hf. simpl length in Hf at 2. rewrite Hs in Hf. simpl in Hf. simpl. lia.
Qed.

(** C16: arguments survive the command line: whatever bytes they hold - spaces,
    quotes, backslashes before a quote or at the end, nothing at all - the child
    splits the line built from them back into exactly the same arguments. *)
Theorem command_line_roundtrip (args : list gostring) :
  commandLineToArgv (buildWindowsCommandLine args) = args.
Proof. apply argv_roundtrip. lia. Qed.
