(* ===== verification/AgentTransfer.v ===== *)
(** * Progress of file transfers ([internal/agent/transfer.go])

    The agent recognises the chunks of a file transfer among its tool calls.  The
    arguments and the result come decoded, [None] when [json.Unmarshal] fails;
    [content] and [bytes] stay raw JSON, as in the source.  Sizes are [int64]. *)

From S2P Require Import Prelude GoNet GoText GoBase64.

Open Scope Z_scope.

Record TransferEvent := mkTransferEvent {
  te_Dir : string;
  te_Path : gostring;
  te_Offset : Z;
  te_Bytes : Z;
  te_Total : Z;
  te_Start : bool;
  te_EOF : bool;
}.

Definition positive (v : Z) : Z := if v <? 0 then 0 else v.

(** The padding at the end, two characters at most: [back] is the list from its end. *)
Fixpoint trailing_pads (k : nat) (back : gostring) : Z :=
  match k, back with
  | S k, c :: back => if c =? b64_pad then 1 + trailing_pads k back else 0
  | _, _ => 0
  end.

Definition base64JSONLen (raw : gostring) : Z :=
  match raw with
  | c :: (_ :: _) as r =>
      if negb (c =? 34) || bool_decide (last r ≠ Some 34) then 0
      else
        let s := removelast r in
        Z.of_nat (length s) / 4 * 3 - trailing_pads 2 (rev s)
  | _ => 0
  end.

Record WriteArgs := mkWriteArgs { wa_Path : gostring; wa_Content : gostring; wa_At : option Z; wa_Total : Z }.
Record ReadArgs := mkReadArgs { ra_Path : gostring; ra_Offset : Z; ra_Total : Z }.
Record ReadResult := mkReadResult { rd_Bytes : gostring; rd_EOF : bool }.

(** A call, its arguments decoded for its tool. *)
Inductive ToolCall :=
| CallWriteFile (args : option WriteArgs)
| CallReadFile (args : option ReadArgs) (result : option ReadResult)
| CallOther.

Definition parseTransfer (call : ToolCall) : option TransferEvent :=
  match call with
  | CallWriteFile (Some a) =>
      let n := base64JSONLen (wa_Content a) in
      match wa_At a with
      | Some at_ => Some (mkTransferEvent "upload" (wa_Path a) at_ n (positive (wa_Total a)) false false)
      | None =>
          if (0 <? wa_Total a) && (n =? 0)
          then Some (mkTransferEvent "upload" (wa_Path a) 0 0 (wa_Total a) true false) else None
      end
  | CallReadFile (Some a) result =>
      if ra_Total a <=? 0 then None else
      match result with
      | None => None
      | Some r => Some (mkTransferEvent "download" (ra_Path a) (ra_Offset a) (base64JSONLen (rd_Bytes r)) (ra_Total a)
                          false (rd_EOF r))
      end
  | _ => None
  end.

(** ** The size without decoding *)

(** The JSON string a chunk of bytes is sent as. *)
Definition json_bytes (l : list Z) : gostring := [34] ++ b64_encode true l ++ [34].

Lemma rev_encode l : Forall is_byte l →
  trailing_pads 2 (rev (b64_encode true l)) = 3 * Z.of_nat ((length l + 2) / 3) - Z.of_nat (length l).
Proof.
  intros Hl. assert (∀ i, 0 ≤ i < 64 → b64_char i =? b64_pad = false) as Hp by by intros i (_ & ?%Z.eqb_neq & _)%b64_index_char.
  revert Hl. induction l as [|a|a b|a b c l IH] using list_ind3; intros Hl; rewrite ?Forall_cons in Hl;
    unfold is_byte in Hl; destruct_and? Hl; [done| | |].
  - cbn -[b64_char b64_pad Z.eqb]. rewrite !Z.eqb_refl, ?Hp by zdiv. done.
  - cbn -[b64_char b64_pad Z.eqb]. rewrite Z.eqb_refl, Hp by zdiv. done.
  - cbn [b64_encode]. rewrite rev_app_distr.
    replace (length (a :: b :: c :: l) + 2)%nat with (length l + 2 + 1 * 3)%nat by (simpl; lia).
    rewrite Nat.div_add by lia. simpl length. destruct l as [|x l].
    + cbn -[b64_char b64_pad Z.eqb]. rewrite Hp by zdiv. done.
    + assert (∃ y z r, rev (b64_encode true (x :: l)) = y :: z :: r) as (y & z & r & E).
      { pose proof (length_b64 (x :: l)) as HL. rewrite <- length_rev in HL.
        assert (1 ≤ (length (x :: l) + 2) / 3)%nat as Hq by (apply Nat.div_le_lower_bound; simpl; lia).
        revert HL Hq. generalize ((length (x :: l) + 2) / 3)%nat. intros q HL Hq.
        destruct (rev (b64_encode true (x :: l))) as [|y [|z r]]; cbn [length] in HL; [lia..|eauto]. }
      assert (trailing_pads 2 (rev (b64_encode true (x :: l)) ++ rev [b64_char (a / 4); b64_char (a mod 4 * 16 + b / 16);
        b64_char (b mod 16 * 4 + c / 64); b64_char (c mod 64)]) = trailing_pads 2 (rev (b64_encode true (x :: l)))) as ->.
      { rewrite E. cbn -[b64_char b64_pad Z.eqb]. by destruct (y =? b64_pad), (z =? b64_pad). }
      rewrite IH by done. simpl length. lia.
Qed.

(** The progress display counts right: for every chunk of bytes, the size read
    off the JSON text it was sent as, without decoding it, is the number of bytes
    that decoding gives. *)
Theorem base64JSONLen_counts (l : list Z) :
  Forall is_byte l →
  base64JSONLen (json_bytes l) = Z.of_nat (length l) ∧ b64_decode (b64_encode true l) = Some l.
Proof.
  intros Hl. split; [|by apply b64_roundtrip]. unfold base64JSONLen, json_bytes. cbn [app].
  destruct (b64_encode true l ++ [34]) as [|x r] eqn:E; [by destruct (b64_encode true l)|]. rewrite <- E.
  rewrite bool_decide_false by (rewrite last_snoc; tauto). cbn [negb orb Z.eqb Pos.eqb].
  rewrite removelast_last, rev_encode, length_b64 by done.
  generalize ((length l + 2) / 3)%nat. intros q. replace (Z.of_nat (4 * q) / 4) with (Z.of_nat q) by zdiv. lia.
Qed.

Lemma base64JSONLen_counts_witness : base64JSONLen (json_bytes [0; 255; 16; 7]) = 4.
Proof. apply (base64JSONLen_counts [0; 255; 16; 7]). repeat constructor; lia. Defined.
