(* ===== verification/AgentTruncate.v ===== *)
(** * Truncation of tool output (src/internal/agent/tools/truncate.go and
    exec_bounded.go)

    What a tool returns is cut to a size, at characters, so that what is kept
    is still readable: [TruncateHead] for a line of grep, [TruncateTail] for
    the end of a log, [TruncateMiddle] for the output of a command.
    [boundedStream] does the same to a stream that never sits whole in memory.

    Strings are lists of bytes and positions are [Z], the [int] of the code; a
    slice [s[:i]] is [take (Z.to_nat i) s], all of them in range. *)

From S2P Require Import Prelude GoNet GoText.

Open Scope Z_scope.

Definition len {A} (l : list A) : Z := Z.of_nat (length l).

(** [utf8.RuneStart] *)
Definition RuneStart (b : Z) : bool := negb (Z.land b 0xC0 =? 0x80).

Definition UTFMax : Z := 4.

(** ** truncate.go *)

(** [for i > 0 && !utf8.RuneStart(s[i]) { i-- }] *)
Fixpoint align_down_loop (s : list Z) (i : nat) : nat :=
  match i with
  | O => O
  | S j =>
      match s !! i with
      | Some b => if RuneStart b then i else align_down_loop s j
      | None => i
      end
  end.

Definition alignDown (s : list Z) (i : Z) : Z :=
  if i <=? 0 then 0
  else if len s <=? i then len s
  else Z.of_nat (align_down_loop s (Z.to_nat i)).

(** How far [for i < len(s) && !utf8.RuneStart(s[i]) { i++ }] goes from the
    start of [s[i:]]. *)
Fixpoint skip_cont (l : list Z) : nat :=
  match l with
  | b :: l => if RuneStart b then O else S (skip_cont l)
  | [] => O
  end.

Definition alignUp (s : list Z) (i : Z) : Z :=
  if i <=? 0 then 0
  else if len s <=? i then len s
  else i + Z.of_nat (skip_cont (drop (Z.to_nat i) s)).

Definition TruncateHead (s : list Z) (max : Z) : list Z :=
  if len s <=? max then s else take (Z.to_nat (alignDown s max)) s.

Definition TruncateTail (s : list Z) (max : Z) : list Z :=
  if len s <=? max then s else drop (Z.to_nat (alignUp s (len s - max))) s.

Definition truncMarkerReserve : Z := 96.

(** The marker left in the place of what is dropped; both functions print the
    same one. *)
Definition marker (dropped : Z) : list Z :=
  [10] ++ lit "...[中间 " ++ decimal dropped ++ lit " 字节已省略；需要完整输出请调高 max_output_bytes]..." ++ [10].

Definition TruncateMiddle (s : list Z) (max : Z) : list Z * bool :=
  if len s <=? max then (s, false)
  else if max <=? truncMarkerReserve then (TruncateHead s max, true)
  else
    let budget := max - truncMarkerReserve in
    let head := alignDown s (budget / 2) in
    let tail := alignUp s (len s - (budget - budget / 2)) in
    (take (Z.to_nat head) s ++ marker (tail - head) ++ drop (Z.to_nat tail) s, true).

(** ** exec_bounded.go *)

Definition execMaxOutputCeiling : Z := 8388608.
Definition execDefaultMaxOutput : Z := 32768.

Definition resolveMaxOutput (requested : Z) : Z :=
  if requested <=? 0 then execDefaultMaxOutput
  else if execMaxOutputCeiling <? requested then execMaxOutputCeiling
  else requested.

Record boundedStream := BoundedStream {
  bs_max : Z;
  bs_head : list Z;
  bs_tail : list Z;
  bs_total : Z;
}.

Definition newBoundedStream (max : Z) : boundedStream :=
  BoundedStream (if max <? 1 then 1 else max) [] [] 0.

(** [b.tail] after the append, before anything is moved: what the stream holds
    at its largest. *)
Definition tail_appended (b : boundedStream) (p : list Z) : list Z :=
  if bs_max b <=? len p then drop (Z.to_nat (len p - bs_max b)) p
  else bs_tail b ++ p.

Definition Write (b : boundedStream) (p : list Z) : boundedStream :=
  let room := bs_max b + UTFMax - len (bs_head b) in
  let head := if 0 <? room then bs_head b ++ take (Z.to_nat (Z.min room (len p))) p else bs_head b in
  let tail := tail_appended b p in
  let tail :=
    if len p <? bs_max b then
      if 2 * bs_max b <=? len tail then drop (Z.to_nat (len tail - bs_max b)) tail else tail
    else tail in
  BoundedStream (bs_max b) head tail (bs_total b + len p).

Definition tailWindow (b : boundedStream) : list Z :=
  if bs_max b <? len (bs_tail b) then drop (Z.to_nat (len (bs_tail b) - bs_max b)) (bs_tail b)
  else bs_tail b.

Definition stream_result (b : boundedStream) : list Z * bool :=
  if bs_total b <=? bs_max b then (bs_head b, false)
  else if bs_max b <=? truncMarkerReserve then (TruncateHead (bs_head b) (bs_max b), true)
  else
    let budget := bs_max b - truncMarkerReserve in
    let headN := budget / 2 in
    let tailN := budget - headN in
    let headIdx := alignDown (bs_head b) headN in
    let t := tailWindow b in
    let off := len t - tailN in
    let off := off + Z.of_nat (skip_cont (drop (Z.to_nat off) t)) in
    let tailIdx := bs_total b - (len t - off) in
    (take (Z.to_nat headIdx) (bs_head b) ++ marker (tailIdx - headIdx) ++ drop (Z.to_nat off) t, true).

(** The stream after the writes of a command, in order. *)
Definition Write_all (b : boundedStream) (ps : list (list Z)) : boundedStream := fold_left Write ps b.

Example bounded_small : stream_result (Write_all (newBoundedStream 5) [lit "ab"; lit "中文"]) = (lit "ab中", true).
Proof. by vm_compute. Qed.
Example bounded_cut :
  stream_result (Write_all (newBoundedStream 100) [repeat 65 60; repeat 66 60]) =
  (repeat 65 2 ++ marker 116 ++ repeat 66 2, true).
Proof. by vm_compute. Qed.

(** ** Characters *)

(** A string of whole characters. *)
Definition utf8 (s : list Z) : Prop := ∃ rs, Forall scalar rs ∧ s = concat (map encode_rune rs).

Lemma utf8_app s t : utf8 s → utf8 t → utf8 (s ++ t).
Proof.
  intros (rs & Hr & ->) (rt & Ht & ->). exists (rs ++ rt). split; [by apply Forall_app|].
  by rewrite map_app, concat_app.
Qed.

Lemma utf8_nil : utf8 [].
Proof. by exists []. Qed.

Lemma utf8_ascii s : Forall (fun b => 0 ≤ b < 128) s → utf8 s.
Proof.
  intros Hs. exists s. split.
  - eapply Forall_impl; [exact Hs|]. intros b Hb; cbn in Hb. split; lia.
  - induction Hs as [|b s Hb Hs IH]; [done|]. cbn [map concat]. rewrite <- IH. cbn in Hb.
    unfold encode_rune. rewrite (proj2 (Z.ltb_ge b 0)), (proj2 (Z.ltb_ge 0x10FFFF b)) by lia.
    rewrite between_false by lia. cbn -[Z.leb]. by rewrite (proj2 (Z.leb_le b 0x7F)) by lia.
Qed.

Lemma RuneStart_spec b : 0 ≤ b < 256 → RuneStart b = negb (is_cont b).
Proof.
  intros Hb. assert (forallb (fun b => Bool.eqb (RuneStart b) (negb (is_cont b))) (map Z.of_nat (seq 0 256)) = true)
    as H by by vm_compute.
  rewrite forallb_forall in H. apply Bool.eqb_prop, H, in_map_iff. exists (Z.to_nat b).
  split; [lia|]. apply in_seq. lia.
Qed.

Lemma start_cont y : 0 ≤ y < 64 → RuneStart (Z.lor 0x80 y) = false.
Proof.
  intros Hy. destruct (cont_byte y Hy) as (C & _ & E). rewrite RuneStart_spec by lia. by rewrite C.
Qed.

Lemma start_lead a b k : 0 ≤ k → 0 ≤ b < 2 ^ k → 0xC0 ≤ a * 2 ^ k → a * 2 ^ k + b < 256 → RuneStart (Z.lor (a * 2 ^ k) b) = true.
Proof.
  intros Hk Hb Ha Hlt. destruct (lead_byte a b k Hk Hb) as [-> _]. rewrite RuneStart_spec by lia.
  unfold is_cont. by rewrite (proj2 (Z.leb_gt _ 0xBF)), andb_false_r by lia.
Qed.

(** A character is one byte that starts it and at most three that do not. *)
Lemma encode_shape r :
  scalar r → ∃ b l, encode_rune r = b :: l ∧ RuneStart b = true ∧ Forall (fun c => RuneStart c = false) l ∧ (length l ≤ 3)%nat.
Proof.
  intros [Hr Hs]. unfold encode_rune. rewrite (proj2 (Z.ltb_ge r 0)), (proj2 (Z.ltb_ge 0x10FFFF r)) by lia.
  rewrite between_false by lia. cbn [orb].
  assert (∀ z, 0 ≤ Z.land z 0x3F < 64) as H6.
  { intros z. change 0x3F with (2 ^ 6 - 1). rewrite land_low by done. apply Z.mod_pos_bound. lia. }
  assert (∀ z, RuneStart (Z.lor 0x80 (Z.land z 0x3F)) = false) as Hc by (intros z; apply start_cont, H6).
  rewrite !Z.shiftr_div_pow2 by done.
  destruct (Z.leb_spec r 0x7F); [|destruct (Z.leb_spec r 0x7FF); [|destruct (Z.leb_spec r 0xFFFF)]];
    eexists _, _; (split_and!; [reflexivity| |by repeat constructor|simpl; lia]).
  - rewrite RuneStart_spec by lia. unfold is_cont. by rewrite (proj2 (Z.leb_gt 0x80 r)) by lia.
  - apply (start_lead 6 (r / 2 ^ 6) 5); change (2 ^ 5) with 32; change (2 ^ 6) with 64; zdiv.
  - apply (start_lead 14 (r / 2 ^ 12) 4); change (2 ^ 4) with 16; change (2 ^ 12) with 4096; zdiv.
  - apply (start_lead 30 (r / 2 ^ 18) 3); change (2 ^ 3) with 8; change (2 ^ 18) with 262144; zdiv.
Qed.

(** A position of a string of characters is between two of them when it is the
    start, the end or holds the first byte of one. *)
Lemma utf8_cut s i :
  utf8 s → (i = O ∨ (length s ≤ i)%nat ∨ ∃ b, s !! i = Some b ∧ RuneStart b = true) → utf8 (take i s) ∧ utf8 (drop i s).
Proof.
  intros (rs & Hrs & ->) Hi. revert i Hi. induction Hrs as [|r rs Hr Hrs IH]; intros i Hi.
  { cbn [map concat]. rewrite take_nil, drop_nil. split; apply utf8_nil. }
  cbn [map concat] in *. assert (utf8 (encode_rune r)) as Ur.
  { exists [r]. split; [by constructor|]. cbn. by rewrite app_nil_r. }
  assert (utf8 (concat (map encode_rune rs))) as Urs by by exists rs.
  destruct (decide (i = O)) as [->|Hne]; [split; [apply utf8_nil|by apply utf8_app]|].
  destruct (encode_shape r Hr) as (b & l & E & Hb & Hl & _).
  destruct (decide (length (encode_rune r) ≤ i)%nat) as [Hle|Hgt].
  - destruct (IH (i - length (encode_rune r))%nat) as [I1 I2].
    { right. destruct Hi as [?|[Hi|(c & Hi & Hc)]]; [done|left; rewrite length_app in Hi; lia|right].
      exists c. by rewrite lookup_app_r in Hi by done. }
    rewrite take_app_ge, drop_app_ge by done. split; [by apply utf8_app|done].
  - exfalso. destruct Hi as [?|[Hi|(c & Hi & Hc)]]; [done|rewrite length_app in Hi; lia|].
    rewrite lookup_app_l, E in Hi by lia. destruct i as [|i]; [done|]. simpl in Hi.
    rewrite (proj1 (Forall_lookup _ _) Hl _ _ Hi) in Hc. done.
Qed.

Lemma align_down_loop_spec s i :
  (i < length s)%nat →
  let j := align_down_loop s i in
  (j ≤ i)%nat ∧ (j = O ∨ ∃ b, s !! j = Some b ∧ RuneStart b = true) ∧
  ∀ k b, (j < k ≤ i)%nat → s !! k = Some b → RuneStart b = false.
Proof.
  induction i as [|i IH]; intros Hi; cbn [align_down_loop]; [split_and!; [done|by left|lia]|].
  destruct (lookup_lt_is_Some_2 s (S i) Hi) as [b Hb]. rewrite Hb.
  destruct (RuneStart b) eqn:E; [split_and!; [lia|right; eauto|lia]|].
  destruct IH as (H1 & H2 & H3); [lia|]. split_and!; [lia|done|].
  intros k c Hk Hc. destruct (decide (k = S i)) as [->|]; [congruence|]. apply (H3 k c); [lia|done].
Qed.

Lemma skip_cont_spec l :
  (skip_cont l ≤ length l)%nat ∧ ((length l ≤ skip_cont l)%nat ∨ ∃ b, l !! skip_cont l = Some b ∧ RuneStart b = true) ∧
  Forall (fun b => RuneStart b = false) (take (skip_cont l) l).
Proof.
  induction l as [|b l (H1 & H2 & H3)]; cbn [skip_cont]; [split_and!; [done|by left|constructor]|].
  destruct (RuneStart b) eqn:E.
  - split_and!; [lia| |constructor]. right. by exists b.
  - cbn [length take]. split_and!; [lia| |by constructor].
    destruct H2 as [H2|(c & H2 & Hc)]; [left; lia|right; by exists c].
Qed.

Lemma alignDown_cut s i :
  utf8 s → utf8 (take (Z.to_nat (alignDown s i)) s) ∧ alignDown s i ≤ Z.max 0 i ∧ 0 ≤ alignDown s i ≤ len s.
Proof.
  intros Hs. unfold alignDown, len. destruct (Z.leb_spec i 0); [split_and!; [apply utf8_nil|lia..]|].
  destruct (Z.leb_spec (Z.of_nat (length s)) i).
  { split_and!; [|lia..]. by rewrite Nat2Z.id, take_ge. }
  destruct (align_down_loop_spec s (Z.to_nat i)) as (H1 & H2 & _); [lia|].
  split_and!; [|lia..]. rewrite Nat2Z.id. apply utf8_cut; [done|]. destruct H2 as [H2|H2]; [by left|right; by right].
Qed.

Lemma alignUp_cut s i :
  utf8 s → utf8 (drop (Z.to_nat (alignUp s i)) s) ∧ Z.min i (len s) ≤ alignUp s i ∧ 0 ≤ alignUp s i ≤ len s.
Proof.
  intros Hs. unfold alignUp, len. destruct (Z.leb_spec i 0); [split_and!; [done|lia..]|].
  destruct (Z.leb_spec (Z.of_nat (length s)) i).
  { split_and!; [|lia..]. rewrite Nat2Z.id, drop_ge by done. apply utf8_nil. }
  destruct (skip_cont_spec (drop (Z.to_nat i) s)) as (H1 & H2 & _). rewrite length_drop in H1, H2.
  split_and!; [|lia..]. apply utf8_cut; [done|]. right.
  destruct H2 as [H2|(b & H2 & Hb)]; [left; lia|right]. exists b. split; [|done].
  rewrite lookup_drop in H2. rewrite <- H2. f_equal. lia.
Qed.

(** ** What truncation keeps *)

Lemma decimal_digits n : 0 ≤ n → Forall (fun b => 0 ≤ b < 128) (decimal n).
Proof.
  unfold decimal. generalize 20%nat as f. intros f.
  assert (∀ m acc, 0 ≤ m → Forall (fun b => 0 ≤ b < 128) acc → Forall (fun b => 0 ≤ b < 128) (decimal_fuel f m acc)) as H.
  { induction f as [|f IH]; intros m acc Hm Hacc; cbn [decimal_fuel]; [done|].
    pose proof (Z.mod_pos_bound m 10 ltac:(lia)).
    assert (Forall (fun b => 0 ≤ b < 128) ((48 + m mod 10) :: acc)) by (constructor; [lia|done]).
    destruct (m <? 10); [done|]. apply IH; [zdiv|done]. }
  intros Hn. by apply H.
Qed.

Lemma decimal_length (k : nat) n : 0 ≤ n < 10 ^ Z.of_nat (S k) → (length (decimal n) ≤ S k)%nat.
Proof.
  unfold decimal. generalize 20%nat as f. intros f.
  assert (∀ k m acc, 0 ≤ m < 10 ^ Z.of_nat (S k) → (length (decimal_fuel f m acc) ≤ length acc + S k)%nat) as H.
  { induction f as [|f IH]; intros j m acc Hm; cbn [decimal_fuel]; [lia|].
    destruct (Z.ltb_spec m 10); [simpl; lia|]. destruct j as [|j]; [change (10 ^ Z.of_nat 1) with 10 in Hm; lia|].
    specialize (IH j (m / 10) ((48 + m mod 10) :: acc)). simpl in IH |- *. etransitivity; [apply IH|lia].
    rewrite (Nat2Z.inj_succ (S j)), Z.pow_succ_r in Hm by lia. change (Z.pos (Pos.of_succ_nat j)) with (Z.of_nat (S j)). zdiv. }
  intros Hn. apply (H k n [] Hn).
Qed.

Lemma marker_utf8 d : 0 ≤ d → utf8 (marker d).
Proof.
  intros Hd. unfold marker.
  assert (∀ l, Forall scalar (runes l) → l = concat (map encode_rune (runes l)) → utf8 l) as Hlit by (intros l; by exists (runes l)).
  apply utf8_app; [apply utf8_ascii; by_compute|]. apply utf8_app; [apply Hlit; [by_compute|by vm_compute]|].
  apply utf8_app; [by apply utf8_ascii, decimal_digits|].
  apply utf8_app; [apply Hlit; [by_compute|by vm_compute]|apply utf8_ascii; by_compute].
Qed.

Lemma marker_length d : 0 ≤ d < 10 ^ 16 → len (marker d) ≤ truncMarkerReserve.
Proof.
  intros Hd. pose proof (decimal_length 15 d Hd) as H. unfold marker, len, truncMarkerReserve.
  rewrite !length_app. change (length (lit "...[中间 ")) with 11%nat.
  change (length (lit " 字节已省略；需要完整输出请调高 max_output_bytes]...")) with 67%nat. simpl. lia.
Qed.

(** C39: [TruncateMiddle] returns at most [max] bytes and never cuts a
    character: of a string of whole characters it keeps a beginning and an end
    of whole characters, and puts between them a marker with the number of
    bytes dropped. *)
Theorem TruncateMiddle_characters s max :
  utf8 s → 0 ≤ max → len s < 10 ^ 16 →
  len (TruncateMiddle s max).1 ≤ max ∧ utf8 (TruncateMiddle s max).1 ∧
  ((TruncateMiddle s max).2 = false → (TruncateMiddle s max).1 = s) ∧
  ((TruncateMiddle s max).2 = true →
   ∃ h m t, s = h ++ m ++ t ∧ utf8 h ∧
     (TruncateMiddle s max).1 = if max <=? truncMarkerReserve then h else h ++ marker (len m) ++ t).
Proof.
  intros Hs Hmax Hlen. unfold TruncateMiddle.
  destruct (Z.leb_spec (len s) max) as [Hle|Hgt]; [by split_and!|].
  destruct (Z.leb_spec max truncMarkerReserve) as [Hsmall|Hbig]; cbn [fst snd].
  { unfold TruncateHead. rewrite (proj2 (Z.leb_gt _ _)) by done.
    destruct (alignDown_cut s max Hs) as (U & B1 & B2). set (i := alignDown s max) in *.
    split_and!; [unfold len in *; rewrite length_take; lia|done|done|].
    intros _. exists (take (Z.to_nat i) s), (drop (Z.to_nat i) s), []. split_and!; [|done|done].
    by rewrite app_nil_r, take_drop. }
  set (budget := max - truncMarkerReserve) in *.
  assert (0 ≤ budget / 2 ∧ 0 ≤ budget - budget / 2) as [Hb1 Hb2] by (unfold budget in *; zdiv).
  destruct (alignDown_cut s (budget / 2) Hs) as (U1 & B1 & B2).
  destruct (alignUp_cut s (len s - (budget - budget / 2)) Hs) as (U2 & B3 & B4).
  set (i := alignDown s _) in *. set (j := alignUp s _) in *.
  assert (i ≤ j) by (unfold budget, truncMarkerReserve in *; lia).
  pose proof (marker_length (j - i) ltac:(lia)) as Hm. split_and!.
  - unfold len in *. rewrite !length_app, length_take, length_drop. unfold budget in *. lia.
  - apply utf8_app; [done|]. apply utf8_app; [by apply marker_utf8; lia|done].
  - done.
  - intros _. exists (take (Z.to_nat i) s), (take (Z.to_nat (j - i)) (drop (Z.to_nat i) s)), (drop (Z.to_nat j) s).
    split_and!; [|done|].
    + rewrite <- (take_drop (Z.to_nat i) s) at 1. f_equal.
      rewrite <- (take_drop (Z.to_nat (j - i)) (drop (Z.to_nat i) s)) at 1. f_equal.
      rewrite drop_drop. f_equal. lia.
    + do 2 f_equal. f_equal. unfold len in *. rewrite length_take, length_drop. lia.
Qed.

Lemma TruncateMiddle_characters_witness :
  len (TruncateMiddle (lit "一二三" ++ repeat 65 100) 100).1 ≤ 100 ∧ utf8 (TruncateMiddle (lit "一二三" ++ repeat 65 100) 100).1.
Proof.
  destruct (TruncateMiddle_characters (lit "一二三" ++ repeat 65 100) 100) as (H1 & H2 & _).
  - exists (runes (lit "一二三" ++ repeat 65 100)). split; [by_compute|by vm_compute].
  - done.
  - done.
  - split; [exact H1|exact H2].
Defined.

(** ** The stream and the function *)

Lemma len_nonneg {A} (l : list A) : 0 ≤ len l.
Proof. unfold len. lia. Qed.

(** What a stream of size [max] holds of all the bytes [s] written to it. *)
Definition holds (max : Z) (b : boundedStream) (s : list Z) : Prop :=
  bs_max b = max ∧ bs_head b = take (Z.to_nat (max + UTFMax)) s ∧ bs_total b = len s ∧
  Z.min max (len s) ≤ len (bs_tail b) < 2 * max ∧ ∃ x, s = x ++ bs_tail b.

Lemma holds_new max : holds (Z.max 1 max) (newBoundedStream max) [].
Proof.
  unfold holds, newBoundedStream, len. cbn -[Z.to_nat Z.max Z.add]. rewrite take_nil.
  destruct (Z.ltb_spec max 1); split_and!; try done; try lia; by exists [].
Qed.

(** The [if]s on comparisons of integers, as hypotheses [lia] reads. *)
Ltac case_Z :=
  repeat match goal with
  | |- context [if ?a <? ?b then _ else _] => destruct (Z.ltb_spec a b)
  | |- context [if ?a <=? ?b then _ else _] => destruct (Z.leb_spec a b)
  end.

Lemma holds_Write max b s p : 1 ≤ max → holds max b s → holds max (Write b p) (s ++ p).
Proof.
  intros Hmax (Em & Eh & Et & [Hlo Hhi] & x & Es). unfold holds, Write, tail_appended. rewrite Em.
  cbn [bs_max bs_head bs_tail bs_total]. split_and!; [done|..].
  - rewrite Eh, take_app. unfold len, UTFMax. rewrite length_take. case_Z.
    + f_equal. destruct (decide (length s ≤ Z.to_nat (max + 4))%nat); [|lia].
      destruct (decide (length p ≤ Z.to_nat (max + 4) - length s)%nat); [by rewrite !take_ge by lia|f_equal; lia].
    + assert (Z.to_nat (max + 4) - length s = 0)%nat as -> by lia. by rewrite take_0, app_nil_r.
  - rewrite Et. unfold len. rewrite length_app. lia.
  - unfold len in *. rewrite length_app. case_Z; rewrite ?length_drop, ?length_app in *; lia.
  - unfold len in *. rewrite ?length_app. case_Z; rewrite ?length_drop, ?length_app in *; lia.
  - case_Z; try (unfold len in *; lia).
    + exists (x ++ take (Z.to_nat (len (bs_tail b ++ p) - max)) (bs_tail b ++ p)).
      by rewrite <- app_assoc, take_drop, Es, <- app_assoc.
    + exists x. by rewrite Es at 1; rewrite <- app_assoc.
    + exists (s ++ take (Z.to_nat (len p - max)) p). by rewrite <- app_assoc, take_drop.
Qed.

Lemma holds_Write_all max ps : ∀ b s, 1 ≤ max → holds max b s → holds max (Write_all b ps) (s ++ concat ps).
Proof.
  induction ps as [|p ps IH]; intros b s Hmax Hb; cbn [Write_all fold_left concat]; [by rewrite app_nil_r|].
  rewrite app_assoc. apply IH; [done|]. by apply holds_Write.
Qed.

Lemma align_down_loop_take s n : ∀ i, (i < n)%nat → align_down_loop (take n s) i = align_down_loop s i.
Proof.
  intros i Hi. induction i as [|i IH]; [done|]. cbn [align_down_loop]. rewrite lookup_take_lt by lia.
  destruct (s !! S i) as [b|]; [|done]. destruct (RuneStart b); [done|]. apply IH. lia.
Qed.

(** A prefix that goes past [i] is aligned at [i] like the whole. *)
Lemma alignDown_take s n i : i < len s → i < Z.of_nat n → alignDown (take n s) i = alignDown s i.
Proof.
  intros H1 H2. unfold alignDown, len in *. rewrite length_take. case_Z; try lia; try done.
  f_equal. apply align_down_loop_take. lia.
Qed.

Lemma alignDown_range s i : 0 ≤ i → 0 ≤ alignDown s i ≤ i.
Proof.
  intros Hi. unfold alignDown, len. case_Z; try lia.
  destruct (align_down_loop_spec s (Z.to_nat i)) as (H1 & _); lia.
Qed.

(** What the stream holds is all its result needs. *)
Lemma holds_result max b s : 1 ≤ max → holds max b s → stream_result b = TruncateMiddle s max.
Proof.
  intros Hmax (Em & Eh & Et & [Hlo Hhi] & x & Es). unfold stream_result, TruncateMiddle. rewrite Em, Et.
  destruct (Z.leb_spec (len s) max) as [Hle|Hgt].
  { rewrite Eh, take_ge; [done|]. unfold len, UTFMax in *. lia. }
  destruct (Z.leb_spec max truncMarkerReserve) as [Hsmall|Hbig].
  { unfold TruncateHead. rewrite Eh, (proj2 (Z.leb_gt (len s) max)) by done.
    rewrite (proj2 (Z.leb_gt _ _)) by (unfold len, UTFMax in *; rewrite length_take; lia).
    rewrite alignDown_take by (unfold len, UTFMax in *; lia). f_equal.
    rewrite take_take. f_equal. apply Nat.min_l.
    pose proof (alignDown_range s max). unfold UTFMax. lia. }
  unfold truncMarkerReserve in *. set (budget := max - 96) in *. assert (budget / 2 ≤ budget ∧ 0 ≤ budget / 2 ≤ max ∧ budget - budget / 2 ≤ max ∧ 1 ≤ budget - budget / 2) as (Hb0 & Hb1 & Hb2 & Hb3) by (unfold budget; split_and!; zdiv).
  set (headN := budget / 2) in *. set (tailN := budget - headN) in *.
  assert (alignDown (bs_head b) headN = alignDown s headN) as E1.
  { rewrite Eh. apply alignDown_take; unfold UTFMax, len in *; lia. }
  assert (take (Z.to_nat (alignDown s headN)) (bs_head b) = take (Z.to_nat (alignDown s headN)) s) as E2.
  { rewrite Eh, take_take. f_equal. apply Nat.min_l.
    pose proof (alignDown_range s headN). unfold UTFMax. lia. }
  assert (∃ y, s = y ++ tailWindow b) as [y Ey].
  { unfold tailWindow. case_Z; [|by exists x].
    exists (x ++ take (Z.to_nat (len (bs_tail b) - bs_max b)) (bs_tail b)). by rewrite <- app_assoc, take_drop. }
  assert (len (tailWindow b) = max) as Elt.
  { unfold tailWindow. rewrite Em. case_Z; unfold len in *; rewrite ?length_drop; lia. }
  set (t := tailWindow b) in *. assert (len s = len y + max) as Els.
  { rewrite <- Elt, Ey. unfold len. rewrite length_app. lia. }
  pose proof (len_nonneg y) as Hy.
  assert (∀ k, 0 ≤ k → drop (Z.to_nat (len y + k)) s = drop (Z.to_nat k) t) as Edrop.
  { intros k Hk. rewrite Ey. unfold len. rewrite drop_app_ge by lia. f_equal. lia. }
  assert (alignUp s (len s - tailN) = len y + (max - tailN + Z.of_nat (skip_cont (drop (Z.to_nat (max - tailN)) t)))) as E3.
  { unfold alignUp. case_Z; try lia. replace (len s - tailN) with (len y + (max - tailN)) by lia.
    rewrite Edrop by lia. lia. }
  rewrite E1, E2, E3, Elt, Edrop by lia. f_equal. f_equal. f_equal. f_equal. lia.
Qed.

(** The stream returns exactly what [TruncateMiddle] returns for the whole
    output, however the output was split into writes: cutting while the command
    runs cannot be told from cutting afterwards. *)
Theorem stream_is_truncation max ps :
  stream_result (Write_all (newBoundedStream max) ps) = TruncateMiddle (concat ps) (Z.max 1 max).
Proof. apply holds_result; [lia|]. apply (holds_Write_all _ ps _ []); [lia|]. apply holds_new. Qed.

Lemma resolved_positive requested : 1 ≤ resolveMaxOutput requested.
Proof. unfold resolveMaxOutput, execMaxOutputCeiling, execDefaultMaxOutput. case_Z; lia. Qed.

Lemma resolved_ceiling requested : resolveMaxOutput requested ≤ execMaxOutputCeiling.
Proof. unfold resolveMaxOutput, execMaxOutputCeiling, execDefaultMaxOutput. case_Z; lia. Qed.

(** Whatever a command writes and whatever size the caller asks for, the
    stream keeps at most [max + 4] bytes of the beginning and less than
    [2 * max] of the end, with [max] at most 8 MiB, and a write never makes the
    end longer than [3 * max - 2] bytes before it is cut back. *)
Theorem bounded_stream_memory requested ps p :
  let max := resolveMaxOutput requested in
  let b := Write_all (newBoundedStream max) ps in
  1 ≤ max ≤ execMaxOutputCeiling ∧ len (bs_head b) ≤ max + UTFMax ∧ len (bs_tail b) < 2 * max ∧
  len (tail_appended b p) ≤ 3 * max - 2.
Proof.
  cbv zeta. set (max := resolveMaxOutput requested).
  assert (1 ≤ max ≤ execMaxOutputCeiling) as Hmax by (split; [apply resolved_positive|apply resolved_ceiling]).
  pose proof (holds_new max) as H. rewrite Z.max_r in H by lia.
  apply (holds_Write_all _ ps) in H; [|lia]. set (b := Write_all _ _) in *. destruct H as (Em & Eh & Et & [Hlo Hhi] & x & Es).
  split_and!; [lia|lia| |done|].
  - rewrite Eh. unfold len, UTFMax. rewrite length_take. lia.
  - unfold tail_appended. rewrite Em. case_Z; unfold len in *; rewrite ?length_drop, ?length_app; lia.
Qed.

(** The end does get that long, half as much again as the two times [max] the
    type's comment gives for the peak. *)
Example bounded_stream_peak :
  len (tail_appended (Write_all (newBoundedStream 1000) [repeat 0 999; repeat 0 999; [0]]) (repeat 0 999)) = 3 * 1000 - 2.
Proof. by vm_compute. Qed.

(** [TruncateTail] keeps an end of whole characters, of at most [max] bytes. *)
Lemma TruncateTail_characters s max :
  utf8 s → 0 ≤ max → utf8 (TruncateTail s max) ∧ len (TruncateTail s max) ≤ max ∧ ∃ x, s = x ++ TruncateTail s max.
Proof.
  intros Hs Hmax. unfold TruncateTail. case_Z; [split_and!; [done|done|by exists []]|].
  destruct (alignUp_cut s (len s - max) Hs) as (U & B1 & B2). split_and!; [done| |].
  - unfold len in *. rewrite length_drop. lia.
  - exists (take (Z.to_nat (alignUp s (len s - max))) s). by rewrite take_drop.
Qed.

(** [TruncateHead] keeps a beginning. *)
Lemma TruncateHead_characters s max :
  utf8 s → 0 ≤ max → utf8 (TruncateHead s max) ∧ len (TruncateHead s max) ≤ max ∧ ∃ x, s = TruncateHead s max ++ x.
Proof.
  intros Hs Hmax. unfold TruncateHead. case_Z; [split_and!; [done|done|exists []; by rewrite app_nil_r]|].
  destruct (alignDown_cut s max Hs) as (U & B1 & B2). split_and!; [done| |].
  - unfold len in *. rewrite length_take. lia.
  - exists (drop (Z.to_nat (alignDown s max)) s). by rewrite take_drop.
Qed.
