(* ===== verification/AgentOemtext.v ===== *)
(** * Console encodings (src/internal/agent/tools/oemtext.go, oemtext_other.go
    and oemtext_windows.go)

    The output of a command on Windows may be in the console's code page.
    [decodingWriter] turns it into UTF-8 on its way to the bounded stream, and
    must leave alone what is UTF-8 already, wherever the pipe cuts it.

    What the platform provides is the class [Console], with an instance for
    the systems without code pages and one over the Windows API, whose two
    functions are parameters.  The writes that reach the writer below are
    returned as a list, in order; that writer, a bounded stream, never fails. *)

From S2P Require Import Prelude GoNet GoText AgentTruncate.

Open Scope Z_scope.

(** ** [scanUTF8] *)

Definition is_trail (b : Z) : bool := Z.land b 0xC0 =? 0x80.

(** The length a first byte announces. *)
Definition utf8_need (c : Z) : option nat :=
  if c <? 0x80 then Some 1%nat
  else if (0xC2 <=? c) && (c <=? 0xDF) then Some 2%nat
  else if (0xE0 <=? c) && (c <=? 0xEF) then Some 3%nat
  else if (0xF0 <=? c) && (c <=? 0xF4) then Some 4%nat
  else None.

(** The loop from position [i], as what it still consumes of [b[i:]]; each turn
    consumes a byte at least, so the length is enough fuel. *)
Fixpoint scan_fuel (fuel : nat) (b : list Z) : nat * bool :=
  match fuel, b with
  | S fuel, c :: r =>
      match utf8_need c with
      | None => (0%nat, false)
      | Some need =>
          if (length b <? need)%nat then (0%nat, true)
          else if forallb is_trail (take (need - 1) r) then
            let '(n, ok) := scan_fuel fuel (drop need b) in ((need + n)%nat, ok)
          else (0%nat, false)
      end
  | _, _ => (0%nat, true)
  end.
Definition scanUTF8 (b : list Z) : nat * bool := scan_fuel (length b) b.

(** ** The platform *)

Class Console := {
  consoleTranscode : list Z → option (list Z);
  splitTrailingPartial : list Z → list Z * list Z;
  (** The two parts are the bytes given, and at most one byte waits. *)
  split_parts b : b = (splitTrailingPartial b).1 ++ (splitTrailingPartial b).2;
  split_waits b : (length (splitTrailingPartial b).2 ≤ 1)%nat;
}.

Definition other_transcode (b : list Z) : option (list Z) := None.
Definition other_split (b : list Z) : list Z * list Z := (b, []).

(** oemtext_other.go *)
Definition other_console : Console.
Proof. refine {| consoleTranscode := other_transcode; splitTrailingPartial := other_split |}; intros b; simpl; [by rewrite app_nil_r|lia]. Defined.

(** [unicode/utf16]: [Decode]. *)
Fixpoint utf16_decode (w : list Z) : list Z :=
  match w with
  | [] => []
  | h :: rest =>
      if between 0xD800 h 0xDBFF then
        match rest with
        | l :: rest' =>
            if between 0xDC00 l 0xDFFF
            then ((h - 0xD800) * 1024 + (l - 0xDC00) + 0x10000) :: utf16_decode rest'
            else RuneError :: utf16_decode rest
        | [] => [RuneError]
        end
      else if between 0xDC00 h 0xDFFF then RuneError :: utf16_decode rest
      else h :: utf16_decode rest
  end.

Section windows.
(** The Windows API: the two code pages it reports, whether a byte leads a pair
    in a code page, and the conversion to UTF-16 that refuses invalid bytes. *)
Context (GetConsoleOutputCP GetOEMCP : Z) (IsDBCSLeadByteEx : Z → Z → bool).
Context (MultiByteToWideChar : Z → list Z → option (list Z)).

Definition cpUTF8 : Z := 65001.

Definition detectConsoleCodePage : Z :=
  if negb (GetConsoleOutputCP =? 0) then
    (if negb (GetConsoleOutputCP =? cpUTF8) then GetConsoleOutputCP else 0)
  else if negb (GetOEMCP =? 0) && negb (GetOEMCP =? cpUTF8) then GetOEMCP
  else 0.

Definition windows_transcode (b : list Z) : option (list Z) :=
  match b with
  | [] => Some []
  | _ =>
      if detectConsoleCodePage =? 0 then None
      else match MultiByteToWideChar detectConsoleCodePage b with
           | None | Some [] => None
           | Some w => Some (concat (map encode_rune (utf16_decode w)))
           end
  end.

(** The loop of [splitTrailingPartial] over what is left of [b]. *)
Fixpoint split_loop (b : list Z) : list Z * list Z :=
  match b with
  | [] => ([], [])
  | c :: b' =>
      if IsDBCSLeadByteEx detectConsoleCodePage c then
        match b' with
        | [] => ([], [c])
        | d :: b'' => let '(h, t) := split_loop b'' in (c :: d :: h, t)
        end
      else let '(h, t) := split_loop b' in (c :: h, t)
  end.

Definition windows_split (b : list Z) : list Z * list Z :=
  if detectConsoleCodePage =? 0 then (b, []) else split_loop b.

Lemma split_loop_spec n : ∀ b, (length b ≤ n)%nat →
  b = (split_loop b).1 ++ (split_loop b).2 ∧ (length (split_loop b).2 ≤ 1)%nat.
Proof.
  induction n as [|n IH]; intros [|c b] Hn; simpl in Hn |- *; try (split; [done|simpl; lia]); [lia|].
  destruct (IsDBCSLeadByteEx _ c); [destruct b as [|d b]|].
  - split; [done|simpl; lia].
  - destruct (IH b) as [E L]; [simpl in Hn; lia|]. destruct (split_loop b) as [h t]. simpl in *. by rewrite E at 1.
  - destruct (IH b) as [E L]; [lia|]. destruct (split_loop b) as [h t]. simpl in *. by rewrite E at 1.
Qed.

(** oemtext_windows.go *)
Definition windows_console : Console.
Proof.
  refine {| consoleTranscode := windows_transcode; splitTrailingPartial := windows_split |};
    intros b; unfold windows_split; destruct (detectConsoleCodePage =? 0); simpl;
    rewrite ?app_nil_r; try done; try lia; by apply (split_loop_spec (length b)).
Defined.
End windows.

(** ** [decodingWriter] *)

Definition utf8MaxPending : nat := 4.

Record decodingWriter := DecodingWriter {
  pending : list Z;
  pendingUTF8 : bool;
  passthrough : bool;
}.
#[export] Instance decodingWriter_eta : Eta decodingWriter :=
  fun d => DecodingWriter (pending d) (pendingUTF8 d) (passthrough d).

Definition newDecodingWriter : decodingWriter := DecodingWriter [] false false.

Section writer.
Context `{Console}.

Definition keepPending (d : decodingWriter) (b : list Z) (isUTF8 : bool) : decodingWriter :=
  d <| pending := b |> <| pendingUTF8 := isUTF8 |>.

(** The state after a write and the writes it makes below. *)
Definition dw_Write (d : decodingWriter) (p : list Z) : decodingWriter * list (list Z) :=
  match p with
  | [] => (d, [])
  | _ =>
      let buf := pending d ++ p in
      let d := d <| pending := [] |> in
      if passthrough d then (d, [buf])
      else
        let '(complete, ok) := scanUTF8 buf in
        if ok then
          let rest := (length buf - complete)%nat in
          let '(d, complete) :=
            if (0 <? rest)%nat && (rest <=? utf8MaxPending)%nat
            then (keepPending d (drop complete buf) true, complete)
            else (d, length buf) in
          (d, if (complete =? 0)%nat then [] else [take complete buf])
        else
          let prefix := if (0 <? complete)%nat then [take complete buf] else [] in
          let buf := if (0 <? complete)%nat then drop complete buf else buf in
          let '(head, tail) := splitTrailingPartial buf in
          match head with
          | [] => (keepPending d tail false, prefix)
          | _ =>
              match consoleTranscode head with
              | None => (d <| passthrough := true |>, prefix ++ [buf])
              | Some u => (keepPending d tail false, prefix ++ [u])
              end
          end
  end.

Definition dw_Flush (d : decodingWriter) : decodingWriter * list (list Z) :=
  match pending d with
  | [] => (d, [])
  | b =>
      let d := d <| pending := [] |> in
      if negb (pendingUTF8 d) && negb (passthrough d) then
        match consoleTranscode b with
        | Some u => (d, [u])
        | None => (d, [b])
        end
      else (d, [b])
  end.

(** What the writes of a command become, and then the flush. *)
Fixpoint dw_Write_all (d : decodingWriter) (ps : list (list Z)) : decodingWriter * list (list Z) :=
  match ps with
  | [] => (d, [])
  | p :: ps =>
      let '(d, out) := dw_Write d p in
      let '(d, outs) := dw_Write_all d ps in
      (d, out ++ outs)
  end.

Definition decoded (ps : list (list Z)) : list (list Z) :=
  let '(d, out) := dw_Write_all newDecodingWriter ps in out ++ (dw_Flush d).2.
End writer.

Example split_character :
  @decoded other_console [[0xE4]; [0xB8]; [0xAD; 65]; [0xE4; 0xB8]] = [[0xE4; 0xB8; 0xAD; 65]; [0xE4; 0xB8]].
Proof. by vm_compute. Qed.

(** ** The scan *)

Lemma utf8_need_range c n : utf8_need c = Some n → (1 ≤ n ≤ 4)%nat.
Proof. unfold utf8_need. repeat case_match; intros [= <-]; lia. Qed.

Lemma scan_fuel_enough n : ∀ b, (length b ≤ n)%nat → scan_fuel n b = scanUTF8 b.
Proof.
  unfold scanUTF8. induction n as [n IH] using (well_founded_induction lt_wf). intros [|c b] Hn; [by destruct n|].
  destruct n as [|n]; [simpl in Hn; lia|]. simpl in Hn. cbn [length scan_fuel].
  destruct (utf8_need c) as [need|] eqn:En; [|done]. apply utf8_need_range in En.
  assert (length (drop need (c :: b)) ≤ length b)%nat as Hd by (rewrite length_drop; simpl; lia).
  destruct (decide (length b = n)) as [<-|Hne]; [done|].
  rewrite (IH n) by lia. by rewrite (IH (length b)) by lia.
Qed.

Lemma scan_cons c r :
  scanUTF8 (c :: r) =
  match utf8_need c with
  | None => (0%nat, false)
  | Some need =>
      if (length (c :: r) <? need)%nat then (0%nat, true)
      else if forallb is_trail (take (need - 1) r) then
        ((need + (scanUTF8 (drop need (c :: r))).1)%nat, (scanUTF8 (drop need (c :: r))).2)
      else (0%nat, false)
  end.
Proof.
  unfold scanUTF8 at 1. cbn [length scan_fuel]. destruct (utf8_need c) as [need|] eqn:En; [|done].
  apply utf8_need_range in En. rewrite scan_fuel_enough by (rewrite length_drop; simpl; lia).
  by destruct (scanUTF8 (drop need (c :: r))).
Qed.

(** Induction on a scan, a character at a time. *)
Lemma scan_ind (P : list Z → Prop) :
  P [] →
  (∀ c r, utf8_need c = None → P (c :: r)) →
  (∀ c r need, utf8_need c = Some need → (length (c :: r) < need)%nat → P (c :: r)) →
  (∀ c r need, utf8_need c = Some need → (need ≤ length (c :: r))%nat → forallb is_trail (take (need - 1) r) = false → P (c :: r)) →
  (∀ c r need, utf8_need c = Some need → (need ≤ length (c :: r))%nat → forallb is_trail (take (need - 1) r) = true →
     P (drop need (c :: r)) → P (c :: r)) →
  ∀ b, P b.
Proof.
  intros H0 H1 H2 H3 H4 b. remember (length b) as n eqn:En. revert b En.
  induction n as [n IH] using (well_founded_induction lt_wf). intros [|c r] ->; [done|].
  destruct (utf8_need c) as [need|] eqn:E; [|by apply H1].
  destruct (decide (length (c :: r) < need)%nat) as [Hlt|Hge]; [by eapply H2|].
  destruct (forallb is_trail (take (need - 1) r)) eqn:Ef; [|eapply H3; [done|lia|done]].
  eapply H4; [done|lia|done|]. apply utf8_need_range in E. eapply IH; [|reflexivity]. rewrite length_drop. simpl. lia.
Qed.

Ltac scan_step E :=
  rewrite ?scan_cons, E, ?(proj2 (Nat.ltb_lt _ _)), ?(proj2 (Nat.ltb_ge _ _)) by (simpl in *; rewrite ?length_app; lia).

Lemma scan_le b : ((scanUTF8 b).1 ≤ length b)%nat.
Proof.
  induction b as [|c r E|c r need E Hl|c r need E Hl Ef|c r need E Hl Ef IH] using scan_ind;
    [simpl; lia|rewrite scan_cons, E; simpl; lia|scan_step E; simpl; lia|scan_step E; rewrite Ef; simpl; lia|].
  scan_step E. rewrite Ef. cbn [fst]. rewrite length_drop in IH. lia.
Qed.

(** What is left when nothing is invalid is a part of a character. *)
Lemma scan_rest b : (scanUTF8 b).2 = true → (length b - (scanUTF8 b).1 ≤ 3)%nat.
Proof.
  induction b as [|c r E|c r need E Hl|c r need E Hl Ef|c r need E Hl Ef IH] using scan_ind; intros Hok.
  - simpl. lia.
  - rewrite scan_cons, E in Hok. done.
  - scan_step E. apply utf8_need_range in E. simpl in *. lia.
  - revert Hok. scan_step E. by rewrite Ef.
  - revert Hok. scan_step E. rewrite Ef. cbn [fst snd]. intros Hok. specialize (IH Hok). rewrite length_drop in IH. lia.
Qed.

(** The scan of more bytes starts over where the scan of fewer stopped. *)
Lemma scan_app b : ∀ c, (scanUTF8 b).2 = true →
  scanUTF8 (b ++ c) =
  (((scanUTF8 b).1 + (scanUTF8 (drop (scanUTF8 b).1 b ++ c)).1)%nat, (scanUTF8 (drop (scanUTF8 b).1 b ++ c)).2).
Proof.
  induction b as [|x r E|x r need E Hl|x r need E Hl Ef|x r need E Hl Ef IH] using scan_ind; intros c Hok.
  - simpl. apply surjective_pairing.
  - rewrite scan_cons, E in Hok. done.
  - assert (scanUTF8 (x :: r) = (0%nat, true)) as -> by (rewrite scan_cons, E; by rewrite (proj2 (Nat.ltb_lt _ _)) by done).
    cbn [fst snd drop]. apply surjective_pairing.
  - rewrite scan_cons, E, (proj2 (Nat.ltb_ge _ _)), Ef in Hok by done. done.
  - assert (scanUTF8 (x :: r) = ((need + (scanUTF8 (drop need (x :: r))).1)%nat, (scanUTF8 (drop need (x :: r))).2)) as Es
      by by rewrite scan_cons, E, (proj2 (Nat.ltb_ge _ _)), Ef by done.
    rewrite Es in Hok |- *. cbn [fst snd] in Hok |- *. specialize (IH c Hok).
    change ((x :: r) ++ c) with (x :: (r ++ c)). rewrite scan_cons, E.
    assert (need ≤ length (x :: r ++ c))%nat as Hl' by (simpl in *; rewrite length_app; lia).
    rewrite (proj2 (Nat.ltb_ge _ _)) by done. pose proof (utf8_need_range _ _ E).
    rewrite take_app_le, Ef by (simpl in Hl; lia).
    change (x :: r ++ c) with ((x :: r) ++ c). rewrite drop_app_le by done. rewrite IH. cbn [fst snd].
    rewrite drop_drop. f_equal. lia.
Qed.

(** A beginning of what scans, scans. *)
Lemma scan_prefix b c : (scanUTF8 (b ++ c)).2 = true → (scanUTF8 b).2 = true.
Proof.
  induction b as [|x r E|x r need E Hl|x r need E Hl Ef|x r need E Hl Ef IH] using scan_ind; intros Hok.
  - done.
  - simpl in Hok. rewrite scan_cons, E in Hok. done.
  - by rewrite scan_cons, E, (proj2 (Nat.ltb_lt _ _)) by done.
  - exfalso. revert Hok. change ((x :: r) ++ c) with (x :: (r ++ c)). rewrite scan_cons, E.
    rewrite (proj2 (Nat.ltb_ge _ _)) by (simpl in *; rewrite length_app; lia).
    pose proof (utf8_need_range _ _ E). by rewrite take_app_le, Ef by (simpl in Hl; lia).
  - revert Hok. change ((x :: r) ++ c) with (x :: (r ++ c)). rewrite !scan_cons, E.
    rewrite !(proj2 (Nat.ltb_ge _ _)) by (simpl in *; rewrite ?length_app; lia).
    pose proof (utf8_need_range _ _ E). rewrite take_app_le, Ef by (simpl in Hl; lia).
    change (x :: r ++ c) with ((x :: r) ++ c). rewrite drop_app_le by done. exact IH.
Qed.

Lemma encode_need r : scalar r → ∃ c l, encode_rune r = c :: l ∧ utf8_need c = Some (S (length l)) ∧ forallb is_trail l = true.
Proof.
  intros Hs. destruct (encode_shape r Hs) as (c & l & E & _ & Hl & _). exists c, l. split; [done|]. split.
  - destruct Hs as [Hr _]. revert E. unfold encode_rune.
    assert ((r <? 0) || (0x10FFFF <? r) = false) as -> by (rewrite orb_false_iff, !Z.ltb_ge; lia). cbn [orb].
    destruct (between 0xD800 r 0xDFFF); [intros [= <- <-]; by vm_compute|].
    rewrite !Z.shiftr_div_pow2 by done. change (2 ^ 6) with 64. change (2 ^ 12) with 4096. change (2 ^ 18) with 262144.
    destruct (Z.leb_spec r 0x7F); [|destruct (Z.leb_spec r 0x7FF); [|destruct (Z.leb_spec r 0xFFFF)]];
      intros [= Ec <-]; cbn [length]; unfold utf8_need.
    + case_Z; [done|lia].
    + destruct (lead_byte 6 (r / 64) 5) as [A _]; [done|change (2 ^ 5) with 32; zdiv|].
      change (6 * 2 ^ 5) with 0xC0 in A. rewrite A in Ec. subst c.
      rewrite (proj2 (Z.ltb_ge _ _)), !(proj2 (Z.leb_le _ _)) by zdiv. done.
    + destruct (lead_byte 14 (r / 4096) 4) as [A _]; [done|change (2 ^ 4) with 16; zdiv|].
      change (14 * 2 ^ 4) with 0xE0 in A. rewrite A in Ec. subst c.
      rewrite (proj2 (Z.ltb_ge _ _)), (proj2 (Z.leb_gt _ 0xDF)), andb_false_r, !(proj2 (Z.leb_le _ _)) by zdiv. done.
    + destruct (lead_byte 30 (r / 262144) 3) as [A _]; [done|change (2 ^ 3) with 8; zdiv|].
      change (30 * 2 ^ 3) with 0xF0 in A. rewrite A in Ec. subst c.
      rewrite (proj2 (Z.ltb_ge _ _)), (proj2 (Z.leb_gt _ 0xDF)), (proj2 (Z.leb_gt _ 0xEF)), !andb_false_r by zdiv.
      rewrite !(proj2 (Z.leb_le _ _)) by zdiv. done.
  - apply forallb_forall. intros b Hb. apply list_elem_of_In in Hb. rewrite Forall_forall in Hl.
    specialize (Hl b Hb). unfold RuneStart in Hl. unfold is_trail. by destruct (_ =? _).
Qed.

Lemma utf8_scans s : utf8 s → scanUTF8 s = (length s, true).
Proof.
  intros (rs & Hrs & ->). induction Hrs as [|r rs Hr Hrs IH]; [done|]. cbn [map concat].
  destruct (encode_need r Hr) as (c & l & E & Hn & Hl). rewrite E. cbn [app]. rewrite scan_cons, Hn.
  rewrite (proj2 (Nat.ltb_ge _ _)) by (simpl; rewrite length_app; lia).
  cbn [Nat.sub drop]. rewrite Nat.sub_0_r, take_app_length, Hl, drop_app_length, IH. cbn [fst snd length].
  by rewrite length_app.
Qed.

(** ** What the writer does to UTF-8, and to anything where there is no code page *)

Section writer_facts.
Context `{Console}.

(** A whole-or-cut UTF-8 output [s] so far. *)
Definition in_utf8 (d : decodingWriter) (out : list (list Z)) (s : list Z) : Prop :=
  passthrough d = false ∧ (scanUTF8 s).2 = true ∧ pending d = drop (scanUTF8 s).1 s ∧
  concat out = take (scanUTF8 s).1 s ∧ (pending d = [] ∨ pendingUTF8 d = true).

Lemma dw_Write_utf8 d out s p :
  in_utf8 d out s → (scanUTF8 (s ++ p)).2 = true → in_utf8 (dw_Write d p).1 (out ++ (dw_Write d p).2) (s ++ p).
Proof.
  intros (Hp & Hok & Epend & Eout & Hu) Hok'. unfold dw_Write.
  destruct p as [|x p]; [by rewrite !app_nil_r|]. set (q := x :: p) in *. clearbody q. cbn [passthrough set_field].
  pose proof (scan_app s q Hok) as Es. rewrite <- Epend in Es.
  unfold set_field; cbn [passthrough pending pendingUTF8]. rewrite Hp.
  pose proof (scan_le (pending d ++ q)) as Hle. pose proof (scan_rest (pending d ++ q)) as Hrest.
  pose proof (scan_le s) as Hles.
  rewrite Es in Hok'. cbn [snd] in Hok'. specialize (Hrest Hok').
  unfold in_utf8. rewrite Es. destruct (scanUTF8 (pending d ++ q)) as [n ok] eqn:En. cbn [fst snd] in *. subst ok.
  assert (take ((scanUTF8 s).1 + n) (s ++ q) = concat out ++ take n (pending d ++ q) ∧
          drop ((scanUTF8 s).1 + n) (s ++ q) = drop n (pending d ++ q)) as [Et Ed].
  { assert (s ++ q = concat out ++ (pending d ++ q)) as -> by by rewrite Eout, Epend, app_assoc, take_drop.
    assert (length (concat out) = (scanUTF8 s).1) as <- by (rewrite Eout, length_take; lia).
    rewrite take_app_add, drop_app_add. done. }
  rewrite Et, Ed. destruct ((0 <? length (pending d ++ q) - n)%nat && (length (pending d ++ q) - n <=? utf8MaxPending)%nat) eqn:Eb.
  - unfold keepPending, set_field. cbn [fst snd passthrough pending pendingUTF8].
    split_and!; [done|done|done| |by right]. rewrite concat_app.
    destruct (Nat.eqb_spec n 0) as [->|]; simpl; by rewrite ?app_nil_r.
  - assert (n = length (pending d ++ q)) as ->.
    { apply andb_false_iff in Eb as [Eb%Nat.ltb_ge|Eb%Nat.leb_gt]; unfold utf8MaxPending in *; lia. }
    cbn [fst snd passthrough pending pendingUTF8]. rewrite drop_all, firstn_all.
    split_and!; [done|done|done| |by left]. rewrite concat_app. f_equal.
    destruct (Nat.eqb_spec (length (pending d ++ q)) 0) as [E0|]; simpl; [|by rewrite app_nil_r].
    by apply length_zero_iff_nil in E0 as ->.
Qed.

Lemma dw_Write_all_cons d p ps :
  dw_Write_all d (p :: ps) =
  ((dw_Write_all (dw_Write d p).1 ps).1, (dw_Write d p).2 ++ (dw_Write_all (dw_Write d p).1 ps).2).
Proof. cbn [dw_Write_all]. destruct (dw_Write d p) as [d1 o1]. cbn [fst snd]. by destruct (dw_Write_all d1 ps). Qed.

Lemma dw_Write_all_app (P : decodingWriter → list (list Z) → list Z → Prop) (Q : list Z → Prop) :
  (∀ s p, Q (s ++ p) → Q s) →
  (∀ d out s p, P d out s → Q (s ++ p) → P (dw_Write d p).1 (out ++ (dw_Write d p).2) (s ++ p)) →
  ∀ ps d out s, P d out s → Q (s ++ concat ps) →
  P (dw_Write_all d ps).1 (out ++ (dw_Write_all d ps).2) (s ++ concat ps).
Proof.
  intros HQ Hstep ps. induction ps as [|p ps IH]; intros d out s HP Hq; [by rewrite !app_nil_r|].
  rewrite dw_Write_all_cons. cbn [concat fst snd] in *. rewrite app_assoc in Hq.
  specialize (IH _ _ _ (Hstep d out s p HP (HQ _ _ Hq)) Hq). by rewrite <- (app_assoc out), <- (app_assoc s) in IH.
Qed.

(** Output that is UTF-8, cut or not at its end, reaches the caller byte
    for byte, wherever the pipe cut it and whatever the code page. *)
Lemma decoded_utf8 ps t :
  utf8 (concat ps ++ t) → concat (decoded ps) = concat ps.
Proof.
  intros Hs. assert ((scanUTF8 (concat ps)).2 = true) as Hok by (eapply (scan_prefix _ t); by rewrite utf8_scans).
  assert (in_utf8 newDecodingWriter [] []) as H0 by (split_and!; try done; by left).
  pose proof (dw_Write_all_app in_utf8 (fun s => (scanUTF8 s).2 = true) scan_prefix dw_Write_utf8 ps _ _ _ H0 Hok) as HI.
  unfold decoded. destruct (dw_Write_all newDecodingWriter ps) as [d out]. cbn [fst snd app] in HI.
  destruct HI as (Hp & _ & Epend & Eout & Hu). rewrite concat_app, Eout. unfold dw_Flush.
  destruct (pending d) as [|b l] eqn:E; cbn [snd concat].
  - rewrite <- (take_drop (scanUTF8 (concat ps)).1 (concat ps)) at 3. by rewrite <- Epend.
  - destruct Hu as [?|Hu]; [done|]. unfold set_field. cbn [pendingUTF8]. rewrite Hu. simpl.
    rewrite app_nil_r, Epend. apply take_drop.
Qed.

(** Without a code page every byte goes through, UTF-8 or not. *)
Lemma dw_Write_plain d p :
  (∀ b, consoleTranscode b = None) →
  concat (dw_Write d p).2 ++ pending (dw_Write d p).1 = pending d ++ p.
Proof.
  intros Hn. unfold dw_Write. destruct p as [|x p]; [by rewrite app_nil_r|]. set (q := x :: p) in *. clearbody q.
  unfold keepPending, set_field. cbn [passthrough pending pendingUTF8].
  destruct (passthrough d); [simpl; by rewrite !app_nil_r|]. set (buf := pending d ++ q). clearbody buf.
  pose proof (scan_le buf) as Hle. destruct (scanUTF8 buf) as [n ok]. cbn [fst] in Hle.
  destruct ok.
  - destruct (_ && _).
    + cbn [fst snd pending]. destruct (Nat.eqb_spec n 0) as [->|]; simpl; rewrite ?app_nil_r; [done|apply take_drop].
    + cbn [fst snd pending]. rewrite app_nil_r. destruct (Nat.eqb_spec (length buf) 0) as [E|]; simpl.
      * by apply length_zero_iff_nil in E as ->.
      * by rewrite app_nil_r, firstn_all.
  - assert (∀ l, concat (if (0 <? n)%nat then [take n buf] else []) ++ l = take n buf ++ l) as Hpre.
    { intros l. destruct (Nat.ltb_spec 0 n); simpl; [by rewrite app_nil_r|]. by replace n with 0%nat by lia. }
    assert (buf = take n buf ++ if (0 <? n)%nat then drop n buf else buf) as Hbuf.
    { destruct (Nat.ltb_spec 0 n); [by rewrite take_drop|]. by replace n with 0%nat by lia. }
    set (rest := if (0 <? n)%nat then drop n buf else buf) in *. pose proof (split_parts rest) as Hs.
    destruct (splitTrailingPartial rest) as [head tail]. cbn [fst snd] in Hs. destruct head as [|h head].
    + cbn [fst snd pending app] in *. rewrite Hpre. rewrite Hs in Hbuf. by symmetry.
    + rewrite Hn. cbn [fst snd pending]. rewrite app_nil_r, concat_app, Hpre. cbn [concat]. by rewrite app_nil_r, <- Hbuf.
Qed.

Lemma decoded_plain ps : (∀ b, consoleTranscode b = None) → concat (decoded ps) = concat ps.
Proof.
  intros Hn. unfold decoded.
  pose proof (dw_Write_all_app (fun d out s => concat out ++ pending d = s) (fun _ => True) (fun _ _ H => H)) as HI.
  specialize (HI ltac:(intros d out s p <- _; rewrite concat_app, <- app_assoc, dw_Write_plain by done; by rewrite app_assoc)).
  specialize (HI ps newDecodingWriter [] [] eq_refl I). cbn [app] in HI.
  destruct (dw_Write_all newDecodingWriter ps) as [d out]. cbn [fst snd] in HI. rewrite concat_app, <- HI. f_equal.
  unfold dw_Flush. destruct (pending d) as [|b l]; [done|]. rewrite Hn. destruct (_ && _); simpl; by rewrite app_nil_r.
Qed.

(** The bytes that wait for more never grow beyond a character. *)
Lemma pending_bounded d p : (length (pending d) ≤ utf8MaxPending)%nat → (length (pending (dw_Write d p).1) ≤ utf8MaxPending)%nat.
Proof.
  unfold dw_Write. destruct p as [|x p]; [done|]. set (q := x :: p). clearbody q. intros Hd.
  unfold keepPending, set_field. cbn [passthrough pending pendingUTF8].
  destruct (passthrough d); [simpl; unfold utf8MaxPending; lia|]. set (buf := pending d ++ q). clearbody buf.
  destruct (scanUTF8 buf) as [n ok]. destruct ok.
  - destruct (_ && _) eqn:E; cbn [fst pending]; [|simpl; unfold utf8MaxPending; lia].
    apply andb_true_iff in E as [_ E%Nat.leb_le]. by rewrite length_drop.
  - set (rest := if (0 <? n)%nat then _ else _). pose proof (split_waits rest) as Hs.
    destruct (splitTrailingPartial rest) as [head tail]. cbn [snd] in Hs.
    destruct head as [|h head]; [cbn [fst pending]; unfold utf8MaxPending; lia|].
    destruct (consoleTranscode (h :: head)); cbn [fst pending]; unfold utf8MaxPending; simpl; lia.
Qed.
End writer_facts.
