(* ===== verification/AgentSandbox.v ===== *)
(** * The agent's guard rails (src/internal/agent/sandbox.go)

    [Sandbox] keeps the file tools below a root chosen when sharing starts and
    decides which programs [exec] may start.

    Paths are those of Unix: an absolute path that [filepath.Clean] has been
    over is the list of its names.  [EvalSymlinks] is a function of the file
    system, and a parameter.  Names of programs are compared the way of the
    system the agent runs on: [windows] says which, [volume] is the length of
    [filepath.VolumeName] there and [lower] is [unicode.ToLower]. *)

From S2P Require Import Prelude GoNet GoText.

Open Scope Z_scope.

(** ** [path/filepath] on Unix *)

Definition slash : Z := 47.
Definition name := list Z.
Definition abs_path := list name.

Definition dot : name := [46].
Definition dotdot : name := [46; 46].

(** [Clean] of a rooted path: empty names and [.] vanish, [..] takes the name
    before it, and nothing at the root.  [done] is the path so far, reversed. *)
Fixpoint clean_names (done_ : list name) (l : list name) : list name :=
  match l with
  | [] => rev done_
  | n :: l =>
      if bool_decide (n = [] ∨ n = dot) then clean_names done_ l
      else if bool_decide (n = dotdot) then clean_names (List.tl done_) l
      else clean_names (n :: done_) l
  end.
Definition Clean_rooted (p : list Z) : abs_path := clean_names [] (split_byte slash p).

Definition IsAbs (p : list Z) : bool := match p with b :: _ => b =? slash | [] => false end.

Definition Dir (p : abs_path) : abs_path := removelast p.
Definition Join_base (dir : abs_path) (p : abs_path) : abs_path := dir ++ match last p with Some n => [n] | None => [] end.

Fixpoint join_names (l : list name) : list Z :=
  match l with
  | [] => []
  | [n] => n
  | n :: l => n ++ [slash] ++ join_names l
  end.

(** [Rel] of two rooted paths never fails. *)
Fixpoint rel_names (base targ : list name) : list name :=
  match base, targ with
  | b :: base', t :: targ' => if bool_decide (b = t) then rel_names base' targ' else map (fun _ => dotdot) base ++ targ
  | _, _ => map (fun _ => dotdot) base ++ targ
  end.
Definition Rel (base targ : abs_path) : list Z :=
  match rel_names base targ with [] => dot | l => join_names l end.

(** ** The sandbox *)

Record SandboxConfig := mkSandboxConfig {
  cfg_Root : list Z;
  cfg_AllowExec : list (list Z);
  cfg_DenyExec : list (list Z);
  cfg_UnsafeExec : bool;
}.

Record Sandbox := mkSandbox {
  sb_cfg : SandboxConfig;
  sb_root : option abs_path; (** [None] is the empty string *)
  sb_restricted : bool;
}.

Inductive SandboxError :=
| ErrGetwd
| ErrRootUnresolved
| ErrPathOutsideRoot
| ErrExecEmptyArgv
| ErrExecDenied (n : list Z)
| ErrExecNotAllowed (n : list Z).

Section paths.
(** The working directory, when [os.Getwd] gives one, and the links of the file
    system: the path with every link followed, [None] when a part is missing. *)
Context (Getwd : option (list Z)) (EvalSymlinks : abs_path → option abs_path).

(** [filepath.Abs]: it fails for a relative path without a working directory. *)
Definition filepath_Abs (p : list Z) : option abs_path :=
  if IsAbs p then Some (Clean_rooted p)
  else match Getwd with Some cwd => Some (Clean_rooted (cwd ++ [slash] ++ p)) | None => None end.

Definition NewSandbox (cfg : SandboxConfig) : Sandbox :=
  match cfg_Root cfg with
  | [] => mkSandbox cfg None false
  | root =>
      mkSandbox cfg
        (match filepath_Abs root with
         | Some abs => match EvalSymlinks abs with Some eval => Some eval | None => Some abs end
         | None => None
         end) true
  end.

(** The path with its links followed, or those of its directory when it is not
    there yet. *)
Definition resolve (cleaned : abs_path) : abs_path :=
  match EvalSymlinks cleaned with
  | Some eval => eval
  | None =>
      match EvalSymlinks (Dir cleaned) with
      | Some parent => Join_base parent cleaned
      | None => cleaned
      end
  end.

Definition ResolvePath (s : Sandbox) (p : list Z) : result SandboxError abs_path :=
  if negb (sb_restricted s) then
    match filepath_Abs p with Some abs => Ok abs | None => Err ErrGetwd end
  else
    match sb_root s with
    | None => Err ErrRootUnresolved
    | Some root =>
        match filepath_Abs p with
        | None => Err ErrGetwd
        | Some abs =>
            let resolved := resolve abs in
            let rel := Rel root resolved in
            if bool_decide (rel = dotdot) || has_prefix (dotdot ++ [slash]) rel
            then Err ErrPathOutsideRoot
            else Ok resolved
        end
    end.
End paths.

(** ** Programs *)

Section programs.
Context (windows : bool) (volume : list Z → nat) (lower : Z → Z).

Definition is_sep (b : Z) : bool := (b =? slash) || (windows && (b =? 92)).

(** What follows the last separator. *)
Fixpoint last_element (s : list Z) : list Z :=
  match s with
  | [] => []
  | b :: r => if existsb is_sep r then last_element r else if is_sep b then r else s
  end.

Definition strip_seps (s : list Z) : list Z := rev (drop_while is_sep (rev s)).

(** [filepath.Base] *)
Definition Base (p : list Z) : list Z :=
  match p with
  | [] => dot
  | _ =>
      let p := strip_seps p in
      let p := if windows then drop (volume p) p else p in
      match last_element p with
      | [] => [if windows then 92 else slash]
      | n => n
      end
  end.

(** [filepath.Ext] *)
Fixpoint Ext (s : list Z) : list Z :=
  match s with
  | [] => []
  | b :: r =>
      match Ext r with
      | [] => if (b =? 46) && negb (existsb is_sep r) then s else []
      | e => e
      end
  end.

Definition exe_exts : list (list Z) := [lit ".exe"; lit ".bat"; lit ".cmd"; lit ".com"].

Definition execName (s : list Z) : list Z :=
  let n := Base s in
  if negb windows then n
  else
    let n := map_runes lower n in
    if bool_decide (Ext n ∈ exe_exts) then take (length n - length (Ext n)) n else n.

Definition CheckExec (s : Sandbox) (argv : list (list Z)) : result SandboxError () :=
  if cfg_UnsafeExec (sb_cfg s) then Ok ()
  else match argv with
  | [] => Err ErrExecEmptyArgv
  | arg0 :: _ =>
      let n := execName arg0 in
      if existsb (fun d => bool_decide (execName d = n)) (cfg_DenyExec (sb_cfg s)) then Err (ErrExecDenied n)
      else match cfg_AllowExec (sb_cfg s) with
      | [] => Ok ()
      | allow =>
          if existsb (fun a => bool_decide (execName a = n)) allow then Ok () else Err (ErrExecNotAllowed n)
      end
  end.
End programs.

Example clean_dots : Clean_rooted (lit "/a/./b/../../../c//d/") = [lit "c"; lit "d"].
Proof. by vm_compute. Qed.
Example rel_sibling : Rel [lit "srv"; lit "x"] [lit "srv"; lit "y"; lit "z"] = lit "../y/z".
Proof. by vm_compute. Qed.
Example name_windows : execName true (fun _ => 2%nat) to_lower (lit "C:\Windows\Shutdown.EXE") = lit "shutdown".
Proof. by vm_compute. Qed.
Example name_unix : execName false (fun _ => 0%nat) to_lower (lit "/bin/Git.exe") = lit "Git.exe".
Proof. by vm_compute. Qed.
