(* ===== verification/AgentSandboxThms.v ===== *)
(** * What the guard rails promise

    A path is accepted exactly when it resolves below the root
    ([accepted_iff_below]); on a file system with links, what an accepted path
    opens is the path that was checked, unless it is a link to nothing
    ([opens_what_was_checked], [dangling_link_escapes]); a program on the deny
    list is refused under every spelling Windows gives it ([deny_list_spellings]). *)

From S2P Require Import Prelude GoNet GoText GoFields AgentTruncate AgentSandbox.

Open Scope Z_scope.

(** ** Names and the lexical part *)

(** What a name of a clean absolute path is. *)
Definition proper (n : name) : Prop := n ≠ [] ∧ n ≠ dot ∧ n ≠ dotdot ∧ slash ∉ n.
#[export] Instance proper_dec n : Decision (proper n).
Proof. unfold proper. apply _. Defined.

Lemma clean_names_proper l : ∀ d,
  Forall (fun n => slash ∉ n) l → Forall proper d → Forall proper (clean_names d l).
Proof.
  induction l as [|n l IH]; intros d Hl Hd; cbn [clean_names]; [by apply Forall_rev|].
  apply Forall_cons in Hl as [Hn Hl]. case_bool_decide as E1; [by apply IH|].
  case_bool_decide as E2; apply IH; try done.
  - destruct d as [|x d]; [done|]. by apply Forall_cons in Hd as [_ Hd].
  - constructor; [|done]. split_and!; naive_solver.
Qed.

Lemma Clean_proper p : Forall proper (Clean_rooted p).
Proof. apply clean_names_proper; [apply split_byte_plain|constructor]. Qed.

Lemma rel_names_below base q : rel_names base (base ++ q) = q.
Proof. induction base as [|b base IH]; simpl; [by destruct q|]. by rewrite bool_decide_true. Qed.

Lemma rel_names_outside base : ∀ targ, ¬ base `prefix_of` targ → ∃ l, rel_names base targ = dotdot :: l.
Proof.
  induction base as [|b base IH]; intros targ Hp; [by destruct Hp; apply prefix_nil|].
  destruct targ as [|t targ]; simpl; [by eexists|]. case_bool_decide as E; [|by eexists].
  subst t. apply IH. intros Hq. by apply Hp, prefix_cons.
Qed.

Definition escapes (rel : list Z) : bool := bool_decide (rel = dotdot) || has_prefix (dotdot ++ [slash]) rel.

Lemma join_dotdot l : escapes (join_names (dotdot :: l)) = true.
Proof. unfold escapes. by destruct l. Qed.

Lemma join_proper n l : proper n → escapes (join_names (n :: l)) = false.
Proof.
  intros (H1 & _ & H2 & H3). unfold escapes. apply orb_false_iff. split.
  - apply bool_decide_false. destruct l as [|m l]; simpl; [done|]. intros E.
    destruct n as [|a [|b [|c n]]]; simpl in E; simplify_eq.
  - assert (∀ r, has_prefix (dotdot ++ [slash]) (n ++ slash :: r) = false ∧ has_prefix (dotdot ++ [slash]) n = false) as Hn.
    { intros r. unfold dotdot. destruct n as [|a [|b [|c n]]]; cbn [app has_prefix]; [done|..].
      - split; by destruct (46 =? a).
      - destruct (Z.eqb_spec 46 a) as [<-|]; [|done]. destruct (Z.eqb_spec 46 b) as [<-|]; [by destruct H2|done].
      - destruct (Z.eqb_spec slash c) as [<-|]; [|by rewrite !andb_false_r].
        exfalso. apply H3. do 2 (apply elem_of_cons; right). apply elem_of_cons; by left. }
    destruct l as [|m l]; simpl; [by apply (Hn [])|apply Hn].
Qed.

(** The check of the relative path is a comparison of names. *)
Lemma escapes_Rel root x : Forall proper x → escapes (Rel root x) = negb (bool_decide (root `prefix_of` x)).
Proof.
  intros Hx. unfold Rel. case_bool_decide as E.
  - destruct E as [q ->]. rewrite rel_names_below. destruct q as [|n q]; [done|].
    apply join_proper. apply Forall_app in Hx as [_ Hq]. by apply Forall_cons in Hq as [? _].
  - destruct (rel_names_outside root x E) as [l ->]. apply join_dotdot.
Qed.

Section paths.
Context (Getwd : option (list Z)) (EvalSymlinks : abs_path → option abs_path).
(** [EvalSymlinks] returns a clean path. *)
Hypothesis eval_clean : ∀ q e, EvalSymlinks q = Some e → Forall proper e.

Lemma filepath_Abs_proper p q : filepath_Abs Getwd p = Some q → Forall proper q.
Proof. unfold filepath_Abs. repeat case_match; intros [= <-]; apply Clean_proper. Qed.

Lemma resolve_proper q : Forall proper q → Forall proper (resolve EvalSymlinks q).
Proof.
  intros Hq. unfold resolve. destruct (EvalSymlinks q) as [e|] eqn:E; [by eapply eval_clean|].
  destruct (EvalSymlinks (Dir q)) as [e|] eqn:E2; [|done]. unfold Join_base.
  apply Forall_app. split; [by eapply eval_clean|].
  destruct (last q) as [n|] eqn:El; [|done]. constructor; [|done].
  rewrite Forall_forall in Hq. apply Hq. apply last_Some in El as [l ->].
  apply elem_of_app. right. by apply list_elem_of_singleton.
Qed.

(** C40: With a root set, a path is accepted exactly when what it resolves to
    is the root or below it, whatever its names look like (a name may start
    with two dots), and it is that resolved path that is used; when the root
    could not be resolved, every path is refused. *)
Theorem accepted_iff_below cfg p :
  cfg_Root cfg ≠ [] →
  match sb_root (NewSandbox Getwd EvalSymlinks cfg), filepath_Abs Getwd p with
  | Some root, Some abs =>
      ResolvePath Getwd EvalSymlinks (NewSandbox Getwd EvalSymlinks cfg) p =
      if bool_decide (root `prefix_of` resolve EvalSymlinks abs) then Ok (resolve EvalSymlinks abs)
      else Err ErrPathOutsideRoot
  | _, _ => is_ok (ResolvePath Getwd EvalSymlinks (NewSandbox Getwd EvalSymlinks cfg) p) = false
  end.
Proof.
  intros Hroot. unfold NewSandbox. destruct (cfg_Root cfg) as [|b rt] eqn:Ec; [done|]. rewrite <- Ec.
  unfold ResolvePath. cbn [sb_root sb_restricted negb].
  destruct (match filepath_Abs Getwd (cfg_Root cfg) with Some _ => _ | None => _ end) as [root|]; [|done].
  destruct (filepath_Abs Getwd p) as [abs|] eqn:Ea; [|done].
  pose proof (escapes_Rel root _ (resolve_proper _ (filepath_Abs_proper _ _ Ea))) as E.
  unfold escapes in E. rewrite E. by destruct (bool_decide (root `prefix_of` _)).
Qed.
End paths.

Lemma accepted_iff_below_witness :
  let data := [lit "srv"; lit "..data"; lit "cfg"] in
  let eval := fun q : abs_path => if bool_decide (q = data) then Some [lit "srv"; lit "v1"; lit "cfg"] else None in
  let cfg := mkSandboxConfig (lit "/srv") [] [] false in
  ResolvePath None eval (NewSandbox None eval cfg) (lit "/srv/x/../..data/cfg") = Ok [lit "srv"; lit "v1"; lit "cfg"].
Proof.
  cbv zeta. set (eval := fun q => _).
  assert (∀ q e, eval q = Some e → Forall proper e) as He.
  { intros q e. unfold eval. case_bool_decide; [|done]. intros [= <-]. by_compute. }
  exact (accepted_iff_below None eval He (mkSandboxConfig (lit "/srv") [] [] false) (lit "/srv/x/../..data/cfg") ltac:(done)).
Defined.

(** ** A file system with links

    What [EvalSymlinks] and [open] do: names are looked up one by one and a
    link takes the lookup to its target, up to [links] times. *)

Inductive node := File | Folder | Link (target : abs_path).

Section file_system.
Context (fs : abs_path → option node).

Fixpoint walk (links : nat) : abs_path → list name → option abs_path :=
  fix go (done_ : abs_path) (rest : list name) : option abs_path :=
    match rest with
    | [] => Some done_
    | n :: rest =>
        match fs (done_ ++ [n]) with
        | None => None
        | Some File => match rest with [] => Some (done_ ++ [n]) | _ => None end
        | Some Folder => go (done_ ++ [n]) rest
        | Some (Link t) => match links with O => None | S k => walk k [] (t ++ rest) end
        end
    end.

Definition eval_links (links : nat) (p : abs_path) : option abs_path := walk links [] p.

(** Where [os.OpenFile] with [O_CREATE] gets: a link at the end is followed even
    when there is nothing behind it yet. *)
Fixpoint open_create (links : nat) (p : abs_path) : option abs_path :=
  match walk links [] p with
  | Some q => Some q
  | None =>
      match last p, walk links [] (removelast p) with
      | Some n, Some d =>
          match fs (d ++ [n]), links with
          | Some (Link t), S k => open_create k t
          | Some (Link t), O => None
          | _, _ => Some (d ++ [n])
          end
      | _, _ => None
      end
  end.

(** A path that holds no link, and is there. *)
Definition straight (done_ rest : list name) : Prop :=
  ∀ a n b, rest = a ++ n :: b →
    fs (done_ ++ a ++ [n]) = Some Folder ∨ (fs (done_ ++ a ++ [n]) = Some File ∧ b = []).

Lemma walk_cons links d n rest :
  walk links d (n :: rest) =
  match fs (d ++ [n]) with
  | None => None
  | Some File => match rest with [] => Some (d ++ [n]) | _ => None end
  | Some Folder => walk links (d ++ [n]) rest
  | Some (Link t) => match links with O => None | S k => walk k [] (t ++ rest) end
  end.
Proof. by destruct links. Qed.

Lemma straight_walk links rest : ∀ d, straight d rest → walk links d rest = Some (d ++ rest).
Proof.
  induction rest as [|n rest IH]; intros d Hs; [destruct links; simpl; by rewrite app_nil_r|].
  rewrite walk_cons.
  destruct (Hs [] n rest eq_refl) as [E|[E ->]]; simpl in E; rewrite E; [|done].
  rewrite IH; [by rewrite <- app_assoc|]. intros a m b ->. rewrite <- app_assoc. apply (Hs (n :: a) m b eq_refl).
Qed.

Lemma walk_straight links : ∀ rest d e, straight [] d → (∀ a n b, d = a ++ n :: b → fs (a ++ [n]) = Some Folder) →
  walk links d rest = Some e → straight [] e.
Proof.
  induction links as [links IH] using (well_founded_induction lt_wf). induction rest as [|n rest IHr]; intros d e Hd Hf.
  { destruct links; simpl; by intros [= <-]. }
  rewrite walk_cons.
  assert (∀ a m b, d ++ [n] = a ++ m :: b → (b = [] ∧ a = d ∧ m = n) ∨ ∃ b', d = a ++ m :: b') as Hcut.
  { intros a m b E. destruct b as [|x b] using rev_ind.
    - left. apply app_inj_tail in E as [-> ->]. done.
    - right. exists b. rewrite app_comm_cons, app_assoc in E. by apply app_inj_tail in E as [-> _]. }
  destruct (fs (d ++ [n])) as [[| |t]|] eqn:En; [| | |done].
  - destruct rest; [|done]. intros [= <-] a m b E. simpl. destruct (Hcut a m b E) as [(-> & -> & ->)|[b' E']]; [by right|].
    left. by eapply Hf.
  - intros He. eapply IHr; [| |exact He].
    + intros a m b E. simpl. left. destruct (Hcut a m b E) as [(-> & -> & ->)|[b' E']]; [done|by eapply Hf].
    + intros a m b E. destruct (Hcut a m b E) as [(-> & -> & ->)|[b' E']]; [done|by eapply Hf].
  - destruct links as [|k]; [done|]. apply (IH k); [lia| |]; intros [|? ?] ? ?; done.
Qed.

Lemma walk_snoc links n rest : ∀ d z, straight d rest → (∀ t, fs (d ++ rest ++ [n]) ≠ Some (Link t)) →
  walk links d (rest ++ [n]) = Some z → z = d ++ rest ++ [n].
Proof.
  induction rest as [|m rest IH]; intros d z Hs Hl; cbn [app]; rewrite walk_cons.
  - destruct (fs (d ++ [n])) as [[| |t]|] eqn:E; [by intros [= <-]| |by destruct (Hl t)|done].
    destruct links; simpl; by intros [= <-].
  - destruct (Hs [] m rest eq_refl) as [E|[E ->]]; simpl in E; rewrite E; [|done].
    intros Hz. apply IH in Hz.
    + by rewrite <- app_assoc in Hz.
    + intros a k b ->. rewrite <- app_assoc. apply (Hs (m :: a) k b eq_refl).
    + intros t. rewrite <- app_assoc. apply Hl.
Qed.

Lemma eval_straight links p e : eval_links links p = Some e → straight [] e.
Proof. apply walk_straight; intros [|? ?] ? ?; done. Qed.

(** What a tool then opens or creates at an accepted path is the very path
    that was checked, below the root, unless that path is a link with nothing
    behind it. *)
Theorem opens_what_was_checked cfg Getwd links root p x y :
  let s := NewSandbox Getwd (eval_links links) cfg in
  cfg_Root cfg ≠ [] → sb_root s = Some root →
  ResolvePath Getwd (eval_links links) s p = Ok x →
  (∀ t, fs x ≠ Some (Link t)) →
  open_create links x = Some y → y = x.
Proof.
  intros s Hroot Hs Hok Hlink Hy.
  assert (∃ q, x = resolve (eval_links links) q) as [q Hq].
  { revert Hok. unfold ResolvePath. destruct (sb_restricted s) eqn:Er.
    - cbn [negb]. rewrite Hs. destruct (filepath_Abs Getwd p); [|done]. destruct (_ || _); [done|]. intros [= <-]. by eexists.
    - exfalso. revert Er. unfold s, NewSandbox. by destruct (cfg_Root cfg). }
  assert (straight [] x → open_create links x = Some x) as Hx.
  { intros Hst. destruct links; cbn [open_create]; by rewrite (straight_walk _ _ _ Hst). }
  revert Hq. unfold resolve. destruct (eval_links links q) as [e|] eqn:E1.
  { intros ->. rewrite Hx in Hy by (by eapply eval_straight). congruence. }
  destruct (eval_links links (Dir q)) as [d|] eqn:E2; intros Hq; subst x.
  - unfold Join_base in *. destruct (last q) as [n|] eqn:El.
    + revert Hy. assert (walk links [] d = Some d) as Ed by (apply straight_walk; by eapply eval_straight).
      assert (∀ l, open_create l (d ++ [n]) = match walk l [] (d ++ [n]) with Some q => Some q | None =>
        match walk l [] d with Some d => match fs (d ++ [n]), l with
          | Some (Link t), S k => open_create k t | Some (Link t), O => None | _, _ => Some (d ++ [n]) end | None => None end end) as Eo.
      { intros l. destruct l; cbn [open_create]; rewrite last_snoc, removelast_last; by destruct (walk _ _ d). }
      rewrite Eo, Ed. destruct (walk links [] (d ++ [n])) as [z|] eqn:Ez.
      * intros [= <-]. exact (walk_snoc links n d [] z (eval_straight _ _ _ E2) Hlink Ez).
      * destruct (fs (d ++ [n])) as [[| |t]|] eqn:Ef; try by intros [= <-]. by destruct (Hlink t).
    + apply last_None in El as ->. by destruct links.
  - exfalso. revert Hy. unfold eval_links, Dir in *. destruct links; cbn [open_create]; rewrite E1, E2; by destruct (last q).
Qed.
End file_system.

Definition demo_fs (p : abs_path) : option node :=
  if bool_decide (p = [lit "srv"] ∨ p = [lit "etc"]) then Some Folder
  else if bool_decide (p = [lit "srv"; lit "a.txt"]) then Some File
  else if bool_decide (p = [lit "srv"; lit "gone"]) then Some (Link [lit "etc"; lit "new"])
  else None.
Definition demo_cfg : SandboxConfig := mkSandboxConfig (lit "/srv") [] [] false.

Lemma opens_what_was_checked_witness :
  open_create demo_fs 40 [lit "srv"; lit "a.txt"] = Some [lit "srv"; lit "a.txt"].
Proof.
  destruct (open_create demo_fs 40 [lit "srv"; lit "a.txt"]) as [y|] eqn:E; [|by vm_compute in E].
  f_equal. refine (opens_what_was_checked demo_fs demo_cfg None 40 [lit "srv"] (lit "/srv/../srv/a.txt") _ y _ _ _ _ E).
  - done.
  - by vm_compute.
  - by vm_compute.
  - intros t. by vm_compute.
Defined.

(** A link to nothing is the exception: the path is accepted for what it is, a
    name below the root, and creating the file follows the link out of it. *)
Theorem dangling_link_escapes :
  ResolvePath None (eval_links demo_fs 40) (NewSandbox None (eval_links demo_fs 40) demo_cfg) (lit "/srv/gone") =
    Ok [lit "srv"; lit "gone"] ∧
  open_create demo_fs 40 [lit "srv"; lit "gone"] = Some [lit "etc"; lit "new"].
Proof. by vm_compute. Qed.

(** ** Program names *)

Definition ascii_lower (b : Z) : Z := if between 65 b 90 then b + 32 else b.
(** Lower-case letters, digits, [-] and [_]. *)
Definition plain_byte (b : Z) : bool := between 97 b 122 || between 48 b 57 || (b =? 45) || (b =? 95).

Section spellings.
Context (volume : list Z → nat) (lower : Z → Z).
(** [unicode.ToLower] on ASCII. *)
Hypothesis lower_ascii : ∀ b, 0 ≤ b < 128 → lower b = ascii_lower b.

(** What Windows takes for the program [base]: in any directory, in any case, with
    any of the extensions of programs or none. *)
Definition spelling (base s : list Z) : Prop :=
  ∃ dir file ext, s = dir ++ file ++ ext ∧ map ascii_lower file = base ∧
    map ascii_lower ext ∈ [] :: exe_exts ∧
    (dir = [] ∨ ∃ d c, dir = d ++ [c] ∧ is_sep true c = true) ∧ (volume s ≤ length dir)%nat.

Definition name_byte (b : Z) : bool := bool_decide (0 ≤ b < 128) && negb (is_sep true b).

Lemma lower_name b : plain_byte (ascii_lower b) || (ascii_lower b =? 46) = true → name_byte b = true.
Proof.
  intros Hb. assert (0 ≤ b < 128 ∧ b ≠ 47 ∧ b ≠ 92) as H.
  { revert Hb. unfold plain_byte, ascii_lower, between.
    destruct (Z.leb_spec 65 b), (Z.leb_spec b 90); cbn [andb];
      repeat (rewrite orb_true_iff || rewrite andb_true_iff || rewrite Z.leb_le || rewrite Z.eqb_eq); lia. }
  unfold name_byte, is_sep, slash. rewrite bool_decide_true by lia.
  by rewrite (proj2 (Z.eqb_neq b 47)), (proj2 (Z.eqb_neq b 92)) by lia.
Qed.

Lemma lower_names l : Forall (fun b => plain_byte b || (b =? 46) = true) (map ascii_lower l) → Forall (fun b => name_byte b = true) l.
Proof. intros H. apply Forall_map in H. eapply Forall_impl; [exact H|]. intros b. apply lower_name. Qed.

Lemma plain_names l : Forall (fun b => plain_byte b = true) l → Forall (fun b => plain_byte b || (b =? 46) = true) l.
Proof. intros H. eapply Forall_impl; [exact H|]. by intros b ->. Qed.

Lemma exts_names e : e ∈ [] :: exe_exts → Forall (fun b => plain_byte b || (b =? 46) = true) e.
Proof. revert e. apply Forall_forall. by_compute. Qed.

Lemma last_element_names d f :
  Forall (fun b => name_byte b = true) f → (d = [] ∨ ∃ d' c, d = d' ++ [c] ∧ is_sep true c = true) → f ≠ [] →
  last_element true (d ++ f) = f.
Proof.
  intros Hf Hd Hne. assert (existsb (is_sep true) f = false) as Hns.
  { apply not_true_is_false. intros (b & Hb & Hs)%existsb_exists. apply list_elem_of_In in Hb.
    rewrite Forall_forall in Hf. specialize (Hf b Hb). unfold name_byte in Hf. by rewrite Hs, andb_false_r in Hf. }
  assert (last_element true f = f) as Hlf.
  { destruct f as [|b f]; [done|]. simpl in Hns |- *. apply orb_false_iff in Hns as [-> ->]. done. }
  destruct Hd as [->|(d' & c & -> & Hc)]; [done|]. rewrite <- app_assoc. cbn [app].
  induction d' as [|x d' IH]; cbn [app last_element].
  - by rewrite Hns, Hc.
  - assert (existsb (is_sep true) (d' ++ c :: f) = true) as ->; [|done].
    apply existsb_exists. exists c. split; [|done]. apply in_app_iff. right. by left.
Qed.

Lemma Base_spelling base s :
  base ≠ [] → Forall (fun b => plain_byte b = true) base →
  spelling base s → ∃ file ext, Base true volume s = file ++ ext ∧ map ascii_lower file = base ∧
    map ascii_lower ext ∈ [] :: exe_exts ∧ Forall (fun b => name_byte b = true) (file ++ ext).
Proof.
  intros Hne Hb (dir & file & ext & -> & Ef & Hext & Hdir & Hv). exists file, ext.
  assert (Forall (fun b => name_byte b = true) (file ++ ext)) as Hf.
  { apply Forall_app. split; apply lower_names; [rewrite Ef; by apply plain_names|by apply exts_names]. }
  assert (file ++ ext ≠ []) as Hfe by (destruct file; [by subst base|done]).
  split_and!; [|done..]. unfold Base.
  destruct (dir ++ file ++ ext) as [|x l] eqn:E; [by apply app_nil in E as [_ E]|]. rewrite <- E in *. clear E x l.
  assert (strip_seps true (dir ++ file ++ ext) = dir ++ file ++ ext) as Hst.
  { unfold strip_seps. rewrite drop_while_head; [apply rev_involutive|].
    rewrite rev_app_distr. destruct (rev (file ++ ext)) as [|x l] eqn:Er.
    - apply (f_equal (@rev Z)) in Er. by rewrite rev_involutive in Er.
    - cbn [app]. assert (x ∈ file ++ ext) as Hx.
      { apply list_elem_of_In. rewrite in_rev, Er. by left. }
      rewrite Forall_forall in Hf. specialize (Hf x Hx). unfold name_byte in Hf.
      by apply andb_true_iff in Hf as [_ ?%negb_true_iff]. }
  rewrite Hst, drop_app_le, last_element_names; try done.
  - by destruct (file ++ ext).
  - destruct Hdir as [->|(d & c & -> & Hc)]; [left; by destruct (volume _)|].
    rewrite length_app in Hv. cbn [length] in Hv.
    destruct (decide (volume ((d ++ [c]) ++ file ++ ext) ≤ length d)%nat) as [Hle|Hgt].
    + right. exists (drop (volume ((d ++ [c]) ++ file ++ ext)) d), c. by rewrite drop_app_le.
    + left. apply drop_ge. rewrite length_app. simpl. lia.
Qed.

Lemma map_runes_ascii l : Forall (fun b => name_byte b = true) l → map_runes lower l = map ascii_lower l.
Proof.
  intros Hl. assert (Forall (fun b => 0 ≤ b < 128) l) as Ha.
  { eapply Forall_impl; [exact Hl|]. intros b [Hb%bool_decide_eq_true _]%andb_true_iff. done. }
  assert (∀ m, Forall (fun b => 0 ≤ b < 128) m → concat (map encode_rune m) = m) as He.
  { intros m Hm. induction Hm as [|b m Hb Hm IH]; [done|]. cbn [map concat]. rewrite IH.
    unfold encode_rune. rewrite (proj2 (Z.ltb_ge b 0)), (proj2 (Z.ltb_ge 0x10FFFF b)), between_false by lia.
    cbn [orb]. by rewrite (proj2 (Z.leb_le b 0x7F)) by lia. }
  unfold map_runes. rewrite <- (He l) at 1 by done. rewrite runes_encoded.
  2:{ eapply Forall_impl; [exact Ha|]. intros b Hb. cbn in Hb. split; lia. }
  assert (∀ b, 0 ≤ b < 128 → 0 ≤ ascii_lower b < 128) as Hlow.
  { intros b Hb. unfold ascii_lower, between. destruct (Z.leb_spec 65 b), (Z.leb_spec b 90); cbn [andb]; lia. }
  rewrite <- (He (map ascii_lower l)); [|apply Forall_map; by eapply Forall_impl].
  rewrite map_map. f_equal. apply map_ext_in. intros b Hb%list_elem_of_In.
  rewrite Forall_forall in Ha. specialize (Ha b Hb). rewrite lower_ascii by done.
  by rewrite (proj2 (Z.ltb_ge _ _)) by (specialize (Hlow b Ha); lia).
Qed.

Lemma Ext_plain base : Forall (fun b => plain_byte b = true) base → Ext true base = [].
Proof.
  induction base as [|b base IH]; intros H; [done|]. apply Forall_cons in H as [Hb H]. simpl. rewrite IH by done.
  destruct (Z.eqb_spec b 46) as [->|]; [done|done].
Qed.

Lemma Ext_app base e : e ∈ exe_exts → Ext true (base ++ e) = e.
Proof.
  intros He. assert (Ext true e = e ∧ e ≠ []) as [E Hne].
  { revert e He. apply Forall_forall. by_compute. }
  induction base as [|b base IH]; [done|]. simpl. rewrite IH. by destruct e.
Qed.

Lemma execName_spelling base s :
  base ≠ [] → Forall (fun b => plain_byte b = true) base → spelling base s → execName true volume lower s = base.
Proof.
  intros Hne Hb Hs. destruct (Base_spelling base s Hne Hb Hs) as (file & ext & E & Ef & He & Hn).
  unfold execName. cbn [negb]. rewrite E, map_runes_ascii, map_app, Ef by done.
  set (e := map ascii_lower ext) in *. clearbody e. apply elem_of_cons in He as [->|He].
  - rewrite app_nil_r, Ext_plain by done. by rewrite bool_decide_false by by_compute.
  - rewrite Ext_app, bool_decide_true by done. rewrite length_app, Nat.add_sub. apply take_app_length.
Qed.

(** On Windows a program on the deny list is refused however it is spelled,
    in any directory, in any case and with or without the extension of a
    program, and one on the allow list is accepted under every such spelling,
    unless it is denied too. *)
Theorem deny_list_spellings s base arg0 args entry :
  base ≠ [] → Forall (fun b => plain_byte b = true) base → cfg_UnsafeExec (sb_cfg s) = false →
  spelling base arg0 → spelling base entry →
  (entry ∈ cfg_DenyExec (sb_cfg s) → CheckExec true volume lower s (arg0 :: args) = Err (ErrExecDenied base)) ∧
  (entry ∈ cfg_AllowExec (sb_cfg s) → (∀ d, d ∈ cfg_DenyExec (sb_cfg s) → execName true volume lower d ≠ base) →
   CheckExec true volume lower s (arg0 :: args) = Ok ()).
Proof.
  intros Hne Hb Hu Ha He. pose proof (execName_spelling _ _ Hne Hb Ha) as Ea.
  pose proof (execName_spelling _ _ Hne Hb He) as Ee. unfold CheckExec. rewrite Hu, Ea.
  assert (∀ l, entry ∈ l → existsb (fun d => bool_decide (execName true volume lower d = base)) l = true) as Hin.
  { intros l Hl. apply existsb_exists. exists entry. split; [by apply list_elem_of_In|]. by apply bool_decide_eq_true. }
  split.
  - intros Hd. by rewrite Hin.
  - intros Hl Hd. assert (existsb (fun d => bool_decide (execName true volume lower d = base)) (cfg_DenyExec (sb_cfg s)) = false) as ->.
    2:{ destruct (cfg_AllowExec (sb_cfg s)) as [|a l] eqn:El; [done|]. by rewrite Hin. }
    apply not_true_is_false. intros (d & Hd1%list_elem_of_In & Hd2%bool_decide_eq_true)%existsb_exists. by apply (Hd d).
Qed.
End spellings.

Lemma deny_list_spellings_witness :
  let s := mkSandbox (mkSandboxConfig [] [] [lit "shutdown"] false) None false in
  CheckExec true (fun _ => O) ascii_lower s [lit "C:\Windows\ShutDown.EXE"; lit "/s"] = Err (ErrExecDenied (lit "shutdown")).
Proof.
  cbv zeta. refine (proj1 (deny_list_spellings (fun _ => O) ascii_lower _ _ (lit "shutdown") (lit "C:\Windows\ShutDown.EXE") [lit "/s"] (lit "shutdown") _ _ _ _ _) _).
  - done.
  - done.
  - by_compute.
  - done.
  - exists (lit "C:\Windows\"), (lit "ShutDown"), (lit ".EXE"). split_and!; [done|done|by_compute| |simpl; lia].
    right. by exists (lit "C:\Windows"), 92.
  - exists [], (lit "shutdown"), []. split_and!; [done|done|by_compute|by left|done].
  - by_compute.
Defined.
