(* ===== verification/AgentFile.v ===== *)
(** * The file tools of the agent (src/internal/agent/tools/file.go and the
    [stat] of fs.go)

    The file system is a map from resolved paths to the bytes of regular files.
    Which path a name resolves to is the sandbox's answer, a parameter;
    [refused] are the paths that are there and cannot be opened (a directory, no
    permission) and [creatable] those where a new file can be made.  Arguments
    come decoded; a call that cannot be decoded fails before it gets here. *)

From S2P Require Import Prelude GoNet GoText AgentTruncate AgentSandbox.

Open Scope Z_scope.

Record ReadFileArgs := mkReadFileArgs { rf_Path : list Z; rf_Offset : Z; rf_Length : Z; rf_AsText : bool }.
Record ReadFileResult := mkReadFileResult { rr_Bytes : list Z; rr_EOF : bool; rr_AsText : bool }.

Definition readFileMaxChunk : Z := 1048576.
Definition readFileDefaultChunk : Z := 65536.

Record WriteFileArgs := mkWriteFileArgs {
  wf_Path : list Z;
  wf_Content : list Z;
  wf_Mode : Z;
  wf_Create : bool;
  wf_Append : bool;
  wf_At : option Z;
}.

Inductive FileError :=
| ErrSandbox (e : SandboxError)
| ErrFileNotFound
| ErrOpen
| ErrNegativeOffset.

Notation files := (gmap abs_path (list Z)).

(** [io.ReadFull] of [limit] bytes: how much there was, and whether the file
    ended before the buffer was full. *)
Definition ReadFull (rest : list Z) (limit : Z) : list Z * bool :=
  let got := take (Z.to_nat limit) rest in (got, len got <? limit).

(** [File.WriteAt] over contents [l]: nothing is written for no bytes, and a gap
    before the offset reads as zeros. *)
Definition write_at (l : list Z) (off : Z) (data : list Z) : list Z :=
  match data with
  | [] => l
  | _ =>
      take (Z.to_nat off) (l ++ repeat 0 (Z.to_nat off)) ++ data ++ drop (Z.to_nat off + length data) l
  end.

Section tools.
Context (ResolvePath : list Z → result SandboxError abs_path).
Context (refused creatable : abs_path → bool).

Definition ReadFile_Run (fs : files) (a : ReadFileArgs) : result FileError ReadFileResult :=
  match ResolvePath (rf_Path a) with
  | Err e => Err (ErrSandbox e)
  | Ok resolved =>
      if refused resolved then Err ErrOpen
      else match fs !! resolved with
      | None => Err ErrFileNotFound
      | Some content =>
          let rest := if 0 <? rf_Offset a then drop (Z.to_nat (rf_Offset a)) content else content in
          let limit :=
            if 0 <? rf_Length a then (if readFileMaxChunk <? rf_Length a then readFileMaxChunk else rf_Length a)
            else readFileDefaultChunk in
          let '(bytes, eof) := ReadFull rest limit in
          Ok (mkReadFileResult bytes eof (rf_AsText a))
      end
  end.

(** [os.OpenFile] for writing with [O_CREATE]: the contents the file has once
    open. *)
Definition open_for_write (fs : files) (p : abs_path) : option (list Z) :=
  if refused p then None
  else match fs !! p with
  | Some content => Some content
  | None => if creatable p then Some [] else None
  end.

Definition fileExists (fs : files) (p : abs_path) : bool := bool_decide (is_Some (fs !! p)) || refused p.

Definition WriteFile_Run (fs : files) (a : WriteFileArgs) : result FileError Z * files :=
  match ResolvePath (wf_Path a) with
  | Err e => (Err (ErrSandbox e), fs)
  | Ok resolved =>
      match wf_At a with
      | Some at_ =>
          match open_for_write fs resolved with
          | None => (Err ErrOpen, fs)
          | Some content =>
              if at_ <? 0 then (Err ErrNegativeOffset, <[resolved := content]> fs)
              else (Ok (len (wf_Content a)), <[resolved := write_at content at_ (wf_Content a)]> fs)
          end
      | None =>
          if negb (wf_Create a) && negb (fileExists fs resolved) then (Err ErrFileNotFound, fs)
          else match open_for_write fs resolved with
          | None => (Err ErrOpen, fs)
          | Some content =>
              let content := if wf_Append a then content ++ wf_Content a else wf_Content a in
              (Ok (len (wf_Content a)), <[resolved := content]> fs)
          end
      end
  end.

(** [StatTool.Run], of whose result the size is used: [os.Lstat] of something
    that is no regular file gives [other_size]. *)
Context (other_size : abs_path → Z).

Definition Stat_Run (fs : files) (path : list Z) : result FileError Z :=
  match ResolvePath path with
  | Err e => Err (ErrSandbox e)
  | Ok resolved =>
      match fs !! resolved with
      | Some content => Ok (len content)
      | None => if refused resolved then Ok (other_size resolved) else Err ErrFileNotFound
      end
  end.

(** ** Reading in chunks

    A caller that adds the length of what it got to its offset until the end of
    the file is reported. [fuel] bounds the number of calls. *)

Fixpoint read_all (fuel : nat) (fs : files) (path : list Z) (offset length : Z) (acc : list Z) : option (result FileError (list Z)) :=
  match fuel with
  | O => None
  | S fuel =>
      match ReadFile_Run fs (mkReadFileArgs path offset length false) with
      | Err e => Some (Err e)
      | Ok r =>
          if rr_EOF r then Some (Ok (acc ++ rr_Bytes r))
          else read_all fuel fs path (offset + len (rr_Bytes r)) length (acc ++ rr_Bytes r)
      end
  end.

(** The size of a chunk. *)
Definition chunk_limit (length : Z) : Z :=
  if 0 <? length then Z.min length readFileMaxChunk else readFileDefaultChunk.

Lemma ReadFile_Run_spec fs a p content :
  ResolvePath (rf_Path a) = Ok p → refused p = false → fs !! p = Some content →
  let got := take (Z.to_nat (chunk_limit (rf_Length a))) (drop (Z.to_nat (rf_Offset a)) content) in
  ReadFile_Run fs a = Ok (mkReadFileResult got (len got <? chunk_limit (rf_Length a)) (rf_AsText a)).
Proof.
  intros Hp Hr Hc. unfold ReadFile_Run. rewrite Hp, Hr, Hc. unfold ReadFull, chunk_limit.
  assert ((if 0 <? rf_Offset a then drop (Z.to_nat (rf_Offset a)) content else content) = drop (Z.to_nat (rf_Offset a)) content) as ->.
  { destruct (Z.ltb_spec 0 (rf_Offset a)); [done|]. by replace (Z.to_nat (rf_Offset a)) with 0%nat by lia. }
  assert ((if 0 <? rf_Length a then if readFileMaxChunk <? rf_Length a then readFileMaxChunk else rf_Length a else readFileDefaultChunk)
    = (if 0 <? rf_Length a then Z.min (rf_Length a) readFileMaxChunk else readFileDefaultChunk)) as ->; [|done].
  case_Z; lia.
Qed.

(** Reading a file chunk by chunk, the offset moved on by what came back,
    gives the whole file, in no more calls than it has bytes and one, whatever
    the size asked for. *)
Theorem chunks_give_file fs path p content length :
  ResolvePath path = Ok p → refused p = false → fs !! p = Some content →
  read_all (S (List.length content)) fs path 0 length [] = Some (Ok content).
Proof.
  intros Hp Hr Hc.
  assert (0 < chunk_limit length) as Hl by (unfold chunk_limit, readFileMaxChunk, readFileDefaultChunk; case_Z; lia).
  assert (∀ fuel off acc, 0 ≤ off ≤ len content → acc = take (Z.to_nat off) content → len content - off < Z.of_nat fuel →
    read_all fuel fs path off length acc = Some (Ok content)) as H.
  { intros fuel. induction fuel as [|fuel IH]; intros off acc Hoff -> Hf; [lia|]. cbn [read_all].
    rewrite (ReadFile_Run_spec _ _ p content) by done. cbn [rr_EOF rr_Bytes rf_Length rf_Offset].
    set (got := take _ (drop _ content)).
    assert (take (Z.to_nat off) content ++ got = take (Z.to_nat (off + len got)) content) as Eacc.
    { set (m := Z.to_nat (off + len got)). rewrite <- (take_drop (Z.to_nat off) (take m content)).
      unfold m, got, len in *. rewrite length_take, length_drop. f_equal.
      - rewrite take_take. f_equal. lia.
      - rewrite skipn_firstn_comm. destruct (decide (Z.of_nat (List.length content) - off ≤ chunk_limit length)).
        + rewrite !take_ge; rewrite ?length_drop; [done|lia..].
        + f_equal. lia. }
    assert (len got = Z.min (chunk_limit length) (len content - off)) as Elen.
    { unfold got, len in *. rewrite length_take, length_drop. lia. }
    rewrite Eacc. destruct (Z.ltb_spec (len got) (chunk_limit length)).
    - do 2 f_equal. apply take_ge. unfold len in *. lia.
    - apply IH; [lia|done|lia]. }
  apply H; [split; [done|apply len_nonneg]|done|unfold len; lia].
Qed.
End tools.

Lemma chunks_give_file_witness :
  read_all (fun _ => Ok [lit "f"]) (fun _ => false) 6 {[ [lit "f"] := lit "hello" ]} (lit "/f") 0 2 [] = Some (Ok (lit "hello")).
Proof.
  apply (chunks_give_file (fun _ => Ok [lit "f"]) (fun _ => false) _ (lit "/f") [lit "f"] (lit "hello") 2);
    [done|done|apply lookup_singleton_eq].
Defined.
