(* ===== verification/HelpTransfer.v ===== *)
(** * File transfers of the helper (src/internal/client/help_bootstrap.go,
    [upload_file] and [download_file])

    A transfer is a sequence of [write_file] or [read_file] calls with retries of
    a call, and reconnections with a resume around the whole.  The network is an
    oracle: [fate] says of each call whether it was served, never reached the
    agent, or was served and its answer lost, and with which error; other
    oracles say how each reconnection ends and whether a bridge is there when a
    run starts.  An oracle that has run out stays favourable.

    The upload window is one call: the loop waits for a chunk's answer before it
    sends the next and sends nothing after a failure, so the calls of an upload
    are those of the loop below, in its order. *)

From S2P Require Import Prelude GoNet GoText AgentTruncate AgentSandbox AgentFile.

Open Scope Z_scope.

Definition fileTransferChunk : Z := 524288.
Definition chunkRetries : nat := 3.
Definition maxTransferReconnects : nat := 5.

Record fileTransferArgs := mkTransferArgs { fa_LocalPath : list Z; fa_RemotePath : list Z; fa_Offset : Z }.
#[export] Instance fileTransferArgs_eta : Eta fileTransferArgs :=
  fun a => mkTransferArgs (fa_LocalPath a) (fa_RemotePath a) (fa_Offset a).
Record fileTransferResult := mkTransferResult { ft_Bytes : Z; ft_Chunks : nat }.

(** Errors of a call, by what the code tells apart: texts that hold [tunnel_lost]
    or [not_connected], the end of the context, and the rest. *)
Inductive CallError :=
| ErrTunnelLost
| ErrContext
| ErrToolCall (e : FileError)
| ErrOtherCall.

Inductive TransferError :=
| ErrPathsRequired
| ErrOpenLocal
| ErrNotConnected
| ErrCall (e : CallError)
| ErrEmptyChunk
| ErrReconnect
| ErrOutOfFuel. (** of the model: never returned *)

Definition isTunnelDown (e : TransferError) : bool :=
  match e with ErrNotConnected | ErrCall ErrTunnelLost => true | _ => false end.

Inductive request :=
| ReadReq (a : ReadFileArgs)
| WriteReq (a : WriteFileArgs)
| StatReq (path : list Z).

Inductive response :=
| ReadResp (r : ReadFileResult)
| WriteResp (n : Z)
| StatResp (size : Z).

Inductive fate := Served | NotSent (e : CallError) | AnswerLost (e : CallError).

Record world := mkWorld {
  w_remote : files;
  w_local : gmap (list Z) (list Z);
  w_fates : list fate;
  w_reconnects : list bool;
  w_bridges : list bool;
}.
#[export] Instance world_eta : Eta world :=
  fun w => mkWorld (w_remote w) (w_local w) (w_fates w) (w_reconnects w) (w_bridges w).

Section transfer.
(** The agent the calls reach. *)
Context (ResolvePath : list Z → result SandboxError abs_path).
Context (refused creatable : abs_path → bool) (other_size : abs_path → Z).
(** Where this machine can create a file. *)
Context (local_creatable : list Z → bool).

Definition serve (fs : files) (q : request) : result CallError response * files :=
  match q with
  | ReadReq a =>
      (match ReadFile_Run ResolvePath refused fs a with Ok r => Ok (ReadResp r) | Err e => Err (ErrToolCall e) end, fs)
  | WriteReq a =>
      let '(r, fs) := WriteFile_Run ResolvePath refused creatable fs a in
      (match r with Ok n => Ok (WriteResp n) | Err e => Err (ErrToolCall e) end, fs)
  | StatReq path =>
      (match Stat_Run ResolvePath refused other_size fs path with Ok n => Ok (StatResp n) | Err e => Err (ErrToolCall e) end, fs)
  end.

(** [toolCaller.CallTool] *)
Definition CallTool (w : world) (q : request) : result CallError response * world :=
  let f := match w_fates w with f :: _ => f | [] => Served end in
  let w := w <| w_fates := List.tl (w_fates w) |> in
  match f with
  | NotSent e => (Err e, w)
  | Served => let '(r, fs) := serve (w_remote w) q in (r, w <| w_remote := fs |>)
  | AnswerLost e => let '(_, fs) := serve (w_remote w) q in (Err e, w <| w_remote := fs |>)
  end.

(** [callToolRetry]: [n] more attempts after this one.  With the context over
    the wait before the next attempt ends at once. *)
Fixpoint retry_loop (n : nat) (w : world) (q : request) : result CallError response * world :=
  let '(r, w) := CallTool w q in
  match r, n with
  | Ok x, _ => (Ok x, w)
  | Err ErrTunnelLost, _ => (Err ErrTunnelLost, w)
  | Err ErrContext, _ => (Err ErrContext, w)
  | Err e, O => (Err e, w)
  | Err e, S n => retry_loop n w q
  end.
Definition callToolRetry (w : world) (q : request) := retry_loop chunkRetries w q.

(** ** [doUploadFile] *)

(** The loop over the chunks of [rest], what is left of the local file. *)
Fixpoint upload_loop (fuel : nat) (w : world) (remote : list Z) (rest : list Z) (offset : Z) (chunks : nat) :
    result TransferError fileTransferResult * world :=
  match fuel with
  | O => (Err ErrOutOfFuel, w)
  | S fuel =>
      let '(data, eof) := ReadFull rest fileTransferChunk in
      match data with
      | [] => (Ok (mkTransferResult offset chunks), w)
      | _ =>
          let '(r, w) := callToolRetry w (WriteReq (mkWriteFileArgs remote data 0 false false (Some offset))) in
          match r with
          | Err e => (Err (ErrCall e), w)
          | Ok _ =>
              let offset := offset + len data in
              if eof then (Ok (mkTransferResult offset (S chunks)), w)
              else upload_loop fuel w remote (drop (length data) rest) offset (S chunks)
          end
      end
  end.

Definition doUploadFile (w : world) (a : fileTransferArgs) : result TransferError fileTransferResult * world :=
  if bool_decide (fa_LocalPath a = [] ∨ fa_RemotePath a = []) then (Err ErrPathsRequired, w)
  else match w_local w !! fa_LocalPath a with
  | None => (Err ErrOpenLocal, w)
  | Some content =>
      let '(offset, rest, w) :=
        if 0 <? fa_Offset a then
          let '(r, w) := CallTool w (StatReq (fa_RemotePath a)) in
          let offset := match r with
            | Ok (StatResp size) => if 0 <=? size then size else fa_Offset a
            | Ok _ => fa_Offset a
            | Err _ => 0
            end in
          (offset, drop (Z.to_nat offset) content, w)
        else (fa_Offset a, content, w) in
      let '(truncated, w) :=
        if offset =? 0
        then callToolRetry w (WriteReq (mkWriteFileArgs (fa_RemotePath a) [] 0 true false None))
        else (Ok (WriteResp 0), w) in
      match truncated with
      | Err e => (Err (ErrCall e), w)
      | Ok _ => upload_loop (S (length content)) w (fa_RemotePath a) rest offset 0
      end
  end.

(** ** [doDownloadFile] *)

(** [pos] is the position in the local file. *)
Fixpoint download_loop (fuel : nat) (w : world) (a : fileTransferArgs) (pos total : Z) (chunks : nat) :
    result TransferError fileTransferResult * world :=
  match fuel with
  | O => (Err ErrOutOfFuel, w)
  | S fuel =>
      let '(r, w) := callToolRetry w (ReadReq (mkReadFileArgs (fa_RemotePath a) total fileTransferChunk false)) in
      match r with
      | Err e => (Err (ErrCall e), w)
      | Ok (ReadResp r) =>
          let local := default [] (w_local w !! fa_LocalPath a) in
          let w := w <| w_local := <[fa_LocalPath a := write_at local pos (rr_Bytes r)]> (w_local w) |> in
          let pos := pos + len (rr_Bytes r) in
          let total := total + len (rr_Bytes r) in
          if rr_EOF r then (Ok (mkTransferResult total (S chunks)), w)
          else match rr_Bytes r with
          | [] => (Err ErrEmptyChunk, w)
          | _ => download_loop fuel w a pos total (S chunks)
          end
      | Ok _ => (Err ErrEmptyChunk, w)
      end
  end.

(** The calls an unchanging remote file can need. *)
Definition download_fuel (w : world) (a : fileTransferArgs) : nat :=
  match ResolvePath (fa_RemotePath a) with
  | Ok p => S (S (length (default [] (w_remote w !! p))))
  | Err _ => 1
  end.

Definition doDownloadFile (w : world) (a : fileTransferArgs) : result TransferError fileTransferResult * world :=
  if bool_decide (fa_LocalPath a = [] ∨ fa_RemotePath a = []) then (Err ErrPathsRequired, w)
  else
    let opened :=
      if 0 <? fa_Offset a then w_local w !! fa_LocalPath a
      else if local_creatable (fa_LocalPath a) then Some [] else None in
    match opened with
    | None => (Err ErrOpenLocal, w)
    | Some content =>
        let w := w <| w_local := <[fa_LocalPath a := content]> (w_local w) |> in
        let '(_, w) := CallTool w (StatReq (fa_RemotePath a)) in
        download_loop (download_fuel w a) w a (Z.max 0 (fa_Offset a)) (fa_Offset a) 0
    end.

(** ** Reconnecting and resuming *)

Inductive transfer := UploadFile | DownloadFile.

Definition resumeTransferArgs (t : transfer) (w : world) (a : fileTransferArgs) : fileTransferArgs :=
  match t with
  | DownloadFile => a <| fa_Offset := match w_local w !! fa_LocalPath a with Some l => len l | None => 0 end |>
  | UploadFile => a <| fa_Offset := 1 |>
  end.

(** [run] of [transferWithReconnect] *)
Definition run (t : transfer) (w : world) (a : fileTransferArgs) : result TransferError fileTransferResult * world :=
  let br := match w_bridges w with b :: _ => b | [] => true end in
  let w := w <| w_bridges := List.tl (w_bridges w) |> in
  if negb br then (Err ErrNotConnected, w)
  else match t with UploadFile => doUploadFile w a | DownloadFile => doDownloadFile w a end.

(** [transferLoop], with [n] reconnections left.  A reconnection that does not
    come about, for an error or for the end of the context, ends the loop. *)
Fixpoint transfer_attempts (n : nat) (t : transfer) (w : world) (a : fileTransferArgs) :
    result TransferError fileTransferResult * world :=
  let '(r, w) := run t w a in
  match r, n with
  | Ok x, _ => (Ok x, w)
  | Err e, O => (Err e, w)
  | Err e, S n =>
      if negb (isTunnelDown e) then (Err e, w)
      else
        let ok := match w_reconnects w with b :: _ => b | [] => true end in
        let w := w <| w_reconnects := List.tl (w_reconnects w) |> in
        if negb ok then (Err ErrReconnect, w)
        else transfer_attempts n t w (resumeTransferArgs t w a)
  end.

Definition transferLoop (t : transfer) (w : world) (a : fileTransferArgs) :=
  transfer_attempts maxTransferReconnects t w a.
End transfer.

(** ** A small transfer *)

Definition demo_remote : abs_path := [lit "r"].
Definition demo_world (remote : files) (local : gmap (list Z) (list Z)) (fates : list fate) : world :=
  mkWorld remote local fates [] [].
Definition demo_transfer (t : transfer) (w : world) (a : fileTransferArgs) :=
  transferLoop (fun _ => Ok demo_remote) (fun _ => false) (fun _ => true) (fun _ => 0) (fun _ => true) t w a.
Definition demo_args : fileTransferArgs := mkTransferArgs (lit "l") (lit "/r") 0.

Example upload_with_faults :
  let w := demo_world ∅ {[ lit "l" := lit "hello" ]} [AnswerLost ErrOtherCall; Served; AnswerLost ErrTunnelLost] in
  let '(r, w) := demo_transfer UploadFile w demo_args in
  r = Ok (mkTransferResult 5 0) ∧ w_remote w !! demo_remote = Some (lit "hello").
Proof. by vm_compute. Qed.
