(* ===== verification/HelpTransferThms.v ===== *)
(** * What file transfers promise

    Whatever calls are lost, before or after they take effect, and however often
    the tunnel is rebuilt, a transfer that reports success has copied the file:
    [download_lands] always, [upload_lands] when the remote file was not there or
    held a beginning of the new contents, as after an earlier attempt.  With
    other old contents an interruption at the first call is enough to lose that
    ([upload_keeps_old_file]). *)

From S2P Require Import Prelude GoNet GoText AgentTruncate AgentSandbox AgentFile HelpTransfer.

Open Scope Z_scope.

(** ** Writing a file from its beginning *)

Lemma write_at_take content off n :
  0 ≤ off → off + Z.of_nat n ≤ len content → (0 < n)%nat →
  write_at (take (Z.to_nat off) content) off (take n (drop (Z.to_nat off) content)) = take (Z.to_nat off + n) content.
Proof.
  intros Hoff Hn Hpos. unfold write_at, len in *. destruct (take n (drop (Z.to_nat off) content)) as [|b l] eqn:E.
  { apply (f_equal length) in E. rewrite length_take, length_drop in E. simpl in E. lia. }
  rewrite <- E. rewrite take_app_le, take_take, Nat.min_id by (rewrite length_take; lia).
  rewrite (drop_ge (take _ content)) by (rewrite !length_take, length_drop; lia). rewrite app_nil_r.
  rewrite <- (take_drop (Z.to_nat off) (take (Z.to_nat off + n) content)). f_equal.
  - rewrite take_take. f_equal. lia.
  - rewrite skipn_firstn_comm. f_equal. lia.
Qed.

(** A chunk written again changes nothing. *)
Lemma write_at_again content off n :
  0 ≤ off → off + Z.of_nat n ≤ len content →
  write_at (take (Z.to_nat off + n) content) off (take n (drop (Z.to_nat off) content)) = take (Z.to_nat off + n) content.
Proof.
  intros Hoff Hn. unfold write_at, len in *. destruct (take n (drop (Z.to_nat off) content)) as [|b l] eqn:E; [done|].
  rewrite <- E. rewrite take_app_le by (rewrite length_take; lia). rewrite take_take, Nat.min_l by lia.
  rewrite (drop_ge (take _ content)) by (rewrite !length_take, length_drop; lia). rewrite app_nil_r.
  rewrite <- (take_drop (Z.to_nat off) (take (Z.to_nat off + n) content)). f_equal.
  - rewrite take_take. f_equal. lia.
  - rewrite skipn_firstn_comm. f_equal. lia.
Qed.

(** What a read of at most [limit] bytes gets: some of what is left, all of it at
    the end. *)
Lemma ReadFull_spec rest limit data eof :
  0 < limit → ReadFull rest limit = (data, eof) →
  ∃ m, data = take m rest ∧ (m ≤ length rest)%nat ∧ (m = O → rest = []) ∧ (eof = true → m = length rest).
Proof.
  intros Hl. unfold ReadFull, len. intros [= <- <-]. exists (Nat.min (Z.to_nat limit) (length rest)). split_and!.
  - destruct (decide (Z.to_nat limit ≤ length rest)%nat); [by rewrite Nat.min_l|].
    by rewrite Nat.min_r, !take_ge by lia.
  - lia.
  - intros E. apply length_zero_iff_nil. lia.
  - rewrite Z.ltb_lt, length_take. lia.
Qed.

Lemma chunk_positive : 0 < fileTransferChunk.
Proof. done. Qed.

Section transfer.
Context (ResolvePath : list Z → result SandboxError abs_path).
Context (refused creatable : abs_path → bool) (other_size : abs_path → Z) (local_creatable : list Z → bool).

Notation serve := (serve ResolvePath refused creatable other_size).
Notation CallTool := (CallTool ResolvePath refused creatable other_size).
Notation retry_loop := (retry_loop ResolvePath refused creatable other_size).
Notation callToolRetry := (callToolRetry ResolvePath refused creatable other_size).
Notation upload_loop := (upload_loop ResolvePath refused creatable other_size).
Notation doUploadFile := (doUploadFile ResolvePath refused creatable other_size).
Notation download_loop := (download_loop ResolvePath refused creatable other_size).
Notation doDownloadFile := (doDownloadFile ResolvePath refused creatable other_size local_creatable).
Notation run := (run ResolvePath refused creatable other_size local_creatable).
Notation transfer_attempts := (transfer_attempts ResolvePath refused creatable other_size local_creatable).
Notation transferLoop := (transferLoop ResolvePath refused creatable other_size local_creatable).

(** ** Calls *)

(** What every service of [q] keeps, a call keeps; and its answer is the answer
    of a service. *)
Lemma CallTool_inv (I : files → Prop) q w r w' :
  (∀ fs, I fs → I (serve fs q).2) → I (w_remote w) → CallTool w q = (r, w') →
  I (w_remote w') ∧ w_local w' = w_local w ∧ w_bridges w' = w_bridges w ∧
  (∀ x, r = Ok x → ∃ fs, I fs ∧ serve fs q = (Ok x, w_remote w')).
Proof.
  intros HI H0. unfold HelpTransfer.CallTool. destruct (match w_fates w with f :: _ => f | [] => Served end) as [|e|e].
  - specialize (HI _ H0). unfold set_field. cbn [w_remote w_local w_bridges w_fates].
    destruct (serve (w_remote w) q) as [r0 fs] eqn:E. intros [= <- <-]. cbn [w_remote w_local w_bridges]. split_and!; [done..|].
    intros x ->. by exists (w_remote w).
  - intros [= <- <-]. by split_and!.
  - specialize (HI _ H0). unfold set_field. cbn [w_remote w_local]. destruct (serve (w_remote w) q) as [r0 fs].
    intros [= <- <-]. by split_and!.
Qed.

Lemma retry_inv (I : files → Prop) q n : ∀ w r w',
  (∀ fs, I fs → I (serve fs q).2) → I (w_remote w) → retry_loop n w q = (r, w') →
  I (w_remote w') ∧ w_local w' = w_local w ∧ w_bridges w' = w_bridges w ∧
  (∀ x, r = Ok x → ∃ fs, I fs ∧ serve fs q = (Ok x, w_remote w')).
Proof.
  induction n as [|n IH]; intros w r w' HI H0; cbn [HelpTransfer.retry_loop];
    destruct (CallTool w q) as [r1 w1] eqn:E; destruct (CallTool_inv I q w r1 w1 HI H0 E) as (I1 & L1 & B1 & S1);
    destruct r1 as [x|[| | |]]; try (intros [= <- <-]; by split_and!);
    intros H; destruct (IH _ _ _ HI I1 H) as (I2 & L2 & B2 & S2); rewrite L2, L1, B2, B1; by split_and!.
Qed.

(** ** Uploads *)

Section upload.
Context (rp : list Z) (p : abs_path) (content : list Z) (fs0 : files).
Hypothesis resolves : ResolvePath rp = Ok p.
Hypothesis opens : refused p = false.

Definition chunk_write (data : list Z) (off : Z) : request := WriteReq (mkWriteFileArgs rp data 0 false false (Some off)).
Definition truncate_write : request := WriteReq (mkWriteFileArgs rp [] 0 true false None).

Lemma serve_chunk l off data : 0 ≤ off →
  serve (<[p:=l]> fs0) (chunk_write data off) = (Ok (WriteResp (len data)), <[p:=write_at l off data]> fs0).
Proof.
  intros Hoff. unfold HelpTransfer.serve, WriteFile_Run, open_for_write, chunk_write. cbn [wf_Path wf_At wf_Content].
  rewrite resolves, opens, lookup_insert_eq, (proj2 (Z.ltb_ge _ _)) by done. by rewrite insert_insert_eq.
Qed.

Lemma serve_truncate fs l : fs = <[p:=l]> fs0 ∨ fs = fs0 →
  (serve fs truncate_write).2 = fs ∨ (serve fs truncate_write).2 = <[p:=[]]> fs0.
Proof.
  intros Hfs. unfold HelpTransfer.serve, WriteFile_Run, open_for_write, truncate_write.
  cbn [wf_Path wf_At wf_Content wf_Create wf_Append negb andb]. rewrite resolves, opens.
  destruct (fs !! p); [|destruct (creatable p)]; cbn [fst snd]; try by left.
  all: right; destruct Hfs as [-> | ->]; by rewrite ?insert_insert_eq.
Qed.

Lemma serve_truncate_ok fs l x : fs = <[p:=l]> fs0 ∨ fs = fs0 →
  (serve fs truncate_write).1 = Ok x → (serve fs truncate_write).2 = <[p:=[]]> fs0.
Proof.
  intros Hfs. unfold HelpTransfer.serve, WriteFile_Run, open_for_write, truncate_write.
  cbn [wf_Path wf_At wf_Content wf_Create wf_Append negb andb]. rewrite resolves, opens.
  destruct (fs !! p); [|destruct (creatable p)]; cbn [fst snd]; [| |done].
  all: intros _; destruct Hfs as [-> | ->]; by rewrite ?insert_insert_eq.
Qed.

(** A chunk sent with retries leaves the file with or without it, and with it
    when the answer came. *)
Lemma chunk_sent w off n r w' :
  0 ≤ off → off + Z.of_nat n ≤ len content → (0 < n)%nat →
  w_remote w = <[p:=take (Z.to_nat off) content]> fs0 →
  callToolRetry w (chunk_write (take n (drop (Z.to_nat off) content)) off) = (r, w') →
  (w_remote w' = <[p:=take (Z.to_nat off) content]> fs0 ∨ w_remote w' = <[p:=take (Z.to_nat off + n) content]> fs0) ∧
  w_local w' = w_local w ∧ w_bridges w' = w_bridges w ∧
  (∀ x, r = Ok x → w_remote w' = <[p:=take (Z.to_nat off + n) content]> fs0).
Proof.
  intros Hoff Hn Hpos Hw Hr. set (q := chunk_write _ _) in *.
  assert (∀ fs, (fs = <[p:=take (Z.to_nat off) content]> fs0 ∨ fs = <[p:=take (Z.to_nat off + n) content]> fs0) →
    (serve fs q).2 = <[p:=take (Z.to_nat off + n) content]> fs0) as Hq.
  { intros fs [-> | ->]; unfold q; rewrite serve_chunk by done; cbn [snd]; f_equal; [by apply write_at_take|by apply write_at_again]. }
  destruct (retry_inv (fun fs => fs = <[p:=take (Z.to_nat off) content]> fs0 ∨ fs = <[p:=take (Z.to_nat off + n) content]> fs0)
    q _ _ _ _ (fun fs H => or_intror (Hq fs H)) (or_introl Hw) Hr) as (I & L & B & S).
  split_and!; [done..|]. intros x Hx. destruct (S x Hx) as (fs & Hfs & E). rewrite <- (Hq fs Hfs). by rewrite E.
Qed.

Lemma truncate_sent w l r w' :
  w_remote w = fs0 ∨ w_remote w = <[p:=l]> fs0 → callToolRetry w truncate_write = (r, w') →
  (w_remote w' = w_remote w ∨ w_remote w' = <[p:=[]]> fs0) ∧ w_local w' = w_local w ∧ w_bridges w' = w_bridges w ∧
  (∀ x, r = Ok x → w_remote w' = <[p:=[]]> fs0).
Proof.
  intros Hw Hr. assert (w_remote w = fs0 ∨ w_remote w = <[p:=l]> fs0) as Hw' by done.
  assert (∀ fs, fs = w_remote w ∨ fs = <[p:=[]]> fs0 → ∃ l, fs = <[p:=l]> fs0 ∨ fs = fs0) as Hsh.
  { intros fs [-> | ->]; [|exists []; by left]. destruct Hw as [-> | ->]; [exists []; by right|exists l; by left]. }
  destruct (retry_inv (fun fs => fs = w_remote w ∨ fs = <[p:=[]]> fs0) truncate_write chunkRetries w r w') with (3 := Hr)
    as (I & L & B & S); [|by left|].
  - intros fs Hfs. destruct (Hsh fs Hfs) as [k Hk]. destruct (serve_truncate fs k Hk) as [-> | ->]; [done|by right].
  - split_and!; [done..|]. intros x Hx. destruct (S x Hx) as (fs & Hfs & E). destruct (Hsh fs Hfs) as [k Hk].
    rewrite <- (serve_truncate_ok fs k x Hk); by rewrite E.
Qed.

(** From a remote file that is the first [off] bytes of the contents. *)
Lemma upload_loop_spec fuel : ∀ w off chunks r w',
  0 ≤ off ≤ len content → len content - off < Z.of_nat fuel →
  w_remote w = <[p:=take (Z.to_nat off) content]> fs0 →
  upload_loop fuel w rp (drop (Z.to_nat off) content) off chunks = (r, w') →
  (∃ l, l `prefix_of` content ∧ w_remote w' = <[p:=l]> fs0) ∧ w_local w' = w_local w ∧ w_bridges w' = w_bridges w ∧
  r ≠ Err ErrOutOfFuel ∧
  (∀ x, r = Ok x → w_remote w' = <[p:=content]> fs0 ∧ ft_Bytes x = len content).
Proof.
  induction fuel as [|fuel IH]; intros w off chunks r w' Hoff Hf Hw; [lia|]. cbn [HelpTransfer.upload_loop].
  set (rest := drop (Z.to_nat off) content) in *.
  assert (∀ k, ∃ l, l `prefix_of` content ∧ (<[p:=take k content]> fs0 : files) = <[p:=l]> fs0) as Hpre.
  { intros k. exists (take k content). split; [|done]. exists (drop k content). by rewrite take_drop. }
  assert (length rest = length content - Z.to_nat off)%nat as Hrest by (unfold rest; apply length_drop).
  destruct (ReadFull rest fileTransferChunk) as [data eof] eqn:ER.
  destruct (ReadFull_spec _ _ _ _ chunk_positive ER) as (m & -> & Hm & Hempty & Heof).
  assert (length (take m rest) = m) as Elen by (rewrite length_take; lia).
  destruct (take m rest) as [|b l] eqn:Et.
  { assert (rest = []) as E0 by (apply Hempty; by destruct m). rewrite E0 in Hrest. simpl in Hrest.
    intros [= <- <-]. split_and!; [rewrite Hw; apply Hpre|done..|]. intros x [= <-]. cbn [ft_Bytes].
    unfold len in *. split; [rewrite Hw; f_equal; apply take_ge; lia|lia]. }
  assert (0 < m)%nat as Hpos by (simpl in Elen; lia). rewrite <- Et in *. clear Et b l.
  assert (off + Z.of_nat m ≤ len content) as Hle by (unfold len in *; lia).
  destruct (callToolRetry w _) as [r1 w1] eqn:Ec.
  destruct (chunk_sent w off m r1 w1) as (C1 & C2 & C3 & C4); [lia|done|done|done|exact Ec|].
  destruct r1 as [x1|e].
  2:{ intros [= <- <-]. split_and!; try done. destruct C1 as [-> | ->]; apply Hpre. }
  specialize (C4 x1 eq_refl).
  assert (len (take m rest) = Z.of_nat m) as Elz by (unfold len; by rewrite Elen). rewrite Elz.
  destruct eof.
  - intros [= <- <-]. specialize (Heof eq_refl). assert (off + Z.of_nat m = len content) as Eend by (unfold len in *; lia).
    split_and!; [rewrite C4; apply Hpre|done..|]. intros x [= <-]. cbn [ft_Bytes]. split; [|done].
    rewrite C4. f_equal. apply take_ge. unfold len in *. lia.
  - rewrite Elen. unfold rest. rewrite drop_drop. replace (Z.to_nat off + m)%nat with (Z.to_nat (off + Z.of_nat m)) in * by lia.
    intros H. apply IH in H; [|lia|lia|done]. by rewrite C2, C3 in H.
Qed.

(** The remote file is not there, or holds a beginning of the contents. *)
Definition clean (fs : files) : Prop := fs = fs0 ∧ fs0 !! p = None ∨ ∃ l, l `prefix_of` content ∧ fs = <[p:=l]> fs0.

Lemma clean_shape fs : clean fs → ∃ l, fs = fs0 ∨ fs = <[p:=l]> fs0.
Proof. intros [[-> _]|(l & _ & ->)]; [exists []; by left|exists l; by right]. Qed.

Lemma upload_from_start w chunks x1 r w' off rest :
  off = 0 → rest = drop (Z.to_nat 0) content →
  (∀ x, (Ok x1 : result CallError response) = Ok x → w_remote w = <[p:=[]]> fs0) →
  upload_loop (S (length content)) w rp rest off chunks = (r, w') →
  (∃ l, l `prefix_of` content ∧ w_remote w' = <[p:=l]> fs0) ∧ w_local w' = w_local w ∧ w_bridges w' = w_bridges w ∧
  r ≠ Err ErrOutOfFuel ∧
  (∀ x, r = Ok x → w_remote w' = <[p:=content]> fs0 ∧ ft_Bytes x = len content).
Proof.
  intros -> -> Hw H. apply (upload_loop_spec (S (length content)) w 0 chunks r w'); [| |by rewrite (Hw x1 eq_refl)|exact H]; unfold len; lia.
Qed.

Lemma doUploadFile_spec w a r w' :
  fa_RemotePath a = rp → rp ≠ [] → fa_LocalPath a ≠ [] → w_local w !! fa_LocalPath a = Some content → 0 ≤ fa_Offset a →
  clean (w_remote w) → doUploadFile w a = (r, w') →
  clean (w_remote w') ∧ w_local w' = w_local w ∧ r ≠ Err ErrOutOfFuel ∧
  (∀ x, r = Ok x → w_remote w' = <[p:=content]> fs0 ∧ ft_Bytes x = len content).
Proof.
  intros Erp Hrp Hlp Hl Hoff Hc. unfold HelpTransfer.doUploadFile. rewrite Erp, bool_decide_false by (intros [?|?]; done). rewrite Hl.
  (* the resume point *)
  set (start := (if 0 <? fa_Offset a then _ else _)).
  assert (∃ off w1, start = (off, drop (Z.to_nat off) content, w1) ∧ clean (w_remote w1) ∧ w_local w1 = w_local w ∧
    0 ≤ off ≤ len content ∧ (0 < off → w_remote w1 = <[p:=take (Z.to_nat off) content]> fs0)) as (off & w1 & -> & Hc1 & L1 & Hoff1 & Hw1).
  { unfold start. destruct (Z.ltb_spec 0 (fa_Offset a)) as [Hpos|Hz].
    - destruct (CallTool w (StatReq rp)) as [r0 w1] eqn:Es.
      destruct (CallTool_inv (fun fs => fs = w_remote w) (StatReq rp) w r0 w1 ltac:(by intros fs ->) eq_refl Es) as (I & L & B & S).
      destruct r0 as [y|e].
      + destruct (S y eq_refl) as (fs & -> & E). revert E. unfold HelpTransfer.serve, Stat_Run. rewrite resolves, opens.
        rewrite I. destruct Hc as [[Hc1 Hc2]|(l & Hp & Hc)].
        * rewrite Hc1, Hc2. done.
        * rewrite Hc, lookup_insert_eq. intros [= <-]. rewrite (proj2 (Z.leb_le _ _)) by apply len_nonneg.
          destruct Hp as [k ->]. eexists _, w1. split_and!; [reflexivity| |done|apply len_nonneg|unfold len; rewrite length_app; lia|].
          -- rewrite I, Hc. right. exists l. split; [by exists k|done].
          -- intros _. rewrite I, Hc. unfold len. rewrite Nat2Z.id. by rewrite take_app_length.
      + eexists 0, w1. split_and!; [reflexivity|by rewrite I|done|done|apply len_nonneg|lia].
    - assert (fa_Offset a = 0) as -> by lia. eexists 0, w. split_and!; try done; apply len_nonneg. }
  destruct (Z.eqb_spec off 0) as [->|Hne].
  - destruct (callToolRetry w1 _) as [r2 w2] eqn:Et. destruct (clean_shape _ Hc1) as [l Hsh].
    destruct (truncate_sent w1 l r2 w2 Hsh Et) as (T1 & T2 & _ & T4). destruct r2 as [x2|e].
    + intros H. destruct (upload_from_start w2 0 x2 r w' 0 _ eq_refl eq_refl T4 H) as (U1 & U2 & _ & U4 & U5).
      split_and!; [by right|by rewrite U2, T2, L1|done|done].
    + intros [= <- <-]. split_and!; [|by rewrite T2, L1|done|done].
      destruct T1 as [-> | ->]; [done|]. right. exists []. split; [apply prefix_nil|done].
  - intros H. apply upload_loop_spec in H; [|done|unfold len; lia|apply Hw1; lia].
    destruct H as (U1 & U2 & _ & U4 & U5). split_and!; [by right|by rewrite U2, L1|done|done].
Qed.

Lemma upload_attempts_spec n : ∀ w a r w',
  fa_RemotePath a = rp → rp ≠ [] → fa_LocalPath a ≠ [] → w_local w !! fa_LocalPath a = Some content → 0 ≤ fa_Offset a →
  clean (w_remote w) → transfer_attempts n UploadFile w a = (r, w') →
  w_local w' = w_local w ∧ r ≠ Err ErrOutOfFuel ∧
  (∀ x, r = Ok x → w_remote w' = <[p:=content]> fs0 ∧ ft_Bytes x = len content).
Proof.
  induction n as [|n IH]; intros w a r w' Erp Hrp Hlp Hl Hoff Hc; cbn [HelpTransfer.transfer_attempts];
    destruct (run UploadFile w a) as [r1 w1] eqn:Er; revert Er; unfold HelpTransfer.run, set_field; cbn [w_bridges];
    (destruct (negb _);
      [intros [= <- <-]|intros Er; apply doUploadFile_spec in Er; [|done..]; destruct Er as (D1 & D2 & D3 & D4)]).
  - intros [= <- <-]. by split_and!.
  - destruct r1; intros [= <- <-]; by split_and!.
  - cbn [isTunnelDown negb]. destruct (negb _); [intros [= <- <-]; by split_and!|].
    intros H. apply IH in H; done.
  - cbn [w_local] in D2. destruct r1 as [x|e]; [intros [= <- <-]; by split_and!|].
    destruct (negb (isTunnelDown e)); [intros [= <- <-]; by split_and!|].
    destruct (negb _); [intros [= <- <-]; by split_and!|]. intros H. apply IH in H; try done.
    + cbn [w_local] in H. by rewrite D2 in H.
    + cbn [w_local]. by rewrite D2.
Qed.
End upload.

(** C36: An upload that reports success has put the contents of the local file,
    all of them and nothing else, at the remote path, has changed no other file
    and counts its bytes right, whichever calls failed, before or after they
    took effect, and however often the tunnel was rebuilt: provided the remote
    file was not there before or held a beginning of the contents. *)
Theorem upload_lands w a p content r w' :
  fa_LocalPath a ≠ [] → fa_RemotePath a ≠ [] → 0 ≤ fa_Offset a →
  ResolvePath (fa_RemotePath a) = Ok p → refused p = false →
  w_local w !! fa_LocalPath a = Some content →
  (w_remote w !! p = None ∨ ∃ l, w_remote w !! p = Some l ∧ l `prefix_of` content) →
  transferLoop UploadFile w a = (Ok r, w') →
  w_remote w' = <[p:=content]> (w_remote w) ∧ w_local w' = w_local w ∧ ft_Bytes r = len content.
Proof.
  intros Hlp Hrp Hoff Hp Ho Hl Hold H.
  destruct (upload_attempts_spec (fa_RemotePath a) p content (w_remote w) Hp Ho _ _ _ _ _ eq_refl Hrp Hlp Hl Hoff
    ltac:(destruct Hold as [Hn|(l & Hl' & Hpre)]; [by left|right; exists l; by rewrite insert_id]) H) as (H1 & _ & H2).
  destruct (H2 r eq_refl) as [H3 H4]. done.
Qed.

(** Old contents are no obstacle when the upload starts over and is not
    interrupted: the first thing done is to empty the file. *)
Lemma upload_overwrites w a p content r w' :
  fa_LocalPath a ≠ [] → fa_RemotePath a ≠ [] → fa_Offset a = 0 →
  ResolvePath (fa_RemotePath a) = Ok p → refused p = false →
  w_local w !! fa_LocalPath a = Some content →
  doUploadFile w a = (Ok r, w') → w_remote w' = <[p:=content]> (w_remote w) ∧ ft_Bytes r = len content.
Proof.
  intros Hlp Hrp Hoff Hp Ho Hl. unfold HelpTransfer.doUploadFile. rewrite bool_decide_false by (intros [?|?]; done).
  rewrite Hl, Hoff. cbn [Z.ltb Z.eqb Z.compare].
  destruct (callToolRetry w _) as [r2 w2] eqn:Et.
  destruct (truncate_sent (fa_RemotePath a) p (w_remote w) Hp Ho w [] r2 w2 (or_introl eq_refl) Et) as (_ & _ & _ & T4).
  destruct r2 as [x2|e]; [|done]. intros H.
  destruct (upload_from_start (fa_RemotePath a) p content (w_remote w) Hp Ho w2 0 x2 _ w' 0 _ eq_refl eq_refl T4 H)
    as (_ & _ & _ & _ & U5). by apply U5.
Qed.

(** ** Downloads *)

Section download.
Context (a0 : fileTransferArgs) (p : abs_path) (content : list Z).
Hypothesis resolves : ResolvePath (fa_RemotePath a0) = Ok p.
Hypothesis opens : refused p = false.
Notation L := (fa_LocalPath a0).

Definition read_req (total : Z) : request := ReadReq (mkReadFileArgs (fa_RemotePath a0) total fileTransferChunk false).

Lemma read_sent w total r w' :
  w_remote w !! p = Some content → 0 ≤ total ≤ len content → callToolRetry w (read_req total) = (r, w') →
  w_remote w' = w_remote w ∧ w_local w' = w_local w ∧ w_bridges w' = w_bridges w ∧
  (∀ x, r = Ok x → ∃ m eof, x = ReadResp (mkReadFileResult (take m (drop (Z.to_nat total) content)) eof false) ∧
     (m ≤ length content - Z.to_nat total)%nat ∧ (eof = true → m = (length content - Z.to_nat total)%nat) ∧
     (eof = false → (0 < m)%nat)).
Proof.
  intros Hc Htot Hr.
  destruct (retry_inv (fun fs => fs = w_remote w) (read_req total) chunkRetries w r w' ltac:(by intros fs ->) eq_refl Hr)
    as (I & Lc & B & S). split_and!; [done..|]. intros x Hx. destruct (S x Hx) as (fs & -> & E). revert E.
  unfold HelpTransfer.serve, read_req. rewrite (ReadFile_Run_spec _ _ _ _ p content) by done. cbn [rf_Offset rf_Length rf_AsText].
  assert (0 < chunk_limit fileTransferChunk) as Hlim by done. generalize dependent (chunk_limit fileTransferChunk).
  intros limit Hlim [= <- _]. set (rest := drop (Z.to_nat total) content).
  destruct (ReadFull_spec rest limit _ _ Hlim eq_refl) as (m & Em & Hm & Hz & He).
  assert (length rest = length content - Z.to_nat total)%nat as Hrest by (unfold rest; apply length_drop).
  exists m, (len (take (Z.to_nat limit) rest) <? limit). rewrite Em in *. split_and!; [done|lia|rewrite <- Hrest; by apply He|].
  intros Hf. destruct m; [|lia]. rewrite (Hz eq_refl) in Hf. unfold len in Hf. apply Z.ltb_ge in Hf. simpl in Hf. lia.
Qed.

Lemma download_loop_spec fuel : ∀ w a total chunks r w',
  fa_LocalPath a = L → fa_RemotePath a = fa_RemotePath a0 →
  w_remote w !! p = Some content → 0 ≤ total ≤ len content → len content - total < Z.of_nat fuel →
  w_local w !! L = Some (take (Z.to_nat total) content) →
  download_loop fuel w a total total chunks = (r, w') →
  w_remote w' = w_remote w ∧ (∃ l, l `prefix_of` content ∧ w_local w' = <[L:=l]> (w_local w)) ∧ w_bridges w' = w_bridges w ∧
  r ≠ Err ErrOutOfFuel ∧
  (∀ x, r = Ok x → w_local w' = <[L:=content]> (w_local w) ∧ ft_Bytes x = len content).
Proof.
  induction fuel as [|fuel IH]; intros w a total chunks r w' El Er Hc Htot Hf Hl; [lia|].
  cbn [HelpTransfer.download_loop]. rewrite Er, El.
  assert (∃ l, l `prefix_of` content ∧ w_local w = <[L:=l]> (w_local w)) as Hsame.
  { exists (take (Z.to_nat total) content). split; [|by rewrite insert_id]. exists (drop (Z.to_nat total) content). by rewrite take_drop. }
  destruct (callToolRetry w _) as [r1 w1] eqn:Ec.
  destruct (read_sent w total r1 w1 Hc Htot Ec) as (R1 & R2 & R3 & R4).
  destruct r1 as [x1|e]; [|intros [= <- <-]; rewrite R2; by split_and!].
  destruct (R4 x1 eq_refl) as (m & eof & -> & Hm & Heof & Hmore). cbn [rr_Bytes rr_EOF]. rewrite R2, Hl. cbn [from_option]. unfold id.
  set (data := take m (drop (Z.to_nat total) content)).
  assert (length data = m) as Elen by (unfold data; rewrite length_take, length_drop; lia).
  assert (write_at (take (Z.to_nat total) content) total data = take (Z.to_nat total + m) content) as Ew.
  { unfold data, len in *. destruct m as [|m]; [by rewrite take_0, Nat.add_0_r|]. apply write_at_take; unfold len; lia. }
  assert (len data = Z.of_nat m) as -> by (unfold len; by rewrite Elen). rewrite Ew.
  unfold set_field. cbn [w_remote w_local w_fates w_reconnects w_bridges].
  assert (∃ l, l `prefix_of` content ∧ <[L:=take (Z.to_nat total + m) content]> (w_local w) = <[L:=l]> (w_local w)) as Hpre.
  { eexists. split; [|done]. exists (drop (Z.to_nat total + m) content). by rewrite take_drop. }
  destruct eof.
  - intros [= <- <-]. cbn [w_remote w_local w_bridges]. split_and!; try done.
    intros x [= <-]. cbn [ft_Bytes]. specialize (Heof eq_refl). unfold len in *. split; [|lia].
    do 2 f_equal. rewrite take_ge; [done|lia].
  - specialize (Hmore eq_refl). destruct data as [|b data'] eqn:Ed; [simpl in Elen; lia|]. intros H.
    apply IH in H; try done.
    + cbn [w_remote w_local w_bridges] in H. destruct H as (H1 & (l & H2 & H3) & H4 & H5 & H6).
      split_and!; try done; [by rewrite H1|exists l; split; [done|by rewrite H3, insert_insert_eq]|by rewrite H4|].
      intros x Hx. destruct (H6 x Hx) as [-> H7]. by rewrite insert_insert_eq.
    + cbn [w_remote]. by rewrite R1.
    + unfold len in *. lia.
    + lia.
    + cbn [w_local]. rewrite lookup_insert_eq. do 2 f_equal. lia.
Qed.

(** Where a download may start: over, or after what the local file holds. *)
Definition resumable (w : world) (a : fileTransferArgs) : Prop :=
  fa_Offset a = 0 ∨ ∃ l, w_local w !! L = Some l ∧ l `prefix_of` content ∧ fa_Offset a = len l.

Lemma doDownloadFile_spec w a r w' :
  fa_LocalPath a = L → fa_RemotePath a = fa_RemotePath a0 → L ≠ [] → fa_RemotePath a0 ≠ [] →
  w_remote w !! p = Some content → resumable w a → doDownloadFile w a = (r, w') →
  w_remote w' = w_remote w ∧ r ≠ Err ErrOutOfFuel ∧
  (r = Err ErrOpenLocal ∧ w' = w ∨ ∃ l, l `prefix_of` content ∧ w_local w' = <[L:=l]> (w_local w)) ∧
  (∀ x, r = Ok x → w_local w' = <[L:=content]> (w_local w) ∧ ft_Bytes x = len content).
Proof.
  intros El Er Hlp Hrp Hc Hres. unfold HelpTransfer.doDownloadFile.
  rewrite El, Er, bool_decide_false by (intros [?|?]; done).
  destruct (if 0 <? fa_Offset a then _ else _) as [start|] eqn:Eo; [|intros [= <- <-]; split_and!; try done; by left].
  assert (start = take (Z.to_nat (fa_Offset a)) content ∧ 0 ≤ fa_Offset a ≤ len content) as [-> Hoff].
  { destruct Hres as [Hz|(l & Hl & [k ->] & Ho)].
    - rewrite Hz in *. cbn in Eo. destruct (local_creatable L); [|done]. injection Eo as <-. split; [done|split; [done|apply len_nonneg]].
    - rewrite Ho in *. unfold len in *. rewrite length_app, Nat2Z.id, take_app_length. split; [|lia].
      destruct (Z.ltb_spec 0 (Z.of_nat (length l))); [congruence|].
      assert (l = []) as -> by (apply length_zero_iff_nil; lia). destruct (local_creatable L); congruence. }
  unfold set_field. cbn [w_remote w_local w_fates w_reconnects w_bridges].
  destruct (CallTool _ (StatReq _)) as [r1 w1] eqn:Es.
  set (ws := mkWorld _ _ _ _ _) in Es.
  destruct (CallTool_inv (fun fs => fs = w_remote w) (StatReq (fa_RemotePath a0)) ws r1 w1 ltac:(by intros fs ->) eq_refl Es)
    as (I & Lc & B & _).
  cbn [ws w_local] in Lc. rewrite Z.max_r by lia. intros H.
  assert (download_fuel ResolvePath w1 a = S (S (length content))) as Ef.
  { unfold download_fuel. by rewrite Er, resolves, I, Hc. }
  rewrite Ef in H. apply download_loop_spec in H; try done.
  - rewrite Lc, I in H. destruct H as (H1 & (l & H2 & H3) & _ & H5 & H6). rewrite insert_insert_eq in H3.
    split_and!; [done|done|right; by exists l|]. intros x Hx. destruct (H6 x Hx) as [H7 H8]. by rewrite insert_insert_eq in H7.
  - by rewrite I.
  - unfold len. lia.
  - by rewrite Lc, lookup_insert_eq.
Qed.

(** The first run finds a bridge, or the local file is not in the way. *)
Definition ready (w : world) (a : fileTransferArgs) : Prop :=
  resumable w a ∧
  (match w_bridges w with b :: _ => b = true | [] => True end ∨
   ∀ l, w_local w !! L = Some l → l `prefix_of` content).

Lemma download_attempts_spec n : ∀ w a r w',
  fa_LocalPath a = L → fa_RemotePath a = fa_RemotePath a0 → L ≠ [] → fa_RemotePath a0 ≠ [] →
  w_remote w !! p = Some content → ready w a → transfer_attempts n DownloadFile w a = (r, w') →
  w_remote w' = w_remote w ∧ r ≠ Err ErrOutOfFuel ∧
  (∀ x, r = Ok x → w_local w' = <[L:=content]> (w_local w) ∧ ft_Bytes x = len content).
Proof.
  induction n as [|n IH]; intros w a r w' El Er Hlp Hrp Hc [Hres Hb]; cbn [HelpTransfer.transfer_attempts];
    destruct (run DownloadFile w a) as [r1 w1] eqn:Erun; revert Erun; unfold HelpTransfer.run, set_field; cbn [w_bridges];
    destruct (negb (match w_bridges w with b :: _ => b | [] => true end)) eqn:Eb.
  - intros [= <- <-] [= <- <-]. by split_and!.
  - intros Er1 H. apply doDownloadFile_spec in Er1; try done. destruct Er1 as (D1 & D2 & D3 & D4).
    destruct r1; injection H as <- <-; by split_and!.
  - intros [= <- <-]. cbn [isTunnelDown w_reconnects w_bridges w_fates w_local w_remote]. change (negb true) with false. cbv iota.
    destruct (negb (match w_reconnects w with b :: _ => b | [] => true end)); [intros [= <- <-]; by split_and!|].
    assert (∀ l, w_local w !! L = Some l → l `prefix_of` content) as Hl.
    { destruct Hb as [Hb|Hb]; [|done]. destruct (w_bridges w) as [|b ?]; [done|]. by rewrite Hb in Eb. }
    intros H. apply IH in H; try done. split; [|by right]. unfold resumable, resumeTransferArgs, set_field.
    cbn [fa_Offset w_local]. rewrite El. destruct (w_local w !! L) as [l|] eqn:E; [|by left].
    right. exists l. split_and!; [done|by apply Hl|done].
  - intros Er1. apply doDownloadFile_spec in Er1; try done. destruct Er1 as (D1 & D2 & D3 & D4).
    cbn [w_remote w_local] in D1, D3, D4.
    destruct r1 as [x|e]; [intros [= <- <-]; by split_and!|].
    destruct (negb (isTunnelDown e)) eqn:Et; [intros [= <- <-]; by split_and!|].
    destruct (negb (match w_reconnects w1 with b :: _ => b | [] => true end)); [intros [= <- <-]; by split_and!|].
    destruct D3 as [[[= ->] _]|(l & D5 & D6)]; [done|]. intros H. apply IH in H; try done.
    + cbn [w_remote w_local] in H. destruct H as (H1 & H2 & H3). split_and!; [congruence|done|].
      intros x Hx. destruct (H3 x Hx) as [-> H4]. by rewrite D6, insert_insert_eq.
    + cbn [w_remote]. by rewrite D1.
    + assert (w_local w1 !! L = Some l) as Hl1 by by rewrite D6, lookup_insert_eq.
      split; [|right; cbn [w_local]; congruence].
      right. exists l. unfold resumeTransferArgs, set_field. cbn [w_local fa_Offset]. by rewrite El, Hl1.
Qed.
End download.

(** C37: A download from the start that reports success has copied the remote
    file to the local path, all of it and nothing else, and touched nothing
    besides, whatever calls failed and however often the tunnel was rebuilt in
    between; an old local file is no obstacle when the helper is connected as
    the download begins. *)
Theorem download_lands w a p content r w' :
  fa_LocalPath a ≠ [] → fa_RemotePath a ≠ [] → fa_Offset a = 0 →
  ResolvePath (fa_RemotePath a) = Ok p → refused p = false → w_remote w !! p = Some content →
  (match w_bridges w with b :: _ => b = true | [] => True end) →
  transferLoop DownloadFile w a = (Ok r, w') →
  w_local w' = <[fa_LocalPath a:=content]> (w_local w) ∧ w_remote w' = w_remote w ∧ ft_Bytes r = len content.
Proof.
  intros Hlp Hrp Hoff Hp Ho Hc Hb H.
  destruct (download_attempts_spec a p content Hp Ho _ _ _ _ _ eq_refl eq_refl Hlp Hrp Hc
    (conj (or_introl Hoff) (or_introl Hb)) H) as (H1 & _ & H2). by destruct (H2 r eq_refl).
Qed.
End transfer.

Lemma upload_lands_witness :
  let w := demo_world ∅ {[ lit "l" := lit "hello" ]} [AnswerLost ErrOtherCall; Served; AnswerLost ErrTunnelLost] in
  ∃ r w', demo_transfer UploadFile w demo_args = (Ok r, w') ∧ w_remote w' = {[ demo_remote := lit "hello" ]}.
Proof.
  cbv zeta. destruct (demo_transfer UploadFile _ demo_args) as [[r|e] w'] eqn:E; [|by vm_compute in E].
  exists r, w'. split; [done|].
  refine (proj1 (upload_lands _ _ _ _ _ _ demo_args demo_remote (lit "hello") r w' _ _ _ _ _ _ _ E)); try done.
  by left.
Defined.

(** An interruption before the old file was emptied, and the resume takes its
    size for what was sent already: the upload reports success and the old
    contents stay where they are. *)
Theorem upload_keeps_old_file :
  let w := demo_world {[ demo_remote := lit "an older, longer text" ]} {[ lit "l" := lit "hello" ]} [NotSent ErrTunnelLost] in
  let '(r, w') := demo_transfer UploadFile w demo_args in
  r = Ok (mkTransferResult 21 0) ∧ w_remote w' !! demo_remote = Some (lit "an older, longer text").
Proof. by vm_compute. Qed.

Lemma download_lands_witness :
  let w := demo_world {[ demo_remote := lit "hello" ]} {[ lit "l" := lit "an old copy" ]} [Served; AnswerLost ErrTunnelLost] in
  ∃ r w', demo_transfer DownloadFile w demo_args = (Ok r, w') ∧ w_local w' !! lit "l" = Some (lit "hello").
Proof.
  cbv zeta. destruct (demo_transfer DownloadFile _ demo_args) as [[r|e] w'] eqn:E; [|by vm_compute in E].
  exists r, w'. split; [done|].
  assert (w_local w' = <[lit "l" := lit "hello"]> {[ lit "l" := lit "an old copy" ]}) as ->; [|by vm_compute].
  refine (proj1 (download_lands _ _ _ _ _ _ demo_args demo_remote (lit "hello") r w' _ _ _ _ _ _ _ E)); done.
Defined.
