(* ===== verification/AgentExec.v ===== *)
(** * Running commands (src/internal/agent/tools/exec.go)

    [ExecTool.Run] checks the program, runs it and returns its output, decoded
    and cut while the command writes; with streaming on, two pumps pass the
    output on as it comes.

    The command is an oracle: what it writes to its two pipes, in the pieces the
    pipes deliver, and how [cmd.Run] ends. *)

From S2P Require Import Prelude GoNet GoText AgentTruncate AgentOemtext AgentSandbox.

Open Scope Z_scope.

Record ExecArgs := mkExecArgs {
  ea_Argv : list (list Z);
  ea_TimeoutMs : Z;
  ea_MaxOutputBytes : Z;
  ea_Stream : bool;
}.

Record ExecResult := mkExecResult {
  er_ExitCode : Z;
  er_Stdout : list Z;
  er_Stderr : list Z;
  er_StdoutTruncated : bool;
  er_StderrTruncated : bool;
  er_Error : list Z;
}.

Inductive ExecError :=
| ErrArgvRequired
| ErrExecSandbox (e : SandboxError)
| ErrDeadlineExceeded
| ErrPipe.

(** What [cmd.Run] and [cmd.Wait] return: [exec.ExitError] with its code,
    [exec.ErrWaitDelay], or another error with its text. *)
Inductive run_error :=
| RunExit (code : Z)
| RunWaitDelay
| RunOther (text : list Z).

(** A command that ran: its writes, its error, the exit code of [ProcessState]
    when there is one, and whether the deadline had passed. *)
Record outcome := mkOutcome {
  oc_stdout : list (list Z);
  oc_stderr : list (list Z);
  oc_err : option run_error;
  oc_state : option Z;
  oc_deadline : bool;
}.

Definition Millisecond : Z := 1000000.
Definition defaultExecTimeout : Z := 5 * Minute.
Definition exec_timeout (a : ExecArgs) : Z :=
  if 0 <? ea_TimeoutMs a then ea_TimeoutMs a * Millisecond else defaultExecTimeout.

Definition exitCodeOf (err : option run_error) : Z :=
  match err with
  | None => 0
  | Some (RunExit code) => code
  | Some _ => -1
  end.

(** The text for a command that ended with children on its pipes. *)
Definition waitDelayText : list Z :=
  lit "命令已退出，但仍有后台子进程占着输出管道；等待 2s 后强制收尾，尾部输出可能不完整".

Definition startErr (err : option run_error) : list Z :=
  match err with
  | Some RunWaitDelay => waitDelayText
  | Some (RunOther text) => text
  | _ => []
  end.

Section exec.
Context (windows : bool) (volume : list Z → nat) (lower : Z → Z).
Context `{Console}.

(** What one pipe's writes become: decoded on the way into the bounded stream,
    the decoder flushed at the end. *)
Definition captured (max : Z) (writes : list (list Z)) : list Z * bool :=
  stream_result (Write_all (newBoundedStream max) (decoded writes)).

(** The non-streaming path of [Run]; [sb] is nil when there is no sandbox. *)
Definition ExecTool_Run (sb : option Sandbox) (a : ExecArgs) (command : outcome) : result ExecError ExecResult :=
  match ea_Argv a with
  | [] => Err ErrArgvRequired
  | argv =>
      match (match sb with Some s => CheckExec windows volume lower s argv | None => Ok () end) with
      | Err e => Err (ErrExecSandbox e)
      | Ok _ =>
          let maxOut := resolveMaxOutput (ea_MaxOutputBytes a) in
          if oc_deadline command then Err ErrDeadlineExceeded
          else
            let exitCode := exitCodeOf (oc_err command) in
            let exitCode :=
              match oc_state command with
              | Some code => if exitCode =? -1 then code else exitCode
              | None => exitCode
              end in
            let '(stdout, stdoutTrunc) := captured maxOut (oc_stdout command) in
            let '(stderr, stderrTrunc) := captured maxOut (oc_stderr command) in
            Ok (mkExecResult exitCode stdout stderr stdoutTrunc stderrTrunc (startErr (oc_err command)))
      end
  end.

(** Writes the decoder has nothing to do to: UTF-8, cut or not at its end, or
    anything where there is no code page. *)
Definition readable (writes : list (list Z)) : Prop :=
  (∃ t, utf8 (concat writes ++ t)) ∨ (∀ b, consoleTranscode b = None).

Lemma captured_readable max writes : 1 ≤ max → readable writes → captured max writes = TruncateMiddle (concat writes) max.
Proof.
  intros Hmax Hw. unfold captured. rewrite stream_is_truncation, Z.max_r by done. f_equal.
  destruct Hw as [[t Ht]|Hn]; [by eapply decoded_utf8|by apply decoded_plain].
Qed.

(** C38: The output of a command that writes UTF-8, cut or not at its end, or of
    any command where there is no code page, is returned as [TruncateMiddle] of
    the whole, whatever the sizes of the pieces it came in: complete when it
    fits the limit, else its beginning and its end around a marker with the
    number of bytes left out. *)
Theorem exec_output_exact sb a command r :
  ExecTool_Run sb a command = Ok r → readable (oc_stdout command) → readable (oc_stderr command) →
  let max := resolveMaxOutput (ea_MaxOutputBytes a) in
  (er_Stdout r, er_StdoutTruncated r) = TruncateMiddle (concat (oc_stdout command)) max ∧
  (er_Stderr r, er_StderrTruncated r) = TruncateMiddle (concat (oc_stderr command)) max.
Proof.
  intros Hr Ho He. cbv zeta. assert (1 ≤ resolveMaxOutput (ea_MaxOutputBytes a)) as Hmax by apply resolved_positive.
  revert Hr. unfold ExecTool_Run. destruct (ea_Argv a); [done|]. destruct (match sb with Some _ => _ | None => _ end); [|done].
  destruct (oc_deadline command); [done|]. rewrite !captured_readable by done.
  destruct (TruncateMiddle (concat (oc_stdout command)) _), (TruncateMiddle (concat (oc_stderr command)) _). by intros [= <-].
Qed.

(** ** Streaming *)

(** One reading of a pipe by a pump: the bytes it got and whether the pipe then
    ended.  The two pumps run side by side; [reads] is the order in which their
    sends reach the sink, each of the stream it names. *)
Inductive pipe := Stdout | Stderr.

(** The sends of both pumps until a send fails: the failing pump cancels the
    command and neither reads on.  [sink] says of the n-th send whether it
    goes through. *)
Fixpoint pumps (sink : nat → bool) (n : nat) (reads : list (pipe * list Z)) : list (pipe * list Z) * bool :=
  match reads with
  | [] => ([], false)
  | (_, []) :: reads => pumps sink n reads
  | (s, data) :: reads =>
      if sink n then let '(sent, cancelled) := pumps sink (S n) reads in ((s, data) :: sent, cancelled)
      else ([], true)
  end.

(** [runStreaming]: the frames sent and the result, which carries no output.
    [start] is what [cmd.Start] returns. *)
Definition runStreaming (pipes_ok : bool) (start : option (list Z)) (sink : nat → bool)
    (reads : list (pipe * list Z)) (wait : option run_error) (deadline : bool) :
    list (pipe * list Z) * result ExecError ExecResult :=
  if negb pipes_ok then ([], Err ErrPipe)
  else match start with
  | Some text => ([], Ok (mkExecResult (-1) [] [] false false text))
  | None =>
      let '(sent, _) := pumps sink 0 reads in
      (sent, if deadline then Err ErrDeadlineExceeded else Ok (mkExecResult (exitCodeOf wait) [] [] false false []))
  end.
End exec.

Lemma exec_output_exact_witness :
  let command := mkOutcome [[0xE4]; [0xB8; 0xAD; 10]] [] (Some (RunExit 3)) (Some 3) false in
  match @ExecTool_Run false (fun _ => O) to_lower other_console None (mkExecArgs [lit "ls"] 0 2 false) command with
  | Ok r => er_ExitCode r = 3 ∧ (er_Stdout r, er_StdoutTruncated r) = TruncateMiddle (lit "中" ++ [10]) 2
  | Err _ => False
  end.
Proof.
  cbv zeta. destruct (ExecTool_Run _ _ _ _ _ _) as [r|e] eqn:E; [|by vm_compute in E]. split; [by vm_compute in E; injection E as <-|].
  refine (proj1 (@exec_output_exact _ _ _ other_console _ _ _ _ E _ _)); by right.
Defined.
