(* ===== verification/CryptoTofu.v ===== *)
(** * Trust on first use (src/internal/crypto/tofu.go and the client side of tls.go)

    The client keeps a text file with the fingerprint of every relay's
    certificate and refuses a relay whose certificate has changed.

    The file system is one file, [None] when it does not exist or cannot be
    read; [writable] says whether [os.WriteFile] works.  SHA-256 in hexadecimal,
    and the parsing of a CA file, are parameters; so is [unicode.ToLower]. *)

From S2P Require Import Prelude GoNet GoText.
From stdpp Require Import sorting.

Open Scope Z_scope.

Definition newline : Z := 10.
Definition hash : Z := 35.

(** ** The fingerprint table *)

Section store.
Context (lower : Z → Z).

(** One line of the file: an entry, or nothing. *)
Definition parse_line (line : list Z) : option (list Z * list Z) :=
  let line := TrimSpace line in
  if bool_decide (line = []) || has_prefix [hash] line then None
  else match Fields line with
  | [addr; fp] => Some (addr, map_runes lower fp)
  | _ => None
  end.

Definition add_line (entries : gmap (list Z) (list Z)) (line : list Z) : gmap (list Z) (list Z) :=
  match parse_line line with Some (a, f) => <[a := f]> entries | None => entries end.

(** [readLocked] of the file's contents. *)
Definition readLocked (file : option (list Z)) : gmap (list Z) (list Z) :=
  match file with
  | None => ∅
  | Some data => fold_left add_line (split_byte newline data) ∅
  end.

(** [sort.Strings]: by bytes. *)
Fixpoint bytes_le (a b : list Z) : Prop :=
  match a, b with
  | [], _ => True
  | _ :: _, [] => False
  | x :: a, y :: b => x < y ∨ (x = y ∧ bytes_le a b)
  end.
#[export] Instance bytes_le_dec a b : Decision (bytes_le a b).
Proof. revert b. induction a as [|x a IH]; intros [|y b]; simpl; apply _. Defined.

Definition header_lines : list Z :=
  lit "# remote-assist 已信任的 relay 证书指纹（TOFU）。" ++ [newline] ++
  lit "# 删掉某一行即可让下次连接重新学习该地址的证书。" ++ [newline].

Definition entry_line (e : list Z * list Z) : list Z := e.1 ++ [32] ++ e.2 ++ [newline].

(** What [Put] writes: the whole table, sorted by address. *)
Definition render (entries : gmap (list Z) (list Z)) : list Z :=
  header_lines ++
  concat (map (fun a => entry_line (a, default [] (entries !! a))) (merge_sort bytes_le (elements (dom entries)))).

(** A store with a path; [nil] or an empty path is [None]. *)
Record TrustStore := mkTrustStore { ts_file : option (list Z); ts_writable : bool }.

Definition Lookup (s : option TrustStore) (addr : list Z) : option (list Z) :=
  match s with
  | None => None
  | Some s => readLocked (ts_file s) !! addr
  end.

(** The store after [Put] and whether it failed. *)
Definition Put (s : option TrustStore) (addr fp : list Z) : option TrustStore * bool :=
  match s with
  | None => (None, true)
  | Some s =>
      let entries := <[addr := fp]> (readLocked (ts_file s)) in
      if ts_writable s then (Some (mkTrustStore (Some (render entries)) (ts_writable s)), true) else (Some s, false)
  end.

(** ** The verifier *)

Inductive PinResult := PinMatched | PinLearned | PinReplaced.

Inductive PinError :=
| ErrNoCertificate
| ErrLearn
| ErrReplace
| ErrCertChanged (known fp : list Z).

(** [CertFingerprint]: [hex.EncodeToString] of the SHA-256 of the certificate. *)
Context (sha256 : list Z → list Z).
Definition hex_char (n : Z) : Z := if n <? 10 then 48 + n else 87 + n.
Definition EncodeToString (l : list Z) : list Z := concat (map (fun b => [hex_char (b / 16); hex_char (b mod 16)]) l).
Definition CertFingerprint (der : list Z) : list Z := EncodeToString (sha256 der).

(** The callback of [pinVerifier]: the store afterwards, and what it reports. *)
Definition verify_pin (addr : list Z) (trustNew : bool) (s : option TrustStore) (rawCerts : list (list Z)) :
    option TrustStore * result PinError PinResult :=
  match rawCerts with
  | [] => (s, Err ErrNoCertificate)
  | cert :: _ =>
      let fp := CertFingerprint cert in
      match Lookup s addr with
      | None =>
          let '(s, ok) := Put s addr fp in
          (s, if ok then Ok PinLearned else Err ErrLearn)
      | Some known =>
          if bool_decide (known = fp) then (s, Ok PinMatched)
          else if trustNew then
            let '(s, ok) := Put s addr fp in
            (s, if ok then Ok PinReplaced else Err ErrReplace)
          else (s, Err (ErrCertChanged known fp))
      end
  end.

(** ** The client's configuration *)

Record ClientTLSOptions := mkTLSOptions {
  to_SkipVerify : bool;
  to_CAFile : list Z;
  to_PinAddr : string;
  to_TrustNewCert : bool;
}.

Inductive TLSError := ErrConflictingOptions | ErrReadCA | ErrParseCA.

(** What of the configuration decides which relays are accepted. *)
Record tlsConfig := mkTLSConfig {
  tc_InsecureSkipVerify : bool;
  tc_RootCAs : option (list Z);
  tc_pin : option string;
}.

(** [net.IP.IsLoopback] *)
Definition IsLoopback (ip : list Z) : bool :=
  match ip with
  | [a; _; _; _] => a =? 127
  | [0;0;0;0;0;0;0;0;0;0;255;255;a;_;_;_] => a =? 127
  | _ => bool_decide (ip = repeat 0 15 ++ [1])
  end.

Definition isLoopbackAddr (addr : string) : bool :=
  let host := match SplitHostPort addr with Some (h, _) => h | None => addr end in
  EqualFold (bytes_of host) (lit "localhost") ||
  match ParseIP host with Some ip => IsLoopback ip | None => false end.

(** [readCA] is [os.ReadFile], [parseCA] [AppendCertsFromPEM]. *)
Definition NewClientTLSConfig (readCA : list Z → option (list Z)) (parseCA : list Z → bool) (o : ClientTLSOptions) :
    result TLSError tlsConfig :=
  if to_SkipVerify o && negb (bool_decide (to_CAFile o = [])) then Err ErrConflictingOptions
  else
    let pin := if to_SkipVerify o && negb (bool_decide (to_PinAddr o = ""%string)) && negb (isLoopbackAddr (to_PinAddr o))
               then Some (to_PinAddr o) else None in
    match to_CAFile o with
    | [] => Ok (mkTLSConfig (to_SkipVerify o) None pin)
    | file =>
        match readCA file with
        | None => Err ErrReadCA
        | Some pem => if parseCA pem then Ok (mkTLSConfig (to_SkipVerify o) (Some pem) pin) else Err ErrParseCA
        end
    end.
End store.

Example parse_known_hosts :
  readLocked to_lower (Some (lit "# c" ++ [10] ++ lit " relay.example:8443   AB12 " ++ [13; 10] ++ lit "bad line here" ++ [10])) =
  {[ lit "relay.example:8443" := lit "ab12" ]}.
Proof. by vm_compute. Qed.
Example loopbacks : map isLoopbackAddr ["127.0.0.1:8443"; "[::1]:8443"; "LocalHost:1"; "10.0.0.1:8443"; "::ffff:127.0.0.1"]%string =
  [true; true; true; false; true].
Proof. by vm_compute. Qed.
