(* ===== verification/CryptoTofuThms.v ===== *)
(** * What trust on first use promises

    The table survives being written and read back, whatever else the file
    held ([render_read]); and a relay once pinned is only accepted with the same
    certificate from then on ([pin_holds]). *)

From S2P Require Import Prelude GoNet GoText GoFields RelayText CryptoTofu.
From stdpp Require Import sorting.

Open Scope Z_scope.

Section tofu.
Context (lower : Z → Z) (sha256 : list Z → list Z).
(** What is used of [unicode.ToLower]. *)
Hypothesis lower_scalar : ∀ r, scalar r → scalar (lower r).
Hypothesis lower_idem : ∀ r, scalar r → lower (lower r) = lower r.
Hypothesis lower_space : ∀ r, scalar r → is_space (lower r) = is_space r.
Hypothesis lower_hex : ∀ c, (48 ≤ c ≤ 57 ∨ 97 ≤ c ≤ 102) → lower c = c.
(** A digest is bytes, and not empty. *)
Hypothesis sha256_bytes : ∀ m, Forall is_byte (sha256 m) ∧ sha256 m ≠ [].

Notation readLocked := (readLocked lower).
Notation Lookup := (CryptoTofu.Lookup lower).
Notation Put := (CryptoTofu.Put lower).
Notation verify_pin := (verify_pin lower sha256).
Notation CertFingerprint := (CertFingerprint sha256).

(** ** Entries *)

Lemma lower_runes s : Forall is_byte s → runes (map_runes lower s) = map lower (runes s) ∧
  map_runes lower s = concat (map encode_rune (map lower (runes s))).
Proof.
  intros Hs. assert (Forall scalar (map lower (runes s))) as Hsc.
  { apply Forall_map. eapply Forall_impl; [by apply runes_scalar|]. apply lower_scalar. }
  assert (map_runes lower s = concat (map encode_rune (map lower (runes s)))) as E.
  { unfold map_runes. f_equal. rewrite map_map. apply map_ext_in. intros r Hr%list_elem_of_In.
    pose proof (runes_scalar s Hs) as Hrs. rewrite Forall_forall in Hrs. destruct (lower_scalar r (Hrs r Hr)) as [Hr0 _].
    by rewrite (proj2 (Z.ltb_ge _ _)) by lia. }
  split; [|done]. rewrite E. by apply runes_encoded.
Qed.

Lemma lower_word s : Forall is_byte s → word s → word (map_runes lower s) ∧ map_runes lower (map_runes lower s) = map_runes lower s.
Proof.
  intros Hb [Hne Hs]. destruct (lower_runes s Hb) as [Hr E]. pose proof (runes_scalar s Hb) as Hsc. split.
  - split.
    + rewrite E. unfold runes in *. pose proof (segments_concat s) as Hc. destruct (segments s) as [|[bs r] l]; [by subst s|].
      cbn. pose proof (encode_nonempty (lower r)). by destruct (encode_rune (lower r)).
    + rewrite Hr. apply Forall_map. rewrite Forall_forall in *. intros r Hin. by rewrite lower_space; auto.
  - rewrite E at 2. unfold map_runes at 1. rewrite Hr. f_equal. rewrite !map_map. apply map_ext_in. intros r Hin%list_elem_of_In.
    rewrite Forall_forall in Hsc. rewrite lower_idem by auto. destruct (lower_scalar r (Hsc r Hin)) as [H _].
    by rewrite (proj2 (Z.ltb_ge _ _)) by lia.
Qed.

(** What the table may hold: addresses that are words and no comments, and
    fingerprints in lower case. *)
Definition good_addr (a : list Z) : Prop := word a ∧ has_prefix [hash] a = false.
Definition good_fp (f : list Z) : Prop := word f ∧ map_runes lower f = f.
Definition good (m : gmap (list Z) (list Z)) : Prop := map_Forall (fun a f => good_addr a ∧ good_fp f) m.

Lemma parse_entry a f : good_addr a → good_fp f → parse_line lower (a ++ 32 :: f) = Some (a, f).
Proof.
  intros [Ha Hh] [Hf Hl]. unfold parse_line. rewrite TrimSpace_pair, Fields_pair by done.
  assert (a ++ 32 :: f ≠ []) by by destruct a. rewrite bool_decide_false by done. cbn [orb].
  destruct Ha as [Hne _]. destruct a as [|x a]; [done|]. cbn [app has_prefix] in *. by rewrite Hh, Hl.
Qed.

(** Whatever a line holds, what is read from it can be in the table. *)
Lemma parse_line_good line a f : Forall is_byte line → parse_line lower line = Some (a, f) → good_addr a ∧ good_fp f.
Proof.
  intros Hb. unfold parse_line. set (l := TrimSpace line).
  assert (Forall is_byte l) as Hl by by apply TrimSpace_bytes.
  assert (match segments l with x :: _ => is_space x.2 = false | [] => True end) as Hhead.
  { unfold l, TrimSpace. set (T := trim_segments is_space (segments line)).
    assert (segments (concat (map fst T)) = T) as ->.
    { unfold T, trim_segments. set (q := fun x : list Z * Z => is_space x.2).
      destruct (drop_while_app q (segments line)) as (l1 & E1 & _).
      destruct (drop_while_app q (rev (drop_while q (segments line)))) as (l2 & E2 & _).
      apply (segments_prefix _ (concat (map fst (drop_while q (segments line)))) (rev l2)).
      rewrite (segments_suffix l1 line); [|done].
      rewrite <- rev_app_distr, <- E2. by rewrite rev_involutive. }
    unfold T, trim_segments. set (q := fun x : list Z * Z => is_space x.2).
    pose proof (drop_while_stops q (segments line)) as Hstop. set (m := drop_while q (segments line)) in *.
    destruct (drop_while_app q (rev m)) as (l2 & E2 & _).
    assert (m = rev (drop_while q (rev m)) ++ rev l2) as Em by by rewrite <- rev_app_distr, <- E2, rev_involutive.
    destruct (rev (drop_while q (rev m))) as [|x r]; [done|]. rewrite Em in Hstop. exact Hstop. }
  destruct (bool_decide (l = []) || has_prefix [hash] l) eqn:E; [done|]. apply orb_false_iff in E as [_ Hh].
  destruct (Fields l) as [|a' [|f' [|? ?]]] eqn:EF; try done. intros [= <- <-].
  destruct (Fields_words l a') as [Wa (xa & ya & Ea)]; [rewrite EF; by left|].
  destruct (Fields_words l f') as [Wf (xf & yf & Ef)]; [rewrite EF; right; by left|].
  assert (Forall is_byte f') as Bf by (rewrite Ef, !Forall_app in Hl; tauto).
  split; [|by apply lower_word].
  split; [done|].
  (* the first field stands at the head of the line *)
  unfold Fields in EF. destruct (segments l) as [|[bs r] S] eqn:Es; [done|]. simpl in Hhead.
  assert (∃ b bs' rest, bs = b :: bs' ∧ a' = b :: rest) as (b & bs' & rest & -> & ->).
  { assert (bs ≠ []) as Hbs.
    { intros ->. destruct l as [|b l0]; [done|]. rewrite segments_cons in Es by done.
      pose proof (decode_rune_width (b :: l0) ltac:(done)) as Hw. revert Es Hw. generalize (decode_rune (b :: l0)).
      intros [r0 w] [= Ht _ _] Hw. cbn [snd] in *. apply (f_equal length) in Ht. rewrite length_take in Ht. cbn [length] in *. lia. }
    destruct bs as [|b bs']; [done|]. cbn [fields_of] in EF. rewrite Hhead in EF.
    destruct (fields_of S) as [|g gs]; [injection EF as <- ?; (exists b, bs'; eexists; split; reflexivity)|].
    destruct (match S with (_, r') :: _ => negb (is_space r') | [] => false end); injection EF as <- ?; by eexists _, _, _. }
  assert (l = (b :: bs') ++ concat (map fst S)) as -> by (by rewrite <- (segments_concat l), Es).
  cbn [app has_prefix] in *. done.
Qed.

Lemma split_byte_bytes sep l : Forall is_byte l → Forall (Forall is_byte) (split_byte sep l).
Proof.
  induction l as [|b l IH]; intros Hl; [by repeat constructor|]. apply Forall_cons in Hl as [Hb Hl]. specialize (IH Hl). simpl.
  pose proof (split_byte_some sep l). destruct (split_byte sep l) as [|p ps]; [done|]. apply Forall_cons in IH as [Hp Hps].
  destruct (b =? sep); repeat (apply Forall_cons_2 || done).
Qed.

Lemma add_line_good m line : Forall is_byte line → good m → good (add_line lower m line).
Proof.
  intros Hb Hm. unfold add_line. destruct (parse_line lower line) as [[a f]|] eqn:E; [|done].
  apply map_Forall_insert_2; [by eapply parse_line_good|done].
Qed.

Lemma read_good file : match file with Some d => Forall is_byte d | None => True end → good (readLocked file).
Proof.
  destruct file as [d|]; [|intros _; apply map_Forall_empty]. intros Hd. unfold CryptoTofu.readLocked.
  apply (split_byte_bytes newline) in Hd. assert (good ∅) as H0 by apply map_Forall_empty. revert H0.
  generalize (∅ : gmap (list Z) (list Z)). induction Hd as [|l ls Hl Hls IH]; intros m Hm; [done|]. simpl.
  apply IH. by apply add_line_good.
Qed.
(** ** The table, written and read back *)

Lemma header_reads rest : readLocked (Some (header_lines ++ rest)) = fold_left (add_line lower) (split_byte newline rest) ∅.
Proof.
  unfold CryptoTofu.readLocked, header_lines. rewrite <- !app_assoc. cbn [app].
  rewrite split_byte_app by by_compute. rewrite split_byte_app by by_compute. cbn [fold_left].
  assert (∀ l m, has_prefix [hash] (TrimSpace l) = true → add_line lower m l = m) as Hc.
  { intros l m Hl. unfold add_line, parse_line. by rewrite Hl, orb_true_r. }
  rewrite !Hc by by vm_compute. done.
Qed.

Lemma entries_read m L : good m → (∀ a, a ∈ L → is_Some (m !! a)) → ∀ acc,
  fold_left (add_line lower) (split_byte newline (concat (map (fun a => entry_line (a, default [] (m !! a))) L))) acc =
  fold_left (fun e a => <[a := default [] (m !! a)]> e) L acc.
Proof.
  intros Hm. induction L as [|a L IH]; intros HL acc; cbn [map concat fold_left].
  - cbn. unfold add_line. by replace (parse_line lower []) with (@None (list Z * list Z)) by by vm_compute.
  - destruct (HL a ltac:(by left)) as [f Hf]. destruct (Hm a f Hf) as [Ga Gf]. rewrite Hf. cbn [default from_option]. unfold id.
    set (rest := concat _). assert (entry_line (a, f) ++ rest = (a ++ 32 :: f) ++ newline :: rest) as ->.
    { unfold entry_line. cbn [fst snd]. by rewrite <- !app_assoc. }
    rewrite split_byte_app.
    2:{ assert (newline ∉ a ∧ newline ∉ f) as [N1 N2] by (split; apply word_without; by (apply Ga || apply Gf || done)).
        rewrite elem_of_app, elem_of_cons. intros [?|[?|?]]; done. }
    cbn [fold_left]. unfold add_line at 2. rewrite parse_entry by done. apply IH. intros b Hb. apply HL. by right.
Qed.

Lemma fold_insert_lookup (m : gmap (list Z) (list Z)) L k : ∀ acc : gmap (list Z) (list Z),
  fold_left (fun e a => <[a := default [] (m !! a)]> e) L acc !! k = if decide (k ∈ L) then Some (default [] (m !! k)) else acc !! k.
Proof.
  induction L as [|a L IH]; intros acc; cbn [fold_left].
  - rewrite decide_False; [done|by apply not_elem_of_nil].
  - rewrite IH. destruct (decide (k ∈ L)) as [H|H]; [by rewrite decide_True by (by right)|].
    destruct (decide (k = a)) as [->|Hne].
    + rewrite decide_True by (by left). by rewrite lookup_insert_eq.
    + rewrite decide_False by (by rewrite elem_of_cons; intros [?|?]). by rewrite lookup_insert_ne.
Qed.

(** Writing the table and reading it back gives the same table, entry by
    entry, as long as its addresses are words that do not look like comments. *)
Lemma render_read m : good m → readLocked (Some (render m)) = m.
Proof.
  intros Hm. unfold render. rewrite header_reads.
  set (L := merge_sort bytes_le (elements (dom m))).
  assert (∀ a, a ∈ L ↔ is_Some (m !! a)) as HL.
  { intros a. unfold L. rewrite merge_sort_Permutation, elem_of_elements. apply elem_of_dom. }
  rewrite entries_read by (done || (intros a; by apply HL)).
  apply map_eq. intros k. rewrite fold_insert_lookup. destruct (decide (k ∈ L)) as [H|H].
  - apply HL in H as [f Hf]. by rewrite Hf.
  - rewrite lookup_empty. symmetry. destruct (m !! k) eqn:E; [|done]. exfalso. apply H, HL. by rewrite E.
Qed.

(** The store holds bytes. *)
Definition sound (s : option TrustStore) : Prop :=
  match s with Some st => match ts_file st with Some d => Forall is_byte d | None => True end | None => True end.

Lemma render_bytes m : (∀ a f, m !! a = Some f → Forall is_byte a ∧ Forall is_byte f) → Forall is_byte (render m).
Proof.
  intros Hm. unfold render. apply Forall_app. split; [by_compute|]. apply Forall_concat, Forall_map, Forall_forall.
  intros a Ha. rewrite merge_sort_Permutation, elem_of_elements, elem_of_dom in Ha. destruct Ha as [f Hf].
  rewrite Hf. cbn [default from_option]. unfold id, entry_line. cbn [fst snd]. destruct (Hm a f Hf) as [Ba Bf].
  rewrite !Forall_app. split_and!; try done; repeat constructor; unfold is_byte, newline; lia.
Qed.
Lemma parse_line_bytes line a f : Forall is_byte line → parse_line lower line = Some (a, f) → Forall is_byte a ∧ Forall is_byte f.
Proof.
  intros Hb. unfold parse_line. set (l := TrimSpace line). assert (Forall is_byte l) as Hl by by apply TrimSpace_bytes.
  destruct (bool_decide (l = []) || has_prefix [hash] l); [done|].
  destruct (Fields l) as [|a' [|f' [|? ?]]] eqn:EF; try done. intros [= <- <-].
  destruct (Fields_words l a') as [_ (xa & ya & Ea)]; [rewrite EF; by left|].
  destruct (Fields_words l f') as [_ (xf & yf & Ef)]; [rewrite EF; right; by left|].
  assert (Forall is_byte f') as Bf by (rewrite Ef, !Forall_app in Hl; tauto). split.
  - rewrite Ea, !Forall_app in Hl. tauto.
  - destruct (lower_runes f' Bf) as [_ ->]. apply Forall_concat, Forall_map, Forall_map. pose proof (runes_scalar f' Bf) as Hsc.
    eapply Forall_impl; [exact Hsc|]. intros r Hr. by apply encode_bytes, lower_scalar.
Qed.

Lemma read_bytes file a f : match file with Some d => Forall is_byte d | None => True end →
  readLocked file !! a = Some f → Forall is_byte a ∧ Forall is_byte f.
Proof.
  destruct file as [d|]; [|unfold CryptoTofu.readLocked; by rewrite lookup_empty]. intros Hd. unfold CryptoTofu.readLocked.
  apply (split_byte_bytes newline) in Hd.
  assert (∀ m : gmap (list Z) (list Z), map_Forall (fun a f => Forall is_byte a ∧ Forall is_byte f) m →
    map_Forall (fun a f => Forall is_byte a ∧ Forall is_byte f) (fold_left (add_line lower) (split_byte newline d) m)) as H.
  { induction Hd as [|l ls Hl Hls IH]; intros m Hm; [done|]. simpl. apply IH. unfold add_line.
    destruct (parse_line lower l) as [[b g]|] eqn:E; [|done]. apply map_Forall_insert_2; [by eapply parse_line_bytes|done]. }
  intros Ha. by apply (H ∅ (map_Forall_empty _) a f).
Qed.

Lemma sound_good st : sound (Some st) → good (readLocked (ts_file st)).
Proof. intros H. apply read_good. done. Qed.

Lemma Put_Lookup st addr fp :
  sound (Some st) → ts_writable st = true → good_addr addr → good_fp fp → Forall is_byte addr → Forall is_byte fp →
  ∃ st', Put (Some st) addr fp = (Some st', true) ∧ sound (Some st') ∧ ts_writable st' = true ∧
    readLocked (ts_file st') = <[addr := fp]> (readLocked (ts_file st)).
Proof.
  intros Hs Hw Ha Hf Ba Bf. unfold CryptoTofu.Put. rewrite Hw. eexists. split; [done|]. cbn [ts_file ts_writable].
  assert (good (<[addr:=fp]> (readLocked (ts_file st)))) as Hg by (apply map_Forall_insert_2; [done|by apply sound_good]).
  split_and!; [|done|by apply render_read].
  apply render_bytes. intros a f. destruct (decide (a = addr)) as [->|Hne].
  - rewrite lookup_insert_eq. by intros [= <-].
  - rewrite lookup_insert_ne by done. by apply read_bytes.
Qed.

(** ** Pins *)

Lemma hex_chars n : 0 ≤ n < 16 → 48 ≤ hex_char n ≤ 57 ∨ 97 ≤ hex_char n ≤ 102.
Proof. unfold hex_char. destruct (Z.ltb_spec n 10); lia. Qed.

Lemma EncodeToString_hex l : Forall is_byte l → Forall (fun c => 48 ≤ c ≤ 57 ∨ 97 ≤ c ≤ 102) (EncodeToString l).
Proof.
  intros Hl. unfold EncodeToString. induction Hl as [|b l Hb Hl IH]; [constructor|]. unfold is_byte in Hb. cbn [map concat app].
  repeat apply Forall_cons_2; [apply hex_chars; zdiv..|done].
Qed.

Lemma fingerprint_good cert : good_fp (CertFingerprint cert) ∧ Forall is_byte (CertFingerprint cert).
Proof.
  unfold CryptoTofu.CertFingerprint. destruct (sha256_bytes cert) as [Hb Hne].
  pose proof (EncodeToString_hex _ Hb) as Hx. set (f := EncodeToString (sha256 cert)) in *.
  assert (f ≠ []) as Hf by by (unfold f, EncodeToString; destruct (sha256 cert)).
  assert (Forall (fun b => 0 ≤ b < 0x80 ∧ (lower b = b ∨ lower b < 0)) f) as Hp.
  { eapply Forall_impl; [exact Hx|]. intros c Hc. cbn in Hc. split; [lia|left; by apply lower_hex]. }
  assert (Forall (fun b => 0 ≤ b < 0x80 ∧ (b = b ∨ b < 0)) f) as Hp'.
  { eapply Forall_impl; [exact Hx|]. intros c Hc. cbn in Hc. split; [lia|by left]. }
  assert (runes f = f) as Er.
  { assert (concat (map encode_rune f) = f) as Ec.
    { clear - Hx. induction Hx as [|c f Hc Hx IH]; [done|]. cbn [map concat]. rewrite IH. unfold encode_rune.
      rewrite (proj2 (Z.ltb_ge c 0)), (proj2 (Z.ltb_ge 0x10FFFF c)), between_false by lia. cbn [orb].
      by rewrite (proj2 (Z.leb_le c 0x7F)) by lia. }
    rewrite <- Ec at 1. apply runes_encoded. eapply Forall_impl; [exact Hx|]. intros c Hc. cbn in Hc. split; lia. }
  split_and!.
  - split; [split; [done|]|].
    + rewrite Er. eapply Forall_impl; [exact Hx|]. intros c Hc. cbn in Hc. unfold is_space, GoText.between.
      repeat match goal with |- context [?a <=? ?b] => destruct (Z.leb_spec a b); try lia | |- context [?a =? ?b] => destruct (Z.eqb_spec a b); try lia end; done.
    + rewrite (map_runes_plain lower f Hp). rewrite <- (forallb_filter_id (fun b => 0 <=? lower b) f) at 2; [done|].
      apply forallb_forall. intros c Hc%list_elem_of_In. rewrite Forall_forall in Hx. specialize (Hx c Hc).
      rewrite lower_hex by done. apply Z.leb_le. lia.
  - eapply Forall_impl; [exact Hx|]. intros c Hc. cbn in Hc. unfold is_byte. lia.
Qed.

(** The verifications a client makes, in order: of which address, with which
    certificates; without [--trust-new-cert]. *)
Fixpoint verify_all (s : option TrustStore) (hs : list (list Z * list (list Z))) : option TrustStore * list (result PinError PinResult) :=
  match hs with
  | [] => (s, [])
  | (addr, certs) :: hs =>
      let '(s, r) := verify_pin addr false s certs in
      let '(s, rs) := verify_all s hs in
      (s, r :: rs)
  end.

Definition plain_addr (a : list Z) : Prop := good_addr a ∧ Forall is_byte a.

Lemma verify_step st addr certs s' r :
  sound (Some st) → plain_addr addr → verify_pin addr false (Some st) certs = (s', r) →
  ∃ st', s' = Some st' ∧ sound (Some st') ∧
    (∀ a fp, Lookup (Some st) a = Some fp → Lookup (Some st') a = Some fp) ∧
    (∀ x cert rest, r = Ok x → certs = cert :: rest → Lookup (Some st') addr = Some (CertFingerprint cert)).
Proof.
  intros Hs [Ha Ba]. unfold CryptoTofu.verify_pin. destruct certs as [|cert rest]; [intros [= <- <-]; by exists st|].
  destruct (Lookup (Some st) addr) as [known|] eqn:El.
  - case_bool_decide as E; intros [= <- <-]; exists st; split_and!; try done. intros x c ? _ [= <- _]. by rewrite <- E.
  - destruct (ts_writable st) eqn:Ew.
    + destruct (fingerprint_good cert) as [Gf Bf]. destruct (Put_Lookup st addr _ Hs Ew Ha Gf Ba Bf) as (st' & -> & Hs' & _ & Er).
      intros [= <- <-]. exists st'. cbn [CryptoTofu.Lookup] in *. rewrite Er. split_and!; try done.
      * intros a fp Hfp. rewrite lookup_insert_ne; [done|]. intros <-. congruence.
      * intros x c ? _ [= <- _]. by rewrite lookup_insert_eq.
    + assert (Put (Some st) addr (CertFingerprint cert) = (Some st, false)) as -> by by (unfold CryptoTofu.Put; rewrite Ew).
      intros [= <- <-]. by exists st.
Qed.

Lemma pinned_later hs : ∀ st s' rs addr fp,
  sound (Some st) → Forall (fun h => plain_addr h.1) hs → verify_all (Some st) hs = (s', rs) →
  Lookup (Some st) addr = Some fp →
  ∀ j cert rest, hs !! j = Some (addr, cert :: rest) →
  rs !! j = Some (if bool_decide (fp = CertFingerprint cert) then Ok PinMatched else Err (ErrCertChanged fp (CertFingerprint cert))).
Proof.
  induction hs as [|[a0 certs0] hs IH]; intros st s' rs addr fp Hs Hhs; [done|]. apply Forall_cons in Hhs as [H0 Hhs]. simpl in H0.
  cbn [verify_all]. destruct (verify_pin a0 false (Some st) certs0) as [s1 r] eqn:Ev.
  destruct (verify_step _ _ _ _ _ Hs H0 Ev) as (st1 & -> & Hs1 & Hkeep & _).
  destruct (verify_all (Some st1) hs) as [s2 rs2] eqn:Ea. intros [= <- <-] Hl j cert rest Hj.
  destruct j as [|j].
  - injection Hj as -> ->. revert Ev. unfold CryptoTofu.verify_pin. rewrite Hl. case_bool_decide; by intros [= _ <-].
  - apply (IH st1 s2 rs2 addr fp Hs1 Hhs Ea (Hkeep _ _ Hl) j cert rest Hj).
Qed.

End tofu.

Definition toy_sha (m : list Z) : list Z := match m with [] => [0] | b :: _ => [b mod 256] end.

