(* ===== verification/P2pManager.v ===== *)
(** * Setting up a direct connection ([internal/p2p/manager.go])

    A manager finds out its public address, punches holes towards the peer's
    addresses, and hands the client a tunnel, or word that there is none.  Its
    goroutines - the receive loop, the time-out with its background retries, any
    number of calls of [onP2PConnected], [Close] - and the client run as one
    interleaving: [exec] gives the effect of one step of one of them.

    The sockets of the birthday attack are not tracked: a packet may come in at
    one of them at any time.  [json] on a punch packet, [net.ResolveUDPAddr], the
    sockets and the interfaces are parameters. *)

From S2P Require Import Prelude GoNet GoText GoBinary P2pTunnel P2pRelay ProtoPunch StunCandidates.

Open Scope Z_scope.

Inductive P2PMode := P2PModeDisabled | P2PModeAuto | P2PModeRequired.
#[export] Instance P2PMode_eq_dec : EqDecision P2PMode.
Proof. solve_decision. Defined.

Definition ParseP2PMode (s : gostring) : P2PMode :=
  if bool_decide (s = lit "auto") then P2PModeAuto
  else if bool_decide (s = lit "required") then P2PModeRequired
  else P2PModeDisabled.

Definition Millisecond : Z := 1000000.

(** ** NAT types *)

Definition NATUnknown : gostring := [].
Definition NATOpen : gostring := lit "open".
Definition NATCone : gostring := lit "cone".
Definition NATSymmetric : gostring := lit "symmetric".

Record STUNProbe := mkProbe { sp_Server : gostring; sp_ServerIP : gostring; sp_Mapped : UDPAddr; sp_Elapsed : Z }.

(** The first later answer of another server that saw the same address. *)
Fixpoint compare_probes (first : STUNProbe) (probes : list STUNProbe) : gostring :=
  match probes with
  | [] => NATUnknown
  | p :: probes =>
      if bool_decide (sp_ServerIP p = sp_ServerIP first) || negb (IP_Equal (ua_IP (sp_Mapped p)) (ua_IP (sp_Mapped first)))
      then compare_probes first probes
      else if ua_Port (sp_Mapped p) =? ua_Port (sp_Mapped first) then NATCone
      else NATSymmetric
  end.

Definition NATFromProbes (localIP : list Z) (probes : list STUNProbe) : gostring :=
  match probes with
  | [] => NATUnknown
  | first :: rest =>
      if IP_Equal (ua_IP (sp_Mapped first)) localIP then NATOpen
      else compare_probes first rest
  end.

(** ** The plan *)

Record punchPlan := mkPlan { lanOnly : bool; privateInterval : Z }.

Definition lanPunchInterval : Z := 50 * Millisecond.
Definition privatePunchInterval : Z := 200 * Millisecond.

(** The same /16. *)
Definition same_16 (l r : list Z) : bool :=
  match To4 l, To4 r with
  | Some (a :: b :: _), Some (a' :: b' :: _) => (a =? a') && (b =? b')
  | _, _ => false
  end.

Definition planHolePunch (sameEgress : bool) (local peerPrivate : option UDPAddr) : punchPlan :=
  if sameEgress then mkPlan true lanPunchInterval
  else match local, peerPrivate with
  | Some l, Some r => if same_16 (ua_IP l) (ua_IP r) then mkPlan false lanPunchInterval else mkPlan false privatePunchInterval
  | _, _ => mkPlan false privatePunchInterval
  end.

(** What [sendPortPredictionPackets] sends to. *)
Definition predicted (baseAddr : UDPAddr) (portRange : nat) : list UDPAddr :=
  omap (fun i =>
    let offset := Z.of_nat i - Z.of_nat portRange in
    if offset =? 0 then None
    else
      let port := ua_Port baseAddr + offset in
      if (0 <? port) && (port <=? 65535) then Some (mkAddr (ua_IP baseAddr) port) else None)
    (seq 0 (2 * portRange + 1)).

(** The goroutines of [startHolePunching]: each waits, then sends to its targets
    at every tick until the manager stops. *)
Inductive Sender :=
| TestPackets (targets : list UDPAddr) (interval : Z)
| RelayTestPackets (wait : Z) (relay : UDPAddr) (interval : Z)
| BirthdayAttack (wait : Z) (peer : UDPAddr).

Record PeerInfo := mkPeerInfo { pi_PublicAddr : option UDPAddr; pi_PrivateAddr : option UDPAddr }.

Definition portPredictionRange : nat := 10.

Definition startHolePunching (peerInfo : option PeerInfo) (plan : punchPlan) (natType peerNATType : gostring)
    (stunAddr : option UDPAddr) : list Sender :=
  match peerInfo with
  | None => []
  | Some pi =>
      let interval := if privateInterval plan <=? 0 then privatePunchInterval else privateInterval plan in
      let private := match pi_PrivateAddr pi with Some a => [TestPackets [a] interval] | None => [] end in
      if lanOnly plan then private
      else
        let hasSymmetric := bool_decide (natType = NATSymmetric) || bool_decide (peerNATType = NATSymmetric) in
        let predRange := if hasSymmetric then 100%nat else portPredictionRange in
        match pi_PublicAddr pi with
        | Some a => [TestPackets [a] (100 * Millisecond); TestPackets (predicted a predRange) (300 * Millisecond)]
        | None => []
        end ++
        (if bool_decide (natType = NATSymmetric)
         then match pi_PublicAddr pi with Some a => [BirthdayAttack Second a] | None => [] end else []) ++
        private ++
        match stunAddr with Some a => [RelayTestPackets (2 * Second) a (200 * Millisecond)] | None => [] end
  end.

(** ** Where [Start] binds *)

Definition IPv4zero : list Z := v4InV6Prefix ++ [0; 0; 0; 0].

(** [physical] is what [DetectPhysicalIP] finds. *)
Definition listen_ip (bindIP : string) (physical : option (list Z)) : list Z :=
  let ip := if bool_decide (bindIP = ""%string) then IPv4zero else default IPv4zero (ParseIP bindIP) in
  if IP_Equal ip IPv4zero then default ip physical else ip.

(** The wildcard address is not the one to advertise. *)
Definition local_addr (listenIP : list Z) (bound : UDPAddr) (outbound : option (list Z)) : UDPAddr :=
  if IP_Equal listenIP IPv4zero
  then match outbound with Some ip => mkAddr ip (ua_Port bound) | None => bound end
  else bound.

(** ** The manager *)

(** A tunnel, and whether its socket is open. *)
Record tunnel := mkTunnel { tn_relay : bool; tn_open : bool }.
(** A result names a tunnel by its number; an error is only told from none. *)
Record P2PResult := mkResult { pr_Tunnel : option nat; pr_Err : bool }.

(** Who holds [tunnelMu]: a call of [onP2PConnected], or [Close]. *)
Inductive Owner := ByCall (i : nat) | ByClose.

Record PeerAddrReady := mkReady {
  ra_PeerPublicAddr : gostring;
  ra_PeerPrivateAddr : gostring;
  ra_SameNetwork : bool;
  ra_PeerNATType : gostring;
}.

(** [pm_localConn]: whether the socket is open. *)
Record P2PManager := mkManager {
  pm_mode : P2PMode;
  pm_sessionID : gostring;
  pm_isShare : bool;
  pm_authCode : gostring;
  pm_stunAddr : option UDPAddr;
  pm_localAddr : option UDPAddr;
  pm_natType : gostring;
  pm_peerInfo : option PeerInfo;
  pm_peerNATType : gostring;
  pm_punchPlan : punchPlan;
  pm_connected : bool;
  pm_backgroundMode : bool;
  pm_stopChan : bool;
  pm_recvStop : bool;
  pm_resultCh : list P2PResult;
  pm_tunnelMu : option Owner;
  pm_tunnelCreated : bool;
  pm_localConn : bool;
  pm_tunnels : list tunnel;
  pm_senders : list Sender;
  pm_notified : nat;
  pm_written : list (list Z * UDPAddr);
}.
#[export] Instance P2PManager_eta : Eta P2PManager := fun m =>
  mkManager (pm_mode m) (pm_sessionID m) (pm_isShare m) (pm_authCode m) (pm_stunAddr m) (pm_localAddr m) (pm_natType m)
    (pm_peerInfo m) (pm_peerNATType m) (pm_punchPlan m) (pm_connected m) (pm_backgroundMode m) (pm_stopChan m) (pm_recvStop m)
    (pm_resultCh m) (pm_tunnelMu m) (pm_tunnelCreated m) (pm_localConn m) (pm_tunnels m) (pm_senders m) (pm_notified m)
    (pm_written m).

(** The capacity [Start] gives the result channel. *)
Definition resultCap : nat := 2.

(** [UDPTunnel.Close]: idempotent; closes the socket. *)
Definition close_tunnel (i : nat) (m : P2PManager) : P2PManager :=
  match pm_tunnels m !! i with
  | Some t =>
      if tn_open t then m <| pm_tunnels := <[i := mkTunnel (tn_relay t) false]> (pm_tunnels m) |> <| pm_localConn := false |>
      else m
  | None => m
  end.

Section manager.
Context (hkdf : gostring → gostring → gostring → list Z) (hmac : list Z → list Z → list Z).
(** [json] on a [P2PTestPacket], [net.ResolveUDPAddr]. *)
Context (Marshal : P2PTestPacket → list Z) (Unmarshal : list Z → option P2PTestPacket).
Context (ResolveUDPAddr : gostring → option UDPAddr).

Definition newTestPacket (random : gostring) (m : P2PManager) : P2PTestPacket :=
  SignPunchPacket hkdf hmac (mkPacket (pm_sessionID m) random []) (pm_authCode m) (pm_isShare m).

Definition acceptPunch (pkt : P2PTestPacket) (m : P2PManager) : bool :=
  bool_decide (pk_SessionID pkt = pm_sessionID m) &&
  VerifyPunchPacket hkdf hmac (Some pkt) (pm_authCode m) (negb (pm_isShare m)).

(** A datagram is a punch packet to accept. *)
Definition accepts (datagram : list Z) (m : P2PManager) : bool :=
  match Unmarshal datagram with Some pkt => acceptPunch pkt m | None => false end.

Definition parseAddr (s : gostring) : option UDPAddr := if bool_decide (s = []) then None else ResolveUDPAddr s.

(** [HandlePeerAddrReady]: the address is stored before the plan, and the
    background retry may run in between. *)
Definition ready_addr (msg : PeerAddrReady) (m : P2PManager) : P2PManager :=
  m <| pm_peerInfo := Some (mkPeerInfo (parseAddr (ra_PeerPublicAddr msg)) (parseAddr (ra_PeerPrivateAddr msg))) |>
    <| pm_peerNATType := ra_PeerNATType msg |>.

Definition punch (m : P2PManager) : P2PManager :=
  m <| pm_senders := pm_senders m ++
       startHolePunching (pm_peerInfo m) (pm_punchPlan m) (pm_natType m) (pm_peerNATType m) (pm_stunAddr m) |>.

Definition ready_plan (msg : PeerAddrReady) (m : P2PManager) : P2PManager :=
  punch (m <| pm_punchPlan := planHolePunch (ra_SameNetwork msg) (pm_localAddr m) (pm_peerInfo m ≫= pi_PrivateAddr) |>).

(** ** onP2PConnected *)

(** Where a call of [onP2PConnected] stands. *)
Inductive CallPc :=
| CLock (addr : UDPAddr)
| CConfirm (addr : UDPAddr) (data : list Z) (left : nat) (isRelay : bool)
| CBackground (isRelay : bool)
| CNotify (isRelay : bool)
| CStopRecv (isRelay : bool)
| CNewTunnel (isRelay : bool)
| CLockTunnel (t : nat)
| CSelectStop (t : nat)
| CSend (t : nat)
| CUnlock (t : nat) (delivered : bool)
| CCloseTunnel (t : nat)
| CDone.

#[export] Instance CallPc_eq_dec : EqDecision CallPc.
Proof. solve_decision. Defined.

Definition via_relay (addr : UDPAddr) (m : P2PManager) : bool :=
  match pm_stunAddr m with
  | Some s => IP_Equal (ua_IP addr) (ua_IP s) && (ua_Port addr =? ua_Port s)
  | None => false
  end.

(** One step of call number [i]; [None] while it waits for the mutex. *)
Definition call_step (i : nat) (random : gostring) (pc : CallPc) (m : P2PManager) : option (CallPc * P2PManager) :=
  match pc with
  | CLock addr =>
      if pm_connected m then Some (CDone, m)
      else
        let isRelay := via_relay addr m in
        let confirmData := Marshal (newTestPacket random m) in
        let data := if isRelay then makeRelayHeader (pm_sessionID m) ++ confirmData else confirmData in
        Some (CConfirm addr data 5 isRelay, m <| pm_connected := true |>)
  | CConfirm addr data (S n) isRelay =>
      Some (CConfirm addr data n isRelay, m <| pm_written := pm_written m ++ [(data, addr)] |>)
  | CConfirm _ _ O isRelay => Some (CBackground isRelay, m)
  | CBackground isRelay => Some (if pm_backgroundMode m then CDone else CNotify isRelay, m)
  | CNotify isRelay => Some (CStopRecv isRelay, m <| pm_notified := S (pm_notified m) |>)
  | CStopRecv isRelay => Some (CNewTunnel isRelay, m <| pm_recvStop := true |>)
  | CNewTunnel isRelay =>
      Some (CLockTunnel (length (pm_tunnels m)), m <| pm_tunnels := pm_tunnels m ++ [mkTunnel isRelay true] |>)
  | CLockTunnel t =>
      match pm_tunnelMu m with
      | None => Some (CSelectStop t, m <| pm_tunnelMu := Some (ByCall i) |>)
      | Some _ => None
      end
  | CSelectStop t => Some (if pm_stopChan m then CUnlock t false else CSend t, m)
  | CSend t =>
      Some (if (length (pm_resultCh m) <? resultCap)%nat
            then (CUnlock t true, m <| pm_resultCh := pm_resultCh m ++ [mkResult (Some t) false] |> <| pm_tunnelCreated := true |>)
            else (CUnlock t false, m))
  | CUnlock t delivered => Some (if delivered then CDone else CCloseTunnel t, m <| pm_tunnelMu := None |>)
  | CCloseTunnel t => Some (CDone, close_tunnel t m)
  | CDone => None
  end.

(** ** p2pTimeout, backgroundRetry *)

Inductive TimeoutPc :=
| TWait
| TCheck
| TBackground
| TFallback
| TFail
| TRetry (i : nat)
| TRetryCheck (i : nat)
| TDone.

#[export] Instance TimeoutPc_eq_dec : EqDecision TimeoutPc.
Proof. solve_decision. Defined.

Definition p2p_timeout (mode : P2PMode) : Z := match mode with P2PModeRequired => 30 * Second | _ => 8 * Second end.
Definition retryIntervals : list Z := [30 * Second; 60 * Second; 120 * Second].

(** A plain send waits while the channel is full. *)
Definition send_result (r : P2PResult) (m : P2PManager) : option P2PManager :=
  if (length (pm_resultCh m) <? resultCap)%nat then Some (m <| pm_resultCh := pm_resultCh m ++ [r] |>) else None.

(** [fire]: the timer has run out, and [select] takes it. *)
Definition timeout_step (fire : bool) (pc : TimeoutPc) (m : P2PManager) : option (TimeoutPc * P2PManager) :=
  match pc with
  | TWait => if fire then Some (TCheck, m) else if pm_stopChan m then Some (TDone, m) else None
  | TCheck =>
      Some (if pm_connected m then TDone
            else match pm_mode m with
                 | P2PModeAuto => TBackground
                 | P2PModeRequired => TFail
                 | P2PModeDisabled => TDone
                 end, m)
  | TBackground => Some (TFallback, m <| pm_backgroundMode := true |>)
  | TFallback => (fun m => (TRetry 0, m)) <$> send_result (mkResult None false) m
  | TFail => (fun m => (TDone, m)) <$> send_result (mkResult None true) m
  | TRetry i =>
      if (length retryIntervals <=? i)%nat then Some (TDone, m)
      else if fire then Some (TRetryCheck i, m)
      else if pm_stopChan m then Some (TDone, m) else None
  | TRetryCheck i =>
      if pm_connected m then Some (TDone, m)
      else match pm_peerInfo m with
           | None => Some (TRetry (S i), m)
           | Some _ => Some (TRetry (S i), punch m)
           end
  | TDone => None
  end.

(** ** Close *)

Inductive ClosePc := XIdle | XStop | XStopRecv | XLock | XDrain | XConn | XUnlock | XDone.

#[export] Instance ClosePc_eq_dec : EqDecision ClosePc.
Proof. solve_decision. Defined.

Definition close_step (pc : ClosePc) (m : P2PManager) : option (ClosePc * P2PManager) :=
  match pc with
  | XIdle | XDone => None
  | XStop => Some (XStopRecv, m <| pm_stopChan := true |>)
  | XStopRecv => Some (XLock, m <| pm_recvStop := true |>)
  | XLock => match pm_tunnelMu m with None => Some (XDrain, m <| pm_tunnelMu := Some ByClose |>) | Some _ => None end
  | XDrain =>
      match pm_resultCh m with
      | [] => Some (XConn, m)
      | r :: rs =>
          let m := m <| pm_resultCh := rs |> in
          Some (XDrain, match pr_Tunnel r with Some t => close_tunnel t m | None => m end)
      end
  | XConn => Some (XUnlock, if pm_tunnelCreated m then m else m <| pm_localConn := false |>)
  | XUnlock => Some (XDone, m <| pm_tunnelMu := None |>)
  end.

(** ** Everything at once *)

Inductive RecvPc := RTop | RRead | RDone.

#[export] Instance RecvPc_eq_dec : EqDecision RecvPc.
Proof. solve_decision. Defined.

Record System := mkSystem {
  sy_mgr : P2PManager;
  sy_calls : list CallPc;
  sy_timeout : TimeoutPc;
  sy_recv : RecvPc;
  sy_close : ClosePc;
  sy_ready : option PeerAddrReady;
  sy_taken : list P2PResult;
}.
#[export] Instance System_eta : Eta System := fun s =>
  mkSystem (sy_mgr s) (sy_calls s) (sy_timeout s) (sy_recv s) (sy_close s) (sy_ready s) (sy_taken s).

(** The steps; the first ones are the manager's own, the last ones come from
    the network, the relay connection and the client, or a tunnel that hears
    nothing for too long. *)
Inductive Event :=
| ECall (i : nat) (random : gostring)
| ETimeout (fire : bool)
| EClose
| ERecv
| EReadTimeout
| EReadError
| EReadyPlan
| EDatagram (datagram : list Z) (from : UDPAddr)
| EBirthday (datagram : list Z) (from : UDPAddr)
| EReady (msg : PeerAddrReady)
| ECallClose
| EReceive
| ECloseTaken (t : nat)
| EPeerTimeout (t : nat).

Definition spawn (from : UDPAddr) (s : System) : System := s <| sy_calls := sy_calls s ++ [CLock from] |>.

Definition taken (t : nat) (s : System) : bool := existsb (fun r => bool_decide (pr_Tunnel r = Some t)) (sy_taken s).

Definition exec (e : Event) (s : System) : option System :=
  let m := sy_mgr s in
  match e with
  | ECall i random =>
      match sy_calls s !! i with
      | Some pc =>
          (fun '(pc, m) => s <| sy_calls := <[i := pc]> (sy_calls s) |> <| sy_mgr := m |>) <$> call_step i random pc m
      | None => None
      end
  | ETimeout fire => (fun '(pc, m) => s <| sy_timeout := pc |> <| sy_mgr := m |>) <$> timeout_step fire (sy_timeout s) m
  | EClose => (fun '(pc, m) => s <| sy_close := pc |> <| sy_mgr := m |>) <$> close_step (sy_close s) m
  | ERecv =>
      match sy_recv s with
      | RTop => Some (s <| sy_recv := if pm_stopChan m || pm_recvStop m then RDone else RRead |>)
      | _ => None
      end
  | EReadTimeout =>
      match sy_recv s with RRead => if pm_localConn m then Some (s <| sy_recv := RTop |>) else None | _ => None end
  | EReadError => match sy_recv s with RRead => Some (s <| sy_recv := RDone |>) | _ => None end
  | EReadyPlan =>
      match sy_ready s with
      | Some msg => Some (s <| sy_ready := None |> <| sy_mgr := ready_plan msg m |>)
      | None => None
      end
  | EDatagram d from =>
      match sy_recv s with
      | RRead =>
          if pm_localConn m
          then Some (if accepts d m then spawn from (s <| sy_recv := RDone |>) else s <| sy_recv := RTop |>)
          else None
      | _ => None
      end
  | EBirthday d from => Some (if accepts d m then spawn from s else s)
  | EReady msg =>
      match sy_ready s with
      | None => Some (s <| sy_ready := Some msg |> <| sy_mgr := ready_addr msg m |>)
      | Some _ => None
      end
  | ECallClose => Some (match sy_close s with XIdle => s <| sy_close := XStop |> | _ => s end)
  | EReceive =>
      match pm_resultCh m with
      | r :: rs => Some (s <| sy_mgr := m <| pm_resultCh := rs |> |> <| sy_taken := sy_taken s ++ [r] |>)
      | [] => None
      end
  | ECloseTaken t => if taken t s then Some (s <| sy_mgr := close_tunnel t m |>) else None
  | EPeerTimeout t => Some (s <| sy_mgr := close_tunnel t m |>)
  end.

Fixpoint exec_all (es : list Event) (s : System) : option System :=
  match es with
  | [] => Some s
  | e :: es => match exec e s with Some s' => exec_all es s' | None => None end
  end.
End manager.

(** ** Start *)

Record PeerAddrAdvertise := mkAdvertise {
  av_PublicAddr : gostring;
  av_PrivateAddr : gostring;
  av_NATType : gostring;
  av_STUNServer : gostring;
  av_STUNMs : Z;
}.

Definition addrToString (addr : option UDPAddr) : gostring :=
  match addr with
  | None => []
  | Some a => bytes_of (JoinHostPort (ip_string (ua_IP a)) (string_of (decimal (ua_Port a))))
  end.

Definition NewP2PManager (mode : P2PMode) (sessionID : gostring) (isShare : bool) (code : gostring) : P2PManager :=
  mkManager mode sessionID isShare code None None NATUnknown None NATUnknown (mkPlan false 0) false false false false
    [] None false false [] [] 0 [].

(** What the discovery gives, when it is run: it takes no other candidates than
    these. *)
Definition stun_candidates (stunServer : gostring) (advertised fallback : list gostring) : option (list gostring) :=
  if bool_decide (stunServer = []) && bool_decide (advertised = []) then None
  else Some (MergeSTUNCandidates stunServer advertised fallback).

Definition nat_type (localIP : list Z) (probes : list STUNProbe) : gostring :=
  let t := NATFromProbes localIP probes in if bool_decide (t = NATUnknown) then NATCone else t.

Definition advertiseAddr (publicAddr : option STUNProbe) (m : P2PManager) : PeerAddrAdvertise :=
  match publicAddr with
  | Some p => mkAdvertise (addrToString (Some (sp_Mapped p))) (addrToString (pm_localAddr m)) (pm_natType m)
                (sp_Server p) (sp_Elapsed p / Millisecond)
  | None => mkAdvertise [] (addrToString (pm_localAddr m)) (pm_natType m) [] 0
  end.

(** [Start] with the bound socket, the resolver and the answers of the discovery; the socket failing is [None].  The system
    it leaves running, and what it advertises. *)
Definition Start (mgr : P2PManager) (bindIP : string) (physical outbound : option (list Z)) (bind : list Z → option UDPAddr)
    (resolve : gostring → option UDPAddr) (discover : list gostring → list STUNProbe)
    (stunServer : gostring) (advertised fallback : list gostring) : option (System * option PeerAddrAdvertise) :=
  match pm_mode mgr with
  | P2PModeDisabled =>
      Some (mkSystem (mgr <| pm_resultCh := [mkResult None false] |>) [] TDone RDone XIdle None [], None)
  | _ =>
      let listenIP := listen_ip bindIP physical in
      match bind listenIP with
      | None => None
      | Some bound =>
          let local := local_addr listenIP bound outbound in
          let probes := match stun_candidates stunServer advertised fallback with Some c => discover c | None => [] end in
          let m := mgr <| pm_localConn := true |> <| pm_localAddr := Some local |> <| pm_stunAddr := (if bool_decide (stunServer = []) then None else resolve stunServer) |>
                       <| pm_natType := match probes with [] => NATUnknown | _ => nat_type (ua_IP local) probes end |> in
          Some (mkSystem m [] TWait RTop XIdle None [], Some (advertiseAddr (head probes) m))
      end
  end.
