(* ===== verification/P2pManagerThms.v ===== *)
(** * The invariants of the P2P manager

    Step by step: at most two results and one tunnel come out of it ([budget]);
    the mutex is held by whoever is inside ([lock_inv]); every tunnel has one
    owner who is to close it ([sys_owned]).  What follows for runs is in
    [P2pManagerClose]. *)

From S2P Require Import Prelude GoNet GoText GoBinary P2pTunnel P2pRelay ProtoPunch StunCandidates P2pManager.

Open Scope Z_scope.

(** ** Sums over the calls *)

(** The call has won, and its result is still to come. *)
Definition sends (c : CallPc) : nat :=
  match c with
  | CConfirm _ _ _ _ | CBackground _ | CNotify _ | CStopRecv _ | CNewTunnel _ | CLockTunnel _ | CSelectStop _ | CSend _ => 1
  | _ => 0
  end.
(** … and its tunnel too. *)
Definition makes (c : CallPc) : nat :=
  match c with
  | CConfirm _ _ _ _ | CBackground _ | CNotify _ | CStopRecv _ | CNewTunnel _ => 1
  | _ => 0
  end.
Definition timeout_sends (t : TimeoutPc) : nat :=
  match t with TWait | TCheck | TBackground | TFallback | TFail => 1 | _ => 0 end.

(** The call has a tunnel on its hands. *)
Definition holds (c : CallPc) : option nat :=
  match c with
  | CLockTunnel t | CSelectStop t | CSend t | CUnlock t false | CCloseTunnel t => Some t
  | _ => None
  end.
(** The call has [tunnelMu]. *)
Definition inside (c : CallPc) : bool :=
  match c with CSelectStop _ | CSend _ | CUnlock _ _ => true | _ => false end.
Definition sending (c : CallPc) : bool := match c with CSend _ => true | _ => false end.

Definition closing_inside (x : ClosePc) : bool := match x with XDrain | XConn | XUnlock => true | _ => false end.
(** [stopChan] is closed; the channel is drained; the socket is seen to. *)
Definition stopping (x : ClosePc) : bool := match x with XIdle | XStop => false | _ => true end.
Definition locked_out (x : ClosePc) : bool := match x with XDrain | XConn | XUnlock | XDone => true | _ => false end.
Definition drained (x : ClosePc) : bool := match x with XConn | XUnlock | XDone => true | _ => false end.
Definition freed (x : ClosePc) : bool := match x with XUnlock | XDone => true | _ => false end.

Section manager.
Context (hkdf : gostring → gostring → gostring → list Z) (hmac : list Z → list Z → list Z).
Context (Marshal : P2PTestPacket → list Z) (Unmarshal : list Z → option P2PTestPacket).
Context (ResolveUDPAddr : gostring → option UDPAddr).

Notation exec := (exec hkdf hmac Marshal Unmarshal ResolveUDPAddr).
Notation exec_all := (exec_all hkdf hmac Marshal Unmarshal ResolveUDPAddr).

Definition once (s : System) : nat := if pm_connected (sy_mgr s) then 0 else 1.

Record budget (s : System) : Prop := {
  budget_results : (once s + total sends (sy_calls s) + timeout_sends (sy_timeout s) + length (pm_resultCh (sy_mgr s)) ≤ 2)%nat;
  budget_tunnels : (once s + total makes (sy_calls s) + length (pm_tunnels (sy_mgr s)) ≤ 1)%nat;
}.

(** Splitting a step into its cases. *)
Ltac exec_cases H :=
  unfold P2pManager.exec, spawn, send_result in H; cbn [call_step timeout_step close_step] in H;
  repeat (case_match; simplify_eq/=);
  try done.

Lemma close_tunnel_same t m :
  pm_connected (close_tunnel t m) = pm_connected m ∧ pm_resultCh (close_tunnel t m) = pm_resultCh m ∧
  length (pm_tunnels (close_tunnel t m)) = length (pm_tunnels m) ∧ pm_tunnelMu (close_tunnel t m) = pm_tunnelMu m ∧
  pm_stopChan (close_tunnel t m) = pm_stopChan m ∧ pm_tunnelCreated (close_tunnel t m) = pm_tunnelCreated m.
Proof.
  unfold close_tunnel. destruct (pm_tunnels m !! t) as [tn|]; [|done]. destruct (tn_open tn); [|done].
  unfold set_field. cbn. by rewrite length_insert.
Qed.

(** Splits the step of a goroutine into its branches. *)
Ltac branches H :=
  simpl in H; unfold send_result, punch, ready_plan, ready_addr, spawn in *; repeat (case_match; simplify_eq/=); simplify_eq/=; unfold set_field in *; cbn in *;
  rewrite ?length_app in *; cbn [length] in *;
  repeat match goal with
  | |- context [close_tunnel ?t ?m] =>
      let Q1 := fresh in let Q2 := fresh in let Q3 := fresh in
      destruct (close_tunnel_same t m) as (Q1 & Q2 & Q3 & _); rewrite ?Q1, ?Q2, ?Q3 in *; clear Q1 Q2 Q3
  | H : context [pm_connected (close_tunnel ?t ?m)] |- _ => rewrite (proj1 (close_tunnel_same t m)) in H; simplify_eq
  | E : pm_connected _ = _ |- _ => rewrite E in *
  | E : pm_resultCh _ = _ |- _ => rewrite E in *
  | E : sy_timeout _ = _ |- _ => rewrite E in *
  | E : (_ <? _)%nat = true |- _ => apply Nat.ltb_lt in E
  | E : (_ <=? _)%nat = true |- _ => apply Nat.leb_le in E
  end; cbn in *.

Lemma budget_step e s s' : budget s → exec e s = Some s' → budget s'.
Proof.
  intros [B1 B2] H. destruct e; cbn [P2pManager.exec] in H.
  - destruct (sy_calls s !! i) as [pc|] eqn:Ei; [|done].
    destruct (call_step _ _ _ i random pc (sy_mgr s)) as [[pc' m']|] eqn:Es; [|done]. injection H as <-.
    pose proof (total_insert sends _ _ _ pc' Ei) as T1. pose proof (total_insert makes _ _ _ pc' Ei) as T2.
    split; unfold once in *; destruct pc; branches Es; lia.
  - destruct (timeout_step fire (sy_timeout s) (sy_mgr s)) as [[pc' m']|] eqn:Es; [|done]. injection H as <-.
    split; unfold once in *; destruct (sy_timeout s) eqn:Ept; branches Es; lia.
  - destruct (close_step (sy_close s) (sy_mgr s)) as [[pc' m']|] eqn:Es; [|done]. injection H as <-.
    split; unfold once in *; destruct (sy_close s) eqn:Epc; branches Es; lia.
  - split; unfold once in *; branches H; lia.
  - split; unfold once in *; branches H; lia.
  - split; unfold once in *; branches H; lia.
  - split; unfold once in *; branches H; lia.
  - split; unfold once in *; branches H; rewrite ?total_app; cbn; lia.
  - split; unfold once in *; branches H; rewrite ?total_app; cbn; lia.
  - split; unfold once in *; branches H; lia.
  - split; unfold once in *; branches H; lia.
  - split; unfold once in *; branches H; lia.
  - split; unfold once in *; branches H; lia.
  - split; unfold once in *; branches H; lia.
Qed.
(** ** The mutex *)

Record lock_inv (s : System) : Prop := {
  lock_call : ∀ i c, sy_calls s !! i = Some c → inside c = true → pm_tunnelMu (sy_mgr s) = Some (ByCall i);
  lock_held : ∀ i, pm_tunnelMu (sy_mgr s) = Some (ByCall i) → ∃ c, sy_calls s !! i = Some c ∧ inside c = true;
  lock_close : pm_tunnelMu (sy_mgr s) = Some ByClose ↔ closing_inside (sy_close s) = true;
  lock_stop : pm_stopChan (sy_mgr s) = stopping (sy_close s);
  lock_out : locked_out (sy_close s) = true → ∀ i c, sy_calls s !! i = Some c → sending c = false;
}.

Lemma call_step_lock i random pc m pc' m' :
  call_step hkdf hmac Marshal i random pc m = Some (pc', m') →
  pm_stopChan m' = pm_stopChan m ∧
  (if inside pc'
   then (inside pc = true ∧ pm_tunnelMu m' = pm_tunnelMu m) ∨ (inside pc = false ∧ pm_tunnelMu m = None ∧ pm_tunnelMu m' = Some (ByCall i))
   else (inside pc = false ∧ pm_tunnelMu m' = pm_tunnelMu m) ∨ (inside pc = true ∧ pm_tunnelMu m' = None)) ∧
  (sending pc' = true → pm_stopChan m = false).
Proof.
  intros H. destruct pc; simpl in H; repeat (case_match; simplify_eq/=); simplify_eq/=; unfold set_field in *; cbn in *;
    try (destruct (close_tunnel_same t m) as (_ & _ & _ & -> & -> & _)); repeat case_match; split_and?; try done; auto 6.
Qed.

Lemma lookup_update {A} (l : list A) i j x y : <[i := y]> l !! j = Some x → (j = i ∧ x = y) ∨ (j ≠ i ∧ l !! j = Some x).
Proof.
  intros H. destruct (decide (j = i)) as [->|Hne].
  - left. split; [done|]. assert (i < length (<[i:=y]> l))%nat as Hi by by eapply lookup_lt_Some.
    rewrite length_insert in Hi. rewrite list_lookup_insert_eq in H by done. by simplify_eq.
  - right. by rewrite list_lookup_insert_ne in H.
Qed.

Lemma lock_call_step i random s pc pc' m' :
  lock_inv s → sy_calls s !! i = Some pc → call_step hkdf hmac Marshal i random pc (sy_mgr s) = Some (pc', m') →
  lock_inv (s <| sy_calls := <[i := pc']> (sy_calls s) |> <| sy_mgr := m' |>).
Proof.
  intros [L1 L2 L3 L4 L5] Hi Hs. destruct (call_step_lock _ _ _ _ _ _ Hs) as (Est & Emu & Esend).
  split; unfold set_field; cbn.
  - intros j c [[-> ->]|[Hne Hj]]%lookup_update Hc.
    + rewrite Hc in Emu. destruct Emu as [[Hp ->]|(_ & _ & ->)]; [|done]. by apply (L1 i pc).
    + pose proof (L1 j c Hj Hc) as Hmu. destruct (inside pc') eqn:Ep.
      * destruct Emu as [[Hp ->]|(_ & Hn & _)]; [done|congruence].
      * destruct Emu as [[Hp ->]|[Hp _]]; [done|]. rewrite (L1 i pc Hi Hp) in Hmu. by simplify_eq.
  - intros j Hj. assert (i < length (sy_calls s))%nat as Hlt by by eapply lookup_lt_Some.
    destruct (decide (j = i)) as [->|Hne].
    + exists pc'. rewrite list_lookup_insert_eq by done. split; [done|]. destruct (inside pc') eqn:Ep; [done|].
      destruct Emu as [[Hp Em]|[_ Em]]; [|congruence]. rewrite Em in Hj. destruct (L2 i Hj) as (c & Hc & Hin). congruence.
    + rewrite list_lookup_insert_ne by done. apply L2. destruct (inside pc').
      * destruct Emu as [[_ <-]|(_ & _ & Em)]; [done|]. rewrite Em in Hj. by simplify_eq.
      * destruct Emu as [[_ <-]|[_ Em]]; [done|congruence].
  - rewrite <- L3. destruct (inside pc').
    + destruct Emu as [[_ ->]|(_ & -> & ->)]; [done|]. split; discriminate.
    + destruct Emu as [[_ ->]|[Hp ->]]; [done|]. rewrite (L1 i pc Hi Hp). split; discriminate.
  - by rewrite Est.
  - intros Hx j c [[-> ->]|[Hne Hj]]%lookup_update; [|by eapply L5].
    destruct (sending pc') eqn:Es; [|done]. rewrite (Esend eq_refl) in L4. by destruct (sy_close s).
Qed.

Lemma lock_spawn s from : lock_inv s → lock_inv (spawn from s).
Proof.
  intros [L1 L2 L3 L4 L5]. unfold spawn. split; unfold set_field; cbn; try done.
  - intros i c [?|[_ [Hi Hc]%list_lookup_singleton_Some]]%lookup_app_Some; [by eapply L1|]. by subst.
  - intros i Hi. destruct (L2 i Hi) as (c & Hc & Hin). exists c. split; [|done]. by apply lookup_app_l_Some.
  - intros Hx i c [?|[_ [Hi Hc]%list_lookup_singleton_Some]]%lookup_app_Some; [by eapply L5|]. by subst.
Qed.

(** Whatever leaves the mutex, the stop channel, the calls and [Close] alone. *)
Lemma lock_same s s' : lock_inv s →
  pm_tunnelMu (sy_mgr s') = pm_tunnelMu (sy_mgr s) → pm_stopChan (sy_mgr s') = pm_stopChan (sy_mgr s) →
  sy_calls s' = sy_calls s → sy_close s' = sy_close s → lock_inv s'.
Proof. intros [L1 L2 L3 L4 L5] E1 E2 E3 E4. split; by rewrite ?E1, ?E2, ?E3, ?E4. Qed.

Lemma timeout_step_same fire pc m pc' m' : timeout_step fire pc m = Some (pc', m') →
  pm_tunnelMu m' = pm_tunnelMu m ∧ pm_stopChan m' = pm_stopChan m ∧ pm_tunnels m' = pm_tunnels m ∧
  pm_localConn m' = pm_localConn m ∧ pm_tunnelCreated m' = pm_tunnelCreated m ∧
  ∃ rs, pm_resultCh m' = pm_resultCh m ++ rs ∧ Forall (fun r => pr_Tunnel r = None) rs.
Proof.
  intros H. destruct pc; simpl in H; unfold send_result, punch in H; repeat (case_match; simplify_eq/=); simplify_eq/=;
    unfold set_field; cbn; split_and?; try done;
    first [(exists []; split; [by rewrite app_nil_r|constructor]) | (eexists; split; [reflexivity|by repeat constructor])].
Qed.

Lemma close_step_lock x m x' m' : close_step x m = Some (x', m') →
  pm_stopChan m' = (if stopping x then pm_stopChan m else stopping x') ∧ (stopping x = true → stopping x' = true) ∧
  (if closing_inside x'
   then (closing_inside x = true ∧ pm_tunnelMu m' = pm_tunnelMu m) ∨ (pm_tunnelMu m = None ∧ pm_tunnelMu m' = Some ByClose)
   else (closing_inside x = false ∧ pm_tunnelMu m' = pm_tunnelMu m) ∨ (closing_inside x = true ∧ pm_tunnelMu m' = None)) ∧
  (locked_out x' = true → locked_out x = true ∨ pm_tunnelMu m = None).
Proof.
  intros H. destruct x; simpl in H; repeat (case_match; simplify_eq/=); simplify_eq/=; unfold set_field in *; cbn in *;
    try match goal with |- context [close_tunnel ?t ?m] => destruct (close_tunnel_same t m) as (_ & _ & _ & -> & -> & _) end;
    split_and?; try done; auto.
Qed.

Lemma lock_close_step s x m' :
  lock_inv s → close_step (sy_close s) (sy_mgr s) = Some (x, m') → lock_inv (s <| sy_close := x |> <| sy_mgr := m' |>).
Proof.
  intros [L1 L2 L3 L4 L5] Hs. destruct (close_step_lock _ _ _ _ Hs) as (Est & Emono & Emu & Eout).
  split; unfold set_field; cbn.
  - intros i c Hi Hc. specialize (L1 i c Hi Hc). destruct (closing_inside x).
    + destruct Emu as [[_ ->]|[Hn _]]; [done|congruence].
    + destruct Emu as [[_ ->]|[Hx _]]; [done|]. apply L3 in Hx. congruence.
  - intros i Hi. apply L2. destruct (closing_inside x); destruct Emu as [[_ <-]|[_ Em]]; done || congruence.
  - destruct (closing_inside x).
    + destruct Emu as [[Hx ->]|[_ ->]]; [|done]. apply L3 in Hx. by rewrite Hx.
    + destruct Emu as [[Hx ->]|[_ ->]]; [|done]. by rewrite L3, Hx.
  - rewrite Est, L4. destruct (stopping (sy_close s)); [by rewrite Emono|done].
  - intros [Hx|Hn]%Eout i c Hi; [by eapply L5|]. destruct c; try done. specialize (L1 i _ Hi eq_refl). congruence.
Qed.

Lemma lock_step e s s' : lock_inv s → exec e s = Some s' → lock_inv s'.
Proof.
  intros HL H. destruct e; cbn [P2pManager.exec] in H.
  - destruct (sy_calls s !! i) as [pc|] eqn:Ei; [|done].
    destruct (call_step _ _ _ i random pc (sy_mgr s)) as [[pc' m']|] eqn:Es; [|done]. injection H as <-.
    by eapply lock_call_step.
  - destruct (timeout_step fire (sy_timeout s) (sy_mgr s)) as [[pc' m']|] eqn:Es; [|done]. injection H as <-.
    apply timeout_step_same in Es as (E1 & E2 & _). by apply (lock_same s).
  - destruct (close_step (sy_close s) (sy_mgr s)) as [[pc' m']|] eqn:Es; [|done]. injection H as <-. by apply lock_close_step.
  - repeat case_match; simplify_eq; by apply (lock_same s).
  - repeat case_match; simplify_eq; by apply (lock_same s).
  - repeat case_match; simplify_eq; by apply (lock_same s).
  - repeat case_match; simplify_eq; by apply (lock_same s).
  - repeat case_match; simplify_eq; [apply lock_spawn|]; by apply (lock_same s).
  - case_match; simplify_eq; [by apply lock_spawn|done].
  - repeat case_match; simplify_eq; by apply (lock_same s).
  - destruct (sy_close s) eqn:Ex; simplify_eq; try done. destruct HL as [L1 L2 L3 L4 L5]. rewrite Ex in *.
    split; unfold set_field; cbn; done.
  - repeat case_match; simplify_eq; by apply (lock_same s).
  - case_match; simplify_eq. destruct (close_tunnel_same t (sy_mgr s)) as (_ & _ & _ & E1 & E2 & _). by apply (lock_same s).
  - simplify_eq. destruct (close_tunnel_same t (sy_mgr s)) as (_ & _ & _ & E1 & E2 & _). by apply (lock_same s).
Qed.
(** ** Who is responsible for the tunnels and the socket *)

Definition carries (t : nat) (rs : list P2PResult) : Prop := ∃ r, r ∈ rs ∧ pr_Tunnel r = Some t.

Lemma carries_app t rs rs' : carries t (rs ++ rs') ↔ carries t rs ∨ carries t rs'.
Proof. unfold carries. setoid_rewrite elem_of_app. naive_solver. Qed.
Lemma carries_cons t r rs : carries t (r :: rs) ↔ pr_Tunnel r = Some t ∨ carries t rs.
Proof. unfold carries. setoid_rewrite elem_of_cons. naive_solver. Qed.
Lemma carries_nil t : ¬ carries t [].
Proof. intros (r & Hr & _). by apply not_elem_of_nil in Hr. Qed.
Lemma carries_none t rs : Forall (fun r => pr_Tunnel r = None) rs → ¬ carries t rs.
Proof. intros H (r & Hr & E). rewrite Forall_forall in H. specialize (H r Hr). congruence. Qed.

Lemma taken_spec t s : taken t s = true ↔ carries t (sy_taken s).
Proof.
  unfold taken, carries. rewrite existsb_exists. split; intros (r & Hr & E); exists r.
  - apply bool_decide_eq_true in E. by rewrite list_elem_of_In.
  - rewrite <- list_elem_of_In. by rewrite bool_decide_true.
Qed.

(** [held t]: some call has tunnel [t] on its hands; [tk]: what the client has
    received. *)
Record owned (held : nat → Prop) (x : ClosePc) (tk : list P2PResult) (m : P2PManager) : Prop := {
  own_valid : ∀ t, held t → is_Some (pm_tunnels m !! t);
  own_open : ∀ t tn, pm_tunnels m !! t = Some tn → tn_open tn = true → held t ∨ carries t (pm_resultCh m) ∨ carries t tk;
  own_conn : pm_localConn m = true → ∀ t tn, pm_tunnels m !! t = Some tn → tn_open tn = true;
  own_created : pm_tunnelCreated m = true →
    ∃ t tn, pm_tunnels m !! t = Some tn ∧ (carries t (pm_resultCh m) ∨ carries t tk ∨ tn_open tn = false);
  own_drained : drained x = true → ∀ t, ¬ carries t (pm_resultCh m);
  own_freed : freed x = true → pm_tunnelCreated m = true ∨ pm_localConn m = false;
}.

Lemma owned_same held held' x tk m m' :
  owned held x tk m → (∀ t, held t ↔ held' t) →
  pm_tunnels m' = pm_tunnels m → pm_localConn m' = pm_localConn m → pm_tunnelCreated m' = pm_tunnelCreated m →
  (∀ t, carries t (pm_resultCh m') ↔ carries t (pm_resultCh m)) → owned held' x tk m'.
Proof.
  intros [O1 O2 O3 O4 O5 O6] Hh E1 E2 E3 E4. split; rewrite ?E1, ?E2, ?E3; try done.
  - intros t Ht. apply O1. by apply Hh.
  - intros t tn Ht Ho. rewrite E4, <- Hh. by eapply O2.
  - intros Hc. destruct (O4 Hc) as (t & tn & Ht & Hr). exists t, tn. by rewrite E4.
  - intros Hd t. rewrite E4. by apply O5.
Qed.

Lemma owned_new (held held' : nat → Prop) x tk m b :
  owned held x tk m → (∀ t, held' t ↔ held t ∨ t = length (pm_tunnels m)) →
  owned held' x tk (m <| pm_tunnels := pm_tunnels m ++ [mkTunnel b true] |>).
Proof.
  intros [O1 O2 O3 O4 O5 O6] Hh. split; unfold set_field; cbn; try done.
  - intros t [Ht| ->]%Hh; [|rewrite lookup_app_r, Nat.sub_diag by lia; by eexists].
    destruct (O1 t Ht) as [tn Htn]. exists tn. by apply lookup_app_l_Some.
  - intros t tn [Ht|[Hlen Ht]]%lookup_app_Some Ho.
    + rewrite Hh. destruct (O2 t tn Ht Ho) as [?|?]; auto.
    + left. apply Hh. right. apply list_lookup_singleton_Some in Ht as [Ht _]. lia.
  - intros Hc t tn [Ht|[_ [_ <-]%list_lookup_singleton_Some]]%lookup_app_Some; [by eapply O3|done].
  - intros Hc. destruct (O4 Hc) as (t & tn & Ht & Hr). exists t, tn. split; [by apply lookup_app_l_Some|done].
Qed.

Lemma owned_send (held held' : nat → Prop) x tk m t :
  owned held x tk m → held t → (∀ u, held u → held' u ∨ u = t) → (∀ u, held' u → held u) → drained x = false →
  owned held' x tk (m <| pm_resultCh := pm_resultCh m ++ [mkResult (Some t) false] |> <| pm_tunnelCreated := true |>).
Proof.
  intros [O1 O2 O3 O4 O5 O6] Ht H1 H2 Hx. split; unfold set_field; cbn; try done.
  - auto.
  - intros u tn Hu Ho. rewrite carries_app, carries_cons. cbn. destruct (O2 u tn Hu Ho) as [[?| ->]%H1|[?|?]]; auto.
  - intros _. destruct (O1 t Ht) as [tn Htn]. exists t, tn. split; [done|]. left. rewrite carries_app, carries_cons. cbn. auto.
  - congruence.
  - auto.
Qed.

(** Closing a tunnel never hurts. *)
Lemma owned_close (held held' : nat → Prop) x tk m t :
  owned held x tk m → (∀ u, held u → held' u ∨ u = t) → (∀ u, held' u → held u) → owned held' x tk (close_tunnel t m).
Proof.
  intros [O1 O2 O3 O4 O5 O6] H1 H2. unfold close_tunnel. destruct (pm_tunnels m !! t) as [tn0|] eqn:E0.
  2:{ split; try done; auto. intros u tn Hu Ho. destruct (O2 u tn Hu Ho) as [[?| ->]%H1|?]; [auto|congruence|auto]. }
  destruct (tn_open tn0) eqn:Eo.
  2:{ split; try done; auto. intros u tn Hu Ho. destruct (O2 u tn Hu Ho) as [[?| ->]%H1|?]; [auto|congruence|auto]. }
  split; unfold set_field; cbn; try done; auto.
  - intros u Hu. apply H2, O1 in Hu. destruct (decide (u = t)) as [->|Hne]; [|by rewrite list_lookup_insert_ne].
    rewrite list_lookup_insert_eq; [by eexists|]. by eapply lookup_lt_Some.
  - intros u tn [[-> ->]|[Hne Hu]]%lookup_update Ho; [done|]. destruct (O2 u tn Hu Ho) as [[?| ->]%H1|?]; auto. done.
  - intros Hc. destruct (O4 Hc) as (u & tn & Hu & Hr). destruct (decide (u = t)) as [->|Hne].
    + exists t, (mkTunnel (tn_relay tn0) false). split; [|auto]. apply list_lookup_insert_eq. by eapply lookup_lt_Some.
    + exists u, tn. by rewrite list_lookup_insert_ne.
Qed.

Definition held (s : System) (t : nat) : Prop := ∃ i c, sy_calls s !! i = Some c ∧ holds c = Some t.
Definition sys_owned (s : System) : Prop := owned (held s) (sy_close s) (sy_taken s) (sy_mgr s).

Lemma held_update s i pc pc' m t : sy_calls s !! i = Some pc →
  (holds pc' = Some t ∨ (∃ j c, j ≠ i ∧ sy_calls s !! j = Some c ∧ holds c = Some t)) ↔
  held (s <| sy_calls := <[i := pc']> (sy_calls s) |> <| sy_mgr := m |>) t.
Proof.
  intros Hi. unfold held, set_field. cbn. split.
  - intros [Hp|(j & c & Hne & Hj & Hc)]; [exists i, pc'|exists j, c].
    + rewrite list_lookup_insert_eq; [done|]. by eapply lookup_lt_Some.
    + by rewrite list_lookup_insert_ne.
  - intros (j & c & [[-> ->]|[Hne Hj]]%lookup_update & Hc); [by left|right]. by exists j, c.
Qed.

Lemma held_others s i pc t : sy_calls s !! i = Some pc →
  held s t ↔ holds pc = Some t ∨ (∃ j c, j ≠ i ∧ sy_calls s !! j = Some c ∧ holds c = Some t).
Proof.
  intros Hi. unfold held. split.
  - intros (j & c & Hj & Hc). destruct (decide (j = i)) as [->|]; [left; congruence|right; by exists j, c].
  - intros [?|(j & c & _ & ? & ?)]; [by exists i, pc|by exists j, c].
Qed.

Lemma owned_call_step i random s pc pc' m' :
  sys_owned s → lock_inv s → sy_calls s !! i = Some pc →
  call_step hkdf hmac Marshal i random pc (sy_mgr s) = Some (pc', m') →
  sys_owned (s <| sy_calls := <[i := pc']> (sy_calls s) |> <| sy_mgr := m' |>).
Proof.
  intros HO HL Hi Hs. unfold sys_owned in *.
  set (s' := s <| sy_calls := _ |> <| sy_mgr := m' |>).
  assert (∀ t, held s' t ↔ holds pc' = Some t ∨ (∃ j c, j ≠ i ∧ sy_calls s !! j = Some c ∧ holds c = Some t)) as Hh'
    by (intros t; symmetry; by apply (held_update s i pc)).
  pose proof (λ t, held_others s i pc t Hi) as Hh.
  change (owned (held s') (sy_close s) (sy_taken s) m'). clearbody s'.
  assert (holds pc = holds pc' → ∀ t, held s t ↔ held s' t) as Hsame by (intros E t; rewrite Hh, Hh', E; done).
  destruct pc; simpl in Hs; repeat (case_match; simplify_eq/=); simplify_eq/=;
    try (eapply owned_same; [exact HO|by apply Hsame|done..]).
  - apply (owned_new (held s)); [done|]. intros t. rewrite Hh, Hh'. cbn. naive_solver.
  - assert (drained (sy_close s) = false) as Hd.
    { destruct (drained (sy_close s)) eqn:Hd; [|done]. assert (locked_out (sy_close s) = true) as Hx by by destruct (sy_close s).
      by pose proof (lock_out s HL Hx i _ Hi). }
    eapply owned_send; [exact HO|apply Hh; by left| | |exact Hd]; intros u; rewrite ?Hh, ?Hh'; naive_solver.
  - eapply owned_close; [exact HO|..]; intros u; rewrite Hh, Hh'; naive_solver.
Qed.

(** A result taken off the channel and its tunnel closed. *)
Lemma owned_pop h x tk m r rs n :
  owned h x tk m → pm_resultCh m = r :: rs → pr_Tunnel r = Some n → owned h x tk (close_tunnel n (m <| pm_resultCh := rs |>)).
Proof.
  intros [O1 O2 O3 O4 O5 O6] Er Hn. rewrite Er in *. unfold close_tunnel, set_field. cbn.
  assert (∀ t, t ≠ n → carries t (r :: rs) ↔ carries t rs) as Hc by (intros t Ht; rewrite carries_cons; naive_solver).
  destruct (pm_tunnels m !! n) as [tn0|] eqn:E0; [destruct (tn_open tn0) eqn:Eo|]; split; cbn; try done.
  - intros t Ht. destruct (decide (t = n)) as [->|]; [|rewrite list_lookup_insert_ne by done; auto].
    rewrite list_lookup_insert_eq; [by eexists|]. by eapply lookup_lt_Some.
  - intros t tn [[-> ->]|[Hne Ht]]%lookup_update Ho; [done|]. rewrite <- Hc by done. by eapply O2.
  - intros H. destruct (O4 H) as (t & tn & Ht & Hr). destruct (decide (t = n)) as [->|Hne].
    + exists n, (mkTunnel (tn_relay tn0) false). split; [|auto]. apply list_lookup_insert_eq. by eapply lookup_lt_Some.
    + exists t, tn. rewrite list_lookup_insert_ne, <- Hc by done. done.
  - intros H t Ht. apply (O5 H t). rewrite carries_cons. auto.
  - auto.
  - intros t tn Ht Ho. assert (t ≠ n) by congruence. rewrite <- Hc by done. by eapply O2.
  - intros H. destruct (O4 H) as (t & tn & Ht & Hr). exists t, tn. split; [done|]. destruct (decide (t = n)) as [->|Hne].
    + right. right. congruence.
    + by rewrite <- Hc.
  - intros H t Ht. apply (O5 H t). rewrite carries_cons. auto.
  - intros t tn Ht Ho. assert (t ≠ n) by congruence. rewrite <- Hc by done. by eapply O2.
  - intros H. destruct (O4 H) as (t & tn & Ht & Hr). exists t, tn. split; [done|]. rewrite <- Hc; [done|congruence].
  - intros H t Ht. apply (O5 H t). rewrite carries_cons. auto.
Qed.

Lemma owned_close_step s x m' :
  sys_owned s → close_step (sy_close s) (sy_mgr s) = Some (x, m') → sys_owned (s <| sy_close := x |> <| sy_mgr := m' |>).
Proof.
  intros HO Hs. unfold sys_owned in *. change (owned (held s) x (sy_taken s) m').
  revert HO. generalize (held s). intros h HO. revert Hs HO. generalize (sy_mgr s) (sy_taken s). intros m tk Hs HO.
  destruct (sy_close s) eqn:Ex; simpl in Hs; repeat (case_match; simplify_eq/=); simplify_eq/=;
    try (by destruct HO; split); try match goal with H : pr_Tunnel _ = Some _ |- _ => by eapply owned_pop end.
  - destruct HO as [O1 O2 O3 O4 O5 O6]. split; try done. intros _ t. rewrite H. apply carries_nil.
  - destruct HO as [O1 O2 O3 O4 O5 O6]. rewrite H in *. split; unfold set_field; cbn; try done.
    + intros t tn Ht Ho. destruct (O2 t tn Ht Ho) as [?|[Hr|?]]; auto. apply carries_cons in Hr as [?|?]; [congruence|auto].
    + intros Hc. destruct (O4 Hc) as (t & tn & Ht & Hr). exists t, tn. split; [done|].
      destruct Hr as [Hr|?]; [|auto]. apply carries_cons in Hr as [?|?]; [congruence|auto].
  - destruct HO as [O1 O2 O3 O4 O5 O6]. split; unfold set_field; cbn; auto.
  - destruct HO as [O1 O2 O3 O4 O5 O6]. split; unfold set_field; cbn; auto. done.
Qed.

Lemma held_same s s' : sy_calls s' = sy_calls s → ∀ t, held s t ↔ held s' t.
Proof. intros E t. unfold held. by rewrite E. Qed.

Lemma held_spawn s from t : held s t ↔ held (spawn from s) t.
Proof.
  unfold held, spawn, set_field. cbn. split.
  - intros (i & c & Hi & Hc). exists i, c. split; [by apply lookup_app_l_Some|done].
  - intros (i & c & [?|[_ [_ <-]%list_lookup_singleton_Some]]%lookup_app_Some & Hc); [by exists i, c|done].
Qed.

Lemma owned_receive h x tk m r rs :
  owned h x tk m → pm_resultCh m = r :: rs → owned h x (tk ++ [r]) (m <| pm_resultCh := rs |>).
Proof.
  intros [O1 O2 O3 O4 O5 O6] Er. rewrite Er in *. 
  assert (∀ t, carries t (r :: rs) ∨ carries t tk ↔ carries t rs ∨ carries t (tk ++ [r])) as Hc.
  { intros t. rewrite carries_app, !carries_cons. pose proof (carries_nil t). tauto. }
  split; unfold set_field; cbn; try done.
  - intros t tn Ht Ho. rewrite <- Hc. by eapply O2.
  - intros H. destruct (O4 H) as (t & tn & Ht & Hr). exists t, tn. split; [done|]. specialize (Hc t). tauto.
  - intros H t Ht. apply (O5 H t). rewrite carries_cons. auto.
Qed.

Lemma owned_step e s s' : lock_inv s → sys_owned s → exec e s = Some s' → sys_owned s'.
Proof.
  intros HL HO H. destruct e; cbn [P2pManager.exec] in H.
  - destruct (sy_calls s !! i) as [pc|] eqn:Ei; [|done].
    destruct (call_step _ _ _ i random pc (sy_mgr s)) as [[pc' m']|] eqn:Es; [|done]. injection H as <-.
    by eapply owned_call_step.
  - destruct (timeout_step fire (sy_timeout s) (sy_mgr s)) as [[pc' m']|] eqn:Es; [|done]. injection H as <-.
    apply timeout_step_same in Es as (_ & _ & E1 & E2 & E3 & rs & Er & Hrs).
    eapply owned_same; [exact HO|by apply held_same|done..|]. intros t. cbn. rewrite Er, carries_app.
    pose proof (carries_none t rs Hrs). tauto.
  - destruct (close_step (sy_close s) (sy_mgr s)) as [[pc' m']|] eqn:Es; [|done]. injection H as <-. by apply owned_close_step.
  - repeat case_match; simplify_eq; exact HO.
  - repeat case_match; simplify_eq; exact HO.
  - repeat case_match; simplify_eq; exact HO.
  - repeat case_match; simplify_eq. eapply owned_same; [exact HO|by apply held_same|done..].
  - repeat case_match; simplify_eq; [|exact HO]. eapply owned_same; [exact HO|intros t; change (held s t) with (held (s <| sy_recv := RDone |>) t); apply held_spawn|done..].
  - case_match; simplify_eq; [|exact HO]. eapply owned_same; [exact HO|intros t; apply held_spawn|done..].
  - repeat case_match; simplify_eq. eapply owned_same; [exact HO|by apply held_same|done..].
  - injection H as <-. unfold sys_owned in *. destruct (sy_close s) eqn:Ex; try (rewrite Ex; exact HO).
    destruct HO as [O1 O2 O3 O4 O5 O6]. split; unfold set_field; cbn; done.
  - repeat case_match; simplify_eq. by apply (owned_receive (held s)).
  - case_match; simplify_eq. by apply (owned_close (held s)); auto.
  - simplify_eq. by apply (owned_close (held s)); auto.
Qed.
End manager.

(** ** What is punched *)

(** The prediction covers every other port within the range, once. *)
Lemma predicted_exact a r x :
  x ∈ predicted a r ↔ ua_IP x = ua_IP a ∧ 1 ≤ ua_Port x ≤ 65535 ∧ ua_Port x ≠ ua_Port a ∧ Z.abs (ua_Port x - ua_Port a) ≤ Z.of_nat r.
Proof.
  unfold predicted. rewrite list_elem_of_omap. split.
  - intros (i & Hi%elem_of_seq & E). cbv zeta in E. destruct (Z.eqb_spec (Z.of_nat i - Z.of_nat r) 0); [done|].
    destruct (Z.ltb_spec 0 (ua_Port a + (Z.of_nat i - Z.of_nat r))); [|done].
    destruct (Z.leb_spec (ua_Port a + (Z.of_nat i - Z.of_nat r)) 65535); [|done]. injection E as <-. cbn. split; [done|lia].
  - destruct x as [ip port]. cbn. intros (-> & Hp & Hne & Ha). exists (Z.to_nat (port - ua_Port a + Z.of_nat r)).
    rewrite elem_of_seq. split; [lia|]. cbv zeta. rewrite Z2Nat.id by lia.
    replace (port - ua_Port a + Z.of_nat r - Z.of_nat r) with (port - ua_Port a) by lia.
    rewrite (proj2 (Z.eqb_neq (port - ua_Port a) 0)) by lia. replace (ua_Port a + (port - ua_Port a)) with port by lia.
    rewrite (proj2 (Z.ltb_lt 0 port)), (proj2 (Z.leb_le port 65535)) by lia. done.
Qed.

(** A ticker is never made with an interval of zero, whatever plan the goroutine
    sees. *)
Lemma intervals_positive pi plan nat peerNAT stun :
  Forall (fun s => match s with TestPackets _ i | RelayTestPackets _ _ i => 0 < i | BirthdayAttack _ _ => True end)
    (startHolePunching pi plan nat peerNAT stun).
Proof.
  unfold startHolePunching. destruct pi as [[pub priv]|]; [|constructor]. cbn [pi_PublicAddr pi_PrivateAddr].
  assert (0 < if privateInterval plan <=? 0 then privatePunchInterval else privateInterval plan) as Hi.
  { destruct (Z.leb_spec (privateInterval plan) 0); [done|lia]. }
  destruct (lanOnly plan), priv, pub, (bool_decide (nat = NATSymmetric)), stun; cbn [app]; repeat constructor; done.
Qed.
