(* ===== verification/P2pManagerClose.v ===== *)
(** * Runs of the P2P manager

    From [Start] on, whatever the interleaving: what [Close] leaves behind, that
    everything ends once it has been called, and what it takes for the manager
    to believe in a connection ([nothing_left_behind], [close_ends_everything],
    [connected_by_peer]). *)

From S2P Require Import Prelude GoNet GoText GoBinary P2pTunnel P2pRelay ProtoPunch StunCandidates P2pManager P2pManagerThms.

Open Scope Z_scope.

Section runs.
Context (hkdf : gostring → gostring → gostring → list Z) (hmac : list Z → list Z → list Z).
Context (Marshal : P2PTestPacket → list Z) (Unmarshal : list Z → option P2PTestPacket).
Context (ResolveUDPAddr : gostring → option UDPAddr).

Notation exec := (exec hkdf hmac Marshal Unmarshal ResolveUDPAddr).
Notation exec_all := (exec_all hkdf hmac Marshal Unmarshal ResolveUDPAddr).

(** What [Start] leaves running, in whatever surroundings. *)
Definition started (m : P2PManager) (s0 : System) : Prop :=
  (∃ mode sid share code, m = NewP2PManager mode sid share code) ∧
  ∃ bindIP physical outbound bind discover server advertised fallback av,
    Start m bindIP physical outbound bind ResolveUDPAddr discover server advertised fallback = Some (s0, av).

Record good (s : System) : Prop := { good_budget : budget s; good_lock : lock_inv s; good_owned : sys_owned s }.

(** Nothing has happened yet. *)
Lemma fresh_good s :
  sy_calls s = [] → sy_taken s = [] → pm_tunnels (sy_mgr s) = [] → pm_tunnelCreated (sy_mgr s) = false → sy_close s = XIdle →
  pm_connected (sy_mgr s) = false → pm_tunnelMu (sy_mgr s) = None → pm_stopChan (sy_mgr s) = false →
  (timeout_sends (sy_timeout s) + length (pm_resultCh (sy_mgr s)) = 1)%nat → good s.
Proof.
  intros E1 E2 E3 E4 E5 E6 E7 E8 E9. split.
  - split; unfold once, total; rewrite ?E1, ?E3, ?E6; simpl; lia.
  - split; rewrite ?E1, ?E5, ?E7, ?E8; done.
  - split; rewrite ?E3, ?E4, ?E5; try done. intros t (i & c & Hi & _). by rewrite E1 in Hi.
Qed.

Lemma started_good m s0 : started m s0 → good s0.
Proof.
  intros [(mode & sid & share & code & ->) (bindIP & physical & outbound & bind & discover & server & advertised & fallback & av & H)].
  unfold Start in H. cbn [pm_mode NewP2PManager] in H. revert H. generalize (listen_ip bindIP physical). intros ip.
  generalize (match stun_candidates server advertised fallback with Some c => discover c | None => [] end). intros probes.
  generalize (if bool_decide (server = []) then None else ResolveUDPAddr server). intros stun.
  destruct (bind ip) as [bound|]; [generalize (local_addr ip bound outbound); intros local;
    generalize (match probes with [] => NATUnknown | _ :: _ => nat_type (ua_IP local) probes end); intros nat|].
  all: destruct mode; try discriminate; intros H; apply (f_equal (option_map fst)) in H; injection H as <-;
    apply fresh_good; reflexivity.
Qed.

Lemma good_run es : ∀ s s', good s → exec_all es s = Some s' → good s'.
Proof.
  induction es as [|e es IH]; intros s s' Hg; [by intros [= <-]|]. cbn [P2pManager.exec_all].
  destruct (exec e s) as [s1|] eqn:He; [|done]. apply IH. destruct Hg.
  split; [by eapply budget_step|by eapply lock_step|by eapply owned_step].
Qed.

(** C21: Once [Close] has run and no call of [onP2PConnected] is still under way,
    no goroutine of the manager is left with a tunnel: there is at most one
    tunnel, it is open only if the client has received it, none waits in the
    channel, and the socket is closed unless the client has such a tunnel.  This
    holds for every interleaving of the time-out, the receive loop, the packets,
    [Close] and the client. *)
Theorem nothing_left_behind m s0 es s :
  started m s0 → exec_all es s0 = Some s → sy_close s = XDone → Forall (eq CDone) (sy_calls s) →
  (length (pm_tunnels (sy_mgr s)) ≤ 1)%nat
  ∧ (∀ t tn, pm_tunnels (sy_mgr s) !! t = Some tn → tn_open tn = true → taken t s = true)
  ∧ (∀ r, r ∈ pm_resultCh (sy_mgr s) → pr_Tunnel r = None)
  ∧ (pm_localConn (sy_mgr s) = true →
     ∃ t tn, pm_tunnels (sy_mgr s) !! t = Some tn ∧ tn_open tn = true ∧ taken t s = true).
Proof.
  intros Hs He Hx Hc. destruct (good_run es s0 s (started_good m s0 Hs) He) as [[_ B2] _ [O1 O2 O3 O4 O5 O6]].
  rewrite Hx in *. assert (∀ t, ¬ held s t) as Hh.
  { intros t (i & c & Hi & Hc'). rewrite Forall_forall in Hc. rewrite <- (Hc c) in Hc'; [done|]. by eapply list_elem_of_lookup_2. }
  assert (∀ t tn, pm_tunnels (sy_mgr s) !! t = Some tn → tn_open tn = true → taken t s = true) as Ht.
  { intros t tn Htn Hopen. destruct (O2 t tn Htn Hopen) as [?|[?|?]]; [by destruct (Hh t)|by destruct (O5 eq_refl t)|].
    by apply taken_spec. }
  split_and!; [lia|exact Ht| |].
  - intros r Hr. destruct (pr_Tunnel r) as [t|] eqn:Er; [|done]. destruct (O5 eq_refl t). by exists r.
  - intros Hconn. destruct (O6 eq_refl) as [Hcr|?]; [|congruence].
    destruct (O4 Hcr) as (t & tn & Htn & Hr). exists t, tn. pose proof (O3 Hconn t tn Htn) as Hopen. split_and!; eauto.
Qed.

(** ** Everything ends *)

Definition call_work (c : CallPc) : nat :=
  match c with
  | CLock _ => 17 | CConfirm _ _ n _ => 11 + n | CBackground _ => 10 | CNotify _ => 9 | CStopRecv _ => 8 | CNewTunnel _ => 7
  | CLockTunnel _ => 6 | CSelectStop _ => 5 | CSend _ => 4 | CUnlock _ _ => 2 | CCloseTunnel _ => 1 | CDone => 0
  end.
Definition retry_work (i : nat) : nat := if (3 <=? i)%nat then 1 else 2 * (3 - i) + 1.
Definition timeout_work (t : TimeoutPc) : nat :=
  match t with
  | TWait => 12 | TCheck => 11 | TBackground => 10 | TFallback => 9 | TFail => 2
  | TRetry i => retry_work i | TRetryCheck i => S (retry_work (S i)) | TDone => 0
  end.
Definition recv_work (r : RecvPc) : nat := match r with RRead => 2 | RTop => 1 | RDone => 0 end.
Definition close_work (x : ClosePc) : nat :=
  match x with XIdle => 0 | XStop => 6 | XStopRecv => 5 | XLock => 4 | XDrain => 3 | XConn => 2 | XUnlock => 1 | XDone => 0 end.

Definition work (s : System) : nat :=
  total call_work (sy_calls s) + timeout_work (sy_timeout s) + recv_work (sy_recv s) + close_work (sy_close s) +
  length (pm_resultCh (sy_mgr s)) + match sy_ready s with Some _ => 1 | None => 0 end.

(** The steps of the manager's own goroutines. *)
Definition own (e : Event) : bool :=
  match e with
  | ECall _ _ | ETimeout _ | EClose | ERecv | EReadTimeout | EReadError | EReadyPlan => true
  | _ => false
  end.

Definition finished (s : System) : Prop :=
  Forall (eq CDone) (sy_calls s) ∧ sy_timeout s = TDone ∧ sy_recv s = RDone ∧ sy_close s = XDone.

Lemma own_works e s s' :
  own e = true → pm_stopChan (sy_mgr s) = true → exec e s = Some s' → (work s' < work s)%nat ∧ pm_stopChan (sy_mgr s') = true.
Proof.
  intros Ho Hstop H. unfold work. destruct e; try done; cbn [P2pManager.exec] in H.
  - destruct (sy_calls s !! i) as [pc|] eqn:Ei; [|done].
    destruct (call_step _ _ _ i random pc (sy_mgr s)) as [[pc' m']|] eqn:Es; [|done]. injection H as <-.
    pose proof (total_insert call_work _ _ _ pc' Ei) as T. unfold set_field. cbn.
    destruct pc; simpl in Es; repeat (case_match; simplify_eq/=); simplify_eq/=; unfold set_field in *; cbn in *;
      rewrite ?length_app; cbn [length];
      try match goal with |- context [close_tunnel ?t ?m] => destruct (close_tunnel_same t m) as (_ & -> & _ & _ & -> & _) end;
      split; done || lia.
  - destruct (timeout_step fire (sy_timeout s) (sy_mgr s)) as [[pc' m']|] eqn:Es; [|done]. injection H as <-.
    unfold set_field. cbn. destruct (sy_timeout s) eqn:Et; simpl in Es; unfold send_result, punch, retry_work in *;
      repeat (case_match; simplify_eq/=); simplify_eq/=; unfold set_field in *; cbn in *; rewrite ?length_app; cbn [length];
      split; done || lia.
  - destruct (close_step (sy_close s) (sy_mgr s)) as [[pc' m']|] eqn:Es; [|done]. injection H as <-.
    unfold set_field. cbn. destruct (sy_close s) eqn:Ex; simpl in Es; repeat (case_match; simplify_eq/=); simplify_eq/=; unfold set_field in *; cbn in *;
      try match goal with |- context [close_tunnel ?t ?m] => destruct (close_tunnel_same t m) as (_ & -> & _ & _ & -> & _) end; cbn;
      try match goal with E : pm_resultCh _ = [] |- _ => rewrite E end; cbn;
      split; done || lia.
  - destruct (sy_recv s); simplify_eq. unfold set_field. cbn. rewrite Hstop. cbn. split; [lia|done].
  - destruct (sy_recv s), (pm_localConn (sy_mgr s)); simplify_eq. unfold set_field. cbn. split; [lia|done].
  - destruct (sy_recv s); simplify_eq. unfold set_field. cbn. split; [lia|done].
  - destruct (sy_ready s); simplify_eq. unfold set_field, ready_plan, punch. cbn. split; [lia|done].
Qed.

(** The holder of the mutex can always go on. *)
Lemma mutex_goes_on s o : lock_inv s → pm_tunnelMu (sy_mgr s) = Some o → ∃ e s', own e = true ∧ exec e s = Some s'.
Proof.
  intros HL Ho. destruct o as [i|].
  - destruct (lock_held s HL i Ho) as (c & Hc & Hin). exists (ECall i []). cbn [P2pManager.exec]. rewrite Hc.
    destruct c; try done; simpl; repeat case_match; (eexists; split; reflexivity).
  - exists EClose. cbn [P2pManager.exec]. apply (lock_close s HL) in Ho. destruct (sy_close s); try done; simpl; repeat case_match; (eexists; split; reflexivity).
Qed.

Lemma call_goes_on s i c : lock_inv s → sy_calls s !! i = Some c → c ≠ CDone → ∃ e s', own e = true ∧ exec e s = Some s'.
Proof.
  intros HL Hi Hc. destruct c as [|a d [|n] b| | | | |t| | | | |]; try done; try (exists (ECall i []); cbn [P2pManager.exec]; rewrite Hi; simpl; repeat case_match; (eexists; split; reflexivity)).
  destruct (pm_tunnelMu (sy_mgr s)) as [o|] eqn:Hm; [by eapply mutex_goes_on|].
  exists (ECall i []). cbn [P2pManager.exec]. rewrite Hi. cbn [call_step]. rewrite Hm. (eexists; split; reflexivity).
Qed.

Lemma unfinished_goes_on s : good s → pm_stopChan (sy_mgr s) = true → ¬ finished s → ∃ e s', own e = true ∧ exec e s = Some s'.
Proof.
  intros [[B1 _] HL _] Hstop Hf.
  destruct (decide (Forall (eq CDone) (sy_calls s))) as [Hcalls|Hcalls].
  2:{ apply not_Forall_Exists, Exists_exists in Hcalls; [|apply _]. destruct Hcalls as (c & Hc & Hne).
      apply list_elem_of_lookup_1 in Hc as [i Hi]. eapply call_goes_on; [done|exact Hi|]. intros ->. by apply Hne. }
  destruct (decide (sy_timeout s = TDone)) as [Ht|Ht].
  2:{ destruct (sy_timeout s) eqn:Et; try done; (exists (ETimeout false); cbn [P2pManager.exec]; rewrite Et; simpl; rewrite ?Hstop).
      all: try (repeat case_match; eexists; split; reflexivity).
      all: unfold send_result; cbn [timeout_sends] in B1; rewrite (proj2 (Nat.ltb_lt _ _)) by (unfold resultCap; lia); (eexists; split; reflexivity). }
  destruct (sy_recv s) eqn:Er.
  { exists ERecv. cbn [P2pManager.exec]. rewrite Er. (eexists; split; reflexivity). }
  { destruct (pm_localConn (sy_mgr s)) eqn:El; [exists EReadTimeout|exists EReadError]; cbn [P2pManager.exec]; rewrite Er, ?El; (eexists; split; reflexivity). }
  destruct (sy_close s) eqn:Ex; try (exists EClose; cbn [P2pManager.exec]; rewrite Ex; simpl; repeat case_match; (eexists; split; reflexivity)).
  - pose proof (lock_stop s HL) as Hl. rewrite Ex, Hstop in Hl. done.
  - destruct (pm_tunnelMu (sy_mgr s)) as [o|] eqn:Hm; [by eapply mutex_goes_on|].
    exists EClose. cbn [P2pManager.exec]. rewrite Ex. cbn [close_step]. rewrite Hm. (eexists; split; reflexivity).
  - by destruct Hf.
Qed.


(** ** Who can make it connect *)

Definition identity (m : P2PManager) : gostring * gostring * bool := (pm_sessionID m, pm_authCode m, pm_isShare m).

Lemma close_tunnel_identity t m : identity (close_tunnel t m) = identity m.
Proof. unfold close_tunnel. repeat case_match; reflexivity. Qed.

(** The event brings a packet the manager accepts. *)
Definition brings (m : P2PManager) (e : Event) : Prop :=
  match e with EDatagram d _ | EBirthday d _ => accepts hkdf hmac Unmarshal d m = true | _ => False end.

Lemma brings_same m m' e : identity m' = identity m → brings m' e → brings m e.
Proof. unfold identity. intros [= E1 E2 E3]. destruct e; cbn; try done; unfold accepts, acceptPunch; by rewrite E1, E2, E3. Qed.

Ltac quiet := split; [reflexivity|intros ? ?; first [discriminate | left; assumption | right; split; assumption]].

Ltac quiet_close :=
  split; [exact (close_tunnel_identity _ _)|
    intros ? ?; right; split; [assumption|etransitivity; [exact (proj1 (close_tunnel_same _ _))|assumption]]].

Lemma quiet_step e s s' : exec e s = Some s' →
  identity (sy_mgr s') = identity (sy_mgr s) ∧
  (sy_calls s = [] → pm_connected (sy_mgr s) = false →
   brings (sy_mgr s) e ∨ (sy_calls s' = [] ∧ pm_connected (sy_mgr s') = false)).
Proof.
  intros H. destruct e; cbn [P2pManager.exec] in H.
  - destruct (sy_calls s !! i) as [pc|] eqn:Ei; [|done].
    destruct (call_step _ _ _ i random pc (sy_mgr s)) as [[pc' m']|] eqn:Es; [|done]. injection H as <-. split.
    + destruct pc; simpl in Es; repeat (case_match; simplify_eq/=); simplify_eq/=; try reflexivity. apply close_tunnel_identity.
    + intros Hc. by rewrite Hc in Ei.
  - destruct (timeout_step fire (sy_timeout s) (sy_mgr s)) as [[pc' m']|] eqn:Es; [|done]. injection H as <-.
    destruct (sy_timeout s); simpl in Es; unfold send_result, punch in Es; repeat (case_match; simplify_eq/=); simplify_eq/=; quiet.
  - destruct (close_step (sy_close s) (sy_mgr s)) as [[pc' m']|] eqn:Es; [|done]. injection H as <-.
    destruct (sy_close s); simpl in Es; repeat (case_match; simplify_eq/=); simplify_eq/=; first [quiet | quiet_close].
  - repeat case_match; simplify_eq; quiet.
  - repeat case_match; simplify_eq; quiet.
  - repeat case_match; simplify_eq; quiet.
  - repeat case_match; simplify_eq; quiet.
  - repeat case_match; simplify_eq; quiet.
  - case_match; simplify_eq; quiet.
  - repeat case_match; simplify_eq; quiet.
  - repeat case_match; simplify_eq; quiet.
  - repeat case_match; simplify_eq; quiet.
  - case_match; simplify_eq. quiet_close.
  - simplify_eq. quiet_close.
Qed.

Lemma quiet_run es : ∀ s s', exec_all es s = Some s' → sy_calls s = [] → pm_connected (sy_mgr s) = false →
  pm_connected (sy_mgr s') = true → ∃ e, e ∈ es ∧ brings (sy_mgr s) e.
Proof.
  induction es as [|e es IH]; intros s s'; cbn [P2pManager.exec_all]; [intros [= <-]; congruence|].
  destruct (exec e s) as [s1|] eqn:E1; [|done]. intros He Hc Hn Hs'. destruct (quiet_step e s s1 E1) as [Hid Hq].
  destruct (Hq Hc Hn) as [Hb|[Hc1 Hn1]]; [exists e; split; [by left|done]|].
  destruct (IH s1 s' He Hc1 Hn1 Hs') as (e' & He' & Hb). exists e'. split; [by right|by eapply brings_same].
Qed.

Lemma started_quiet mode sid share code s0 : started (NewP2PManager mode sid share code) s0 →
  sy_calls s0 = [] ∧ pm_connected (sy_mgr s0) = false ∧ identity (sy_mgr s0) = (sid, code, share).
Proof.
  intros [_ (bindIP & physical & outbound & bind & discover & server & advertised & fallback & av & H)].
  unfold Start in H. cbn [pm_mode NewP2PManager] in H. revert H. generalize (listen_ip bindIP physical). intros ip.
  generalize (match stun_candidates server advertised fallback with Some c => discover c | None => [] end). intros probes.
  generalize (if bool_decide (server = []) then None else ResolveUDPAddr server). intros stun.
  destruct (bind ip) as [bound|]; [generalize (local_addr ip bound outbound); intros local;
    generalize (match probes with [] => NATUnknown | _ :: _ => nat_type (ua_IP local) probes end); intros nat|].
  all: destruct mode; try discriminate; intros H; apply (f_equal (option_map fst)) in H; injection H as <-;
    split_and!; reflexivity.
Qed.

(** C23: The manager only comes to believe that it is connected through a packet
    that carries its session id and a MAC that verifies, with its code, for the
    other side: whatever else is sent to its sockets, and whatever the relay says,
    it stays unconnected. *)
Theorem connected_by_peer mode sid share code s0 es s :
  started (NewP2PManager mode sid share code) s0 → exec_all es s0 = Some s → pm_connected (sy_mgr s) = true →
  ∃ e datagram from pkt, e ∈ es ∧ (e = EDatagram datagram from ∨ e = EBirthday datagram from) ∧
    Unmarshal datagram = Some pkt ∧ pk_SessionID pkt = sid ∧
    VerifyPunchPacket hkdf hmac (Some pkt) code (negb share) = true.
Proof.
  intros Hs He Hc. destruct (started_quiet _ _ _ _ _ Hs) as (Hc0 & Hn0 & Hid).
  destruct (quiet_run es s0 s He Hc0 Hn0 Hc) as (e & Hin & Hb). unfold identity in Hid. injection Hid as E1 E2 E3.
  destruct e as [| | | | | | |d from|d from| | | | |]; try done; cbn in Hb; unfold accepts, acceptPunch in Hb;
    destruct (Unmarshal d) as [pkt|] eqn:Eu; try done; apply andb_true_iff in Hb as [Hsid%bool_decide_eq_true Hv];
    rewrite E1 in Hsid; rewrite E2, E3 in Hv; eexists _, d, from, pkt; split_and!; eauto.
Qed.
End runs.

(** ** Concrete runs

    Packets are their random field, signed by the other side, or [0] for one that
    is not a packet. *)

Definition toy_packet (random : gostring) : P2PTestPacket :=
  SignPunchPacket toy_kdf toy_hmac (mkPacket (lit "ses_1") random []) (lit "ABCD") true.
Definition toy_unmarshal (d : list Z) : option P2PTestPacket := if bool_decide (d = [0]) then None else Some (toy_packet d).

Definition toy_manager : P2PManager := NewP2PManager P2PModeAuto (lit "ses_1") false (lit "ABCD").
Definition toy_start : option (System * option PeerAddrAdvertise) :=
  Start toy_manager "" None None (fun _ => Some (mkAddr [10; 0; 0; 1] 4000)) (fun _ => None) (fun _ => []) [] [] [].
Definition toy_system : System := match toy_start with Some (s, _) => s | None => mkSystem toy_manager [] TDone RDone XIdle None [] end.
Notation toy_run := (fun es => P2pManager.exec_all toy_kdf toy_hmac pk_Random toy_unmarshal (fun _ => None) es toy_system) (only parsing).

Lemma toy_started : started (fun _ => None) toy_manager toy_system.
Proof.
  split; [by (exists P2PModeAuto, (lit "ses_1"), false, (lit "ABCD"))|].
  exists ""%string, None, None, (fun _ => Some (mkAddr [10; 0; 0; 1] 4000)), (fun _ => []), [], [], [].
  eexists. reflexivity.
Qed.

Definition peer_addr : UDPAddr := mkAddr [203; 0; 113; 9] 5000.
(** The peer's packet comes; the call goes on until it has seen that the manager
    is not in the background. *)
Definition packet_in : list Event := [ERecv; EDatagram [0] peer_addr; ERecv; EDatagram [7] peer_addr] ++ repeat (ECall 0 [1]) 8.
Definition close_now : list Event := ECallClose :: repeat EClose 6.

(** The time-out and a packet at the same moment: the client receives word that
    there is no tunnel, and then a tunnel. *)
Definition race : list Event :=
  [ETimeout true; ERecv; EDatagram [7] peer_addr; ETimeout false] ++ repeat (ECall 0 [1]) 8 ++
  [ETimeout false; ETimeout false; EReceive] ++ repeat (ECall 0 [1]) 7 ++ [EReceive].

Lemma fallback_then_tunnel : sy_taken <$> toy_run race = Some [mkResult None false; mkResult (Some 0%nat) false].
Proof. by vm_compute. Qed.

(** The packet comes; [Close] runs while the call waits to deliver. *)
Definition close_in_between : list Event := packet_in ++ repeat (ECall 0 [1]) 3 ++ close_now ++ repeat (ECall 0 [1]) 4 ++ [ETimeout false].

Lemma nothing_left_behind_witness :
  ∃ s, toy_run close_in_between = Some s ∧ pm_tunnels (sy_mgr s) = [mkTunnel false false] ∧
    ∀ r, r ∈ pm_resultCh (sy_mgr s) → pr_Tunnel r = None.
Proof.
  cbv beta. destruct (P2pManager.exec_all _ _ _ _ _ close_in_between _) as [s|] eqn:E; [|by vm_compute in E]. exists s. split; [done|].
  assert (sy_close s = XDone ∧ Forall (eq CDone) (sy_calls s) ∧ pm_tunnels (sy_mgr s) = [mkTunnel false false]) as (Hx & Hc & Ht).
  { vm_compute in E. injection E as <-. split_and!; by repeat constructor. }
  split; [done|].
  pose proof (nothing_left_behind toy_kdf toy_hmac pk_Random toy_unmarshal (fun _ => None) toy_manager toy_system close_in_between s toy_started) as Q.
  specialize (Q E Hx Hc). destruct Q as (_ & _ & Q & _). exact Q.
Defined.

(** [Close] is called while the call waits to deliver. *)
Definition closing : list Event := packet_in ++ repeat (ECall 0 [1]) 3 ++ [ECallClose; EClose].


Lemma connected_by_peer_witness :
  ∃ e datagram from pkt, e ∈ packet_in ∧ (e = EDatagram datagram from ∨ e = EBirthday datagram from) ∧
    toy_unmarshal datagram = Some pkt ∧ pk_SessionID pkt = lit "ses_1" ∧
    VerifyPunchPacket toy_kdf toy_hmac (Some pkt) (lit "ABCD") (negb false) = true.
Proof.
  destruct (P2pManager.exec_all toy_kdf toy_hmac pk_Random toy_unmarshal (fun _ => None) packet_in toy_system) as [s|] eqn:E; [|by vm_compute in E].
  assert (pm_connected (sy_mgr s) = true) as Hc by (vm_compute in E; by injection E as <-).
  pose proof (connected_by_peer toy_kdf toy_hmac pk_Random toy_unmarshal (fun _ => None) P2PModeAuto (lit "ses_1") false (lit "ABCD")
    toy_system packet_in s toy_started) as Q.
  exact (Q E Hc).
Defined.
