(* ===== verification/HelpConnect.v ===== *)
(** * Connections of the helper (src/internal/client/help_bootstrap.go, help_mcp.go
    and server_addr.go)

    [connect] reuses the session it has, or replaces it by a new one; a transfer
    that lost its tunnel reconnects with the arguments of the last [connect].
    Meanwhile sessions end, and move to a direct tunnel and back.

    [connectMu] lets one [connectLocked] run at a time; it is cut where it waits:
    [connect_begin] up to the dialling, [connect_dial] up to the result or to the
    wait for the tunnel, [connect_wait].  The critical sections of [b.mu] are
    atomic; everything else happens between them ([step]).

    Relay connections are numbered; how dialling, joining and the answers to the
    handshake turn out is part of the event.  Strings printed on stderr, the
    update notices and the versions of the programs are left out. *)

From S2P Require Import Prelude GoNet GoText ProtoHandshake ProtoSession P2pManager.

Open Scope Z_scope.

(** ** Addresses of relays *)

Definition defaultRelayPort : string := "8443".

Definition NormalizeServerAddr (addr : string) : string :=
  if bool_decide (addr = ""%string) then addr
  else match SplitHostPort addr with Some _ => addr | None => JoinHostPort addr defaultRelayPort end.

(** [strings.Contains], [strings.ContainsAny] with ASCII characters. *)
Fixpoint contains (p l : list Z) : bool :=
  has_prefix p l || match l with [] => false | _ :: l => contains p l end.
Definition contains_any (cs l : list Z) : bool := existsb (fun c => existsb (Z.eqb c) cs) l.

Definition ValidateServerAddr (addr : string) : bool :=
  negb (contains (lit "://") (bytes_of addr)) && negb (contains_any (lit "/?#") (bytes_of addr)).

Definition ip_loopback (ip : list Z) : bool :=
  match StunCandidates.To4 ip with Some v4 => StunCandidates.IsLoopback v4 | None => bool_decide (ip = repeat 0 15 ++ [1]) end.
Definition ip_private (ip : list Z) : bool :=
  match StunCandidates.To4 ip with
  | Some (a :: b :: _) => (a =? 10) || ((a =? 172) && (Z.land b 0xF0 =? 16)) || ((a =? 192) && (b =? 168))
  | Some _ => false
  | None => (length ip =? 16)%nat && match ip with a :: _ => Z.land a 0xFE =? 0xFC | [] => false end
  end.
Definition ip_link_local (ip : list Z) : bool :=
  match StunCandidates.To4 ip with
  | Some v4 => StunCandidates.IsLinkLocalUnicast v4
  | None => (length ip =? 16)%nat && match ip with a :: b :: _ => (a =? 0xFE) && (Z.land b 0xC0 =? 0x80) | _ => false end
  end.

Definition IsLANServer (addr : string) : bool :=
  let host := match SplitHostPort addr with Some (h, _) => h | None => addr end in
  if bool_decide (host = "localhost"%string) then true
  else match ParseIP host with
  | None => false
  | Some ip => ip_loopback ip || ip_private ip || ip_link_local ip
  end.

(** ** What is asked for *)

Definition NoAuthCode : string := "noauth".

Definition normalizeCode (code : string) : string :=
  string_of (map_runes (fun r => if (r =? 45) || (r =? 32) || (r =? 95) then -1 else r) (bytes_of code)).

Record Config := mkConfig { cf_ServerAddr : string; cf_MinProto : string; cf_P2PMode : gostring }.
Record connectArgs := mkArgs { ca_Code : string; ca_Server : string; ca_NoAuth : bool; ca_MinProto : string }.
Record connectTarget := mkTarget { ct_Code : string; ct_Server : string; ct_NoAuth : bool; ct_MinProto : string }.
#[export] Instance connectTarget_eq_dec : EqDecision connectTarget.
Proof. solve_decision. Defined.
Record connectResult := mkConnectResult {
  cr_SessionID : string;
  cr_Server : string;
  cr_P2P : bool;
  cr_ProtoVersion : string;
  cr_Warning : bool;
}.
#[export] Instance connectResult_eta : Eta connectResult := fun r =>
  mkConnectResult (cr_SessionID r) (cr_Server r) (cr_P2P r) (cr_ProtoVersion r) (cr_Warning r).

Definition no_args : connectArgs := mkArgs "" "" false "".
Definition no_target : connectTarget := mkTarget "" "" false "".
Definition no_result : connectResult := mkConnectResult "" "" false "" false.

Definition sameEndpoint (t o : connectTarget) : bool :=
  bool_decide (ct_Code t = ct_Code o) && bool_decide (ct_Server t = ct_Server o) && bool_decide (ct_NoAuth t = ct_NoAuth o).

Definition normal_min (v : string) : string := match NormalizeMinProto v with Some v => v | None => ""%string end.

Section bootstrap.
Context (hkdf : gostring → gostring → gostring → Key).
Context (cfg : Config).

(** The configuration a call works with. *)
Definition effective_server (a : connectArgs) : string :=
  NormalizeServerAddr (if bool_decide (ca_Server a = ""%string) then cf_ServerAddr cfg else ca_Server a).
Definition effective_min (a : connectArgs) : string :=
  if bool_decide (ca_MinProto a = ""%string) then cf_MinProto cfg else ca_MinProto a.

Definition target_of (a : connectArgs) : connectTarget :=
  mkTarget (normalizeCode (ca_Code a)) (effective_server a) (ca_NoAuth a) (normal_min (effective_min a)).

(** [lastTarget] of the cached arguments. *)
Definition lastTarget (last : connectArgs) : connectTarget :=
  let server := if bool_decide (ca_Server last = ""%string) then cf_ServerAddr cfg else ca_Server last in
  let code := if ca_NoAuth last && bool_decide (ca_Code last = ""%string) then NoAuthCode else ca_Code last in
  let minProto := if bool_decide (ca_MinProto last = ""%string) then cf_MinProto cfg else ca_MinProto last in
  mkTarget (normalizeCode code) (NormalizeServerAddr server) (ca_NoAuth last) (normal_min minProto).

Inductive ConnectError :=
| BadServer | CodeRequired | BadMinProto
| RelayConnectFailed | JoinFailed | HandshakeFailed
| P2PLegacy | P2PNotEstablished
| NoCachedCode | Cancelled.

(** The checks at the head of [connectLocked], and the code a call without
    authentication gets. *)
Definition check_args (a : connectArgs) : result ConnectError connectArgs :=
  if negb (bool_decide (ca_Server a = ""%string)) && negb (ValidateServerAddr (ca_Server a)) then Err BadServer
  else
    let a := if ca_NoAuth a && bool_decide (ca_Code a = ""%string)
             then mkArgs NoAuthCode (ca_Server a) (ca_NoAuth a) (ca_MinProto a) else a in
    if bool_decide (ca_Code a = ""%string) then Err CodeRequired
    else if negb (bool_decide (ca_MinProto a = ""%string)) && bool_decide (NormalizeMinProto (ca_MinProto a) = None) then Err BadMinProto
    else Ok a.

(** ** The state *)

(** How far the upgrade of a session to a direct tunnel has come. *)
Inductive Upgrade := UpNone | UpTrying | UpSwitching | UpRunning | UpEnded.

(** A session as its goroutines know it. *)
Record HelpSession := mkHelpSession {
  hs_sess : Session;
  hs_code : string;
  hs_minProto : string;
  hs_mode : P2PMode;
  hs_upgrade : Upgrade;
  hs_done : option bool;
}.
#[export] Instance HelpSession_eta : Eta HelpSession := fun s =>
  mkHelpSession (hs_sess s) (hs_code s) (hs_minProto s) (hs_mode s) (hs_upgrade s) (hs_done s).

(** Where the holder of [connectMu] stands. *)
Inductive Progress :=
| Free
| Dialing (a : connectArgs) (target : connectTarget)
| Waiting (n : nat) (r : connectResult).

(** [hb_open]: the relay connections that are open; [hb_torn]: the sessions whose
    [teardown] has run. *)
Record HelpMCPBootstrap := mkBootstrap {
  hb_help : option nat;
  hb_bridge : option nat;
  hb_activeTarget : connectTarget;
  hb_activeResult : connectResult;
  hb_last : connectArgs;
  hb_connectMu : Progress;
  hb_sessions : list HelpSession;
  hb_open : gset nat;
  hb_torn : gset nat;
}.
#[export] Instance HelpMCPBootstrap_eta : Eta HelpMCPBootstrap := fun b =>
  mkBootstrap (hb_help b) (hb_bridge b) (hb_activeTarget b) (hb_activeResult b) (hb_last b) (hb_connectMu b) (hb_sessions b)
    (hb_open b) (hb_torn b).

Definition NewHelpMCPBootstrap : HelpMCPBootstrap :=
  mkBootstrap None None no_target no_result no_args Free [] ∅ ∅.

Definition forget_active (b : HelpMCPBootstrap) : HelpMCPBootstrap :=
  b <| hb_help := None |> <| hb_bridge := None |> <| hb_activeTarget := no_target |> <| hb_activeResult := no_result |>.

(** The closure [teardown] of session [n]. *)
Definition teardown (n : nat) (b : HelpMCPBootstrap) : HelpMCPBootstrap :=
  if bool_decide (n ∈ hb_torn b) then b
  else
    let b := b <| hb_torn := {[n]} ∪ hb_torn b |> <| hb_open := hb_open b ∖ {[n]} |> in
    if bool_decide (hb_bridge b = Some n) then forget_active b else b.

Inductive Reply := Answer (r : result ConnectError connectResult) | Continue.

(** [connectLocked] up to the dialling. *)
Definition connect_begin (a : connectArgs) (fromReconnect : bool) (b : HelpMCPBootstrap) : HelpMCPBootstrap * Reply :=
  match check_args a with
  | Err e => (b, Answer (Err e))
  | Ok a =>
      let target := target_of a in
      let b := if negb fromReconnect && negb (bool_decide (lastTarget (hb_last b) = target)) then b <| hb_last := no_args |> else b in
      if bool_decide (hb_help b ≠ None) && bool_decide (hb_bridge b ≠ None) && sameEndpoint (hb_activeTarget b) target &&
         SatisfiesMinProto (cr_ProtoVersion (hb_activeResult b)) (ct_MinProto target)
      then
        let r := hb_activeResult b in
        if fromReconnect then (b, Answer (Ok r))
        else
          let t := hb_activeTarget b in
          (b <| hb_activeTarget := mkTarget (ct_Code t) (ct_Server t) (ct_NoAuth t) (ct_MinProto target) |> <| hb_last := a |>, Answer (Ok r))
      else
        let b := match hb_help b with
                 | Some n => b <| hb_open := hb_open b ∖ {[n]} |> <| hb_help := None |> <| hb_bridge := None |>
                 | None => b
                 end in
        (b <| hb_activeTarget := no_target |> <| hb_activeResult := no_result |> <| hb_connectMu := Dialing a target |>, Continue)
  end.

(** How dialling turns out: the session id of the relay's answer, and what the
    other end answers to the hellos. *)
Inductive DialOutcome :=
| NoRelay
| NoJoin
| Joined (SessionID : string) (answer : Hello → option HelloAck) (nonce1 nonce2 : string).

Definition p2p_mode (server : string) : P2PMode :=
  let mode := ParseP2PMode (cf_P2PMode cfg) in
  if bool_decide (mode = P2PModeAuto) && IsLANServer server then P2PModeDisabled else mode.

(** … to the result, or to the wait for the tunnel. *)
Definition connect_dial (o : DialOutcome) (a : connectArgs) (target : connectTarget) (b : HelpMCPBootstrap) : HelpMCPBootstrap * Reply :=
  let fail e := (b <| hb_connectMu := Free |>, Answer (Err e)) in
  match o with
  | NoRelay => fail RelayConnectFailed
  | NoJoin => fail JoinFailed
  | Joined sid answer nonce1 nonce2 =>
      let server := effective_server a in
      let code := normalizeCode (ca_Code a) in
      let minProto := effective_min a in
      match handshakeTool hkdf answer code minProto nonce1 nonce2 with
      | Some (Ok sess) =>
          let n := length (hb_sessions b) in
          let mode := p2p_mode server in
          let upgrading := negb (bool_decide (mode = P2PModeDisabled)) && negb (Legacy sess) in
          let r := mkConnectResult sid server false (ss_Version sess) (bool_decide (ss_Version sess = ToolProtocolVersionV1)) in
          let b := b <| hb_sessions := hb_sessions b ++ [mkHelpSession sess code minProto mode (if upgrading then UpTrying else UpNone) None] |>
                     <| hb_open := {[n]} ∪ hb_open b |> <| hb_help := Some n |> <| hb_bridge := Some n |>
                     <| hb_activeTarget := target |> <| hb_activeResult := r |> <| hb_last := a |> in
          if bool_decide (mode = P2PModeRequired) then
            if Legacy sess then (teardown n b <| hb_connectMu := Free |>, Answer (Err P2PLegacy))
            else (b <| hb_connectMu := Waiting n r |>, Continue)
          else (b <| hb_connectMu := Free |>, Answer (Ok r))
      | _ => fail HandshakeFailed
      end
  end.

Definition session_of (n : nat) (b : HelpMCPBootstrap) : option HelpSession := hb_sessions b !! n.

(** [--p2p required] waits for what the upgrade reports, or for the time-out. *)
Definition connect_wait (timeout : bool) (n : nat) (r : connectResult) (b : HelpMCPBootstrap) : option (HelpMCPBootstrap * Reply) :=
  let abandon_tunnel := (teardown n b <| hb_connectMu := Free |>, Answer (Err P2PNotEstablished)) in
  if timeout then Some abandon_tunnel
  else match session_of n b ≫= hs_done with
  | Some true => Some (b <| hb_connectMu := Free |>, Answer (Ok (r <| cr_P2P := true |>)))
  | Some false => Some abandon_tunnel
  | None => None
  end.

(** ** The upgrade *)

Definition update_session (n : nat) (f : HelpSession → HelpSession) (b : HelpMCPBootstrap) : HelpMCPBootstrap :=
  b <| hb_sessions := alter f n (hb_sessions b) |>.

(** Only the first report counts. *)
Definition notify (ok : bool) (s : HelpSession) : HelpSession :=
  match hs_done s with None => s <| hs_done := Some ok |> | Some _ => s end.

Definition set_P2P (n : nat) (v : bool) (b : HelpMCPBootstrap) : HelpMCPBootstrap :=
  if bool_decide (hb_bridge b = Some n) then b <| hb_activeResult := (hb_activeResult b) <| cr_P2P := v |> |> else b.

(** [upgradeToP2P]: it fails, or a tunnel that works both ways is there; then the
    traffic is switched over, and the result updated. *)
Definition upgrade_end (ok : bool) (n : nat) (b : HelpMCPBootstrap) : HelpMCPBootstrap :=
  if ok && bool_decide (hb_bridge b = Some n) then update_session n (fun s => s <| hs_upgrade := UpSwitching |>) b
  else update_session n (fun s => notify false s <| hs_upgrade := UpEnded |>) b.

Definition upgrade_switched (n : nat) (b : HelpMCPBootstrap) : HelpMCPBootstrap :=
  update_session n (fun s => notify true s <| hs_upgrade := UpRunning |>) (set_P2P n true b).

(** The tunnel is lost: [downgradeToRelay] shakes hands again over the relay, with
    the answers that come. *)
Definition tunnel_lost (n : nat) (answer : Hello → option HelloAck) (nonce1 nonce2 : string) (b : HelpMCPBootstrap) : HelpMCPBootstrap :=
  match session_of n b with
  | None => b
  | Some s =>
      let b := update_session n (fun s => s <| hs_upgrade := UpEnded |>) b in
      if bool_decide (hs_mode s = P2PModeRequired) then teardown n b
      else if negb (bool_decide (n ∈ hb_open b)) then teardown n b
      else match handshakeTool hkdf answer (hs_code s) (hs_minProto s) nonce1 nonce2 with
      | Some (Ok sess) =>
          if bool_decide (ss_Version sess = ss_Version (hs_sess s)) then set_P2P n false b else teardown n b
      | _ => teardown n b
      end
  end.

(** ** Everything that happens *)

Inductive Event :=
| EConnect (a : connectArgs)
| EReconnect (cancelled : bool)
| EDial (o : DialOutcome)
| EWait (timeout : bool)
| ETeardown (n : nat)
| EUpgrade (ok : bool) (n : nat)
| ESwitch (n : nat)
| ETunnelLost (n : nat) (answer : Hello → option HelloAck) (nonce1 nonce2 : string).

Definition upgrade_at (u : Upgrade) (n : nat) (b : HelpMCPBootstrap) : bool :=
  match session_of n b with
  | Some s => match hs_upgrade s, u with
              | UpTrying, UpTrying | UpSwitching, UpSwitching | UpRunning, UpRunning => true
              | _, _ => false
              end
  | None => false
  end.

(** [None]: the event cannot happen; the answer is that of the call that ends. *)
Definition step (e : Event) (b : HelpMCPBootstrap) : option (HelpMCPBootstrap * Reply) :=
  match e with
  | EConnect a => match hb_connectMu b with Free => Some (connect_begin a false b) | _ => None end
  | EReconnect cancelled =>
      match hb_connectMu b with
      | Free =>
          if cancelled then Some (b, Answer (Err Cancelled))
          else if bool_decide (ca_Code (hb_last b) = ""%string) && negb (ca_NoAuth (hb_last b)) then Some (b, Answer (Err NoCachedCode))
          else Some (connect_begin (hb_last b) true b)
      | _ => None
      end
  | EDial o => match hb_connectMu b with Dialing a target => Some (connect_dial o a target b) | _ => None end
  | EWait timeout => match hb_connectMu b with Waiting n r => connect_wait timeout n r b | _ => None end
  | ETeardown n => if bool_decide (n < length (hb_sessions b))%nat then Some (teardown n b, Continue) else None
  | EUpgrade ok n => if upgrade_at UpTrying n b then Some (upgrade_end ok n b, Continue) else None
  | ESwitch n => if upgrade_at UpSwitching n b then Some (upgrade_switched n b, Continue) else None
  | ETunnelLost n answer nonce1 nonce2 =>
      if upgrade_at UpRunning n b then Some (tunnel_lost n answer nonce1 nonce2 b, Continue) else None
  end.

(** The states and answers of a run. *)
Fixpoint run (es : list Event) (b : HelpMCPBootstrap) : option (HelpMCPBootstrap * list (Event * Reply)) :=
  match es with
  | [] => Some (b, [])
  | e :: es =>
      match step e b with
      | Some (b, r) => match run es b with Some (b, rs) => Some (b, (e, r) :: rs) | None => None end
      | None => None
      end
  end.
End bootstrap.

Example normalized : map NormalizeServerAddr [""; "192.168.1.1"; "h:1"; "fe80::1"]%string = [""; "192.168.1.1:8443"; "h:1"; "[fe80::1]:8443"]%string.
Proof. by vm_compute. Qed.
Example validated : map ValidateServerAddr ["http://1.2.3.4:8443"; "h/x:1"; "203.0.113.10:8443"]%string = [false; false; true].
Proof. by vm_compute. Qed.
Example lan : map IsLANServer ["localhost:8443"; "10.1.2.3:1"; "172.31.0.1"; "169.254.1.1:1"; "[fe80::1]:2"; "[fd00::1]:2"; "8.8.8.8:1"; "relay.example:1"]%string =
  [true; true; true; true; true; true; false; false].
Proof. by vm_compute. Qed.
