(* ===== verification/HelpConnectThms.v ===== *)
(** * What connecting promises

    A reconnection goes where the last [connect] meant to go, and nowhere else
    ([reconnect_follows_intent]); what [connect] reports as connected has the
    protocol, and with [--p2p required] the tunnel, that was asked for
    ([connect_keeps_promises]); and no relay connection is left open but that of
    the session in use ([one_connection]).  Sessions may end, move to a tunnel
    and back at any moment in between. *)

From S2P Require Import Prelude GoNet GoText ProtoHandshake ProtoSession P2pManager HelpConnect.

Open Scope Z_scope.

Section thms.
Context (hkdf : gostring → gostring → gostring → Key).
Context (cfg : Config).

Notation target_of := (target_of cfg).
Notation lastTarget := (lastTarget cfg).
Notation step := (step hkdf cfg).
Notation run := (run hkdf cfg).

(** ** Arguments *)

Lemma check_args_ok a a' : check_args a = Ok a' → check_args a' = Ok a' ∧ ca_Code a' ≠ ""%string.
Proof.
  unfold check_args. destruct (negb (bool_decide (ca_Server a = ""%string)) && _) eqn:E1; [done|].
  set (b := if ca_NoAuth a && _ then _ else a).
  destruct (bool_decide (ca_Code b = ""%string)) eqn:E2; [done|].
  destruct (negb (bool_decide (ca_MinProto b = ""%string)) && _) eqn:E3; [done|]. intros [= <-].
  apply bool_decide_eq_false in E2. split; [|done].
  assert (ca_Server b = ca_Server a) as -> by (unfold b; by case_match).
  rewrite E1. cbv zeta. rewrite (bool_decide_false (ca_Code b = ""%string)), andb_false_r by done.
  by rewrite bool_decide_false, E3 by done.
Qed.

Lemma lastTarget_checked a : ca_Code a ≠ ""%string → lastTarget a = target_of a.
Proof. intros Hc. unfold HelpConnect.lastTarget. by rewrite (bool_decide_false (ca_Code a = ""%string)), andb_false_r by done. Qed.

Lemma handshake_floor answer code minProto n1 n2 s :
  handshakeTool hkdf answer code minProto n1 n2 = Some (Ok s) → SatisfiesMinProto (ss_Version s) (normal_min minProto) = true.
Proof.
  intros H. destruct (minimum_respected _ _ _ _ _ _ _ H) as [[H1 H2] _]. unfold SatisfiesMinProto, normal_min, NormalizeMinProto.
  destruct (decide (minProto = ""%string)) as [->|Hne].
  - rewrite bool_decide_true by done. apply andb_true_iff. split; apply Z.leb_le; done.
  - rewrite bool_decide_false by done. unfold default_min in H2. rewrite bool_decide_false in H2 by done.
    rewrite (proj2 (Z.ltb_ge _ _)) by lia. unfold default_min. rewrite bool_decide_false by done.
    apply andb_true_iff. split; apply Z.leb_le; lia.
Qed.

(** ** The invariant *)

(** What the last accepted [connect] asks for. *)
Definition next_intent (t : option connectTarget) (e : Event) : option connectTarget :=
  match e with EConnect a => match check_args a with Ok a => Some (target_of a) | Err _ => t end | _ => t end.
Definition intended (es : list Event) : option connectTarget := fold_left next_intent es None.

Definition required : Prop := ParseP2PMode (cf_P2PMode cfg) = P2PModeRequired.
Definition reported (n : nat) (b : HelpMCPBootstrap) : Prop := session_of n b ≫= hs_done = Some true.

Definition active_inv (b : HelpMCPBootstrap) : Prop :=
  match hb_bridge b with
  | Some n => hb_help b = Some n ∧ (n < length (hb_sessions b))%nat ∧ n ∉ hb_torn b ∧ hb_open b = {[n]} ∧
              cr_Server (hb_activeResult b) = ct_Server (hb_activeTarget b)
  | None => hb_help b = None ∧ hb_open b = ∅
  end.

Definition last_inv (b : HelpMCPBootstrap) (t : option connectTarget) : Prop :=
  hb_last b = no_args ∨ (check_args (hb_last b) = Ok (hb_last b) ∧ t = Some (target_of (hb_last b))).

(** An answer is about what was asked for. *)
Definition keeps (t : option connectTarget) (r : connectResult) : Prop :=
  ∃ tg, t = Some tg ∧ SatisfiesMinProto (cr_ProtoVersion r) (ct_MinProto tg) = true ∧ cr_Server r = ct_Server tg.

Definition progress_inv (b : HelpMCPBootstrap) (t : option connectTarget) : Prop :=
  match hb_connectMu b with
  | Free => True
  | Dialing a tg => tg = target_of a ∧ check_args a = Ok a ∧ t = Some tg ∧ hb_bridge b = None
  | Waiting n r => keeps t r ∧ (∀ m, hb_bridge b = Some m → m = n) ∧ (n < length (hb_sessions b))%nat
  end.

Definition required_inv (b : HelpMCPBootstrap) : Prop :=
  required → Forall (fun s => hs_mode s = P2PModeRequired) (hb_sessions b) ∧
    ∀ n, hb_bridge b = Some n → hb_connectMu b = Free ∨ reported n b → cr_P2P (hb_activeResult b) = true.

Record inv (b : HelpMCPBootstrap) (t : option connectTarget) : Prop := {
  inv_active : active_inv b;
  inv_torn : ∀ n, n ∈ hb_torn b → (n < length (hb_sessions b))%nat;
  inv_last : last_inv b t;
  inv_progress : progress_inv b t;
  inv_required : required_inv b;
}.

Lemma inv_new : inv NewHelpMCPBootstrap None.
Proof. split; [done|set_solver|by left|done|]. intros _. split; [constructor|done]. Qed.

(** [teardown] of any session. *)
Lemma teardown_fields n b : n ∉ hb_torn b →
  hb_sessions (teardown n b) = hb_sessions b ∧ hb_last (teardown n b) = hb_last b ∧ hb_connectMu (teardown n b) = hb_connectMu b ∧
  hb_torn (teardown n b) = {[n]} ∪ hb_torn b ∧ hb_open (teardown n b) = hb_open b ∖ {[n]} ∧
  ((hb_bridge b = Some n ∧ hb_bridge (teardown n b) = None ∧ hb_help (teardown n b) = None) ∨
   (hb_bridge b ≠ Some n ∧ hb_bridge (teardown n b) = hb_bridge b ∧ hb_help (teardown n b) = hb_help b ∧
    hb_activeTarget (teardown n b) = hb_activeTarget b ∧ hb_activeResult (teardown n b) = hb_activeResult b)).
Proof.
  intros Hn. unfold teardown. rewrite bool_decide_false by exact Hn. cbv zeta.
  change (hb_bridge (_ <| hb_open := _ |>)) with (hb_bridge b).
  destruct (decide (hb_bridge b = Some n)) as [Hb|Hb].
  - rewrite bool_decide_true by exact Hb. split_and!; try reflexivity. left. split_and!; [exact Hb|reflexivity..].
  - rewrite bool_decide_false by exact Hb. split_and!; try reflexivity. right. split_and!; [exact Hb|reflexivity..].
Qed.

Lemma inv_teardown n b t : (n < length (hb_sessions b))%nat → inv b t → inv (teardown n b) t.
Proof.
  intros Hn [IA IT IL IP IR]. destruct (decide (n ∈ hb_torn b)) as [Ht|Ht].
  { unfold teardown. rewrite bool_decide_true by exact Ht. by split. }
  destruct (teardown_fields n b Ht) as (E1 & E2 & E3 & E4 & E5 & E6). revert E1 E2 E3 E4 E5 E6.
  generalize (teardown n b). intros b' E1 E2 E3 E4 E5 E6.
  unfold active_inv, last_inv, progress_inv, required_inv, reported, session_of in *.
  split; unfold active_inv, last_inv, progress_inv, required_inv, reported, session_of; rewrite ?E1, ?E2, ?E3, ?E4, ?E5.
  - destruct E6 as [(Hb & -> & ->)|(Hb & -> & -> & -> & ->)].
    + rewrite Hb in IA. destruct IA as (_ & _ & _ & -> & _). split; [done|]. apply difference_diag_L.
    + destruct (hb_bridge b) as [m|]; destruct_and? IA.
      * assert (m ≠ n) by congruence. split_and!; try done; set_solver.
      * split; [done|]. set_solver.
  - intros m [->%elem_of_singleton|Hm]%elem_of_union; auto.
  - exact IL.
  - destruct (hb_connectMu b) as [|a tg|m r]; [done| |].
    + destruct IP as (? & ? & ? & Hbr). split_and!; try done. destruct E6 as [(_ & ? & _)|(_ & -> & _)]; done.
    + destruct IP as (? & Hm & ?). split_and!; [done| |done]. intros k Hk. apply Hm. destruct E6 as [(_ & ? & _)|(_ & <- & _)]; congruence.
  - intros Hr. destruct (IR Hr) as [H1 H2]. split; [done|]. intros m Hm.
    destruct E6 as [(_ & ? & _)|(_ & Eb & _ & _ & ->)]; [congruence|]. apply H2. congruence.
Qed.

Lemma teardown_bridge n b t : inv b t → (∀ m, hb_bridge b = Some m → m = n) → hb_bridge (teardown n b) = None.
Proof.
  intros [IA _ _ _ _] H. destruct (decide (n ∈ hb_torn b)) as [Ht|Ht].
  - unfold teardown. rewrite bool_decide_true by exact Ht. unfold active_inv in IA.
    destruct (hb_bridge b) as [m|]; [|done]. rewrite (H m eq_refl) in IA. tauto.
  - destruct (teardown_fields n b Ht) as (_ & _ & _ & _ & _ & [(_ & ? & _)|(Hb & -> & _)]); [done|].
    destruct (hb_bridge b) as [m|]; [|done]. by rewrite (H m eq_refl) in Hb.
Qed.

(** ** Every step keeps it *)

Ltac fields := unfold set_field;
  cbn [hb_help hb_bridge hb_activeTarget hb_activeResult hb_last hb_connectMu hb_sessions hb_open hb_torn
       cr_SessionID cr_Server cr_P2P cr_ProtoVersion cr_Warning hs_sess hs_code hs_minProto hs_mode hs_upgrade hs_done
       ct_Code ct_Server ct_NoAuth ct_MinProto].

Definition reply_ok (t : option connectTarget) (r : Reply) : Prop :=
  match r with Answer (Ok r) => keeps t r ∧ (required → cr_P2P r = true) | _ => True end.

(** Fields that do not matter, or the cached arguments, change. *)
Lemma inv_same b b' t t' : inv b t → hb_connectMu b = Free →
  hb_help b' = hb_help b → hb_bridge b' = hb_bridge b → cr_Server (hb_activeResult b') = cr_Server (hb_activeResult b) →
  cr_P2P (hb_activeResult b') = cr_P2P (hb_activeResult b) → ct_Server (hb_activeTarget b') = ct_Server (hb_activeTarget b) →
  hb_connectMu b' = hb_connectMu b → hb_sessions b' = hb_sessions b → hb_open b' = hb_open b → hb_torn b' = hb_torn b →
  last_inv b' t' → inv b' t'.
Proof.
  intros [IA IT IL IP IR] Hf E1 E2 E3 E4 E5 E6 E7 E8 E9 HL.
  unfold active_inv, last_inv, progress_inv, required_inv, reported, session_of in *.
  split; unfold active_inv, last_inv, progress_inv, required_inv, reported, session_of; rewrite ?E1, ?E2, ?E3, ?E4, ?E5, ?E6, ?E7, ?E8, ?E9; auto.
  by rewrite Hf.
Qed.

Lemma begin_inv a (fromReconnect : bool) b t t' b' r :
  inv b t → hb_connectMu b = Free →
  (if fromReconnect then a = hb_last b ∧ check_args a = Ok a ∧ t' = t
   else t' = match check_args a with Ok a => Some (target_of a) | Err _ => t end) →
  connect_begin cfg a fromReconnect b = (b', r) → inv b' t' ∧ reply_ok t' r.
Proof.
  intros HI Hf Hcase. unfold connect_begin. destruct (check_args a) as [a'|e] eqn:Ea.
  2:{ intros [= <- <-]. destruct fromReconnect; [naive_solver|]. by subst t'. }
  destruct (check_args_ok _ _ Ea) as [Ea' Hcode]. cbv zeta. set (target := target_of a').
  set (b1 := if negb fromReconnect && negb (bool_decide (lastTarget (hb_last b) = target)) then b <| hb_last := no_args |> else b).
  assert (t' = Some target ∧ last_inv b1 t') as [Ht' HL].
  { destruct HI as [_ _ IL _ _]. unfold last_inv in IL. unfold b1. destruct fromReconnect; cbn [negb andb].
    - destruct Hcase as (-> & Hc & ->). injection Hc as ->. destruct IL as [IL|[_ ->]]; [by rewrite IL in Hcode|].
      split; [done|]. right. by rewrite Ea.
    - subst t'. split; [done|]. case_bool_decide as El; cbn [negb].
      + destruct IL as [IL|[Hc ->]]; [by left|right]. split; [done|]. destruct (check_args_ok _ _ Hc) as [_ Hne].
        rewrite lastTarget_checked in El by done. unfold target in El. congruence.
      + by left. }
  assert (inv b1 t') as H1.
  { apply (inv_same b _ t); try done; unfold b1; by destruct (negb fromReconnect && _). }
  assert (hb_connectMu b1 = Free) as Hf1 by by (unfold b1; destruct (negb fromReconnect && _)).
  clearbody b1. destruct (bool_decide (hb_help b1 ≠ None) && _ && _ && _) eqn:Eg.
  - apply andb_true_iff in Eg as [Eg Hmin]. apply andb_true_iff in Eg as [Eg Hsame]. apply andb_true_iff in Eg as [_ Hbr%bool_decide_eq_true].
    destruct (hb_bridge b1) as [n|] eqn:Eb; [|done].
    assert (keeps t' (hb_activeResult b1) ∧ (required → cr_P2P (hb_activeResult b1) = true)) as Hr.
    { destruct H1 as [IA _ _ _ IR]. unfold active_inv in IA. rewrite Eb in IA. split.
      - exists target. split_and!; [done|done|]. destruct_and? IA.
        unfold sameEndpoint in Hsame. apply andb_true_iff in Hsame as [Hsame _]. apply andb_true_iff in Hsame as [_ Hs%bool_decide_eq_true]. congruence.
      - intros Hreq. destruct (IR Hreq) as [_ H]. apply (H n Eb). by left. }
    destruct fromReconnect; intros [= <- <-]; [done|]. split; [|exact Hr].
    apply (inv_same b1 _ t'); try done. right. done.
  - intros [= <- <-]. split; [|done]. destruct H1 as [IA IT IL IP IR]. unfold active_inv in IA.
    set (b2 := match hb_help b1 with Some n => b1 <| hb_open := hb_open b1 ∖ {[n]} |> <| hb_help := None |> <| hb_bridge := None |> | None => b1 end).
    assert (hb_bridge b2 = None ∧ hb_help b2 = None ∧ hb_open b2 = ∅ ∧ hb_torn b2 = hb_torn b1 ∧ hb_sessions b2 = hb_sessions b1 ∧
            hb_last b2 = hb_last b1) as (F1 & F2 & F3 & F4 & F5 & F6).
    { unfold b2. destruct (hb_bridge b1) as [n|] eqn:Eb.
      - destruct IA as (-> & _ & _ & Ho & _). split_and!; try reflexivity. fields. rewrite Ho. apply difference_diag_L.
      - destruct IA as (Eh & Ho). rewrite Eh. done. }
    clearbody b2. unfold active_inv, last_inv, progress_inv, required_inv, reported, session_of in *.
    split; unfold active_inv, last_inv, progress_inv, required_inv, reported, session_of; fields; rewrite ?F1, ?F2, ?F3, ?F4, ?F5, ?F6; try done.
    intros Hreq. destruct (IR Hreq) as [Hm _]. by split.
Qed.

(** Giving the lock back while no session is active. *)
Lemma inv_release b t : inv b t → hb_bridge b = None → inv (b <| hb_connectMu := Free |>) t.
Proof.
  intros [IA IT IL IP IR] Hb. unfold active_inv, last_inv, progress_inv, required_inv, reported, session_of in *.
  split; unfold active_inv, last_inv, progress_inv, required_inv, reported, session_of; fields; rewrite ?Hb in *; try done.
  intros Hr. destruct (IR Hr). by split.
Qed.

(** A new session is published. *)
Lemma inv_publish b b' t a tg n s r mu :
  inv b t → hb_connectMu b = Dialing a tg → n = length (hb_sessions b) →
  keeps t r → cr_Server r = ct_Server tg → (required → hs_mode s = P2PModeRequired ∧ mu ≠ Free) → hs_done s = None →
  mu = Free ∨ mu = Waiting n r →
  hb_sessions b' = hb_sessions b ++ [s] → hb_open b' = {[n]} ∪ hb_open b → hb_torn b' = hb_torn b → hb_help b' = Some n →
  hb_bridge b' = Some n → hb_activeTarget b' = tg → hb_activeResult b' = r → hb_last b' = a → hb_connectMu b' = mu → inv b' t.
Proof.
  intros [IA IT IL IP IR] Hd -> Hk Hs Hm Hdone Hmu F1 F2 F3 F4 F5 F6 F7 F8 F9.
  unfold active_inv, last_inv, progress_inv, required_inv, reported, session_of in *.
  rewrite Hd in IP. destruct IP as (Etg & Ha & Et & Hb). rewrite Hb in IA. destruct IA as [_ Ho].
  split; unfold active_inv, last_inv, progress_inv, required_inv, reported, session_of;
    rewrite ?F1, ?F2, ?F3, ?F4, ?F5, ?F6, ?F7, ?F8, ?F9, ?length_app, ?Ho; cbn [length].
  - split_and!; [done|lia| |by rewrite union_empty_r_L|done]. intros Hn%IT. lia.
  - intros m Hn%IT. lia.
  - right. by rewrite Et, Etg.
  - destruct Hmu as [-> | ->]; [done|]. split_and!; [done| |lia]. intros m [= <-]. done.
  - intros Hreq. destruct (IR Hreq) as [Hmodes _]. destruct (Hm Hreq) as [Hms Hne]. split; [by apply Forall_app_2; [|apply Forall_singleton]|].
    intros m [= <-] [?|Hrep]; [done|]. rewrite lookup_app_r, Nat.sub_diag in Hrep by lia. cbn in Hrep. congruence.
Qed.

Lemma teardown_mu n b x : teardown n (b <| hb_connectMu := x |>) = (teardown n b) <| hb_connectMu := x |>.
Proof.
  unfold teardown. change (hb_torn (b <| hb_connectMu := x |>)) with (hb_torn b). destruct (bool_decide (n ∈ hb_torn b)); [reflexivity|].
  cbv zeta. match goal with |- (if bool_decide (hb_bridge ?y = _) then _ else _) = _ => change (hb_bridge y) with (hb_bridge b) end.
  change (hb_bridge (b <| hb_torn := {[n]} ∪ hb_torn b |> <| hb_open := hb_open b ∖ {[n]} |>)) with (hb_bridge b).
  destruct (bool_decide (hb_bridge b = Some n)); reflexivity.
Qed.

Lemma dial_inv o a tg b t b' r :
  inv b t → hb_connectMu b = Dialing a tg → connect_dial hkdf cfg o a tg b = (b', r) → inv b' t ∧ reply_ok t r.
Proof.
  intros HI Hd. assert (hb_bridge b = None) as Hb.
  { destruct HI as [_ _ _ IP _]. unfold progress_inv in IP. rewrite Hd in IP. tauto. }
  pose proof (inv_release b t HI Hb) as Hfree. unfold connect_dial. cbv zeta.
  destruct o as [| |sid answer n1 n2]; [intros [= <- <-]; by split..|].
  destruct (handshakeTool hkdf answer _ _ n1 n2) as [[sess|e]|] eqn:Eh; [|intros [= <- <-]; by split..].
  apply handshake_floor in Eh. set (r0 := mkConnectResult _ _ _ _ _). set (s := mkHelpSession _ _ _ _ _ _).
  assert (tg = target_of a ∧ t = Some tg) as [Etg Et].
  { destruct HI as [_ _ _ IP _]. unfold progress_inv in IP. rewrite Hd in IP. tauto. }
  assert (keeps t r0 ∧ cr_Server r0 = ct_Server tg) as [Hk Hs] by (subst tg; split; [by exists (target_of a)|done]).
  assert (hs_mode s = p2p_mode cfg (effective_server cfg a) ∧ hs_done s = None) as [Hm Hdone] by done. clearbody s r0.
  assert (required → hs_mode s = P2PModeRequired) as Hreq.
  { intros Hr. unfold required in Hr. rewrite Hm. unfold p2p_mode. rewrite Hr. done. }
  rewrite <- Hm. set (n := length (hb_sessions b)).
  match goal with |- (if _ then if _ then (teardown n ?x <| _ := _ |>, _) else _ else _) = _ → _ => set (b1 := x) end.
  assert (∀ mu, (required → hs_mode s = P2PModeRequired ∧ mu ≠ Free) → mu = Free ∨ mu = Waiting n r0 → inv (b1 <| hb_connectMu := mu |>) t) as Hpub.
  { intros mu H1 H2. eapply (inv_publish b _ t a tg n s r0 mu); eauto; reflexivity. }
  assert (hb_bridge b1 = Some n ∧ hb_sessions b1 = hb_sessions b ++ [s]) as [Hbr1 Hs1] by (split; reflexivity).
  clearbody b1.
  destruct (decide (hs_mode s = P2PModeRequired)) as [Hms|Hms].
  - rewrite (bool_decide_true (hs_mode s = _)) by done.
    assert (inv (b1 <| hb_connectMu := Waiting n r0 |>) t) as Hw by (apply Hpub; [done|by right]).
    destruct (Legacy sess); intros [= <- <-]; [|by split]. split; [|done].
    replace (teardown n (b1 <| hb_connectMu := Free |>)) with ((teardown n (b1 <| hb_connectMu := Waiting n r0 |>)) <| hb_connectMu := Free |>)
      by (rewrite !teardown_mu; reflexivity).
    apply inv_release; [apply inv_teardown|eapply teardown_bridge]; [|exact Hw|exact Hw|].
    + change (n < length (hb_sessions b1))%nat. rewrite Hs1, length_app. simpl. lia.
    + change (∀ m, hb_bridge b1 = Some m → m = n). rewrite Hbr1. by intros m [= <-].
  - rewrite (bool_decide_false (hs_mode s = _)) by done. intros [= <- <-]. split.
    + apply Hpub; [|by left]. intros Hr. by destruct Hms; apply Hreq.
    + split; [done|]. intros Hr. by destruct Hms; apply Hreq.
Qed.

Lemma wait_inv timeout n r b t b' rep :
  inv b t → hb_connectMu b = Waiting n r → connect_wait timeout n r b = Some (b', rep) → inv b' t ∧ reply_ok t rep.
Proof.
  intros HI Hw.
  pose proof (inv_progress b t HI) as IP. unfold progress_inv in IP. rewrite Hw in IP. destruct IP as (Hk & Hm & Hn).
  assert (inv (teardown n (b <| hb_connectMu := Free |>)) t) as Hg.
  { rewrite teardown_mu. apply inv_release; [by apply inv_teardown|by eapply teardown_bridge]. }
  unfold connect_wait. destruct timeout; [intros [= <- <-]; by split|].
  destruct (session_of n b ≫= hs_done) as [[|]|] eqn:Ed; [|intros [= <- <-]; by split|done]. intros [= <- <-].
  destruct HI as [IA IT IL IP IR]. split.
  - split; [exact IA|exact IT|exact IL|done|]. intros Hr. destruct (IR Hr) as [H1 H2]. split; [exact H1|].
    intros m Hb _. change (hb_bridge b = Some m) in Hb. apply (H2 m Hb). right. by rewrite (Hm m Hb).
  - split; [|done]. exact Hk.
Qed.

Lemma inv_update n f b t : inv b t → (∀ s, hs_mode (f s) = hs_mode s) →
  (∀ s, hs_done (f s) = Some true → hs_done s = Some true ∨ (required → hb_bridge b = Some n → cr_P2P (hb_activeResult b) = true)) →
  inv (update_session n f b) t.
Proof.
  intros [IA IT IL IP IR] Hm Hd. unfold update_session.
  split; unfold active_inv, last_inv, progress_inv, required_inv, reported, session_of in *; fields; rewrite ?length_alter; try done.
  intros Hr. destruct (IR Hr) as [H1 H2]. split.
  - apply Forall_alter; [done|]. intros s _ Hs. by rewrite Hm.
  - intros m Hb [?|Hrep]; [apply (H2 m Hb); by left|]. destruct (decide (m = n)) as [->|Hne].
    + rewrite list_lookup_alter_eq in Hrep. destruct (hb_sessions b !! n) as [s|] eqn:Es; [|done]. cbn in Hrep.
      destruct (Hd s Hrep) as [Hs|Hs]; [|by apply Hs]. apply (H2 n Hb). right. by rewrite Es.
    + rewrite list_lookup_alter_ne in Hrep by done. apply (H2 m Hb). by right.
Qed.

Lemma inv_set_P2P n v b t : inv b t → (v = false → ¬ required) → inv (set_P2P n v b) t.
Proof.
  intros [IA IT IL IP IR] Hv. unfold set_P2P. case_bool_decide as Hb; [|by split].
  split; unfold active_inv, last_inv, progress_inv, required_inv, reported, session_of in *; fields; try done.
  intros Hr. destruct (IR Hr) as [H1 _]. split; [done|]. intros m _ _. destruct v; [done|]. by destruct Hv.
Qed.

Lemma connect_step_inv e b t b' r : inv b t → step e b = Some (b', r) → inv b' (next_intent t e) ∧ reply_ok (next_intent t e) r.
Proof.
  intros HI H. destruct e as [a|c|o|timeout|n|ok n|n|n answer n1 n2]; cbn [HelpConnect.step next_intent] in *.
  - destruct (hb_connectMu b) eqn:Ef; try done. injection H as H. by apply (begin_inv a false b t _ b' r HI Ef eq_refl H).
  - destruct (hb_connectMu b) eqn:Ef; try done. destruct c; [injection H as <- <-; by split|].
    destruct (bool_decide (ca_Code (hb_last b) = ""%string) && _) eqn:Ec; [injection H as <- <-; by split|]. injection H as H.
    apply (begin_inv (hb_last b) true b t t b' r HI Ef); [|exact H]. destruct (inv_last b t HI) as [Hl|[Hl _]]; [|done]. by rewrite Hl in Ec.
  - destruct (hb_connectMu b) eqn:Ef; try done. injection H as H. by eapply dial_inv.
  - destruct (hb_connectMu b) eqn:Ef; try done. by eapply wait_inv.
  - case_bool_decide; [|done]. injection H as <- <-. split; [by apply inv_teardown|done].
  - destruct (upgrade_at UpTrying n b); [|done]. injection H as <- <-. split; [|done]. unfold upgrade_end.
    destruct (ok && _); (apply inv_update; [exact HI|..]); intros s; try reflexivity.
    + intros Hs. by left.
    + unfold notify. change (hs_done (s <| hs_upgrade := UpEnded |>)) with (hs_done s). by destruct (hs_done s).
    + unfold notify. change (hs_done (s <| hs_upgrade := UpEnded |>)) with (hs_done s). destruct (hs_done s) eqn:Es; [|done].
      intros Hs. left. by rewrite <- Es.
  - destruct (upgrade_at UpSwitching n b); [|done]. injection H as <- <-. split; [|done]. unfold upgrade_switched. apply inv_update.
    + by apply inv_set_P2P.
    + intros s. unfold notify. change (hs_done (s <| hs_upgrade := UpRunning |>)) with (hs_done s). by destruct (hs_done s).
    + intros s _. right. intros _. unfold set_P2P. case_bool_decide as Hb; [done|]. by intros ?.
  - destruct (upgrade_at UpRunning n b); [|done]. injection H as <- <-. split; [|done]. unfold tunnel_lost.
    destruct (session_of n b) as [s|] eqn:Es; [|done]. unfold session_of in Es. cbv zeta.
    set (b1 := update_session n _ b).
    assert (inv b1 t) as H1 by (apply inv_update; auto). assert (n < length (hb_sessions b1))%nat as Hn.
    { unfold b1, update_session. fields. rewrite length_alter. by eapply lookup_lt_Some. }
    clearbody b1. destruct (decide (hs_mode s = P2PModeRequired)) as [Hm|Hm].
    { rewrite bool_decide_true by done. by apply inv_teardown. }
    rewrite bool_decide_false by done.
    assert (¬ required) as Hnr.
    { intros Hr. destruct (inv_required b t HI Hr) as [Hall _]. rewrite Forall_forall in Hall. apply Hm, Hall. by eapply list_elem_of_lookup_2. }
    repeat case_match; try (by apply inv_teardown). by apply inv_set_P2P.
Qed.

(** ** Runs *)

Lemma connect_run_inv es : ∀ b t b' rs, inv b t → run es b = Some (b', rs) →
  inv b' (fold_left next_intent es t) ∧ (∀ k e r, rs !! k = Some (e, r) → reply_ok (fold_left next_intent (take (S k) es) t) r).
Proof.
  induction es as [|e es IH]; intros b t b' rs HI; cbn [HelpConnect.run fold_left].
  - intros [= <- <-]. split; [done|]. intros k e r. by rewrite lookup_nil.
  - destruct (step e b) as [[b1 r1]|] eqn:Es; [|done]. destruct (run es b1) as [[b2 rs2]|] eqn:Er; [|done]. intros [= <- <-].
    destruct (connect_step_inv e b t b1 r1 HI Es) as [H1 Hr1]. destruct (IH b1 _ b2 rs2 H1 Er) as [H2 Hrs]. split; [done|].
    intros [|k] e' r'; cbn [lookup list_lookup]; [intros [= <- <-]; by destruct es|]. intros Hk. exact (Hrs k e' r' Hk).
Qed.

(** C24: When a transfer that has lost its tunnel reconnects, it goes to the relay,
    with the code, the authentication and the lowest protocol that the last
    [connect] asked for - whether that one succeeded or not, and whatever sessions
    came and went - or it refuses for want of a code; if it finds a session in use
    instead, that session is at the relay, and has a protocol, that were asked
    for. *)
Theorem reconnect_follows_intent es b rs b' r :
  run es NewHelpMCPBootstrap = Some (b, rs) → step (EReconnect false) b = Some (b', r) →
  r = Answer (Err NoCachedCode)
  ∨ (∃ a tg, hb_connectMu b' = Dialing a tg ∧ target_of a = tg ∧ intended es = Some tg)
  ∨ (∃ res, r = Answer (Ok res) ∧ keeps (intended es) res).
Proof.
  intros Hrun Hs. destruct (connect_run_inv es _ _ _ _ inv_new Hrun) as [HI _]. fold (intended es) in HI.
  destruct (connect_step_inv _ _ _ _ _ HI Hs) as [HI' Hr]. cbn [next_intent] in *. cbn [HelpConnect.step] in Hs.
  destruct (hb_connectMu b) eqn:Ef; try done.
  destruct (bool_decide (ca_Code (hb_last b) = ""%string) && _) eqn:Ec; [injection Hs as _ <-; by left|]. right.
  destruct (inv_last b _ HI) as [Hl|[Hl _]]; [by rewrite Hl in Ec|]. unfold connect_begin in Hs. rewrite Hl in Hs. cbv zeta in Hs.
  destruct (bool_decide (hb_help _ ≠ None) && _ && _ && _).
  - right. cbn [negb andb] in Hs. injection Hs as _ <-. eexists. split; [done|]. apply Hr.
  - left. injection Hs as <- _. pose proof (inv_progress _ _ HI') as IP. unfold progress_inv in IP.
    match type of IP with match ?mu with _ => _ end => change mu with (Dialing (hb_last b) (target_of (hb_last b))) in IP end.
    exists (hb_last b), (target_of (hb_last b)). split_and!; [done|done|]. apply IP.
Qed.

(** C25: Whenever [connect], or a reconnection, reports a connection, its protocol
    satisfies the lowest one that was asked for, and it is at the relay that was
    asked for; started with [--p2p required] it only reports connections that have
    a direct tunnel.  This holds for new sessions and for the one in use alike. *)
Theorem connect_keeps_promises es b rs k e res :
  run es NewHelpMCPBootstrap = Some (b, rs) → rs !! k = Some (e, Answer (Ok res)) →
  keeps (intended (take (S k) es)) res ∧ (ParseP2PMode (cf_P2PMode cfg) = P2PModeRequired → cr_P2P res = true).
Proof. intros Hrun Hk. destruct (connect_run_inv es _ _ _ _ inv_new Hrun) as [_ H]. exact (H k e _ Hk). Qed.

(** The relay connections that are open are at any time exactly that of the
    session in use: a session that is replaced, refused or torn down leaves none
    behind, and a late end of an old session does not touch the new one. *)
Theorem one_connection es b rs :
  run es NewHelpMCPBootstrap = Some (b, rs) →
  hb_help b = hb_bridge b ∧ hb_open b = match hb_bridge b with Some n => {[n]} | None => ∅ end.
Proof.
  intros Hrun. destruct (connect_run_inv es _ _ _ _ inv_new Hrun) as [[IA _ _ _ _] _]. unfold active_inv in IA.
  destruct (hb_bridge b) as [n|]; naive_solver.
Qed.
End thms.

(** ** Concrete runs *)

Definition toy_cfg : Config := mkConfig "relay.example" "" (lit "auto").
Definition strict_cfg : Config := mkConfig "relay.example" "" (lit "required").
Definition toy_share (h : Hello) : option HelloAck := Some (buildHelloAck toy_hkdf h "ABCD" "" "n2").1.
Definition joins (sid : string) : Event := EDial (Joined sid toy_share "n1" "n3").
Definition code_a : connectArgs := mkArgs "AB-CD" "" false "".
Definition code_b : connectArgs := mkArgs "EFGH" "" false "".

(** Connected with one code, then asked for another one that fails; the late end
    of the first session in between. *)
Definition changed_mind : list Event := [EConnect code_a; joins "s1"; EConnect code_b; ETeardown 0; EDial NoJoin].
Definition lost : list Event := [EConnect code_a; joins "s1"; ETeardown 0].

Example no_way_back : match run toy_hkdf toy_cfg (changed_mind ++ [EReconnect false]) NewHelpMCPBootstrap with
  | Some (_, rs) => last rs = Some (EReconnect false, Answer (Err NoCachedCode)) | None => False end.
Proof. by vm_compute. Qed.

Lemma reconnect_follows_intent_witness :
  match run toy_hkdf toy_cfg lost NewHelpMCPBootstrap with
  | Some (b, _) =>
      match step toy_hkdf toy_cfg (EReconnect false) b with
      | Some (b', r) => r = Continue ∧ ∃ a tg, hb_connectMu b' = Dialing a tg ∧ target_of toy_cfg a = tg ∧ intended toy_cfg lost = Some tg
      | None => False
      end
  | None => False
  end.
Proof.
  assert (match run toy_hkdf toy_cfg lost NewHelpMCPBootstrap with
          | Some (b, _) => match step toy_hkdf toy_cfg (EReconnect false) b with Some (_, Continue) => true | _ => false end
          | None => false end = true) as H by (vm_compute; reflexivity).
  destruct (run toy_hkdf toy_cfg lost NewHelpMCPBootstrap) as [[b rs]|] eqn:E; [|discriminate H].
  destruct (step toy_hkdf toy_cfg (EReconnect false) b) as [[b' [r|]]|] eqn:Es; [discriminate H| |discriminate H].
  split; [reflexivity|].
  destruct (reconnect_follows_intent toy_hkdf toy_cfg lost b rs b' Continue E Es) as [C|[C|(res & C & _)]]; [discriminate C|exact C|discriminate C].
Defined.

(** The tunnel comes while [connect] waits for it; the same again finds it. *)
Definition direct : list Event := [EConnect code_a; joins "s1"; EUpgrade true 0; ESwitch 0; EWait false; EConnect code_a].

Definition answer_of (rs : list (Event * Reply)) (k : nat) : option connectResult :=
  match rs !! k with Some (_, Answer (Ok r)) => Some r | _ => None end.

Lemma connect_keeps_promises_witness :
  match run toy_hkdf strict_cfg direct NewHelpMCPBootstrap with
  | Some (_, rs) => ∃ res, answer_of rs 5 = Some res ∧ cr_P2P res = true
  | None => False
  end.
Proof.
  assert (match run toy_hkdf strict_cfg direct NewHelpMCPBootstrap with Some (_, rs) => answer_of rs 5 | None => None end
          = Some (mkConnectResult "s1" "relay.example:8443" true "2" false)) as H by (vm_compute; reflexivity).
  destruct (run toy_hkdf strict_cfg direct NewHelpMCPBootstrap) as [[b rs]|] eqn:E; [|discriminate H].
  exists (mkConnectResult "s1" "relay.example:8443" true "2" false). split; [exact H|].
  unfold answer_of in H. destruct (rs !! 5%nat) as [[e [[res|]|]]|] eqn:Hk; try discriminate H. injection H as <-.
  exact (proj2 (connect_keeps_promises toy_hkdf strict_cfg direct b rs 5 e _ E Hk) eq_refl).
Defined.

Lemma one_connection_witness :
  match run toy_hkdf toy_cfg changed_mind NewHelpMCPBootstrap with
  | Some (b, _) => hb_help b = hb_bridge b ∧ hb_open b = match hb_bridge b with Some n => {[n]} | None => ∅ end
  | None => False
  end.
Proof.
  destruct (run toy_hkdf toy_cfg changed_mind NewHelpMCPBootstrap) as [[b rs]|] eqn:E; [|by vm_compute in E].
  exact (one_connection toy_hkdf toy_cfg changed_mind b rs E).
Defined.
