(* ===== verification/ShareP2p.v ===== *)
(** * The direct tunnel on the side of the share (src/internal/client/share.go)

    The share serves one helper after another over the relay; for each of them a
    goroutine negotiates a direct tunnel and serves it.  Rounds are numbered
    ([p2pEpoch]), and what belongs to an old round must not touch the new one.

    The main loop (one goroutine, [waitAndHandleTunnel]) and any number of
    upgrade goroutines interleave at the critical sections of [p2pMu] and at
    every other effect they share: [step].  A goroutine makes at most one
    manager and one tunnel, so both are known by the number of the goroutine;
    the [p2pDone] channels are numbered as they are made.  What a manager
    negotiates, and what comes through the relay and through a tunnel, are
    events.  The bytes of SSH and the work of the daemon are left out. *)

From S2P Require Import Prelude GoText ProtoHandshake ProtoSession P2pManager.

(** ** The goroutine of an upgrade *)

(** What the tool loop reads from the tunnel. *)
Inductive ToolMsg :=
| THeartbeat (ponged : bool)
| THello (sess : Session) (accept : bool)
| TReq.

Inductive UpPc :=
| UStart                                 (* [mgr.Start] *)
| UClear                                 (* [Start] has failed *)
| UAttach                                (* [attachP2PMgr] *)
| UWait                                  (* for the result, or the end of the session *)
| USetTunnel                             (* [setP2PTunnel] *)
| UMode                                  (* [toolModeReady] *)
| UHeader (tool : bool)                  (* [ReadModeHeaderTimeout], [ReadModeHeader] *)
| UTool (swapped : bool)                 (* [pc.ReadMessage] *)
| UCheck (swapped : bool) (msg : ToolMsg)   (* [p2pEpochValid] *)
| UMsg (swapped : bool) (msg : ToolMsg)
| UOnce (swapped : bool) (sess : Session)   (* [ensureDaemon], in three steps *)
| URotate (swapped : bool) (sess : Session)
| UStore (swapped : bool) (sess : Session)
| USwap (swapped : bool)
| UToolEnd                               (* the deferred [tunnel.Close] *)
| UToRelay                               (* and [swapDaemonToRelay] *)
| USsh                                   (* [handleSSHTunnelP2P] *)
| USshEnd
| UAbandon (tunnel : bool)
| UCloseTunnel
| UCloseMgr
| UStaleTunnel
| UEnd.

(** A manager: whether it is open, and the addresses it was given. *)
Record manager := mkMgr { mg_open : bool; mg_ready : list PeerAddrReady }.
#[export] Instance manager_eta : Eta manager := fun m => mkMgr (mg_open m) (mg_ready m).

Record upgrade := mkUpgrade {
  up_epoch : nat;
  up_done : nat;
  up_pc : UpPc;
  up_mgr : manager;
  up_tunnel : bool;
}.
#[export] Instance upgrade_eta : Eta upgrade := fun u =>
  mkUpgrade (up_epoch u) (up_done u) (up_pc u) (up_mgr u) (up_tunnel u).

Definition go (pc : UpPc) (u : upgrade) : upgrade := u <| up_pc := pc |>.
Definition set_tunnel (b : bool) (u : upgrade) : upgrade := u <| up_tunnel := b |>.
Definition set_open (b : bool) (u : upgrade) : upgrade := u <| up_mgr := mkMgr b (mg_ready (up_mgr u)) |>.
Definition HandlePeerAddrReady (r : PeerAddrReady) (u : upgrade) : upgrade :=
  u <| up_mgr := mkMgr (mg_open (up_mgr u)) (mg_ready (up_mgr u) ++ [r]) |>.

(** ** The fields of the share *)

(** Where the daemon sends its answers. *)
Inductive Outlet := ViaRelay | ViaTunnel (i : nat).

Record ShareMode := mkShare {
  sh_mode : P2PMode;
  sh_client : bool;
  sh_daemon : option (Outlet * Session);
  sh_p2pMgr : option nat;
  sh_p2pTunnel : option nat;
  sh_p2pPending : option PeerAddrReady;
  sh_p2pEpoch : nat;
  sh_p2pDone : option nat;
  sh_daemonSess : Session;
}.
#[export] Instance ShareMode_eta : Eta ShareMode := fun s =>
  mkShare (sh_mode s) (sh_client s) (sh_daemon s) (sh_p2pMgr s) (sh_p2pTunnel s) (sh_p2pPending s) (sh_p2pEpoch s) (sh_p2pDone s)
    (sh_daemonSess s).

Definition NewShareMode (mode : P2PMode) : ShareMode := mkShare mode true None None None None 0 None no_session.

(** What is left for [stopP2PSession]: the channel, the tunnel, the manager. *)
Definition Stop : Type := option nat * option nat * option nat.

Definition old_session (s : ShareMode) : Stop := (sh_p2pDone s, sh_p2pTunnel s, sh_p2pMgr s).

(** The critical section of [beginP2PSession]; [done] is the new channel. *)
Definition beginP2PSession (done : nat) (s : ShareMode) : ShareMode :=
  mkShare (sh_mode s) (sh_client s) (sh_daemon s) None None None (S (sh_p2pEpoch s)) (Some done) no_session.

(** And of [endP2PSession]. *)
Definition endP2PSession (s : ShareMode) : ShareMode :=
  mkShare (sh_mode s) (sh_client s) (sh_daemon s) None None None (S (sh_p2pEpoch s)) None (sh_daemonSess s).

Definition p2pEpochValid (epoch : nat) (s : ShareMode) : bool := (sh_p2pEpoch s =? epoch)%nat.

Definition setP2PTunnel (epoch i : nat) (s : ShareMode) : ShareMode * bool :=
  if (sh_p2pEpoch s =? epoch)%nat then (s <| sh_p2pTunnel := Some i |>, true) else (s, false).

Definition attachP2PMgr (epoch i : nat) (u : upgrade) (s : ShareMode) : upgrade * ShareMode * bool :=
  if (sh_p2pEpoch s =? epoch)%nat then
    let s := s <| sh_p2pMgr := Some i |> in
    match sh_p2pPending s with
    | Some r => (HandlePeerAddrReady r u, s <| sh_p2pPending := None |>, true)
    | None => (u, s, true)
    end
  else (u, s, false).

Definition clearP2PAttempt (epoch : nat) (closeRelay : bool) (s : ShareMode) : ShareMode :=
  if (sh_p2pEpoch s =? epoch)%nat then
    mkShare (sh_mode s) (if closeRelay then false else sh_client s) (sh_daemon s) None None None (sh_p2pEpoch s) (sh_p2pDone s)
      (sh_daemonSess s)
  else s.

Definition toolModeReady (s : ShareMode) : bool := Active (sh_daemonSess s).

Definition swapDaemonTo (o : Outlet) (epoch : nat) (s : ShareMode) : ShareMode * bool :=
  match sh_daemon s with
  | None => (s, false)
  | Some _ =>
      if negb (Active (sh_daemonSess s)) || negb (sh_p2pEpoch s =? epoch)%nat then (s, false)
      else (s <| sh_daemon := Some (o, sh_daemonSess s) |>, true)
  end.

Definition swapDaemonToRelay (epoch : nat) (s : ShareMode) : ShareMode := (swapDaemonTo ViaRelay epoch s).1.

(** [ensureDaemon]: the daemon is made once, with the relay for its outlet; then
    its session is set; then [daemonSess].  No epoch is looked at. *)
Definition ensure_once (sess : Session) (s : ShareMode) : ShareMode :=
  match sh_daemon s with None => s <| sh_daemon := Some (ViaRelay, sess) |> | Some _ => s end.
Definition ensure_rotate (sess : Session) (s : ShareMode) : ShareMode :=
  match sh_daemon s with Some (o, _) => s <| sh_daemon := Some (o, sess) |> | None => s end.
Definition ensure_store (sess : Session) (s : ShareMode) : ShareMode := s <| sh_daemonSess := sess |>.

Definition is_required (s : ShareMode) : bool := bool_decide (sh_mode s = P2PModeRequired).
Definition is_disabled (s : ShareMode) : bool := bool_decide (sh_mode s = P2PModeDisabled).

(** ** The steps of a goroutine *)

(** What comes to it: how [Start] ends, what the manager negotiates, what the
    tunnel delivers. *)
Inductive Input :=
| NoInput
| StartOk | StartFail
| ResultTunnel | ResultNone | SessionDone
| HeaderTool | HeaderSsh | HeaderErr
| TunnelMsg (msg : ToolMsg)
| TunnelLost.

(** [handleToolOverP2P]. *)
Definition tool_step (i : nat) (inp : Input) (u : upgrade) (s : ShareMode) : option (upgrade * ShareMode) :=
  let epoch := up_epoch u in
  match up_pc u, inp with
  | UTool swapped, TunnelMsg msg => Some (go (UCheck swapped msg) u, s)
  | UTool _, TunnelLost => Some (go UToolEnd u, s)
  | UCheck swapped msg, NoInput => Some (go (if p2pEpochValid epoch s then UMsg swapped msg else UToolEnd) u, s)
  | UMsg swapped msg, NoInput =>
      match msg with
      | THeartbeat ponged => Some (go (if ponged then UTool swapped else UToolEnd) u, s)
      | THello sess accept =>
          if toolModeReady s then Some (go (UTool swapped) u, s)
          else Some (go (if accept then UOnce swapped sess else UTool swapped) u, s)
      | TReq =>
          if swapped then Some (go (UTool true) u, s)
          else let '(s, ok) := swapDaemonTo (ViaTunnel i) epoch s in Some (go (UTool ok) u, s)
      end
  | UOnce swapped sess, NoInput => Some (go (URotate swapped sess) u, ensure_once sess s)
  | URotate swapped sess, NoInput => Some (go (UStore swapped sess) u, ensure_rotate sess s)
  | UStore swapped sess, NoInput => Some (go (USwap swapped) u, ensure_store sess s)
  | USwap swapped, NoInput => let '(s, ok) := swapDaemonTo (ViaTunnel i) epoch s in Some (go (UTool (swapped || ok)) u, s)
  | UToolEnd, NoInput => Some (go UToRelay (set_tunnel false u), s)
  | UToRelay, NoInput => Some (go (UAbandon false) u, swapDaemonToRelay epoch s)
  | _, _ => None
  end.

(** The whole goroutine; [over]: [sessionDone] is closed. *)
Definition up_step (i : nat) (inp : Input) (over : bool) (u : upgrade) (s : ShareMode) : option (upgrade * ShareMode) :=
  let epoch := up_epoch u in
  match up_pc u, inp with
  | UStart, StartOk => Some (go UAttach (set_open true u), s)
  | UStart, StartFail => Some (go UClear (set_open true u), s)
  | UClear, NoInput => Some (go UCloseMgr u, clearP2PAttempt epoch (is_required s) s)
  | UAttach, NoInput => let '(u, s, ok) := attachP2PMgr epoch i u s in Some (go (if ok then UWait else UCloseMgr) u, s)
  | UWait, ResultTunnel => Some (go USetTunnel (set_tunnel true u), s)
  | UWait, ResultNone => Some (go (UAbandon false) u, s)
  | UWait, SessionDone => if over then Some (go UCloseMgr u, s) else None
  | USetTunnel, NoInput => let '(s, ok) := setP2PTunnel epoch i s in Some (go (if ok then UMode else UStaleTunnel) u, s)
  | UMode, NoInput => Some (go (UHeader (toolModeReady s)) u, s)
  | UHeader _, HeaderTool => Some (go (UTool false) u, s)
  | UHeader true, HeaderSsh => Some (go (UAbandon true) u, s)
  | UHeader false, HeaderSsh => Some (go USsh u, s)
  | UHeader _, HeaderErr => Some (go (UAbandon true) u, s)
  | USsh, TunnelLost => Some (go USshEnd u, s)
  | USshEnd, NoInput => Some (go (UAbandon false) (set_tunnel false u), s)
  | UAbandon tunnel, NoInput => Some (go (if tunnel then UCloseTunnel else UCloseMgr) u, clearP2PAttempt epoch (is_required s) s)
  | UCloseTunnel, NoInput => Some (go UCloseMgr (set_tunnel false u), s)
  | UCloseMgr, NoInput => Some (go UEnd (set_open false u), s)
  | UStaleTunnel, NoInput => Some (go UEnd (set_tunnel false u), s)
  | _, _ => tool_step i inp u s
  end.

(** ** The main loop *)

(** Where it reads the relay: in [waitSessionReady], with the round it has begun,
    or in [handleTunnel]. *)
Inductive Place := PWait (epoch done : nat) | PServe.

Inductive MainPc :=
| MNext                                  (* [Run], between two rounds *)
| MRead (p : Place)
| MLaunch (epoch done : nat)             (* [launchP2PUpgrade] *)
| MOnce (sess : Session) (p : Place)     (* [handleRelayToolHello], once the answer is sent *)
| MRotate (sess : Session) (p : Place)
| MStore (sess : Session) (p : Place)
| MSwap (sess : Session) (p : Place).

Record System := mkSystem {
  sy_share : ShareMode;
  sy_main : MainPc;
  sy_stop : Stop;
  sy_ups : list upgrade;
  sy_dones : list bool;
}.

Definition start (mode : P2PMode) : System := mkSystem (NewShareMode mode) MNext (None, None, None) [] [].

(** [stopP2PSession], an object at a time; the main loop goes on when nothing is left. *)
Definition stopP2PSession (sy : System) : option System :=
  match sy_stop sy with
  | (Some d, t, m) => Some (mkSystem (sy_share sy) (sy_main sy) (None, t, m) (sy_ups sy) (<[d := true]> (sy_dones sy)))
  | (None, Some t, m) => Some (mkSystem (sy_share sy) (sy_main sy) (None, None, m) (alter (set_tunnel false) t (sy_ups sy)) (sy_dones sy))
  | (None, None, Some m) => Some (mkSystem (sy_share sy) (sy_main sy) (None, None, None) (alter (set_open false) m (sy_ups sy)) (sy_dones sy))
  | (None, None, None) => None
  end.

Definition stopped (sy : System) : bool := match sy_stop sy with (None, None, None) => true | _ => false end.

(** [beginP2PSession] and [endP2PSession], the main loop going on at [next]. *)
Definition begin_round (next : nat -> nat -> MainPc) (sy : System) : System :=
  let s := sy_share sy in
  let d := length (sy_dones sy) in
  let s' := beginP2PSession d s in
  mkSystem s' (next (sh_p2pEpoch s') d) (old_session s) (sy_ups sy) (sy_dones sy ++ [false]).

Definition end_round (next : MainPc) (sy : System) : System :=
  mkSystem (endP2PSession (sy_share sy)) next (old_session (sy_share sy)) (sy_ups sy) (sy_dones sy).

Definition at_pc (pc : MainPc) (sy : System) : System := mkSystem (sy_share sy) pc (sy_stop sy) (sy_ups sy) (sy_dones sy).
Definition with_share (f : ShareMode -> ShareMode) (sy : System) : System :=
  mkSystem (f (sy_share sy)) (sy_main sy) (sy_stop sy) (sy_ups sy) (sy_dones sy).

(** [refuseP2PForLegacyPeer]. *)
Definition refuseP2PForLegacyPeer (next : MainPc) (sy : System) : System :=
  if is_disabled (sy_share sy) then at_pc next sy else end_round next sy.

(** [launchP2PUpgrade]: a goroutine for the round, or none. *)
Definition launchP2PUpgrade (epoch done : nat) (sy : System) : System :=
  let s := sy_share sy in
  if is_disabled s then at_pc (MRead PServe) sy
  else if Legacy (sh_daemonSess s) then refuseP2PForLegacyPeer (MRead PServe) sy
  else mkSystem s (MRead PServe) (sy_stop sy) (sy_ups sy ++ [mkUpgrade epoch done UStart (mkMgr false []) false]) (sy_dones sy).

Definition deliverPeerAddrReady (r : PeerAddrReady) (sy : System) : System :=
  match sh_p2pMgr (sy_share sy) with
  | None => with_share (fun s => s <| sh_p2pPending := Some r |>) sy
  | Some m => mkSystem (sy_share sy) (sy_main sy) (sy_stop sy) (alter (HandlePeerAddrReady r) m (sy_ups sy)) (sy_dones sy)
  end.

(** [handleRelayToolHello] up to its answer: [sess] is what [buildHelloAck] gives
    for a hello it accepts. *)
Definition handleRelayToolHello (sess : Session) (p : Place) (sy : System) : System :=
  if Legacy sess && is_required (sy_share sy) then sy
  else if Legacy sess then refuseP2PForLegacyPeer (MOnce sess p) sy
  else at_pc (MOnce sess p) sy.

(** ** Everything at once *)

Inductive Event :=
| EMain                        (* the main loop goes on by itself *)
| EReconnect                   (* the client dials the relay again *)
| EBegin                       (* [waitAndHandleTunnel] *)
| ESession                     (* a SESSION_READY *)
| EHello (sess : Session)
| EReady (r : PeerAddrReady)
| EFail                        (* the loops return *)
| EUpgrade (i : nat) (inp : Input).

Definition main_step (sy : System) : option System :=
  match sy_main sy with
  | MLaunch epoch done => Some (launchP2PUpgrade epoch done sy)
  | MOnce sess p => Some (at_pc (MRotate sess p) (with_share (ensure_once sess) sy))
  | MRotate sess p => Some (at_pc (MStore sess p) (with_share (ensure_rotate sess) sy))
  | MStore sess p => Some (at_pc (MSwap sess p) (with_share (ensure_store sess) sy))
  | MSwap sess p =>
      Some (at_pc (MRead p) (with_share (fun s => match sh_daemon s with Some _ => s <| sh_daemon := Some (ViaRelay, sess) |> | None => s end) sy))
  | _ => None
  end.

Definition step (e : Event) (sy : System) : option System :=
  match e with
  | EUpgrade i inp =>
      match sy_ups sy !! i with
      | Some u =>
          match up_step i inp (default false (sy_dones sy !! up_done u)) u (sy_share sy) with
          | Some (u, s) => Some (mkSystem s (sy_main sy) (sy_stop sy) (<[i := u]> (sy_ups sy)) (sy_dones sy))
          | None => None
          end
      | None => None
      end
  | _ =>
      if stopped sy then
        match e, sy_main sy with
        | EMain, _ => main_step sy
        | EReconnect, MNext => Some (with_share (fun s => s <| sh_client := true |>) sy)
        | EBegin, MNext => Some (begin_round (fun epoch done => MRead (PWait epoch done)) sy)
        | ESession, MRead (PWait epoch done) => Some (at_pc (MLaunch epoch done) sy)
        | ESession, MRead PServe => Some (begin_round MLaunch sy)
        | EHello sess, MRead p => Some (handleRelayToolHello sess p sy)
        | EReady r, MRead PServe => Some (deliverPeerAddrReady r sy)
        | EFail, MRead _ => Some (end_round MNext sy)
        | _, _ => None
        end
      else match e with EMain => stopP2PSession sy | _ => None end
  end.

Fixpoint steps (es : list Event) (sy : System) : option System :=
  match es with
  | [] => Some sy
  | e :: es => match step e sy with Some sy => steps es sy | None => None end
  end.
