(* ===== verification/ShareP2pThms.v ===== *)
(** * What holds of the share's rounds, whatever the order of events

    One invariant, [rounds], for the registers of the share, the numbered
    channels, and each goroutine ([fair_play]); from it: that a finished session
    leaves nothing open, that an old goroutine is never stuck and winds down, and
    that it keeps off the new round. *)

From S2P Require Import Prelude GoText ProtoHandshake ProtoSession P2pManager ShareP2p.

(** ** The places of a goroutine *)

(** Its manager has been attached and is still its business. *)
Definition attached (pc : UpPc) : bool :=
  match pc with
  | UWait | USetTunnel | UMode | UHeader _ | UTool _ | UCheck _ _ | UMsg _ _ | UOnce _ _ | URotate _ _ | UStore _ _ | USwap _
  | UToolEnd | UToRelay | USsh | USshEnd => true
  | _ => false
  end.

(** Its tunnel is registered and being used. *)
Definition tunnelled (pc : UpPc) : bool :=
  match pc with
  | UMode | UHeader _ | UTool _ | UCheck _ _ | UMsg _ _ | UOnce _ _ | URotate _ _ | UStore _ _ | USwap _ | USsh => true
  | _ => false
  end.

(** It will close its manager, its tunnel, by itself. *)
Definition closes_mgr (pc : UpPc) : bool := match pc with UStart | UStaleTunnel | UEnd => false | _ => true end.
Definition closes_tunnel (pc : UpPc) : bool :=
  tunnelled pc || match pc with USetTunnel | UToolEnd | USshEnd | UAbandon true | UCloseTunnel | UStaleTunnel => true | _ => false end.

(** Its attempt is behind it. *)
Definition past (pc : UpPc) : bool :=
  match pc with UCloseTunnel | UCloseMgr | UStaleTunnel | UEnd => true | _ => false end.

Definition stop_done (x : Stop) : option nat := x.1.1.
Definition stop_tunnel (x : Stop) : option nat := x.1.2.
Definition stop_mgr (x : Stop) : option nat := x.2.

Definition round_of (pc : MainPc) : option (nat * nat) :=
  match pc with
  | MNext | MRead PServe | MOnce _ PServe | MRotate _ PServe | MStore _ PServe | MSwap _ PServe => None
  | MRead (PWait e d) | MLaunch e d | MOnce _ (PWait e d) | MRotate _ (PWait e d) | MStore _ (PWait e d) | MSwap _ (PWait e d) => Some (e, d)
  end.

(** ** The invariant *)

Record fair_play (s : ShareMode) (x : Stop) (dones : list bool) (i : nat) (u : upgrade) : Prop := {
  fp_epoch : (up_epoch u ≤ sh_p2pEpoch s)%nat;
  fp_done : dones !! up_done u = Some true ∨ stop_done x = Some (up_done u) ∨
    (sh_p2pDone s = Some (up_done u) ∧ up_epoch u = sh_p2pEpoch s);
  fp_att : attached (up_pc u) = true →
    (sh_p2pMgr s = Some i ∧ up_epoch u = sh_p2pEpoch s) ∨ mg_open (up_mgr u) = false ∨ stop_mgr x = Some i;
  fp_tun : tunnelled (up_pc u) = true →
    (sh_p2pTunnel s = Some i ∧ up_epoch u = sh_p2pEpoch s) ∨ up_tunnel u = false ∨ stop_tunnel x = Some i;
  fp_mgr_open : mg_open (up_mgr u) = true → closes_mgr (up_pc u) = true ∨ stop_mgr x = Some i;
  fp_tun_open : up_tunnel u = true → closes_tunnel (up_pc u) = true;
}.

Record rounds (sy : System) : Prop := {
  ro_ups : ∀ i u, sy_ups sy !! i = Some u → fair_play (sy_share sy) (sy_stop sy) (sy_dones sy) i u;
  ro_uniq : ∀ i j u v, sy_ups sy !! i = Some u → sy_ups sy !! j = Some v → up_epoch u = up_epoch v → i = j;
  ro_main : ∀ e d, round_of (sy_main sy) = Some (e, d) →
    (e ≤ sh_p2pEpoch (sy_share sy))%nat ∧ (∀ i u, sy_ups sy !! i = Some u → (up_epoch u < e)%nat) ∧
    (sy_dones sy !! d = Some true ∨ stop_done (sy_stop sy) = Some d ∨
      (sh_p2pDone (sy_share sy) = Some d ∧ e = sh_p2pEpoch (sy_share sy)));
  ro_next : sy_main sy = MNext →
    sh_p2pDone (sy_share sy) = None ∧ ∀ i u, sy_ups sy !! i = Some u → (up_epoch u < sh_p2pEpoch (sy_share sy))%nat;
  ro_mgr : ∀ i, sh_p2pMgr (sy_share sy) = Some i → ∃ u, sy_ups sy !! i = Some u ∧ up_epoch u = sh_p2pEpoch (sy_share sy);
  ro_tun : ∀ i, sh_p2pTunnel (sy_share sy) = Some i → ∃ u, sy_ups sy !! i = Some u ∧ up_epoch u = sh_p2pEpoch (sy_share sy);
  ro_done : ∀ d, sh_p2pDone (sy_share sy) = Some d → sy_dones sy !! d = Some false ∧ stop_done (sy_stop sy) ≠ Some d;
  ro_stop : ∀ d, stop_done (sy_stop sy) = Some d → sy_dones sy !! d = Some false;
  ro_dones : ∀ d, sy_dones sy !! d = Some false → sh_p2pDone (sy_share sy) = Some d ∨ stop_done (sy_stop sy) = Some d;
  ro_old : ∀ i, stop_mgr (sy_stop sy) = Some i ∨ stop_tunnel (sy_stop sy) = Some i →
    ∃ u, sy_ups sy !! i = Some u ∧ (up_epoch u < sh_p2pEpoch (sy_share sy))%nat;
}.

(** ** A step of a goroutine *)

(** What it does to the share: the number, the channel and the mode stay; the
    registers change only for a goroutine of the round, and then for its own
    number or for nothing. *)
Record own_change (e i : nat) (s s' : ShareMode) : Prop := {
  oc_mode : sh_mode s' = sh_mode s;
  oc_epoch : sh_p2pEpoch s' = sh_p2pEpoch s;
  oc_done : sh_p2pDone s' = sh_p2pDone s;
  oc_mgr : sh_p2pMgr s' = sh_p2pMgr s ∨ e = sh_p2pEpoch s ∧ (sh_p2pMgr s' = Some i ∨ sh_p2pMgr s' = None);
  oc_tun : sh_p2pTunnel s' = sh_p2pTunnel s ∨ e = sh_p2pEpoch s ∧ (sh_p2pTunnel s' = Some i ∨ sh_p2pTunnel s' = None);
}.

Ltac epoch_tests :=
  repeat match goal with
  | E : _ || _ = false |- _ => apply orb_false_iff in E as [? ?]
  | E : negb _ = false |- _ => apply negb_false_iff in E
  | E : (_ =? _)%nat = true |- _ => apply Nat.eqb_eq in E
  | E : (_ =? _)%nat = false |- _ => apply Nat.eqb_neq in E
  end.

(** The branches of a step of a goroutine. *)
Ltac up_cases H :=
  unfold up_step, tool_step, p2pEpochValid, attachP2PMgr, setP2PTunnel, swapDaemonToRelay, swapDaemonTo, clearP2PAttempt, ensure_once, ensure_rotate, ensure_store in H;
  repeat match goal with E : up_pc _ = _ |- _ => progress rewrite E in H end;
  repeat (case_match; simplify_eq/=); simplify_eq/=; epoch_tests.

Lemma up_step_own i inp over u s u' s' : up_step i inp over u s = Some (u', s') → own_change (up_epoch u) i s s'.
Proof. intros H. destruct (up_pc u) eqn:Epc; unfold up_step in H; rewrite Epc in H; up_cases H; split; cbn; auto. Qed.

Lemma up_step_same i inp over u s u' s' :
  up_step i inp over u s = Some (u', s') → up_epoch u' = up_epoch u ∧ up_done u' = up_done u.
Proof. intros H. destruct (up_pc u) eqn:Epc; unfold up_step in H; rewrite Epc in H; up_cases H; done. Qed.

(** Whoever is of another round does not notice. *)
Lemma fair_play_frame e i s s' x dones j v :
  own_change e i s s' → up_epoch v ≠ e → fair_play s x dones j v → fair_play s' x dones j v.
Proof.
  intros [C1 C2 C3 C4 C5] Hne [F1 F2 F3 F4 F5 F6]. split; rewrite ?C2, ?C3; try done.
  - intros Ha. destruct (F3 Ha) as [[F F']|F]; [|by right]. left. split; [|done]. destruct C4 as [->|[-> _]]; [done|congruence].
  - intros Ha. destruct (F4 Ha) as [[F F']|F]; [|by right]. left. split; [|done]. destruct C5 as [->|[-> _]]; [done|congruence].
Qed.

Lemma fair_play_step i inp over u s x dones u' s' :
  up_step i inp over u s = Some (u', s') → fair_play s x dones i u → fair_play s' x dones i u'.
Proof.
  intros H [F1 F2 F3 F4 F5 F6].
  pose proof (up_step_own _ _ _ _ _ _ _ H) as [C1 C2 C3 _ _]. pose proof (up_step_same _ _ _ _ _ _ _ H) as [C4 C5].
  split; rewrite ?C4, ?C5, ?C2, ?C3; try done; clear C1 C2 C3 C4 C5 F2;
    (destruct (up_pc u) eqn:Epc; unfold up_step in H; rewrite Epc in H; up_cases H; cbn in *; try done; try tauto; try intuition congruence).
Qed.

(** After a step of goroutine [i], a goroutine is [i] or one of the others. *)
Lemma lookup_stepped {A} (l : list A) i j u u' v :
  l !! i = Some u → <[i := u']> l !! j = Some v → (j = i ∧ v = u') ∨ (j ≠ i ∧ l !! j = Some v).
Proof.
  intros Hi Hj. destruct (decide (j = i)) as [->|Hne].
  - rewrite list_lookup_insert_eq in Hj; [|by eapply lookup_lt_Some]. injection Hj as <-. by left.
  - rewrite list_lookup_insert_ne in Hj by done. by right.
Qed.

Lemma stepped_epoch (l : list upgrade) i j u u' v :
  l !! i = Some u → up_epoch u' = up_epoch u → <[i := u']> l !! j = Some v →
  ∃ w, l !! j = Some w ∧ up_epoch w = up_epoch v.
Proof. intros Hi He Hj. destruct (lookup_stepped _ _ _ _ _ _ Hi Hj) as [[-> ->]|[_ ?]]; eauto. Qed.

Lemma stepped_back (l : list upgrade) i j u u' v :
  l !! i = Some u → up_epoch u' = up_epoch u → l !! j = Some v →
  ∃ w, <[i := u']> l !! j = Some w ∧ up_epoch w = up_epoch v.
Proof.
  intros Hi He Hj. destruct (decide (j = i)) as [->|Hne].
  - simplify_eq. exists u'. by rewrite list_lookup_insert_eq by (by eapply lookup_lt_Some).
  - exists v. by rewrite list_lookup_insert_ne.
Qed.

Lemma rounds_upgrade i inp over u u' s' sy :
  rounds sy → sy_ups sy !! i = Some u → up_step i inp over u (sy_share sy) = Some (u', s') →
  rounds (mkSystem s' (sy_main sy) (sy_stop sy) (<[i := u']> (sy_ups sy)) (sy_dones sy)).
Proof.
  intros [R1 R2 R3 R4 R5 R6 R7 R8 R9 R10] Hi H.
  pose proof (up_step_own _ _ _ _ _ _ _ H) as C. pose proof C as [C1 C2 C3 C4 C5].
  destruct (up_step_same _ _ _ _ _ _ _ H) as [He _].
  split; cbn; rewrite ?C2, ?C3; try done.
  - intros j v Hj. destruct (lookup_stepped _ _ _ _ _ _ Hi Hj) as [[-> ->]|[Hne Hj']].
    + eapply fair_play_step; [exact H|by apply R1].
    + eapply fair_play_frame; [exact C| |by apply R1]. intros Heq. by apply Hne, (R2 _ _ _ _ Hj' Hi).
  - intros j k v w Hj Hk Heq.
    destruct (stepped_epoch _ _ _ _ _ _ Hi He Hj) as (v' & Hj' & Ev), (stepped_epoch _ _ _ _ _ _ Hi He Hk) as (w' & Hk' & Ew).
    apply (R2 _ _ _ _ Hj' Hk'). congruence.
  - intros e d Hm. destruct (R3 e d Hm) as (A & B & D). split; [done|split; [|done]].
    intros j v Hj. destruct (stepped_epoch _ _ _ _ _ _ Hi He Hj) as (v' & Hj' & <-). eauto.
  - intros Hm. destruct (R4 Hm) as (A & B). split; [done|].
    intros j v Hj. destruct (stepped_epoch _ _ _ _ _ _ Hi He Hj) as (v' & Hj' & <-). eauto.
  - intros j Hj. assert (sh_p2pMgr (sy_share sy) = Some j ∨ j = i ∧ up_epoch u = sh_p2pEpoch (sy_share sy)) as [Hj'|[-> Hu]].
    { destruct C4 as [<-|[E [E'|E']]]; [by left|right|]; split || idtac; congruence. }
    + destruct (R5 j Hj') as (v & Hv & Ev). destruct (stepped_back _ _ _ _ _ _ Hi He Hv) as (w & ? & ?). exists w. split; [done|congruence].
    + destruct (stepped_back _ _ _ _ _ _ Hi He Hi) as (w & ? & ?). exists w. split; [done|congruence].
  - intros j Hj. assert (sh_p2pTunnel (sy_share sy) = Some j ∨ j = i ∧ up_epoch u = sh_p2pEpoch (sy_share sy)) as [Hj'|[-> Hu]].
    { destruct C5 as [<-|[E [E'|E']]]; [by left|right|]; split || idtac; congruence. }
    + destruct (R6 j Hj') as (v & Hv & Ev). destruct (stepped_back _ _ _ _ _ _ Hi He Hv) as (w & ? & ?). exists w. split; [done|congruence].
    + destruct (stepped_back _ _ _ _ _ _ Hi He Hi) as (w & ? & ?). exists w. split; [done|congruence].
  - intros j Hj. destruct (R10 j Hj) as (v & Hv & Ev).
    destruct (stepped_back _ _ _ _ _ _ Hi He Hv) as (w & ? & ?). exists w. split; [done|congruence].
Qed.

(** ** The steps of the main loop *)

(** The main loop moves within the round, and the registers stay. *)
Lemma rounds_at sy s' pc :
  rounds sy → sy_main sy ≠ MNext → pc ≠ MNext →
  (∀ e d, round_of pc = Some (e, d) → round_of (sy_main sy) = Some (e, d)) →
  sh_p2pEpoch s' = sh_p2pEpoch (sy_share sy) → sh_p2pDone s' = sh_p2pDone (sy_share sy) →
  sh_p2pMgr s' = sh_p2pMgr (sy_share sy) → sh_p2pTunnel s' = sh_p2pTunnel (sy_share sy) →
  rounds (mkSystem s' pc (sy_stop sy) (sy_ups sy) (sy_dones sy)).
Proof.
  intros [R1 R2 R3 R4 R5 R6 R7 R8 R9 R10] Hm Hpc Hr C1 C2 C3 C4.
  split; cbn; rewrite ?C1, ?C2, ?C3, ?C4; try done; [|by intros e d He; apply R3, Hr].
  intros i u Hu. destruct (R1 i u Hu) as [F1 F2 F3 F4 F5 F6]. split; rewrite ?C1, ?C2, ?C3, ?C4; done.
Qed.

(** The main loop says something to a goroutine's manager, or closes something of it. *)
Lemma lookup_altered {A} (f : A → A) (l : list A) i j v :
  alter f i l !! j = Some v → ∃ u, l !! j = Some u ∧ v = (if decide (j = i) then f u else u).
Proof.
  destruct (decide (j = i)) as [->|Hne].
  - rewrite list_lookup_alter_eq. destruct (l !! i) as [u|]; cbn; intros H; simplify_eq. by exists u.
  - rewrite list_lookup_alter_ne by done. intros H. by exists v.
Qed.

Lemma altered_back {A} (f : A → A) (l : list A) i j u :
  l !! j = Some u → alter f i l !! j = Some (if decide (j = i) then f u else u).
Proof.
  intros H. destruct (decide (j = i)) as [->|Hne].
  - by rewrite list_lookup_alter_eq, H.
  - by rewrite list_lookup_alter_ne.
Qed.

(** What the list of goroutines must keep for the facts that look at the rounds. *)
Definition same_rounds (l l' : list upgrade) : Prop := ∀ i e, (∃ u, l !! i = Some u ∧ up_epoch u = e) ↔ (∃ u, l' !! i = Some u ∧ up_epoch u = e).

Lemma same_rounds_alter f i l : (∀ u, up_epoch (f u) = up_epoch u) → same_rounds l (alter f i l).
Proof.
  intros Hf j e. split.
  - intros (u & Hu & <-). exists (if decide (j = i) then f u else u). split; [by apply altered_back|]. by destruct (decide _).
  - intros (u & Hu & <-). apply lookup_altered in Hu as (v & Hv & ->). exists v. split; [done|]. by destruct (decide _).
Qed.

Lemma rounds_main_step sy x ups dones :
  rounds sy → same_rounds (sy_ups sy) ups →
  (∀ i u, ups !! i = Some u → fair_play (sy_share sy) x dones i u) →
  (∀ e d, round_of (sy_main sy) = Some (e, d) →
    dones !! d = Some true ∨ stop_done x = Some d ∨ (sh_p2pDone (sy_share sy) = Some d ∧ e = sh_p2pEpoch (sy_share sy))) →
  (∀ d, sh_p2pDone (sy_share sy) = Some d → dones !! d = Some false ∧ stop_done x ≠ Some d) →
  (∀ d, stop_done x = Some d → dones !! d = Some false) →
  (∀ d, dones !! d = Some false → sh_p2pDone (sy_share sy) = Some d ∨ stop_done x = Some d) →
  (∀ i, stop_mgr x = Some i ∨ stop_tunnel x = Some i → stop_mgr (sy_stop sy) = Some i ∨ stop_tunnel (sy_stop sy) = Some i) →
  rounds (mkSystem (sy_share sy) (sy_main sy) x ups dones).
Proof.
  intros [R1 R2 R3 R4 R5 R6 R7 R8 R9 R10] Hs Hf Hd1 Hd2 Hd3 Hd4 Hx.
  assert (∀ i u, ups !! i = Some u → ∃ v, sy_ups sy !! i = Some v ∧ up_epoch v = up_epoch u) as Hold.
  { intros i u Hu. apply Hs. by exists u. }
  assert (∀ i u, sy_ups sy !! i = Some u → ∃ v, ups !! i = Some v ∧ up_epoch v = up_epoch u) as Hnew.
  { intros i u Hu. apply Hs. by exists u. }
  split; cbn; try done.
  - intros i j u v Hu Hv E. destruct (Hold _ _ Hu) as (u' & Hu' & Eu), (Hold _ _ Hv) as (v' & Hv' & Ev).
    apply (R2 _ _ _ _ Hu' Hv'). congruence.
  - intros e d Hm. destruct (R3 e d Hm) as (A & B & _). split; [done|split; [|by apply Hd1]].
    intros i u Hu. destruct (Hold _ _ Hu) as (u' & Hu' & <-). eauto.
  - intros Hm. destruct (R4 Hm) as (A & B). split; [done|].
    intros i u Hu. destruct (Hold _ _ Hu) as (u' & Hu' & <-). eauto.
  - intros i Hi. destruct (R5 i Hi) as (u & Hu & E). destruct (Hnew _ _ Hu) as (v & ? & ?). exists v. split; [done|congruence].
  - intros i Hi. destruct (R6 i Hi) as (u & Hu & E). destruct (Hnew _ _ Hu) as (v & ? & ?). exists v. split; [done|congruence].
  - intros i Hi. destruct (R10 i (Hx i Hi)) as (u & Hu & E). destruct (Hnew _ _ Hu) as (v & ? & ?). exists v. split; [done|congruence].
Qed.

(** [stopP2PSession]. *)
Lemma fair_play_stop s x x' dones dones' i u :
  (∀ d, dones !! d = Some true → dones' !! d = Some true) →
  (∀ d, stop_done x = Some d → stop_done x' = Some d ∨ dones' !! d = Some true) →
  (stop_mgr x = Some i → stop_mgr x' = Some i ∨ mg_open (up_mgr u) = false) →
  (stop_tunnel x = Some i → stop_tunnel x' = Some i ∨ up_tunnel u = false) →
  fair_play s x dones i u → fair_play s x' dones' i u.
Proof.
  intros H1 H2 H3 H4 [F1 F2 F3 F4 F5 F6]. split; try done.
  - destruct F2 as [F|[F|F]]; auto. destruct (H2 _ F); auto.
  - intros Ha. destruct (F3 Ha) as [F|[F|F]]; auto. destruct (H3 F); auto.
  - intros Ha. destruct (F4 Ha) as [F|[F|F]]; auto. destruct (H4 F); auto.
  - intros Ha. destruct (F5 Ha) as [F|F]; auto. destruct (H3 F) as [?|E]; auto. by rewrite Ha in E.
Qed.

Lemma fair_play_closed_mgr s x dones i u : fair_play s x dones i u → fair_play s x dones i (set_open false u).
Proof. intros [F1 F2 F3 F4 F5 F6]. split; cbn; try done. intros Ha. by right; left. Qed.

Lemma fair_play_closed_tunnel s x dones i u : fair_play s x dones i u → fair_play s x dones i (set_tunnel false u).
Proof. intros [F1 F2 F3 F4 F5 F6]. split; cbn; try done. intros Ha. by right; left. Qed.

Lemma same_rounds_refl l : same_rounds l l.
Proof. done. Qed.

Lemma rounds_stop sy sy' : rounds sy → stopP2PSession sy = Some sy' → rounds sy'.
Proof.
  intros R H. pose proof R as [R1 R2 R3 R4 R5 R6 R7 R8 R9 R10]. unfold stopP2PSession in H.
  destruct (sy_stop sy) as [[[d|] t] m] eqn:Ex; [|destruct t as [t|]; [|destruct m as [m|]; [|done]]];
    injection H as <-; cbn [stop_done stop_tunnel stop_mgr fst snd] in *.
  - pose proof (R8 d eq_refl) as Hd. pose proof (lookup_lt_Some _ _ _ Hd) as Hlt.
    assert (∀ d', <[d:=true]> (sy_dones sy) !! d' = if decide (d' = d) then Some true else sy_dones sy !! d') as Hl.
    { intros d'. destruct (decide (d' = d)) as [->|]; [by apply list_lookup_insert_eq|by apply list_lookup_insert_ne]. }
    apply rounds_main_step; try done.
    + intros i u Hu. eapply fair_play_stop; [| | | |by apply R1]; cbn; auto.
      * intros d' Hd'. rewrite Hl. by destruct (decide _).
      * intros d' Hd'. right. rewrite Hl. simplify_eq. by rewrite decide_True.
    + intros e d' Hm. rewrite Hl. destruct (R3 e d' Hm) as (_ & _ & [F|[F|F]]); destruct (decide (d' = d)); auto; cbn in F; congruence.
    + intros d' Hd'. destruct (R7 d' Hd') as (A & B). rewrite Hl, decide_False; [done|]. intros ->. by apply B.
    + intros d' Hd'. rewrite Hl in Hd'. destruct (decide _) as [|Hne]; [done|]. destruct (R9 d' Hd') as [?|E]; [by left|congruence].
    + intros i Hi. by rewrite Ex.
  - apply rounds_main_step; try done.
    + by apply same_rounds_alter.
    + intros i u Hu. apply lookup_altered in Hu as (v & Hv & ->). pose proof (R1 i v Hv) as F.
      destruct (decide (i = t)) as [->|Hne].
      * eapply fair_play_stop; [| | | |apply fair_play_closed_tunnel, F]; cbn; auto.
      * eapply fair_play_stop; [| | | |apply F]; cbn; auto. congruence.
    + intros e d Hm. by destruct (R3 e d Hm) as (_ & _ & ?).
    + rewrite Ex. intros i [Hi|Hi]; [by left|done].
  - apply rounds_main_step; try done.
    + by apply same_rounds_alter.
    + intros i u Hu. apply lookup_altered in Hu as (v & Hv & ->). pose proof (R1 i v Hv) as F.
      destruct (decide (i = m)) as [->|Hne].
      * eapply fair_play_stop; [| | | |apply fair_play_closed_mgr, F]; cbn; auto.
      * eapply fair_play_stop; [| | | |apply F]; cbn; auto. congruence.
    + intros e d Hm. by destruct (R3 e d Hm) as (_ & _ & ?).
    + by intros i [Hi|Hi].
Qed.

(** A goroutine when the number goes up: it is one of an old round, and what the
    registers named is left to [stopP2PSession]. *)
Lemma fair_play_next s s' dones dones' i u :
  sh_p2pEpoch s' = S (sh_p2pEpoch s) → (∀ d b, dones !! d = Some b → dones' !! d = Some b) →
  fair_play s (None, None, None) dones i u → fair_play s' (old_session s) dones' i u.
Proof.
  intros E Hd [F1 F2 F3 F4 F5 F6]. split; rewrite ?E; cbn in *; try lia; try done.
  - destruct F2 as [F|[F|[F _]]]; [left; by apply Hd|done|by right; left].
  - intros Ha. destruct (F3 Ha) as [[F _]|[F|F]]; auto. done.
  - intros Ha. destruct (F4 Ha) as [[F _]|[F|F]]; auto. done.
  - intros Ha. destruct (F5 Ha) as [F|F]; [by left|done].
Qed.

Lemma stopped_nothing sy : stopped sy = true → sy_stop sy = (None, None, None).
Proof. unfold stopped. by destruct (sy_stop sy) as [[[?|] [?|]] [?|]]. Qed.

(** The number goes up: [next] is where the main loop goes on, [new] the channels
    of the new round. *)
Lemma rounds_next sy s' next new :
  rounds sy → stopped sy = true → sh_p2pEpoch s' = S (sh_p2pEpoch (sy_share sy)) → sh_p2pMgr s' = None → sh_p2pTunnel s' = None →
  new = (if sh_p2pDone s' then [false] else []) →
  (∀ d, sh_p2pDone s' = Some d → d = length (sy_dones sy)) →
  (next = MNext → sh_p2pDone s' = None) →
  (∀ e d, round_of next = Some (e, d) →
    sh_p2pDone s' = Some d ∧ e = sh_p2pEpoch s' ∨ sh_p2pDone s' = None ∧ round_of (sy_main sy) = Some (e, d)) →
  rounds (mkSystem s' next (old_session (sy_share sy)) (sy_ups sy) (sy_dones sy ++ new)).
Proof.
  intros [R1 R2 R3 R4 R5 R6 R7 R8 R9 R10] Hst%stopped_nothing E Em Et Hnew Hd Hn Hr.
  destruct sy as [s pc x ups dones]. cbn in *. subst x.
  assert (∀ d b, dones !! d = Some b → (dones ++ new) !! d = Some b) as Hold.
  { intros d b Hb. rewrite lookup_app_l; [done|by eapply lookup_lt_Some]. }
  assert (∀ i, sh_p2pMgr s = Some i ∨ sh_p2pTunnel s = Some i → ∃ u, ups !! i = Some u ∧ (up_epoch u < S (sh_p2pEpoch s))%nat) as Hreg.
  { intros i [Hi|Hi]; [destruct (R5 i Hi) as (u & ? & ?)|destruct (R6 i Hi) as (u & ? & ?)]; exists u; split; auto; lia. }
  split; cbn; rewrite ?E, ?Em, ?Et; try done.
  - intros i u Hu. eapply fair_play_next; [done|exact Hold|by apply R1].
  - intros e d Hm. destruct (Hr e d Hm) as [[Hd' ->]|[Hd' Hm']].
    + rewrite Hd' in *. split; [lia|split; [|by right; right; split]]. intros i u Hu. destruct (R1 i u Hu). lia.
    + destruct (R3 e d Hm') as (A & B & C). split; [lia|split; [done|]]. unfold old_session, stop_done. cbn.
      destruct C as [C|[C|[C _]]]; auto. done.
  - intros Hm. split; [by apply Hn|]. intros i u Hu. destruct (R1 i u Hu). lia.
  - intros d Hd'. rewrite (Hd d Hd'), Hnew, Hd'. split; [by apply list_lookup_middle|].
    unfold old_session, stop_done. cbn. intros Hc. apply R7 in Hc as [Hc _]. apply lookup_lt_Some in Hc. lia.
  - unfold old_session, stop_done. cbn. intros d Hc. by apply Hold, R7.
  - unfold old_session, stop_done. cbn. intros d Hc. apply lookup_app_Some in Hc as [Hc|[Hle Hc]].
    + destruct (R9 d Hc) as [?|?]; [by right|done].
    + left. subst new. destruct (sh_p2pDone s') as [d'|]; [|done]. rewrite (Hd d' eq_refl).
      apply list_lookup_singleton_Some in Hc as [? _]. f_equal. lia.
Qed.

Lemma rounds_end next sy :
  rounds sy → stopped sy = true → (∀ e d, round_of next = Some (e, d) → round_of (sy_main sy) = Some (e, d)) → rounds (end_round next sy).
Proof.
  intros R Hst Hr. unfold end_round. rewrite <- (app_nil_r (sy_dones sy)). apply rounds_next; try done. intros e d H. right. auto.
Qed.

Lemma rounds_begin next sy :
  rounds sy → stopped sy = true → (∀ e d, next e d ≠ MNext ∧ round_of (next e d) = Some (e, d)) → rounds (begin_round next sy).
Proof.
  intros R Hst Hr. unfold begin_round. apply rounds_next; try done.
  - intros d [= <-]. done.
  - intros H. by destruct (proj1 (Hr _ _) H).
  - intros e d H. rewrite (proj2 (Hr _ _)) in H. injection H as <- <-. by left.
Qed.

Lemma rounds_refuse next sy :
  rounds sy → stopped sy = true → sy_main sy ≠ MNext → next ≠ MNext →
  (∀ e d, round_of next = Some (e, d) → round_of (sy_main sy) = Some (e, d)) → rounds (refuseP2PForLegacyPeer next sy).
Proof.
  intros R Hst Hm Hn Hr. unfold refuseP2PForLegacyPeer. destruct (is_disabled _); [by apply rounds_at|by apply rounds_end].
Qed.

Lemma rounds_launch e d sy : rounds sy → stopped sy = true → sy_main sy = MLaunch e d → rounds (launchP2PUpgrade e d sy).
Proof.
  intros R Hst Hm. unfold launchP2PUpgrade. destruct (is_disabled _); [apply rounds_at; try done; congruence|].
  destruct (Legacy _); [apply rounds_refuse; try done; congruence|].
  destruct R as [R1 R2 R3 R4 R5 R6 R7 R8 R9 R10]. destruct (R3 e d) as (He & Hlt & Hd); [by rewrite Hm|].
  assert (∀ i u, (sy_ups sy ++ [mkUpgrade e d UStart (mkMgr false []) false]) !! i = Some u →
    sy_ups sy !! i = Some u ∨ i = length (sy_ups sy) ∧ u = mkUpgrade e d UStart (mkMgr false []) false) as Hups.
  { intros i u Hu. apply lookup_app_Some in Hu as [Hu|[Hle Hu]]; [by left|right].
    apply list_lookup_singleton_Some in Hu as [? <-]. split; [lia|done]. }
  assert (∀ i u, sy_ups sy !! i = Some u → (sy_ups sy ++ [mkUpgrade e d UStart (mkMgr false []) false]) !! i = Some u) as Hold.
  { intros i u Hu. rewrite lookup_app_l; [done|by eapply lookup_lt_Some]. }
  split; cbn; try done.
  - intros i u Hu. destruct (Hups _ _ Hu) as [Hu'|[-> ->]]; [by apply R1|]. split; cbn; try done.
  - intros i j u v Hu Hv E. destruct (Hups _ _ Hu) as [Hu'|[-> ->]], (Hups _ _ Hv) as [Hv'|[-> ->]]; cbn in *.
    + by eapply R2.
    + apply Hlt in Hu'. lia.
    + apply Hlt in Hv'. lia.
    + done.
  - intros i Hi. destruct (R5 i Hi) as (u & Hu & ?). eauto.
  - intros i Hi. destruct (R6 i Hi) as (u & Hu & ?). eauto.
  - intros i Hi. destruct (R10 i Hi) as (u & Hu & ?). eauto.
Qed.

Lemma rounds_deliver r sy : rounds sy → sy_main sy = MRead PServe → rounds (deliverPeerAddrReady r sy).
Proof.
  intros R Hm. unfold deliverPeerAddrReady. destruct (sh_p2pMgr _) as [m|] eqn:Em.
  - pose proof R as [R1 R2 R3 R4 R5 R6 R7 R8 R9 R10]. apply rounds_main_step; try done.
    + by apply same_rounds_alter.
    + intros i u Hu. apply lookup_altered in Hu as (v & Hv & ->). destruct (R1 i v Hv). by destruct (decide _).
    + intros e d H. by rewrite Hm in H.
  - apply rounds_at; try done; by rewrite Hm.
Qed.

Lemma rounds_hello sess p sy : rounds sy → stopped sy = true → sy_main sy = MRead p → rounds (handleRelayToolHello sess p sy).
Proof.
  intros R Hst Hm. unfold handleRelayToolHello. destruct (Legacy sess && _); [done|].
  destruct (Legacy sess); [apply rounds_refuse|apply rounds_at]; try done; rewrite Hm; destruct p; done.
Qed.

Lemma rounds_main sy sy' : rounds sy → stopped sy = true → main_step sy = Some sy' → rounds sy'.
Proof.
  intros R Hst H. unfold main_step in H.
  destruct (sy_main sy) as [|p|e d|sess p|sess p|sess p|sess p] eqn:Em; try done; injection H as <-.
  - by apply rounds_launch.
  - apply (rounds_at sy _ (MRotate sess p)); rewrite ?Em; try (by destruct p); cbn; unfold ensure_once; by destruct (sh_daemon (sy_share sy)).
  - apply (rounds_at sy _ (MStore sess p)); rewrite ?Em; try (by destruct p); cbn; unfold ensure_rotate; by destruct (sh_daemon (sy_share sy)) as [[? ?]|].
  - apply (rounds_at sy _ (MSwap sess p)); rewrite ?Em; by destruct p.
  - apply (rounds_at sy _ (MRead p)); rewrite ?Em; try (by destruct p); cbn; by destruct (sh_daemon (sy_share sy)).
Qed.

Lemma rounds_step e sy sy' : rounds sy → step e sy = Some sy' → rounds sy'.
Proof.
  intros R H. destruct e as [ | | | |sess|r| |i inp].
  8: { cbn in H. destruct (sy_ups sy !! i) as [u|] eqn:Hi; [|done]. destruct (up_step _ _ _ _ _) as [[u' s']|] eqn:Hu; [|done].
    injection H as <-. by eapply rounds_upgrade. }
  all: cbn in H; destruct (stopped sy) eqn:Hst; [|try done; by eapply rounds_stop].
  - by eapply rounds_main.
  - destruct (sy_main sy) eqn:Em; try done. injection H as <-. destruct R as [R1 R2 R3 R4 R5 R6 R7 R8 R9 R10].
    split; cbn; try done. intros i u Hu. by destruct (R1 i u Hu).
  - destruct (sy_main sy) eqn:Em; try done. injection H as <-. by apply rounds_begin.
  - destruct (sy_main sy) as [|[e d|]| | | | |] eqn:Em; try done; injection H as <-.
    + apply rounds_at; rewrite ?Em; done.
    + by apply rounds_begin.
  - destruct (sy_main sy) as [|p| | | | |] eqn:Em; try done. injection H as <-. by apply rounds_hello.
  - destruct (sy_main sy) as [|[|]| | | | |] eqn:Em; try done. injection H as <-. by apply rounds_deliver.
  - destruct (sy_main sy) as [|p| | | | |] eqn:Em; try done. injection H as <-. by apply rounds_end.
Qed.

Lemma rounds_start mode : rounds (start mode).
Proof. split; cbn; try done; setoid_rewrite lookup_nil; try done. naive_solver. Qed.

Lemma rounds_steps es sy sy' : rounds sy → steps es sy = Some sy' → rounds sy'.
Proof.
  revert sy. induction es as [|e es IH]; intros sy R H; cbn in H; [by simplify_eq|].
  destruct (step e sy) as [sy1|] eqn:E; [|done]. eapply IH; [|done]. by eapply rounds_step.
Qed.

Lemma rounds_reachable mode es sy : steps es (start mode) = Some sy → rounds sy.
Proof. apply rounds_steps, rounds_start. Qed.

(** ** Nothing is left behind *)

(** C27: once the rounds are over and their goroutines have ended, every manager
    and every tunnel that was made is closed, every termination channel is
    closed, and the registers are empty, in whatever order the events came. *)
Theorem session_leaves_nothing mode es sy :
  steps es (start mode) = Some sy → sy_main sy = MNext → stopped sy = true →
  (∀ i u, sy_ups sy !! i = Some u → up_pc u = UEnd) →
  (∀ i u, sy_ups sy !! i = Some u → mg_open (up_mgr u) = false ∧ up_tunnel u = false) ∧
  (∀ d b, sy_dones sy !! d = Some b → b = true) ∧
  sh_p2pMgr (sy_share sy) = None ∧ sh_p2pTunnel (sy_share sy) = None ∧ sh_p2pDone (sy_share sy) = None.
Proof.
  intros [R1 R2 R3 R4 R5 R6 R7 R8 R9 R10]%rounds_reachable Hm Hst%stopped_nothing Hend. rewrite Hst in *.
  destruct (R4 Hm) as (Hd & Hlt). split; [|split; [|split; [|split]]]; try done.
  - intros i u Hu. destruct (R1 i u Hu) as [_ _ _ _ F5 F6]. rewrite (Hend i u Hu) in F5, F6. cbn in *.
    split; [destruct (mg_open _); [by destruct F5|done]|destruct (up_tunnel u); [by specialize (F6 eq_refl)|done]].
  - intros d [|] Hb; [done|]. destruct (R9 d Hb) as [E|E]; cbn in E; congruence.
  - destruct (sh_p2pMgr (sy_share sy)) as [i|] eqn:E; [|done]. destruct (R5 i eq_refl) as (u & Hu & ?). apply Hlt in Hu. lia.
  - destruct (sh_p2pTunnel (sy_share sy)) as [i|] eqn:E; [|done]. destruct (R6 i eq_refl) as (u & Hu & ?). apply Hlt in Hu. lia.
Qed.

(** ** An old goroutine winds down *)

(** What a goroutine gets with no help from the other side: the closed channel,
    the error of reading a closed tunnel, or nothing it waits for. *)
Definition own_input (over : bool) (u : upgrade) : option Input :=
  match up_pc u with
  | UStart | UEnd => None
  | UWait => if over then Some SessionDone else None
  | UHeader _ => if up_tunnel u then None else Some HeaderErr
  | UTool _ | USsh => if up_tunnel u then None else Some TunnelLost
  | _ => Some NoInput
  end.

Definition rank (pc : UpPc) : nat :=
  match pc with
  | UStart => 22 | UAttach => 21 | UWait => 20 | USetTunnel => 19 | UMode => 18 | UHeader _ => 17 | UMsg _ _ => 16
  | UOnce _ _ => 15 | URotate _ _ => 14 | UStore _ _ => 13 | USwap _ => 12 | UTool _ => 11 | UCheck _ _ => 10
  | UToolEnd => 9 | UToRelay => 8 | USsh => 9 | USshEnd => 8 | UAbandon _ => 6 | UClear => 6 | UCloseTunnel => 5
  | UCloseMgr => 4 | UStaleTunnel => 1 | UEnd => 0
  end.

(** The goroutine [i] goes on by itself until its end. *)
Fixpoint drive (fuel i : nat) (sy : System) : option System :=
  match sy_ups sy !! i with
  | Some u =>
      match up_pc u, fuel with
      | UEnd, _ => Some sy
      | _, O => None
      | _, S fuel =>
          match own_input (default false (sy_dones sy !! up_done u)) u with
          | Some inp => match step (EUpgrade i inp) sy with Some sy => drive fuel i sy | None => None end
          | None => None
          end
      end
  | None => None
  end.

(** Out of its round, a step leads towards the end. *)
Lemma rank_decreases i inp over u s u' s' :
  up_step i inp over u s = Some (u', s') → up_epoch u ≠ sh_p2pEpoch s → (rank (up_pc u') < rank (up_pc u))%nat.
Proof.
  intros H Hne. destruct (up_pc u) eqn:Epc; unfold up_step in H; rewrite Epc in H; up_cases H; cbn; try lia; congruence.
Qed.

(** And it is never stuck. *)
Lemma own_step sy i u over :
  fair_play (sy_share sy) (None, None, None) (sy_dones sy) i u → up_epoch u ≠ sh_p2pEpoch (sy_share sy) →
  over = default false (sy_dones sy !! up_done u) → up_pc u ≠ UStart → up_pc u ≠ UEnd →
  ∃ inp, own_input over u = Some inp ∧ is_Some (up_step i inp over u (sy_share sy)).
Proof.
  intros [F1 F2 F3 F4 F5 F6] Hne Ho Hs He. cbn in *.
  assert (over = true) as ->. { destruct F2 as [F|[F|[_ F]]]; [by rewrite Ho, F|done|done]. }
  assert (tunnelled (up_pc u) = true → up_tunnel u = false) as Ht. { intros Ha. by destruct (F4 Ha) as [[_ ?]|[?|?]]. }
  unfold own_input, up_step. destruct (up_pc u) eqn:Epc; try done; try (rewrite (Ht eq_refl));
    (eexists; split; [reflexivity|]); unfold attachP2PMgr, setP2PTunnel, tool_step, swapDaemonTo; rewrite ?Epc; repeat case_match; by eexists.
Qed.

Lemma drive_ends n : ∀ sy i u,
  rounds sy → stopped sy = true → sy_ups sy !! i = Some u → up_epoch u ≠ sh_p2pEpoch (sy_share sy) → up_pc u ≠ UStart →
  (rank (up_pc u) ≤ n)%nat →
  ∃ sy' u', drive n i sy = Some sy' ∧ sy_ups sy' !! i = Some u' ∧ up_pc u' = UEnd ∧ rounds sy' ∧ sy_stop sy' = sy_stop sy.
Proof.
  induction n as [|n IH]; intros sy i u R Hst Hu Hne Hs Hn.
  - exists sy, u. cbn. rewrite Hu. destruct (up_pc u) eqn:Epc; cbn in Hn; try lia. done.
  - cbn. rewrite Hu. assert (up_pc u = UEnd ∨ up_pc u ≠ UEnd) as [He|He] by (destruct (up_pc u); auto); [rewrite He; by exists sy, u|].
    pose proof (ro_ups _ R i u Hu) as F. rewrite (stopped_nothing _ Hst) in F.
    destruct (own_step sy i u _ F Hne eq_refl Hs He) as (inp & Ho & [[u' s'] Hstep]).
    rewrite Ho, Hstep. destruct (up_step_own _ _ _ _ _ _ _ Hstep) as [_ Ee _ _ _].
    destruct (up_step_same _ _ _ _ _ _ _ Hstep) as [Eu _]. pose proof (rank_decreases _ _ _ _ _ _ _ Hstep Hne) as Hr.
    destruct (IH (mkSystem s' (sy_main sy) (sy_stop sy) (<[i := u']> (sy_ups sy)) (sy_dones sy)) i u') as (sy' & w & Hd & Hw & Hp & R' & Hx).
    + by eapply rounds_upgrade.
    + done.
    + cbn. apply list_lookup_insert_eq. by eapply lookup_lt_Some.
    + cbn. congruence.
    + intros E. rewrite E in Hr. destruct (up_pc u); cbn in Hr; try lia; done.
    + lia.
    + exists sy', w. split; [|done]. destruct (up_pc u); done.
Qed.

(** Once [stopP2PSession] is through, a goroutine of an old round is never
    stuck: by itself, in at most 21 steps and with nothing from the other side,
    it comes to its end, its manager and its tunnel closed; and any step it
    takes out of its round brings it nearer. *)
Theorem old_round_winds_down mode es sy i u :
  steps es (start mode) = Some sy → stopped sy = true → sy_ups sy !! i = Some u →
  up_epoch u ≠ sh_p2pEpoch (sy_share sy) → up_pc u ≠ UStart →
  (∃ sy' u', drive 21 i sy = Some sy' ∧ sy_ups sy' !! i = Some u' ∧ up_pc u' = UEnd ∧ mg_open (up_mgr u') = false ∧ up_tunnel u' = false) ∧
  ∀ inp over u' s', up_step i inp over u (sy_share sy) = Some (u', s') → (rank (up_pc u') < rank (up_pc u))%nat.
Proof.
  intros R%rounds_reachable Hst Hu Hne Hs. split; [|by intros; eapply rank_decreases].
  destruct (drive_ends 21 sy i u) as (sy' & u' & Hd & Hu' & Hp & R' & Hx); try done.
  { destruct (up_pc u); cbn; try lia. done. }
  exists sy', u'. split; [done|]. split; [done|]. split; [done|].
  destruct (ro_ups _ R' i u' Hu') as [_ _ _ _ F5 F6]. rewrite Hp in F5, F6. rewrite Hx, (stopped_nothing _ Hst) in F5. cbn in F5, F6.
  split; [destruct (mg_open _); [by destruct F5|done]|destruct (up_tunnel u'); [by specialize (F6 eq_refl)|done]].
Qed.

(** ** An old goroutine keeps off *)

(** The handshake over a tunnel, where no number is looked at. *)
Definition in_handshake (pc : UpPc) : bool := match pc with UOnce _ _ | URotate _ _ | UStore _ _ => true | _ => false end.

(** A step of a goroutine of an old round changes nothing but itself (the
    handshake over a tunnel apart): the registers, the daemon with its outlet
    and its session, the connection to the relay, every other goroutine with its
    manager and tunnel stay; and neither the manager nor the tunnel of the
    current round is its own. *)
Theorem old_round_keeps_off mode es sy i inp u sy' :
  steps es (start mode) = Some sy → sy_ups sy !! i = Some u → up_epoch u ≠ sh_p2pEpoch (sy_share sy) →
  in_handshake (up_pc u) = false → step (EUpgrade i inp) sy = Some sy' →
  sy_share sy' = sy_share sy ∧ sy_main sy' = sy_main sy ∧ sy_stop sy' = sy_stop sy ∧ sy_dones sy' = sy_dones sy ∧
  (∀ j, j ≠ i → sy_ups sy' !! j = sy_ups sy !! j) ∧
  sh_p2pMgr (sy_share sy) ≠ Some i ∧ sh_p2pTunnel (sy_share sy) ≠ Some i.
Proof.
  intros R%rounds_reachable Hu Hne Hh H. cbn in H. rewrite Hu in H.
  destruct (up_step _ _ _ _ _) as [[u' s']|] eqn:Hs; [|done]. injection H as <-. cbn.
  assert (s' = sy_share sy) as ->.
  { destruct (up_pc u) eqn:Epc; unfold up_step in Hs; rewrite Epc in Hs; up_cases Hs; try done; congruence. }
  split; [done|]. split; [done|]. split; [done|]. split; [done|].
  split; [intros j Hj; by apply list_lookup_insert_ne|].
  split; intros E; [destruct (ro_mgr _ R i E) as (v & Hv & ?)|destruct (ro_tun _ R i E) as (v & Hv & ?)]; simplify_eq.
Qed.
