(* ===== verification/ShareP2pSession.v ===== *)
(** * What reaches the manager, and where the daemon answers

    [ready_never_lost]: an address the relay passes on during a round is kept
    until the manager of the round is attached.  [answers_follow]: the daemon
    works with the session that was agreed last, and answers over the relay or
    over the current round's tunnel while that is being served.  The hypothesis
    of the second, that no handshake is accepted over a tunnel, is needed:
    [old_round_replaces_session]. *)

From S2P Require Import Prelude GoText ProtoHandshake ProtoSession P2pManager ShareP2p ShareP2pThms.

(** ** The address of the other side *)

(** A manager that is attached has no address waiting for it. *)
Definition none_waits (s : ShareMode) : Prop := ∀ i, sh_p2pMgr s = Some i → sh_p2pPending s = None.

Lemma none_waits_upgrade i inp over u s u' s' : up_step i inp over u s = Some (u', s') → none_waits s → none_waits s'.
Proof.
  intros H Hw j. destruct (up_pc u) eqn:Epc; unfold up_step in H; rewrite Epc in H; up_cases H; cbn; try (by apply Hw); try done.
Qed.

Lemma none_waits_step e sy sy' : step e sy = Some sy' → none_waits (sy_share sy) → none_waits (sy_share sy').
Proof.
  intros H Hw. destruct e as [ | | | |sess|r| |i inp]; cbn in H.
  8: { destruct (sy_ups sy !! i) as [u|]; [|done]. destruct (up_step _ _ _ _ _) as [[u' s']|] eqn:Hu; [|done].
    injection H as <-. by eapply none_waits_upgrade. }
  all: unfold main_step, stopP2PSession, launchP2PUpgrade, handleRelayToolHello, refuseP2PForLegacyPeer, deliverPeerAddrReady,
      ensure_once, ensure_rotate in H; repeat (case_match; simplify_eq/=); try done; intros j Hj; cbn in *; try done; try (by apply (Hw j)); try congruence.
Qed.

Lemma none_waits_steps es sy sy' : steps es sy = Some sy' → none_waits (sy_share sy) → none_waits (sy_share sy').
Proof.
  revert sy. induction es as [|e es IH]; intros sy H Hw; cbn in H; [by simplify_eq|].
  destruct (step e sy) as [sy1|] eqn:E; [|done]. eapply IH; [done|]. by eapply none_waits_step.
Qed.

(** Where the address is: it waits for the manager; the manager has it, as the
    last one; or the attempt of the round is over. *)
Definition heard (r : PeerAddrReady) (s : ShareMode) (ups : list upgrade) : Prop :=
  sh_p2pMgr s = None ∧ sh_p2pPending s = Some r ∨
  (∃ i u, sh_p2pMgr s = Some i ∧ ups !! i = Some u ∧ last (mg_ready (up_mgr u)) = Some r) ∨
  sh_p2pMgr s = None ∧ ∃ i u, ups !! i = Some u ∧ up_epoch u = sh_p2pEpoch s ∧ past (up_pc u) = true.

Definition is_ready (e : Event) : bool := match e with EReady _ => true | _ => false end.

(** The number of rounds never goes down. *)
Lemma epoch_grows e sy sy' : step e sy = Some sy' → (sh_p2pEpoch (sy_share sy) ≤ sh_p2pEpoch (sy_share sy'))%nat.
Proof.
  intros H. destruct e as [ | | | |sess|r| |i inp]; cbn in H.
  8: { destruct (sy_ups sy !! i) as [u|]; [|done]. destruct (up_step _ _ _ _ _) as [[u' s']|] eqn:Hu; [|done].
    injection H as <-. cbn. by rewrite (oc_epoch _ _ _ _ (up_step_own _ _ _ _ _ _ _ Hu)). }
  all: unfold main_step, stopP2PSession, launchP2PUpgrade, handleRelayToolHello, refuseP2PForLegacyPeer, deliverPeerAddrReady,
      ensure_once, ensure_rotate in H; repeat (case_match; simplify_eq/=); lia.
Qed.

Lemma epochs_grow es sy sy' : steps es sy = Some sy' → (sh_p2pEpoch (sy_share sy) ≤ sh_p2pEpoch (sy_share sy'))%nat.
Proof.
  revert sy. induction es as [|e es IH]; intros sy H; cbn in H; [by simplify_eq|].
  destruct (step e sy) as [sy1|] eqn:E; [|done]. apply epoch_grows in E. apply IH in H. lia.
Qed.

(** What a step of a goroutine does to the address: nothing; it attaches its
    manager, which gets what waits; or it ends the attempt of the round. *)
Lemma up_registers j inp over u s u' s' :
  up_step j inp over u s = Some (u', s') →
  (sh_p2pMgr s' = sh_p2pMgr s ∧ sh_p2pPending s' = sh_p2pPending s ∧ mg_ready (up_mgr u') = mg_ready (up_mgr u) ∧
   (past (up_pc u) = true → past (up_pc u') = true)) ∨
  (up_epoch u = sh_p2pEpoch s ∧ up_pc u = UAttach ∧ sh_p2pMgr s' = Some j ∧ sh_p2pPending s' = None ∧
   mg_ready (up_mgr u') = mg_ready (up_mgr u) ++ match sh_p2pPending s with Some r => [r] | None => [] end) ∨
  (up_epoch u = sh_p2pEpoch s ∧ sh_p2pMgr s' = None ∧ sh_p2pPending s' = None ∧ past (up_pc u') = true).
Proof.
  intros H. destruct (up_pc u) eqn:Epc; unfold up_step in H; rewrite Epc in H; up_cases H; cbn; rewrite ?app_nil_r; auto 10;
    try (left; split_and!; done); right; left; split_and!; try done; congruence.
Qed.

Lemma heard_upgrade r j inp over u u' s' sy :
  rounds sy → none_waits (sy_share sy) → sy_ups sy !! j = Some u → up_step j inp over u (sy_share sy) = Some (u', s') →
  heard r (sy_share sy) (sy_ups sy) → heard r s' (<[j := u']> (sy_ups sy)).
Proof.
  intros R Hw Hj H Hh. pose proof (oc_epoch _ _ _ _ (up_step_own _ _ _ _ _ _ _ H)) as Ee.
  destruct (up_step_same _ _ _ _ _ _ _ H) as [Eu _].
  assert (<[j := u']> (sy_ups sy) !! j = Some u') as Hj' by (apply list_lookup_insert_eq; by eapply lookup_lt_Some).
  assert (∀ i v, i ≠ j → sy_ups sy !! i = Some v → <[j := u']> (sy_ups sy) !! i = Some v) as Hi'.
  { intros i v Hne Hv. by rewrite list_lookup_insert_ne. }
  destruct (up_registers _ _ _ _ _ _ _ H) as [(Em & Ep & Er & Hpast)|[(Ej & Epc & Em & Ep & Er)|(Ej & Em & Ep & Hpast)]].
  - destruct Hh as [[A B]|[(i & v & A & B & C)|(A & i & v & B & C & D)]].
    + left. split; congruence.
    + right; left. destruct (decide (i = j)) as [->|Hne]; [exists j, u'|exists i, v]; split_and!; auto; try congruence.
    + right; right. split; [congruence|]. destruct (decide (i = j)) as [->|Hne]; [exists j, u'|exists i, v]; simplify_eq; split_and!; auto; congruence.
  - destruct Hh as [[A B]|[(i & v & A & B & C)|(A & i & v & B & C & D)]].
    + right; left. exists j, u'. split_and!; auto. by rewrite Er, B, last_snoc.
    + right; left. destruct (ro_mgr _ R i A) as (w & Hv & Ev). simplify_eq.
      assert (i = j) as -> by (apply (ro_uniq _ R _ _ _ _ B Hj); congruence). simplify_eq.
      exists j, u'. split_and!; auto. by rewrite Er, (Hw j A), app_nil_r.
    + assert (i = j) as -> by (apply (ro_uniq _ R _ _ _ _ B Hj); congruence). simplify_eq. by rewrite Epc in D.
  - right; right. split; [done|]. exists j, u'. split_and!; auto; congruence.
Qed.

(** The main loop, when it neither hears an address nor starts a round. *)
Lemma heard_main r e sy sy' :
  step e sy = Some sy' → is_ready e = false → (∀ i inp, e ≠ EUpgrade i inp) →
  sh_p2pEpoch (sy_share sy') = sh_p2pEpoch (sy_share sy) → heard r (sy_share sy) (sy_ups sy) → heard r (sy_share sy') (sy_ups sy').
Proof.
  intros H Hr Hu Ee Hh.
  assert (sh_p2pMgr (sy_share sy') = sh_p2pMgr (sy_share sy) ∧ sh_p2pPending (sy_share sy') = sh_p2pPending (sy_share sy) ∧
    ∀ i u, sy_ups sy !! i = Some u →
      ∃ u', sy_ups sy' !! i = Some u' ∧ up_epoch u' = up_epoch u ∧ up_pc u' = up_pc u ∧ mg_ready (up_mgr u') = mg_ready (up_mgr u)) as (Em & Ep & Hups).
  { destruct e as [ | | | |sess|r'| |i inp]; try done; [..|by destruct (Hu i inp)]; cbn in H;
      unfold main_step, stopP2PSession, launchP2PUpgrade, handleRelayToolHello, refuseP2PForLegacyPeer, ensure_once, ensure_rotate in H;
      repeat (case_match; simplify_eq/=); try lia; split_and!; try done; intros i u Hi;
      first [by exists u | by (rewrite (altered_back _ _ _ _ _ Hi); eexists; split; [reflexivity|]; destruct (decide _))
            | by (exists u; rewrite lookup_app_l; [|by eapply lookup_lt_Some])]. }
  destruct Hh as [[A B]|[(i & v & A & B & C)|(A & i & v & B & C & D)]].
  - left. split; congruence.
  - right; left. destruct (Hups i v B) as (v' & ? & ? & ? & E). exists i, v'. split_and!; [congruence|done|by rewrite E].
  - right; right. destruct (Hups i v B) as (v' & ? & ? & E & ?). split; [congruence|]. exists i, v'. split_and!; [done|congruence|by rewrite E].
Qed.

Lemma heard_steps r es : ∀ sy sy',
  rounds sy → none_waits (sy_share sy) → steps es sy = Some sy' → Forall (λ e, is_ready e = false) es →
  sh_p2pEpoch (sy_share sy') = sh_p2pEpoch (sy_share sy) → heard r (sy_share sy) (sy_ups sy) → heard r (sy_share sy') (sy_ups sy').
Proof.
  induction es as [|e es IH]; intros sy sy' R Hw H Hf Ee Hh; cbn in H; [by simplify_eq|].
  destruct (step e sy) as [sy1|] eqn:E; [|done]. apply Forall_cons in Hf as [He Hf].
  pose proof (epoch_grows _ _ _ E). pose proof (epochs_grow _ _ _ H).
  apply (IH sy1); try done; [by eapply rounds_step|by eapply none_waits_step|lia|].
  destruct e as [ | | | |sess|r'| |i inp]; try (by eapply heard_main; [exact E|..]; first [done|lia]).
  cbn in E. destruct (sy_ups sy !! i) as [u|] eqn:Hi; [|done]. destruct (up_step _ _ _ _ _) as [[u' s']|] eqn:Hu; [|done].
  injection E as <-. by eapply heard_upgrade.
Qed.

(** An address the relay passes on is not lost while its round lasts: until
    another comes, it waits for the manager, or is the last one the attached
    manager was given, or the attempt of the round is over; however long [Start]
    takes, and whatever the other goroutines do. *)
Theorem ready_never_lost mode es sy r sy1 es' sy2 :
  steps es (start mode) = Some sy → step (EReady r) sy = Some sy1 → steps es' sy1 = Some sy2 →
  Forall (λ e, is_ready e = false) es' → sh_p2pEpoch (sy_share sy2) = sh_p2pEpoch (sy_share sy) →
  heard r (sy_share sy2) (sy_ups sy2).
Proof.
  intros H H1 H2 Hf Ee. pose proof (rounds_reachable _ _ _ H) as R.
  assert (none_waits (sy_share sy)) as Hw by (by eapply none_waits_steps).
  pose proof (epoch_grows _ _ _ H1). pose proof (epochs_grow _ _ _ H2).
  apply (heard_steps r es' sy1); try done; [by eapply rounds_step|by eapply none_waits_step|lia|].
  cbn in H1. destruct (stopped sy); [|done]. destruct (sy_main sy) as [|[|]| | | | |]; try done. injection H1 as <-.
  unfold deliverPeerAddrReady. destruct (sh_p2pMgr (sy_share sy)) as [m|] eqn:Em; [|by left].
  right; left. destruct (ro_mgr _ R m Em) as (u & Hu & _). exists m, (HandlePeerAddrReady r u). split_and!; [done|..].
  - cbn. by rewrite list_lookup_alter_eq, Hu.
  - cbn. by rewrite last_snoc.
Qed.

(** ** The session of the daemon and its outlet *)

(** No accepted handshake comes over a tunnel. *)
Definition no_tunnel_hello (e : Event) : bool :=
  match e with EUpgrade _ (TunnelMsg (THello _ true)) => false | _ => true end.

Definition calm (pc : UpPc) : bool :=
  match pc with
  | UOnce _ _ | URotate _ _ | UStore _ _ | USwap _ | UCheck _ (THello _ true) | UMsg _ (THello _ true) => false
  | _ => true
  end.

(** In [handleToolOverP2P]. *)
Definition serving (pc : UpPc) : bool :=
  match pc with UTool _ | UCheck _ _ | UMsg _ _ | UToolEnd | UToRelay => true | _ => false end.

(** The daemon has the session; the outlet is the relay, or the tunnel of the
    current round while its goroutine serves it. *)
Definition outlet_ok (s : ShareMode) (ups : list upgrade) (o : Outlet) : Prop :=
  match o with
  | ViaRelay => True
  | ViaTunnel i => ∃ u, ups !! i = Some u ∧ up_epoch u = sh_p2pEpoch s ∧ serving (up_pc u) = true
  end.

Definition agreed (s : ShareMode) (pc : MainPc) : Prop :=
  match pc with
  | MRotate _ _ | MStore _ _ => is_Some (sh_daemon s)
  | MSwap sess _ => is_Some (sh_daemon s) ∧ sh_daemonSess s = sess
  | _ => Active (sh_daemonSess s) = true → ∃ o, sh_daemon s = Some (o, sh_daemonSess s)
  end.

Definition settled (pc : MainPc) : bool := match pc with MRead _ | MLaunch _ _ => true | _ => false end.

Record one_session (sy : System) : Prop := {
  os_calm : ∀ i u, sy_ups sy !! i = Some u → calm (up_pc u) = true;
  os_agreed : agreed (sy_share sy) (sy_main sy);
  os_out : ∀ o k, settled (sy_main sy) = true → Active (sh_daemonSess (sy_share sy)) = true →
    sh_daemon (sy_share sy) = Some (o, k) → outlet_ok (sy_share sy) (sy_ups sy) o;
}.

Lemma up_step_calm i inp over u s u' s' :
  up_step i inp over u s = Some (u', s') → no_tunnel_hello (EUpgrade i inp) = true → calm (up_pc u) = true → calm (up_pc u') = true.
Proof.
  intros H Hn Hc. destruct (up_pc u) eqn:Epc; unfold up_step in H; rewrite Epc in H; up_cases H; try done.
Qed.

(** What a calm step does to the daemon: nothing, or it sets the outlet, with the
    session of the share, as a goroutine of the round. *)
Lemma up_step_daemon i inp over u s u' s' :
  up_step i inp over u s = Some (u', s') → calm (up_pc u) = true →
  sh_daemonSess s' = sh_daemonSess s ∧
  ((sh_daemon s' = sh_daemon s ∧
    (serving (up_pc u) = true → serving (up_pc u') = true ∨
       Active (sh_daemonSess s) = false ∨ up_epoch u ≠ sh_p2pEpoch s ∨ sh_daemon s = None)) ∨
   (is_Some (sh_daemon s) ∧ up_epoch u = sh_p2pEpoch s ∧
    (sh_daemon s' = Some (ViaRelay, sh_daemonSess s) ∨ sh_daemon s' = Some (ViaTunnel i, sh_daemonSess s) ∧ serving (up_pc u') = true))).
Proof.
  intros H Hc. destruct (up_pc u) eqn:Epc; unfold up_step in H; rewrite Epc in H; up_cases H; cbn;
    repeat match goal with
    | E : _ || _ = true |- _ => apply orb_true_iff in E as [?|?]
    | E : negb _ = true |- _ => apply negb_true_iff in E
    end; epoch_tests; (split; [done|]); try done; try (left; by auto); right; split_and!; eauto.
Qed.

Lemma one_session_upgrade i inp sy sy' :
  rounds sy → one_session sy → no_tunnel_hello (EUpgrade i inp) = true → step (EUpgrade i inp) sy = Some sy' → one_session sy'.
Proof.
  intros R [O1 O2 O3] Hn H. cbn in H. destruct (sy_ups sy !! i) as [u|] eqn:Hi; [|done].
  destruct (up_step _ _ _ _ _) as [[u' s']|] eqn:Hu; [|done]. injection H as <-.
  destruct (up_step_daemon _ _ _ _ _ _ _ Hu (O1 i u Hi)) as (Es & Hd).
  pose proof (oc_epoch _ _ _ _ (up_step_own _ _ _ _ _ _ _ Hu)) as Ee. destruct (up_step_same _ _ _ _ _ _ _ Hu) as [Eu _].
  assert (<[i := u']> (sy_ups sy) !! i = Some u') as Hi' by (apply list_lookup_insert_eq; by eapply lookup_lt_Some).
  split; cbn.
  - intros j v Hj. destruct (lookup_stepped _ _ _ _ _ _ Hi Hj) as [[-> ->]|[_ Hj']]; [|by eapply O1].
    eapply up_step_calm; [exact Hu|done|by eapply O1].
  - unfold agreed in *. rewrite Es. destruct Hd as [[-> _]|([x Hx] & _ & Hd)]; [by destruct (sy_main sy)|].
    destruct Hd as [->|[-> _]]; destruct (sy_main sy); naive_solver.
  - intros o k Hm Ha Ed. rewrite Es in Ha. unfold outlet_ok.
    destruct Hd as [[Hd Hserv]|(Hx & He & [Hd|[Hd Hserv]])]; rewrite Hd in Ed.
    + pose proof (O3 o k Hm Ha Ed) as Ho. destruct o as [|j]; [done|]. destruct Ho as (v & Hv & Ev & Hs). rewrite Ee.
      destruct (decide (j = i)) as [->|Hne]; [|exists v; by rewrite list_lookup_insert_ne].
      simplify_eq. exists u'. split_and!; [done|congruence|]. destruct (Hserv Hs) as [?|[E|[E|E]]]; try done; congruence.
    + by simplify_eq.
    + simplify_eq. exists u'. split_and!; [done|congruence|done].
Qed.

(** The main loop, when the registers of the round stay. *)
Lemma outlet_kept s s' ups ups' o :
  sh_p2pEpoch s' = sh_p2pEpoch s →
  (∀ i u, ups !! i = Some u → ∃ u', ups' !! i = Some u' ∧ up_epoch u' = up_epoch u ∧ up_pc u' = up_pc u) →
  outlet_ok s ups o → outlet_ok s' ups' o.
Proof.
  intros E Hups. destruct o as [|i]; [done|]. intros (u & Hu & Eu & Hs). destruct (Hups i u Hu) as (v & Hv & Ev & Ep).
  exists v. split_and!; [done|congruence|by rewrite Ep].
Qed.

(** Before the goroutine of a round exists, answers go over the relay. *)
Lemma outlet_waiting sy o e d :
  rounds sy → round_of (sy_main sy) = Some (e, d) → outlet_ok (sy_share sy) (sy_ups sy) o → o = ViaRelay.
Proof.
  intros R Hm Ho. destruct o as [|i]; [done|]. destruct Ho as (u & Hu & Eu & _). destruct (ro_main _ R e d Hm) as (Hle & Hlt & _).
  apply Hlt in Hu. lia.
Qed.

Lemma calm_altered f i (ups : list upgrade) :
  (∀ u, up_pc (f u) = up_pc u) → (∀ j u, ups !! j = Some u → calm (up_pc u) = true) →
  ∀ j u, alter f i ups !! j = Some u → calm (up_pc u) = true.
Proof. intros Hf Hc j u Hu. apply lookup_altered in Hu as (v & Hv & ->). apply Hc in Hv. destruct (decide _); [by rewrite Hf|done]. Qed.

Lemma same_places_alter f i (ups : list upgrade) :
  (∀ u, up_epoch (f u) = up_epoch u ∧ up_pc (f u) = up_pc u) →
  ∀ j u, ups !! j = Some u → ∃ u', alter f i ups !! j = Some u' ∧ up_epoch u' = up_epoch u ∧ up_pc u' = up_pc u.
Proof. intros Hf j u Hu. eexists. split; [by apply altered_back|]. by destruct (decide _). Qed.

(** The main loop says something to a goroutine's manager, or closes something of it. *)
Lemma one_session_alter sy x f i dones :
  (∀ u, up_epoch (f u) = up_epoch u ∧ up_pc (f u) = up_pc u) → one_session sy →
  one_session (mkSystem (sy_share sy) (sy_main sy) x (alter f i (sy_ups sy)) dones).
Proof.
  intros Hf [O1 O2 O3]. split; cbn; [|done|].
  - apply calm_altered; [apply Hf|done].
  - intros o k Hm Ha Ed. eapply outlet_kept; [done|by apply same_places_alter|by eapply O3].
Qed.

Lemma one_session_stop sy sy' : one_session sy → stopP2PSession sy = Some sy' → one_session sy'.
Proof.
  intros O H. unfold stopP2PSession in H. destruct (sy_stop sy) as [[[d|] [t|]] [m|]]; simplify_eq; try done;
    try (by apply one_session_alter); by destruct O.
Qed.

Lemma one_session_begin next sy : one_session sy → (∀ e d, settled (next e d) = true) → one_session (begin_round next sy).
Proof.
  intros [O1 O2 O3] Hn. split; cbn; [done| |done].
  unfold agreed. specialize (Hn (S (sh_p2pEpoch (sy_share sy))) (length (sy_dones sy))). by destruct (next _ _).
Qed.

(** The session has been agreed, and the main loop leaves the round, or waits for
    a handshake to go on. *)
Lemma one_session_end next sy :
  one_session sy → settled (sy_main sy) = true → settled next = false →
  match next with MNext | MOnce _ _ => True | _ => False end → one_session (end_round next sy).
Proof.
  intros [O1 O2 O3] Hs Hn Hp. split; cbn; [done| |congruence].
  unfold agreed in *. by destruct (sy_main sy), next.
Qed.

Lemma one_session_at next sy :
  one_session sy → settled (sy_main sy) = true → match next with MRead _ | MLaunch _ _ | MOnce _ _ => True | _ => False end →
  one_session (at_pc next sy).
Proof.
  intros [O1 O2 O3] Hs Hp. split; cbn; [done| |].
  - unfold agreed in *. by destruct (sy_main sy), next.
  - intros o k _ Ha Ed. by eapply O3.
Qed.

Lemma one_session_launch e d sy :
  rounds sy → one_session sy → sy_main sy = MLaunch e d → one_session (launchP2PUpgrade e d sy).
Proof.
  intros R O Hm. pose proof O as [O1 O2 O3]. unfold launchP2PUpgrade. rewrite Hm in O2, O3. cbn in O2.
  destruct (is_disabled _) eqn:Edis; [by apply one_session_at; rewrite ?Hm|]. destruct (Legacy _).
  - unfold refuseP2PForLegacyPeer. rewrite Edis. split; cbn; try done.
    intros o k _ Ha Ed. assert (o = ViaRelay) as ->; [|done].
    eapply outlet_waiting; [exact R|by rewrite Hm|by eapply O3].
  - split; cbn; try done.
    + intros i u Hu. apply lookup_app_Some in Hu as [Hu|[_ Hu]]; [by eapply O1|]. by apply list_lookup_singleton_Some in Hu as [_ <-].
    + intros o k _ Ha Ed. eapply outlet_kept; [done| |by eapply O3]. intros i u Hu. exists u.
      by rewrite lookup_app_l by (by eapply lookup_lt_Some).
Qed.

Lemma one_session_main sy sy' : rounds sy → one_session sy → main_step sy = Some sy' → one_session sy'.
Proof.
  intros R O H. pose proof O as [O1 O2 O3]. unfold main_step in H.
  destruct (sy_main sy) as [|p|e d|sess p|sess p|sess p|sess p] eqn:Em; try done; injection H as <-; cbn in O2.
  - by apply one_session_launch.
  - split; cbn; try done. unfold ensure_once. by destruct (sh_daemon (sy_share sy)) as [x|] eqn:E; cbn; rewrite ?E; eexists.
  - split; cbn; try done. unfold ensure_rotate. destruct O2 as [[o k] E]. rewrite E. by eexists.
  - split; cbn; try done.
  - destruct O2 as [[x E] Hs]. split; cbn; rewrite ?E; cbn; try done; [rewrite Hs; by eexists|by intros o k _ _ [= <- _]].
Qed.

Lemma one_session_step e sy sy' : rounds sy → one_session sy → no_tunnel_hello e = true → step e sy = Some sy' → one_session sy'.
Proof.
  intros R O Hn H. destruct e as [ | | | |sess|r| |i inp]; [..|by eapply one_session_upgrade].
  all: cbn in H; destruct (stopped sy) eqn:Hst; [|try done; by eapply one_session_stop].
  - by eapply one_session_main.
  - destruct (sy_main sy) eqn:Em; try done. injection H as <-. destruct O as [O1 O2 O3]. rewrite Em in *. split; cbn; rewrite ?Em; done.
  - destruct (sy_main sy) eqn:Em; try done. injection H as <-. by apply one_session_begin.
  - destruct (sy_main sy) as [|[e d|]| | | | |] eqn:Em; try done; injection H as <-.
    + by apply one_session_at; rewrite ?Em.
    + by apply one_session_begin.
  - destruct (sy_main sy) as [|p| | | | |] eqn:Em; try done. injection H as <-.
    unfold handleRelayToolHello, refuseP2PForLegacyPeer. destruct (Legacy sess && _); [done|].
    destruct (Legacy sess); [destruct (is_disabled _)|];
      first [by apply one_session_at; rewrite ?Em | by apply one_session_end; rewrite ?Em].
  - destruct (sy_main sy) as [|[|]| | | | |] eqn:Em; try done. injection H as <-. unfold deliverPeerAddrReady.
    destruct (sh_p2pMgr _); [by apply one_session_alter|].
    destruct O as [O1 O2 O3]. rewrite Em in *. split; cbn; rewrite ?Em; done.
  - destruct (sy_main sy) as [|p| | | | |] eqn:Em; try done. injection H as <-. by apply one_session_end; rewrite ?Em.
Qed.

Lemma one_session_steps es : ∀ sy sy',
  rounds sy → one_session sy → Forall (λ e, no_tunnel_hello e = true) es → steps es sy = Some sy' → one_session sy'.
Proof.
  induction es as [|e es IH]; intros sy sy' R O Hf H; cbn in H; [by simplify_eq|].
  destruct (step e sy) as [sy1|] eqn:E; [|done]. apply Forall_cons in Hf as [He Hf].
  eapply IH; [by eapply rounds_step|by eapply one_session_step|done|done].
Qed.

Lemma one_session_start mode : one_session (start mode).
Proof. split; cbn; try done. Qed.

(** C26: while the share reads the relay with a session agreed, its daemon works
    with that very session, and its answers go over the relay, or over the
    tunnel of the current round as long as its goroutine serves it: no tunnel of
    an old round and no old session, whatever the order of events, as long as no
    handshake is accepted over a tunnel. *)
Theorem answers_follow mode es sy p :
  steps es (start mode) = Some sy → Forall (λ e, no_tunnel_hello e = true) es →
  sy_main sy = MRead p → Active (sh_daemonSess (sy_share sy)) = true →
  ∃ o, sh_daemon (sy_share sy) = Some (o, sh_daemonSess (sy_share sy)) ∧ outlet_ok (sy_share sy) (sy_ups sy) o.
Proof.
  intros H Hf Hm Ha. pose proof (one_session_steps _ _ _ (rounds_start mode) (one_session_start mode) Hf H) as [_ O2 O3].
  rewrite Hm in O2, O3. destruct (O2 Ha) as (o & Ed). exists o. split; [done|]. by eapply O3.
Qed.

(** ** Runs *)

(** The steps of goroutine [i]. *)
Definition of_goroutine (i : nat) (inputs : list Input) : list Event := map (EUpgrade i) inputs.

Definition a_session (b : Z) : Session := mkSession (replicate 32 b) ToolProtocolVersion.

(** A helper comes; the manager starts, an address comes in between, the tunnel
    is there. *)
Definition tunnel_up : list Event :=
  [EBegin; ESession; EMain] ++ of_goroutine 0 [StartOk; NoInput; ResultTunnel; NoInput; NoInput].

(** The helper leaves; [stopP2PSession] runs to its end. *)
Definition helper_leaves : list Event := tunnel_up ++ [EFail; EMain; EMain; EMain].

(** The goroutine notices. *)
Definition all_over : list Event := helper_leaves ++ of_goroutine 0 [HeaderErr; NoInput; NoInput; NoInput].

(** A helper agrees on a session over the relay, and a request of its own comes
    over the tunnel. *)
Definition tools_over_tunnel : list Event :=
  [EBegin; ESession; EMain; EHello (a_session 1); EMain; EMain; EMain; EMain] ++
  of_goroutine 0 [StartOk; NoInput; ResultTunnel; NoInput; NoInput; HeaderTool; TunnelMsg TReq; NoInput; NoInput].

(** A handshake is accepted over a tunnel while a new helper comes and agrees on
    its own session. *)
Definition late_handshake : list Event :=
  tunnel_up ++ of_goroutine 0 [HeaderTool; TunnelMsg (THello (a_session 2) true); NoInput; NoInput] ++
  [ESession; EMain; EMain; EMain; EMain; EHello (a_session 1); EMain; EMain; EMain; EMain] ++
  of_goroutine 0 [NoInput; NoInput; NoInput; NoInput; TunnelLost; NoInput; NoInput; NoInput; NoInput].

(** The goroutine of an old round, in the middle of a handshake over its tunnel,
    replaces the session the new helper has agreed on; it ends, and the share
    reads the relay with a session its helper does not have. *)
Theorem old_round_replaces_session :
  ∃ sy u, steps late_handshake (start P2PModeAuto) = Some sy ∧ sy_main sy = MRead PServe ∧
    sy_ups sy !! 0%nat = Some u ∧ up_epoch u ≠ sh_p2pEpoch (sy_share sy) ∧ up_pc u = UEnd ∧
    sh_daemonSess (sy_share sy) = a_session 2 ∧ sh_daemon (sy_share sy) = Some (ViaRelay, a_session 2).
Proof. eexists _, _. split_and!; [vm_compute; reflexivity|reflexivity|reflexivity|cbn; lia|reflexivity|reflexivity|reflexivity]. Qed.

(** ** The theorems at work *)

Lemma session_leaves_nothing_witness :
  ∃ sy, steps all_over (start P2PModeAuto) = Some sy ∧ length (sy_ups sy) = 1%nat ∧
    ∀ i u, sy_ups sy !! i = Some u → mg_open (up_mgr u) = false ∧ up_tunnel u = false.
Proof.
  eexists. split; [vm_compute; reflexivity|]. split; [reflexivity|].
  eapply (session_leaves_nothing P2PModeAuto all_over); [vm_compute; reflexivity|reflexivity|reflexivity|].
  intros [|i] u H; [by injection H as <-|done].
Defined.

Lemma old_round_winds_down_witness :
  ∃ sy, steps helper_leaves (start P2PModeAuto) = Some sy ∧
    ∃ sy' u', drive 21 0 sy = Some sy' ∧ sy_ups sy' !! 0%nat = Some u' ∧ up_pc u' = UEnd ∧
      mg_open (up_mgr u') = false ∧ up_tunnel u' = false.
Proof.
  eexists. split; [vm_compute; reflexivity|].
  eapply (old_round_winds_down P2PModeAuto helper_leaves); [vm_compute; reflexivity|reflexivity|reflexivity|cbn; lia|done].
Defined.

Lemma old_round_keeps_off_witness :
  ∃ sy sy', steps helper_leaves (start P2PModeAuto) = Some sy ∧ step (EUpgrade 0 HeaderErr) sy = Some sy' ∧ sy_share sy' = sy_share sy.
Proof.
  eexists _, _. split; [vm_compute; reflexivity|]. split; [vm_compute; reflexivity|].
  eapply (old_round_keeps_off P2PModeAuto helper_leaves _ 0 HeaderErr);
    [vm_compute; reflexivity|reflexivity|cbn; lia|reflexivity|vm_compute; reflexivity].
Defined.

Lemma answers_follow_witness :
  ∃ sy, steps tools_over_tunnel (start P2PModeAuto) = Some sy ∧ sh_daemon (sy_share sy) = Some (ViaTunnel 0, a_session 1) ∧
    ∃ o, sh_daemon (sy_share sy) = Some (o, sh_daemonSess (sy_share sy)) ∧ outlet_ok (sy_share sy) (sy_ups sy) o.
Proof.
  eexists. split; [vm_compute; reflexivity|]. split; [reflexivity|].
  eapply (answers_follow P2PModeAuto tools_over_tunnel); [vm_compute; reflexivity|by repeat constructor|reflexivity|vm_compute; reflexivity].
Defined.
