(* ===== verification/GoFlag.v ===== *)
(** * Command-line flags ([flag] of the standard library)

    [FlagSet.Parse]: one or two dashes, a value after the first equals sign or in
    the next argument, Boolean flags without one.  What is left when parsing
    stops are the positional arguments. *)

From S2P Require Import Prelude GoNet GoText.

Open Scope Z_scope.

Definition setting : Type := gostring * gostring.

(** Names, and whether the flag is Boolean. *)
Definition FlagSet : Type := list (gostring * bool).

Definition kind (F : FlagSet) (n : gostring) : option bool :=
  match find (fun f => bool_decide (f.1 = n)) F with Some f => Some f.2 | None => None end.

(** [strconv.ParseBool] *)
Definition ParseBool (v : gostring) : option bool :=
  if bool_decide (v ∈ [lit "1"; lit "t"; lit "T"; lit "TRUE"; lit "true"; lit "True"]) then Some true
  else if bool_decide (v ∈ [lit "0"; lit "f"; lit "F"; lit "FALSE"; lit "false"; lit "False"]) then Some false
  else None.

Fixpoint cut_eq (l : list Z) : list Z * option (list Z) :=
  match l with
  | [] => ([], None)
  | b :: l' => if b =? 61 then ([], Some l') else let '(n, v) := cut_eq l' in (b :: n, v)
  end.

Inductive arg := Positional | Terminator | BadSyntax | Flag (name : gostring) (value : option gostring).

Definition named (l : list Z) : arg :=
  match l with
  | [] => BadSyntax
  | b :: _ => if (b =? 45) || (b =? 61) then BadSyntax else let '(n, v) := cut_eq l in Flag n v
  end.

Definition flag_arg (s : gostring) : arg :=
  match s with
  | 45 :: 45 :: [] => Terminator
  | 45 :: 45 :: l => named l
  | 45 :: b :: l => named (b :: l)
  | _ => Positional
  end.

Definition add_setting (s : setting) (r : option (list setting * list gostring)) : option (list setting * list gostring) :=
  match r with Some (l, rest) => Some (s :: l, rest) | None => None end.

(** The settings in the order they are made, and the positional arguments; [None]
    when the set reports an error. *)
Fixpoint Parse (F : FlagSet) (args : list gostring) : option (list setting * list gostring) :=
  match args with
  | [] => Some ([], [])
  | s :: args' =>
      match flag_arg s with
      | Positional => Some ([], args)
      | Terminator => Some ([], args')
      | BadSyntax => None
      | Flag n v =>
          match kind F n with
          | None => None
          | Some true =>
              let v := match v with Some v => v | None => lit "true" end in
              match ParseBool v with Some _ => add_setting (n, v) (Parse F args') | None => None end
          | Some false =>
              match v, args' with
              | Some v, _ => add_setting (n, v) (Parse F args')
              | None, v :: args' => add_setting (n, v) (Parse F args')
              | None, [] => None
              end
          end
      end
  end.

(** The value a flag ends with: the last one set. *)
Fixpoint value (n : gostring) (l : list setting) : option gostring :=
  match l with
  | [] => None
  | (m, v) :: l => match value n l with Some w => Some w | None => if bool_decide (m = n) then Some v else None end
  end.

Lemma value_app n l l' : value n (l ++ l') = match value n l' with Some v => Some v | None => value n l end.
Proof. induction l as [|[m v] l IH]; cbn; [by destruct (value n l')|]. rewrite IH. by destruct (value n l'). Qed.

(** ** Reading back what was written *)

(** A name a flag can have. *)
Definition good_name (n : gostring) : bool :=
  match n with [] => false | b :: _ => negb (b =? 45) && negb (bool_decide (61 ∈ n)) end.

Lemma cut_eq_name n v : 61 ∉ n → cut_eq (n ++ 61 :: v) = (n, Some v).
Proof.
  induction n as [|b n IH]; intros Hn; [done|]. apply not_elem_of_cons in Hn as [Hb Hn]. cbn.
  rewrite (proj2 (Z.eqb_neq b 61)) by congruence. by rewrite IH.
Qed.

Lemma cut_eq_plain n : 61 ∉ n → cut_eq n = (n, None).
Proof.
  induction n as [|b n IH]; intros Hn; [done|]. apply not_elem_of_cons in Hn as [Hb Hn]. cbn.
  rewrite (proj2 (Z.eqb_neq b 61)) by congruence. by rewrite IH.
Qed.

Lemma good_name_spec n : good_name n = true → ∃ b n', n = b :: n' ∧ b ≠ 45 ∧ 61 ∉ n.
Proof.
  destruct n as [|b n]; [done|]. cbn. intros [H1 H2]%andb_true_iff. exists b, n. split; [done|].
  apply negb_true_iff in H1, H2. apply Z.eqb_neq in H1. by apply bool_decide_eq_false in H2.
Qed.

(** The two ways to write a flag with two dashes. *)
Definition dashed (n : gostring) : gostring := 45 :: 45 :: n.
Definition assigned (n v : gostring) : gostring := dashed (n ++ 61 :: v).

Lemma flag_arg_assigned n v : good_name n = true → flag_arg (assigned n v) = Flag n (Some v).
Proof.
  intros (b & n' & -> & Hb & Hn)%good_name_spec. pose proof Hn as Hn'. apply not_elem_of_cons in Hn' as [Hb' _].
  unfold flag_arg, assigned, dashed, named. cbn [app].
  rewrite (proj2 (Z.eqb_neq b 45)), (proj2 (Z.eqb_neq b 61)) by congruence. cbn [orb].
  change (b :: n' ++ 61 :: v) with ((b :: n') ++ 61 :: v). by rewrite cut_eq_name.
Qed.

Lemma flag_arg_dashed n : good_name n = true → flag_arg (dashed n) = Flag n None.
Proof.
  intros (b & n' & -> & Hb & Hn)%good_name_spec. pose proof Hn as Hn'. apply not_elem_of_cons in Hn' as [Hb' _].
  unfold flag_arg, dashed, named. rewrite (proj2 (Z.eqb_neq b 45)), (proj2 (Z.eqb_neq b 61)) by congruence. cbn [orb].
  by rewrite cut_eq_plain.
Qed.

Lemma assigned_inj n v m w : 61 ∉ n → 61 ∉ m → assigned n v = assigned m w → n = m ∧ v = w.
Proof.
  intros Hn Hm H. injection H as H. pose proof (cut_eq_name n v Hn) as E. rewrite H, cut_eq_name in E by done. by injection E.
Qed.

Lemma dashed_assigned n m v : 61 ∉ n → dashed n ≠ assigned m v.
Proof. intros Hn H. injection H as ->. apply Hn. apply elem_of_app. right. by constructor. Qed.

Example parse_forms :
  Parse [(lit "root", false); (lit "plain", true)] (map bytes_of ["-root"; "/a"; "--plain"; "--root=/b=c"; "-plain=0"; "x"; "-plain"]%string)
  = Some ([(lit "root", lit "/a"); (lit "plain", lit "true"); (lit "root", lit "/b=c"); (lit "plain", lit "0")], [lit "x"; lit "-plain"]).
Proof. by vm_compute. Qed.
Example parse_errors :
  (Parse [(lit "root", false)] [lit "--root"], Parse [(lit "root", false)] [lit "--rot=1"], Parse [(lit "root", false)] [lit "---root=1"],
   Parse [(lit "root", false)] [lit "--"; lit "--root"]) = (None, None, None, Some ([], [lit "--root"])).
Proof. by vm_compute. Qed.
