(* ===== verification/UpgradeFlags.v ===== *)
(** * The flags of an upgrade (src/internal/upgradeflags/upgradeflags.go and
    src/cmd/remote/upgrade_args.go, with the flag set of src/cmd/remote/main.go)

    A share is upgraded in place: a new binary is started with the old one's
    arguments, of which a few are replaced.  What decides where the upgrade may
    put its files, and whether it may run at all, is read off the old command
    line. *)

From S2P Require Import Prelude GoNet GoText GoFlag.

Open Scope Z_scope.

Inductive UpgradeError :=
| InvalidValue (name v : gostring)
| StandaloneNoAuth
| MissingValue (name : gostring)
| EmptyCommandLine
| NotShareMode
| EmptyServer.

(** ** upgradeflags.go *)

Definition ExplicitBoolFlag (arg name : gostring) : bool * result UpgradeError bool :=
  let prefix := name ++ lit "=" in
  if has_prefix prefix arg then
    let value := TrimPrefix prefix arg in
    match ParseBool value with Some b => (true, Ok b) | None => (true, Err (InvalidValue name value)) end
  else (false, Ok false).

Definition HasValuePrefix (arg name : gostring) : bool :=
  (length name <? length arg)%nat && bool_decide (take (S (length name)) arg = name ++ lit "=").

Fixpoint reject_names (a : gostring) (names : list gostring) : result UpgradeError () :=
  match names with
  | [] => Ok ()
  | name :: names =>
      if bool_decide (a = name) then Err StandaloneNoAuth
      else match ExplicitBoolFlag a name with
           | (_, Err e) => Err e
           | (matched, Ok enabled) => if matched && enabled then Err StandaloneNoAuth else reject_names a names
           end
  end.

Fixpoint RejectStandaloneNoAuth (argv : list gostring) : result UpgradeError () :=
  match argv with
  | [] => Ok ()
  | a :: argv =>
      match reject_names a [lit "--standalone"; lit "--no-auth"] with
      | Ok _ => RejectStandaloneNoAuth argv
      | Err e => Err e
      end
  end.

Fixpoint flag_value_from (acc name : gostring) (argv : list gostring) : gostring :=
  match argv with
  | [] => acc
  | a :: argv' =>
      if bool_decide (a = name) then
        match argv' with v :: argv'' => flag_value_from v name argv'' | [] => acc end
      else flag_value_from (if HasValuePrefix a name then TrimPrefix (name ++ lit "=") a else acc) name argv'
  end.
Definition FlagValue (argv : list gostring) (name : gostring) : gostring := flag_value_from [] name argv.

Definition HostCodeFile (argv : list gostring) : gostring :=
  let mirror := FlagValue argv (lit "--code-file-mirror") in
  if bool_decide (mirror ≠ []) then mirror else FlagValue argv (lit "--code-file").

(** ** Paths, with the rules of the remote system *)

Definition backslash : Z := 92.

Definition isWindows (remoteOS : gostring) : bool := EqualFold remoteOS (lit "windows").

Definition isDriveLetter (b : Z) : bool := between 65 b 90 || between 97 b 122.

Definition is_separator (b : Z) : bool := (b =? backslash) || (b =? 47).

Definition isWindowsAbs (p : gostring) : bool :=
  match p with
  | a :: b :: l =>
      (is_separator a && is_separator b) ||
      (isDriveLetter a && (b =? 58) && match l with c :: _ => is_separator c | [] => false end)
  | _ => false
  end.

Definition isAbsPath (remoteOS p : gostring) : bool :=
  if isWindows remoteOS then isWindowsAbs p else match p with b :: _ => b =? 47 | [] => false end.

(** The loop over the segments of a path: [path.Clean] has the same one. *)
Fixpoint clean_segments (rooted : bool) (out : list gostring) (segs : list gostring) : list gostring :=
  match segs with
  | [] => out
  | seg :: segs =>
      clean_segments rooted
        (if bool_decide (seg = []) || bool_decide (seg = lit ".") then out
         else if bool_decide (seg = lit "..") then
           match last out with
           | Some s => if bool_decide (s ≠ lit "..") then removelast out
                       else if rooted then out else out ++ [lit ".."]
           | None => if rooted then out else out ++ [lit ".."]
           end
         else out ++ [seg]) segs
  end.

Fixpoint join_with (sep : Z) (l : list gostring) : gostring :=
  match l with [] => [] | [s] => s | s :: l => s ++ sep :: join_with sep l end.

Definition clean_rest (sep : Z) (vol rest : gostring) : gostring :=
  let rooted := has_prefix [sep] rest in
  let result := vol ++ (if rooted then [sep] else []) ++ join_with sep (clean_segments rooted [] (split_byte sep rest)) in
  if bool_decide (result = []) then lit "." else result.

(** [path.Clean]. *)
Definition path_Clean (p : gostring) : gostring := clean_rest 47 [] p.

Fixpoint IndexByte (b : Z) (l : gostring) : option nat :=
  match l with [] => None | c :: l => if c =? b then Some 0%nat else S <$> IndexByte b l end.

Definition windowsVolume (p : gostring) : gostring :=
  match p with
  | a :: b :: rest =>
      if isDriveLetter a && (b =? 58) then [a; b]
      else if (a =? backslash) && (b =? backslash) then
        match IndexByte backslash rest with
        | None => p
        | Some i =>
            match IndexByte backslash (drop (S i) rest) with
            | None => p
            | Some j => take (2 + i + 1 + j) p
            end
        end
      else []
  | _ => []
  end.

Definition to_backslash (p : gostring) : gostring := map (fun b => if b =? 47 then backslash else b) p.

Definition cleanWindows (p : gostring) : gostring :=
  let p := to_backslash p in
  let vol := windowsVolume p in
  clean_rest backslash vol (drop (length vol) p).

Definition cleanPath (remoteOS p : gostring) : gostring := if isWindows remoteOS then cleanWindows p else path_Clean p.

Definition joinPath (remoteOS base name : gostring) : gostring :=
  if isWindows remoteOS then rev (drop_while is_separator (rev base)) ++ [backslash] ++ drop_while is_separator name
  else
    (* [path.Join] *)
    match filter (fun e => e ≠ []) [base; name] with
    | [] => []
    | l => path_Clean (join_with 47 l)
    end.

Fixpoint stage_root_value (acc : gostring) (argv : list gostring) : result UpgradeError gostring :=
  match argv with
  | [] => Ok acc
  | a :: argv' =>
      if bool_decide (a = lit "--root") then
        match argv' with v :: argv'' => stage_root_value v argv'' | [] => Err (MissingValue (lit "--root")) end
      else stage_root_value (if HasValuePrefix a (lit "--root") then TrimPrefix (lit "--root=") a else acc) argv'
  end.

Definition StageRoot (remoteOS : gostring) (argv : list gostring) (cwd : gostring) : result UpgradeError (gostring * bool) :=
  match RejectStandaloneNoAuth argv with
  | Err e => Err e
  | Ok _ =>
      match stage_root_value [] (tail argv) with
      | Err e => Err e
      | Ok root =>
          if bool_decide (root = []) then Ok (cleanPath remoteOS cwd, false)
          else
            let root := if isAbsPath remoteOS root then root else joinPath remoteOS cwd root in
            Ok (cleanPath remoteOS root, true)
      end
  end.

(** ** upgrade_args.go *)

Definition upgradeSuccessorFlag : gostring := lit "--upgrade-successor".

Definition managed_flags : list gostring := [lit "--server"; lit "--code-file"; lit "--code-file-mirror"].

(** The loop over the old arguments. *)
Fixpoint kept_args (args : list gostring) : result UpgradeError (list gostring) :=
  let cons_ a r := match r with Ok l => Ok (a :: l) | Err e => Err e end in
  match args with
  | [] => Ok []
  | a :: args' =>
      if bool_decide (a = upgradeSuccessorFlag) then kept_args args'
      else if bool_decide (a = lit "--unsafe-full-system") || bool_decide (a = lit "--unsafe-full-system=true") then
        cons_ (lit "--unsafe-exec") (kept_args args')
      else if bool_decide (a = lit "--unsafe-full-system=false") then kept_args args'
      else if bool_decide (a ∈ managed_flags) then
        match args' with _ :: args'' => kept_args args'' | [] => Err (MissingValue a) end
      else if existsb (HasValuePrefix a) managed_flags then kept_args args'
      else cons_ a (kept_args args')
  end.

Definition upgradedShareArgs (oldArgv : list gostring) (server codeFile : gostring) : result UpgradeError (list gostring) :=
  match oldArgv with
  | [] => Err EmptyCommandLine
  | _ :: args =>
      let args := match args with [] => [lit "share"] | _ => args end in
      if bool_decide (head args ≠ Some (lit "share")) then Err NotShareMode
      else match RejectStandaloneNoAuth args with
           | Err e => Err e
           | Ok _ =>
               let hostCodeFile := HostCodeFile args in
               match kept_args (tail args) with
               | Err e => Err e
               | Ok out =>
                   if bool_decide (server = []) then Err EmptyServer
                   else
                     Ok (lit "share" :: out ++ [lit "--server"; server; lit "--code-file"; codeFile] ++
                         (if bool_decide (hostCodeFile ≠ []) then [lit "--code-file-mirror"; hostCodeFile] else []) ++
                         [upgradeSuccessorFlag])
               end
           end
  end.

(** ** The flags of [runShare] *)

Definition share_flags : FlagSet :=
  map (fun n => (bytes_of n, false))
    ["server"; "ssh"; "ca"; "transport"; "p2p"; "stun"; "bind-ip"; "root"; "allow-exec"; "deny-exec"; "standalone-listen";
     "code-file"; "code-file-mirror"; "min-proto"]%string ++
  map (fun n => (bytes_of n, true))
    ["new-instance"; "insecure"; "trust-new-cert"; "plain"; "elevate"; "unsafe-exec"; "standalone"; "no-auth"]%string.

(** Before [fs.Parse], [runShare] takes its internal flags away. *)
Definition internal_flags : list gostring := [lit "--elevated-child"; upgradeSuccessorFlag].
Definition strip_internal (args : list gostring) : list gostring := filter (fun a => a ∉ internal_flags) args.

(** And it refuses positional arguments. *)
Definition share_settings (F : FlagSet) (args : list gostring) : option (list setting) :=
  match Parse F (strip_internal args) with
  | Some (l, []) => Some l
  | _ => None
  end.

Example clean_windows :
  map cleanWindows (map bytes_of ["C:\a\..\..\b"; "C:/a/./b//c"; "\\srv\share\..\x"; "a\..\.."; "C:x\..\.."; ""]%string)
  = map bytes_of ["C:\b"; "C:\a\b\c"; "\\srv\share\x"; ".."; "C:.."; "."]%string.
Proof. by vm_compute. Qed.
Example stage_roots :
  (StageRoot (lit "linux") (map bytes_of ["remote"; "share"; "--root"; "../data"]%string) (lit "/srv/app"),
   StageRoot (lit "windows") (map bytes_of ["remote.exe"; "share"; "--root=data\"]%string) (lit "D:\app"),
   StageRoot (lit "linux") (map bytes_of ["remote"; "share"; "--root="]%string) (lit "/srv/app/"))
  = (Ok (lit "/srv/data", true), Ok (lit "D:\app\data", true), Ok (lit "/srv/app", false)).
Proof. by vm_compute. Qed.
