(* ===== verification/UpgradeFlagsThms.v ===== *)
(** * What an upgrade keeps of the old share's settings

    A command line is written from settings ([written], [argv_of]).  As long as no
    value looks like one of the flags the upgrade manages, the new share runs with
    the settings of the old one, the managed ones apart ([upgrade_keeps_settings]).
    The checks know flags with two dashes only, and [flag] takes one as well:
    [one_dash_passes]. *)

From S2P Require Import Prelude GoNet GoText GoFlag UpgradeFlags.

Open Scope Z_scope.

(** ** Command lines *)

Inductive written :=
| Eq (n v : gostring)       (* --n=v *)
| Sep (n v : gostring)      (* --n v *)
| Bare (n : gostring)       (* --n *)
| Internal (a : gostring).

Definition argv_of (w : written) : list gostring :=
  match w with Eq n v => [assigned n v] | Sep n v => [dashed n; v] | Bare n => [dashed n] | Internal a => [a] end.

Definition setting_of (w : written) : list setting :=
  match w with Eq n v | Sep n v => [(n, v)] | Bare n => [(n, lit "true")] | Internal _ => [] end.

Definition full_system : gostring := lit "unsafe-full-system".

(** The flags of 0.0.5 and of today. *)
Definition old_flags : FlagSet := (full_system, true) :: share_flags.

Definition managed_names : list gostring := [lit "server"; lit "code-file"; lit "code-file-mirror"].
(** And those whose value the upgrade looks at. *)
Definition watched_names : list gostring := lit "root" :: managed_names.
Definition forbidden_names : list gostring := [lit "standalone"; lit "no-auth"].

(** A value that one of the checks would take for a flag. *)
Definition special (v : gostring) : bool :=
  bool_decide (v ∈ internal_flags ++ map dashed (full_system :: watched_names ++ forbidden_names)) ||
  existsb (fun n => HasValuePrefix v (dashed n)) (full_system :: watched_names ++ forbidden_names).

Definition allowed (w : written) : bool :=
  match w with
  | Eq n v =>
      match kind old_flags n with
      | Some false => bool_decide (v ∉ internal_flags)
      | Some true =>
          match ParseBool v with
          | Some b =>
              if bool_decide (n ∈ forbidden_names) then negb b
              else if bool_decide (n = full_system) then bool_decide (v ∈ [lit "true"; lit "false"]) else true
          | None => false
          end
      | None => false
      end
  | Sep n v => bool_decide (kind old_flags n = Some false) && negb (special v)
  | Bare n => bool_decide (kind old_flags n = Some true) && bool_decide (n ∉ forbidden_names)
  | Internal a => bool_decide (a ∈ internal_flags)
  end.

(** What the upgrade makes of a setting. *)
Definition kept (w : written) : list written :=
  match w with
  | Eq n v =>
      if bool_decide (n ∈ managed_names) then []
      else if bool_decide (n = full_system) then (if bool_decide (v = lit "true") then [Bare (lit "unsafe-exec")] else [])
      else [w]
  | Sep n v => if bool_decide (n ∈ managed_names) then [] else [w]
  | Bare n => if bool_decide (n = full_system) then [Bare (lit "unsafe-exec")] else [w]
  | Internal a => if bool_decide (a = upgradeSuccessorFlag) then [] else [w]
  end.

(** ** Names and prefixes *)

Lemma has_prefix_spec p l : has_prefix p l = true ↔ ∃ r, l = p ++ r.
Proof.
  revert l. induction p as [|x p IH]; intros l; cbn; [by split; [exists l|]|].
  destruct l as [|y l]; [by split; [|intros [? ?]]|]. rewrite andb_true_iff, Z.eqb_eq, IH.
  split; [intros [-> [r ->]]; by exists r|intros [r [= -> ->]]; split; [done|by exists r]].
Qed.

Lemma HasValuePrefix_spec a m : HasValuePrefix a m = true ↔ ∃ v, a = m ++ 61 :: v.
Proof.
  unfold HasValuePrefix. rewrite andb_true_iff, Nat.ltb_lt, bool_decide_eq_true. split.
  - intros [_ H]. exists (drop (S (length m)) a). rewrite <- (take_drop (S (length m)) a) at 1. rewrite H. by rewrite <- app_assoc.
  - intros [v ->]. rewrite length_app. cbn. split; [lia|].
    replace (m ++ 61 :: v) with ((m ++ [61]) ++ v) by (by rewrite <- app_assoc).
    replace (S (length m)) with (length (m ++ [61])) by (rewrite length_app; cbn; lia). apply take_app_length.
Qed.

Lemma prefix_assigned n v m : 61 ∉ n → 61 ∉ m → HasValuePrefix (assigned n v) (dashed m) = bool_decide (n = m).
Proof.
  intros Hn Hm. apply eq_true_iff_eq. rewrite HasValuePrefix_spec, bool_decide_eq_true. split.
  - intros [w H]. exact (proj1 (assigned_inj n v m w Hn Hm H)).
  - intros ->. by exists v.
Qed.

Lemma prefix_dashed n m : 61 ∉ n → HasValuePrefix (dashed n) (dashed m) = false.
Proof.
  intros Hn. apply not_true_iff_false. rewrite HasValuePrefix_spec. intros [v H]. by apply (dashed_assigned n m v Hn).
Qed.

Lemma explicit_prefix a m :
  ExplicitBoolFlag a m = (if HasValuePrefix a m then (true, match ParseBool (TrimPrefix (m ++ lit "=") a) with
    Some b => Ok b | None => Err (InvalidValue m (TrimPrefix (m ++ lit "=") a)) end) else (false, Ok false)).
Proof.
  unfold ExplicitBoolFlag. replace (has_prefix (m ++ lit "=") a) with (HasValuePrefix a m).
  - destruct (HasValuePrefix a m); [|done]. by destruct (ParseBool _).
  - apply eq_true_iff_eq. rewrite HasValuePrefix_spec, has_prefix_spec.
    split; intros [v ->]; exists v; by rewrite <- app_assoc.
Qed.

Lemma trim_assigned n v : TrimPrefix (dashed n ++ lit "=") (assigned n v) = v.
Proof.
  unfold TrimPrefix. replace (assigned n v) with ((dashed n ++ lit "=") ++ v) by (by unfold assigned, dashed; cbn; rewrite <- app_assoc).
  rewrite (proj2 (has_prefix_spec _ _)) by (by eexists). apply drop_app_length.
Qed.

Lemma kind_good F n k : forallb (fun f => good_name f.1) F = true → kind F n = Some k → good_name n = true.
Proof.
  unfold kind. intros HF H. destruct (find _ F) as [f|] eqn:E; [|done].
  apply find_some in E as [Hin Hf%bool_decide_eq_true]. rewrite forallb_forall in HF. rewrite <- Hf. by apply HF.
Qed.

Lemma old_good n k : kind old_flags n = Some k → 61 ∉ n ∧ good_name n = true.
Proof.
  intros H. assert (good_name n = true) as Hg by (apply (kind_good old_flags n k); [by vm_compute|done]).
  split; [|done]. by apply good_name_spec in Hg as (b & n' & _ & _ & ?).
Qed.

Lemma kind_new n k : n ≠ full_system → kind old_flags n = Some k → kind share_flags n = Some k.
Proof. intros Hn. unfold kind, old_flags. cbn [find fst]. rewrite bool_decide_eq_false_2; [done|congruence]. Qed.

(** ** One argument at a time *)

Definition cons_ok (a : gostring) (r : result UpgradeError (list gostring)) : result UpgradeError (list gostring) :=
  match r with Ok l => Ok (a :: l) | Err e => Err e end.

(** An argument the loop keeps: none of the words it looks for. *)
Definition ordinary (a : gostring) : Prop :=
  a ∉ [upgradeSuccessorFlag; lit "--unsafe-full-system"; lit "--unsafe-full-system=true"; lit "--unsafe-full-system=false"] ∧
  a ∉ managed_flags ∧ ∀ n, n ∈ managed_names → HasValuePrefix a (dashed n) = false.

Lemma kept_ordinary a args : ordinary a → kept_args (a :: args) = cons_ok a (kept_args args).
Proof.
  intros (H1 & H2 & H3). rewrite !not_elem_of_cons in H1. destruct H1 as (A & B & C & D & _). cbn [kept_args].
  rewrite !bool_decide_eq_false_2 by done. cbn [orb existsb managed_flags].
  change (lit "--server") with (dashed (lit "server")). change (lit "--code-file") with (dashed (lit "code-file")).
  change (lit "--code-file-mirror") with (dashed (lit "code-file-mirror")). unfold managed_names in H3.
  by rewrite !H3 by set_solver.
Qed.

Lemma full_words : lit "--unsafe-full-system=true" = assigned full_system (lit "true") ∧ lit "--unsafe-full-system=false" = assigned full_system (lit "false").
Proof. done. Qed.

Lemma managed_dashed : managed_flags = map dashed managed_names.
Proof. done. Qed.

Lemma managed_plain m : m ∈ managed_names → 61 ∉ m.
Proof. revert m. apply Forall_forall. by_compute. Qed.

Lemma plain_word (m : gostring) : bool_decide (61 ∈ m) = false → 61 ∉ m.
Proof. apply bool_decide_eq_false. Qed.

(** The words are those of known names. *)
Lemma ordinary_assigned n v : 61 ∉ n → n ∉ managed_names → n ≠ full_system → ordinary (assigned n v).
Proof.
  intros Hn Hm Hf. destruct full_words as [E1 E2]. split; [|split].
  - rewrite E1, E2, !not_elem_of_cons. split_and!; [| | | |apply not_elem_of_nil].
    + intros H. by apply (dashed_assigned (lit "upgrade-successor") n v); [by (apply plain_word; vm_compute)|].
    + intros H. by apply (dashed_assigned full_system n v); [by (apply plain_word; vm_compute)|].
    + intros H. by apply assigned_inj in H as [-> _]; [|done|by (apply plain_word; vm_compute)].
    + intros H. by apply assigned_inj in H as [-> _]; [|done|by (apply plain_word; vm_compute)].
  - rewrite managed_dashed. intros (m & E & Hin)%list_elem_of_fmap. symmetry in E.
    apply dashed_assigned in E; [done|]. by apply managed_plain.
  - intros m Hin. rewrite prefix_assigned; [apply bool_decide_eq_false_2; by intros ->|done|].
    by apply managed_plain.
Qed.

Lemma ordinary_dashed n : 61 ∉ n → n ∉ lit "upgrade-successor" :: full_system :: managed_names → ordinary (dashed n).
Proof.
  intros Hn Hm. rewrite !not_elem_of_cons in Hm. destruct Hm as (Hu & Hf & Hm). destruct full_words as [E1 E2]. split; [|split].
  - rewrite E1, E2, !not_elem_of_cons. split_and!; [| | | |apply not_elem_of_nil].
    + intros H. by injection H.
    + intros H. by injection H.
    + by apply dashed_assigned.
    + by apply dashed_assigned.
  - rewrite managed_dashed. intros (m & E & Hin)%list_elem_of_fmap. injection E as ->. done.
  - intros m Hin. by apply prefix_dashed.
Qed.

(** What an ordinary value is not. *)
Lemma not_special v :
  special v = false →
  v ∉ internal_flags ∧ ∀ n, n ∈ full_system :: watched_names ++ forbidden_names → v ≠ dashed n ∧ HasValuePrefix v (dashed n) = false.
Proof.
  unfold special. intros [H1%bool_decide_eq_false H2]%orb_false_iff. rewrite not_elem_of_app in H1. destruct H1 as [H1 H3].
  split; [done|]. intros n Hn. split.
  - intros ->. apply H3. by apply list_elem_of_fmap_2.
  - apply not_true_iff_false. intros Hp. apply not_true_iff_false in H2. apply H2, existsb_exists.
    exists n. split; [by apply list_elem_of_In|done].
Qed.

Lemma ordinary_value v : special v = false → ordinary v.
Proof.
  intros [H1 H2]%not_special. destruct full_words as [E1 E2].
  assert (∀ w, v ≠ assigned full_system w) as Hf.
  { intros w ->. destruct (H2 full_system) as [_ H]; [by constructor|]. apply not_true_iff_false in H. apply H, HasValuePrefix_spec. by exists w. }
  split; [|split].
  - rewrite E1, E2, !not_elem_of_cons. split_and!; [| | | |apply not_elem_of_nil]; [|by apply (H2 full_system); constructor|apply Hf|apply Hf].
    intros ->. apply H1. by constructor 2; constructor.
  - rewrite managed_dashed. intros (m & E & Hin)%list_elem_of_fmap. apply (H2 m); [|done]. constructor 2. apply elem_of_app. left. by constructor.
  - intros m Hin. apply (H2 m). constructor 2. apply elem_of_app. left. by constructor.
Qed.

(** ** A whole command line *)

Definition app_ok (l : list gostring) (r : result UpgradeError (list gostring)) : result UpgradeError (list gostring) :=
  match r with Ok l' => Ok (l ++ l') | Err e => Err e end.

Lemma allowed_name w n : allowed w = true → match w with Eq m _ | Sep m _ | Bare m => m = n | Internal _ => False end →
  61 ∉ n ∧ good_name n = true ∧ n ∉ [lit "upgrade-successor"; lit "elevated-child"].
Proof.
  intros Ha Hw. assert (∃ k, kind old_flags n = Some k) as [k Hk].
  { destruct w as [m v|m v|m|a]; try done; cbn in Ha; subst m.
    - destruct (kind old_flags n); [by eexists|done].
    - apply andb_true_iff in Ha as [Ha%bool_decide_eq_true _]. by eexists.
    - apply andb_true_iff in Ha as [Ha%bool_decide_eq_true _]. by eexists. }
  destruct (old_good n k Hk). split_and!; [done|done|]. rewrite !not_elem_of_cons.
  split_and!; [| |apply not_elem_of_nil]; intros ->; by vm_compute in Hk.
Qed.

Lemma full_not_managed : full_system ∉ managed_names.
Proof. by_compute. Qed.

Lemma full_not_forbidden : full_system ∉ forbidden_names.
Proof. by_compute. Qed.

Lemma successor_not_managed : lit "upgrade-successor" ∉ managed_names.
Proof. by_compute. Qed.

(** The three ways to give a managed flag are all left out. *)
Lemma kept_managed_assigned n v rest : n ∈ managed_names → kept_args (assigned n v :: rest) = kept_args rest.
Proof.
  intros Hm. pose proof (managed_plain n Hm) as Hn.
  assert (n ≠ full_system) as Hf by (intros ->; by apply full_not_managed). destruct full_words as [E1 E2]. cbn [kept_args].
  rewrite !bool_decide_eq_false_2.
  - replace (existsb _ managed_flags) with true; [done|]. symmetry.
    rewrite managed_dashed. apply existsb_exists. exists (dashed n). split; [by apply list_elem_of_In, list_elem_of_fmap_2|].
    rewrite prefix_assigned by done. by apply bool_decide_eq_true_2.
  - rewrite managed_dashed. intros (m & E & Hin)%list_elem_of_fmap. symmetry in E. apply dashed_assigned in E; [done|by apply managed_plain].
  - rewrite E2. by intros [? _]%assigned_inj; [|done|apply plain_word; vm_compute].
  - rewrite E1. by intros [? _]%assigned_inj; [|done|apply plain_word; vm_compute].
  - intros E. symmetry in E. by apply (dashed_assigned full_system) in E; [|apply plain_word; vm_compute].
  - intros E. symmetry in E. by apply (dashed_assigned (lit "upgrade-successor")) in E; [|apply plain_word; vm_compute].
Qed.

Lemma kept_managed_dashed n v rest : n ∈ managed_names → kept_args (dashed n :: v :: rest) = kept_args rest.
Proof.
  intros Hm. pose proof (managed_plain n Hm) as Hn.
  assert (n ≠ full_system) as Hf by (intros ->; by apply full_not_managed). destruct full_words as [E1 E2]. cbn [kept_args].
  rewrite (bool_decide_eq_false_2 (dashed n = upgradeSuccessorFlag)), (bool_decide_eq_false_2 (dashed n = lit "--unsafe-full-system")),
    (bool_decide_eq_false_2 (dashed n = lit "--unsafe-full-system=true")), (bool_decide_eq_false_2 (dashed n = lit "--unsafe-full-system=false")),
    (bool_decide_eq_true_2 (dashed n ∈ managed_flags)); [done|..].
  - rewrite managed_dashed. by apply list_elem_of_fmap_2.
  - rewrite E2. by apply dashed_assigned.
  - rewrite E1. by apply dashed_assigned.
  - intros E. by injection E.
  - intros E. injection E as ->. by apply successor_not_managed.
Qed.

Lemma kept_render w rest : allowed w = true → kept_args (argv_of w ++ rest) = app_ok (flat_map argv_of (kept w)) (kept_args rest).
Proof.
  intros Ha. destruct w as [n v|n v|n|a].
  - destruct (allowed_name _ n Ha eq_refl) as (Hn & _ & _). cbn [argv_of app kept].
    destruct (decide (n ∈ managed_names)) as [Hm|Hm].
    + rewrite bool_decide_eq_true_2, kept_managed_assigned by done. by destruct (kept_args rest).
    + rewrite bool_decide_eq_false_2 by done. destruct (decide (n = full_system)) as [->|Hf].
      * rewrite bool_decide_eq_true_2 by done. cbn [allowed] in Ha. replace (kind old_flags full_system) with (Some true) in Ha by (by vm_compute).
        destruct (ParseBool v); [|done]. rewrite bool_decide_eq_false_2, bool_decide_eq_true_2 in Ha by first [done|apply full_not_forbidden].
        apply bool_decide_eq_true in Ha. rewrite !elem_of_cons in Ha. destruct Ha as [Ha|[Ha|Ha]]; [..|by apply elem_of_nil in Ha]; subst; cbn; by destruct (kept_args rest).
      * rewrite bool_decide_eq_false_2 by done. rewrite kept_ordinary by (by apply ordinary_assigned). by destruct (kept_args rest).
  - destruct (allowed_name _ n Ha eq_refl) as (Hn & _ & Hi). cbn [allowed] in Ha. apply andb_true_iff in Ha as [Hk%bool_decide_eq_true Hs%negb_true_iff].
    assert (n ≠ full_system) as Hf by (intros ->; by vm_compute in Hk).
    cbn [argv_of app kept]. destruct (decide (n ∈ managed_names)) as [Hm|Hm].
    + rewrite bool_decide_eq_true_2, kept_managed_dashed by done. by destruct (kept_args rest).
    + rewrite bool_decide_eq_false_2 by done.
      rewrite kept_ordinary, kept_ordinary by first [by apply ordinary_value|by (apply ordinary_dashed; [done|rewrite !not_elem_of_cons in *; tauto])].
      by destruct (kept_args rest).
  - destruct (allowed_name _ n Ha eq_refl) as (Hn & _ & Hi). cbn [allowed] in Ha. apply andb_true_iff in Ha as [Hk%bool_decide_eq_true _].
    assert (n ∉ managed_names) as Hm.
    { unfold managed_names. rewrite !not_elem_of_cons. split_and!; [| | |apply not_elem_of_nil]; intros ->; by vm_compute in Hk. }
    cbn [argv_of app kept]. destruct (decide (n = full_system)) as [->|Hf].
    + rewrite bool_decide_eq_true_2 by done. cbn. by destruct (kept_args rest).
    + rewrite bool_decide_eq_false_2 by done. rewrite kept_ordinary by (apply ordinary_dashed; [done|rewrite !not_elem_of_cons in *; tauto]). by destruct (kept_args rest).
  - cbn [allowed] in Ha. apply bool_decide_eq_true in Ha. unfold internal_flags in Ha. rewrite !elem_of_cons in Ha.
    destruct Ha as [Ha|[Ha|Ha]]; [..|by apply elem_of_nil in Ha]; subst; cbn; by destruct (kept_args rest).
Qed.

(** *** The refusal *)

Definition harmless (a : gostring) : Prop := reject_names a (map dashed forbidden_names) = Ok ().

Lemma reject_harmless a args : harmless a → RejectStandaloneNoAuth (a :: args) = RejectStandaloneNoAuth args.
Proof.
  intros H. unfold harmless in H. cbn [RejectStandaloneNoAuth]. change [lit "--standalone"; lit "--no-auth"] with (map dashed forbidden_names).
  by rewrite H.
Qed.

Lemma harmless_other a : (∀ n, n ∈ forbidden_names → a ≠ dashed n ∧ HasValuePrefix a (dashed n) = false) → harmless a.
Proof.
  intros H. unfold harmless. generalize H. clear H. generalize forbidden_names. intros l. induction l as [|n l IH]; intros H; [done|].
  destruct (H n) as [H1 H2]; [by constructor|]. cbn [map reject_names]. rewrite bool_decide_eq_false_2, explicit_prefix, H2 by done.
  apply IH. intros m Hm. apply H. by constructor.
Qed.

Lemma forbidden_plain m : m ∈ forbidden_names → 61 ∉ m.
Proof. revert m. apply Forall_forall. by_compute. Qed.

Lemma harmless_false n v : n ∈ forbidden_names → ParseBool v = Some false → harmless (assigned n v).
Proof.
  intros Hn Hv. unfold harmless. generalize forbidden_plain. generalize forbidden_names. intros l Hl.
  induction l as [|m l IH]; [done|]. cbn [map reject_names]. pose proof (Hl m ltac:(by constructor)) as Hm.
  rewrite bool_decide_eq_false_2 by (intros E; symmetry in E; by apply dashed_assigned in E).
  rewrite explicit_prefix, prefix_assigned by (done || by apply forbidden_plain).
  assert (reject_names (assigned n v) (map dashed l) = Ok ()) as IH' by (apply IH; intros k Hk; apply Hl; by constructor).
  destruct (decide (n = m)) as [->|Hne].
  - rewrite bool_decide_eq_true_2, trim_assigned, Hv by done. done.
  - by rewrite bool_decide_eq_false_2.
Qed.

Lemma reject_render w rest : allowed w = true → RejectStandaloneNoAuth (argv_of w ++ rest) = RejectStandaloneNoAuth rest.
Proof.
  intros Ha. destruct w as [n v|n v|n|a]; cbn [argv_of app].
  - destruct (allowed_name _ n Ha eq_refl) as (Hn & _ & _). apply reject_harmless. destruct (decide (n ∈ forbidden_names)) as [Hf|Hf].
    + apply harmless_false; [done|]. cbn [allowed] in Ha.
      assert (kind old_flags n = Some true) as Hk.
      { unfold forbidden_names in Hf. rewrite !elem_of_cons in Hf. destruct Hf as [Hf|[Hf|Hf]]; [..|by apply elem_of_nil in Hf]; subst; by vm_compute. }
      rewrite Hk, bool_decide_eq_true_2 in Ha by done. destruct (ParseBool v) as [[]|]; done.
    + apply harmless_other. intros m Hm. pose proof (forbidden_plain m Hm). split.
      * intros E. symmetry in E. by apply dashed_assigned in E.
      * rewrite prefix_assigned by done. apply bool_decide_eq_false_2. by intros ->.
  - destruct (allowed_name _ n Ha eq_refl) as (Hn & _ & _). cbn [allowed] in Ha.
    apply andb_true_iff in Ha as [Hk%bool_decide_eq_true Hs%negb_true_iff]. apply not_special in Hs as [_ Hs].
    rewrite !reject_harmless; [done|apply harmless_other..].
    + intros m Hm. apply Hs. constructor. apply elem_of_app. by right.
    + intros m Hm. split; [|by apply prefix_dashed]. intros E. injection E as ->.
      unfold forbidden_names in Hm. rewrite !elem_of_cons in Hm. destruct Hm as [Hm|[Hm|Hm]]; [..|by apply elem_of_nil in Hm]; subst; by vm_compute in Hk.
  - destruct (allowed_name _ n Ha eq_refl) as (Hn & _ & _). cbn [allowed] in Ha.
    apply andb_true_iff in Ha as [_ Hf%bool_decide_eq_true]. apply reject_harmless, harmless_other.
    intros m Hm. split; [|by apply prefix_dashed]. intros E. by injection E as ->.
  - cbn [allowed] in Ha. apply bool_decide_eq_true in Ha. unfold internal_flags in Ha. rewrite !elem_of_cons in Ha.
    destruct Ha as [Ha|[Ha|Ha]]; [..|by apply elem_of_nil in Ha]; subst; by apply reject_harmless; vm_compute.
Qed.

(** *** The values read off the old command line *)

Definition or_else (v : option gostring) (acc : gostring) : gostring := match v with Some v => v | None => acc end.

Lemma flag_value_skip acc m a args :
  a ≠ dashed m → HasValuePrefix a (dashed m) = false → flag_value_from acc (dashed m) (a :: args) = flag_value_from acc (dashed m) args.
Proof. intros H1 H2. cbn [flag_value_from]. by rewrite bool_decide_eq_false_2, H2. Qed.

Lemma watched_plain m : m ∈ watched_names → 61 ∉ m.
Proof. revert m. apply Forall_forall. by_compute. Qed.

Lemma flag_value_render acc m w rest :
  m ∈ watched_names → kind old_flags m = Some false → allowed w = true →
  flag_value_from acc (dashed m) (argv_of w ++ rest) = flag_value_from (or_else (value m (setting_of w)) acc) (dashed m) rest.
Proof.
  intros Hm Hkm Ha. pose proof (watched_plain m Hm) as Hpm. destruct w as [n v|n v|n|a]; cbn [argv_of app setting_of value].
  - destruct (allowed_name _ n Ha eq_refl) as (Hn & _ & _). cbn [flag_value_from].
    rewrite bool_decide_eq_false_2 by (intros E; symmetry in E; by apply dashed_assigned in E).
    rewrite prefix_assigned by done. destruct (decide (n = m)) as [->|Hne].
    + rewrite !bool_decide_eq_true_2, trim_assigned by done. done.
    + by rewrite !bool_decide_eq_false_2.
  - destruct (allowed_name _ n Ha eq_refl) as (Hn & _ & _). cbn [allowed] in Ha.
    apply andb_true_iff in Ha as [_ Hs%negb_true_iff]. apply not_special in Hs as [_ Hs].
    destruct (decide (n = m)) as [->|Hne].
    + cbn [flag_value_from]. by rewrite !bool_decide_eq_true_2.
    + rewrite flag_value_skip by (first [by apply prefix_dashed|by intros [= ?]]). rewrite (bool_decide_eq_false_2 (n = m)) by done.
      apply flag_value_skip; apply Hs; constructor; apply elem_of_app; by left.
  - destruct (allowed_name _ n Ha eq_refl) as (Hn & _ & _). cbn [allowed] in Ha. apply andb_true_iff in Ha as [Hk%bool_decide_eq_true _].
    assert (n ≠ m) as Hne by congruence. rewrite (bool_decide_eq_false_2 (n = m)) by done.
    apply flag_value_skip; [by intros [= ?]|by apply prefix_dashed].
  - cbn [allowed] in Ha. apply bool_decide_eq_true in Ha. unfold internal_flags in Ha. rewrite !elem_of_cons in Ha.
    unfold watched_names, managed_names in Hm. rewrite !elem_of_cons in Hm.
    destruct Ha as [Ha|[Ha|Ha]]; [..|by apply elem_of_nil in Ha]; subst;
      destruct Hm as [Hm|[Hm|[Hm|[Hm|Hm]]]]; try (by apply elem_of_nil in Hm); subst; by apply flag_value_skip; vm_compute.
Qed.

Lemma flag_value_written m ws : ∀ acc,
  m ∈ watched_names → kind old_flags m = Some false → Forall (λ w, allowed w = true) ws →
  flag_value_from acc (dashed m) (flat_map argv_of ws) = or_else (value m (flat_map setting_of ws)) acc.
Proof.
  induction ws as [|w ws IH]; intros acc Hm Hk Hf; [done|]. apply Forall_cons in Hf as [Ha Hf]. cbn [flat_map].
  rewrite flag_value_render, IH, value_app by done. by destruct (value m (flat_map setting_of ws)).
Qed.

(** *** What [runShare] reads *)

Definition readable (F : FlagSet) (w : written) : Prop :=
  match w with
  | Eq n v => good_name n = true ∧ match kind F n with Some true => is_Some (ParseBool v) | Some false => True | None => False end
  | Sep n v => good_name n = true ∧ kind F n = Some false ∧ dashed n ∉ internal_flags ∧ v ∉ internal_flags
  | Bare n => good_name n = true ∧ kind F n = Some true ∧ dashed n ∉ internal_flags
  | Internal a => a ∈ internal_flags
  end.

Lemma assigned_not_internal n v : assigned n v ∉ internal_flags.
Proof.
  unfold internal_flags. rewrite !not_elem_of_cons. split_and!; [| |apply not_elem_of_nil]; intros E; symmetry in E.
  - by apply (dashed_assigned (lit "elevated-child")) in E; [|apply plain_word; vm_compute].
  - by apply (dashed_assigned (lit "upgrade-successor")) in E; [|apply plain_word; vm_compute].
Qed.

(** What [strip_internal] leaves of a written setting, and how it reads. *)
Lemma parse_step F w rest :
  readable F w → ∃ l, strip_internal (argv_of w ++ rest) = l ++ strip_internal rest ∧
    ∀ r, Parse F (l ++ r) = match Parse F r with Some (s, p) => Some (setting_of w ++ s, p) | None => None end.
Proof.
  unfold strip_internal. destruct w as [n v|n v|n|a]; cbn [readable argv_of app setting_of].
  - intros [Hg Hk]. exists [assigned n v]. rewrite filter_cons_True by apply assigned_not_internal. split; [done|].
    intros r. cbn [app Parse]. rewrite flag_arg_assigned by done. destruct (kind F n) as [[]|]; [|by destruct (Parse F r) as [[? ?]|]|done].
    destruct Hk as [b ->]. by destruct (Parse F r) as [[? ?]|].
  - intros (Hg & Hk & Hn & Hv). exists [dashed n; v]. rewrite !filter_cons_True by done. split; [done|].
    intros r. cbn [app Parse]. rewrite flag_arg_dashed, Hk by done. by destruct (Parse F r) as [[? ?]|].
  - intros (Hg & Hk & Hn). exists [dashed n]. rewrite filter_cons_True by done. split; [done|].
    intros r. cbn [app Parse]. rewrite flag_arg_dashed, Hk by done. by destruct (Parse F r) as [[? ?]|].
  - intros Ha. exists []. rewrite filter_cons_False by (intros H; by apply H). split; [done|]. intros r. cbn. by destruct (Parse F r) as [[? ?]|].
Qed.

Lemma parse_written F ws : Forall (readable F) ws → share_settings F (flat_map argv_of ws) = Some (flat_map setting_of ws).
Proof.
  unfold share_settings. intros H. assert (Parse F (strip_internal (flat_map argv_of ws)) = Some (flat_map setting_of ws, [])) as ->; [|done].
  induction H as [|w ws Hw _ IH]; [done|]. cbn [flat_map]. destruct (parse_step F w (flat_map argv_of ws) Hw) as (l & -> & Hp).
  by rewrite Hp, IH.
Qed.

Lemma allowed_readable w : allowed w = true → readable old_flags w.
Proof.
  intros Ha. destruct w as [n v|n v|n|a]; [destruct (allowed_name _ n Ha eq_refl) as (_ & Hg & Hi)..|];
    cbn [allowed readable] in *; [| | |by apply bool_decide_eq_true in Ha];
    try (assert (dashed n ∉ internal_flags) as Hd
      by (unfold internal_flags; rewrite !not_elem_of_cons in *; split_and!; [| |apply not_elem_of_nil]; intros [= ->]; tauto)).
  - split; [done|]. destruct (kind old_flags n) as [[]|]; [by destruct (ParseBool v)|done|done].
  - apply andb_true_iff in Ha as [Hk%bool_decide_eq_true Hs%negb_true_iff]. apply not_special in Hs as [Hs _]. done.
  - apply andb_true_iff in Ha as [Hk%bool_decide_eq_true _]. done.
Qed.

(** What the upgrade keeps, today's share can read, and it is what it was. *)
Lemma kept_readable w : allowed w = true → Forall (readable share_flags) (kept w).
Proof.
  intros Ha. pose proof (allowed_readable w Ha) as Hr.
  assert (readable share_flags (Bare (lit "unsafe-exec"))) as He.
  { split; [by vm_compute|]. split; [by vm_compute|]. by_compute. }
  destruct w as [n v|n v|n|a]; cbn [kept readable] in *.
  - destruct (decide (n ∈ managed_names)); [by rewrite bool_decide_eq_true_2|rewrite bool_decide_eq_false_2 by done].
    destruct (decide (n = full_system)); [rewrite bool_decide_eq_true_2 by done; destruct (bool_decide _); [by apply Forall_singleton|by apply Forall_nil]|].
    rewrite bool_decide_eq_false_2 by done. apply Forall_singleton. cbn [readable]. split; [by destruct Hr|]. destruct Hr as [_ Hr].
    destruct (kind old_flags n) as [k|] eqn:E; [|done]. pose proof (kind_new n k ltac:(done) E) as E2. by rewrite E2.
  - destruct (bool_decide _); [by apply Forall_nil|apply Forall_singleton]. cbn [readable]. destruct Hr as (Hg & Hk & Hd & Hv). split; [done|]. split; [|done].
    apply kind_new; [|done]. intros ->. by vm_compute in Hk.
  - destruct (decide (n = full_system)); [rewrite bool_decide_eq_true_2 by done; by apply Forall_singleton|].
    rewrite bool_decide_eq_false_2 by done. apply Forall_singleton. cbn [readable]. destruct Hr as (Hg & Hk & Hd). split; [done|]. split; [by apply kind_new|done].
  - destruct (bool_decide _); [by apply Forall_nil|by apply Forall_singleton].
Qed.

Lemma kept_value w n :
  n ∉ managed_names → n ∉ [full_system; lit "unsafe-exec"] → value n (flat_map setting_of (kept w)) = value n (setting_of w).
Proof.
  intros Hm Hn. rewrite !not_elem_of_cons in Hn. destruct Hn as (Hf & He & _). destruct w as [m v|m v|m|a]; cbn [kept setting_of].
  - destruct (decide (m ∈ managed_names)) as [Hin|Hin].
    + rewrite bool_decide_eq_true_2 by done. cbn. by rewrite bool_decide_eq_false_2 by congruence.
    + rewrite bool_decide_eq_false_2 by done. destruct (decide (m = full_system)) as [->|Hne]; [|by rewrite bool_decide_eq_false_2].
      rewrite bool_decide_eq_true_2 by done. cbn [value]. rewrite (bool_decide_eq_false_2 (full_system = n)) by congruence.
      destruct (bool_decide _); [|done]. cbn [flat_map setting_of app value]. by rewrite bool_decide_eq_false_2 by congruence.
  - destruct (decide (m ∈ managed_names)) as [Hin|Hin]; [|by rewrite bool_decide_eq_false_2].
    rewrite bool_decide_eq_true_2 by done. cbn. by rewrite bool_decide_eq_false_2 by congruence.
  - destruct (decide (m = full_system)) as [->|Hne]; [|by rewrite bool_decide_eq_false_2].
    rewrite bool_decide_eq_true_2 by done. cbn [flat_map setting_of app value]. by rewrite !bool_decide_eq_false_2 by congruence.
  - by destruct (bool_decide _).
Qed.

Lemma kept_values ws n :
  n ∉ managed_names → n ∉ [full_system; lit "unsafe-exec"] →
  value n (flat_map setting_of (flat_map kept ws)) = value n (flat_map setting_of ws).
Proof.
  intros Hm Hn. induction ws as [|w ws IH]; [done|]. cbn [flat_map]. by rewrite flat_map_app, !value_app, IH, kept_value.
Qed.

Lemma kept_args_written ws : Forall (λ w, allowed w = true) ws → kept_args (flat_map argv_of ws) = Ok (flat_map argv_of (flat_map kept ws)).
Proof.
  induction 1 as [|w ws Hw _ IH]; [done|]. cbn [flat_map]. by rewrite kept_render, IH, flat_map_app.
Qed.

Lemma reject_written ws : Forall (λ w, allowed w = true) ws → RejectStandaloneNoAuth (flat_map argv_of ws) = Ok ().
Proof. induction 1 as [|w ws Hw _ IH]; [done|]. cbn [flat_map]. by rewrite reject_render. Qed.

(** ** The theorem *)

Lemma managed_strings m : m ∈ managed_names → kind old_flags m = Some false.
Proof. revert m. apply Forall_forall. by_compute. Qed.

Lemma host_written ws :
  Forall (λ w, allowed w = true) ws →
  HostCodeFile (lit "share" :: flat_map argv_of ws) =
    (let mirror := or_else (value (lit "code-file-mirror") (flat_map setting_of ws)) [] in
     if bool_decide (mirror ≠ []) then mirror else or_else (value (lit "code-file") (flat_map setting_of ws)) []).
Proof.
  intros Hf. unfold HostCodeFile, FlagValue.
  change (lit "--code-file-mirror") with (dashed (lit "code-file-mirror")). change (lit "--code-file") with (dashed (lit "code-file")).
  rewrite !flag_value_skip by by_compute. by rewrite !flag_value_written by first [done|by apply managed_strings; by_compute|by_compute].
Qed.

(** What is written at the end of the new command line. *)
Definition added (server codeFile host : gostring) : list written :=
  [Sep (lit "server") server; Sep (lit "code-file") codeFile] ++
  (if bool_decide (host ≠ []) then [Sep (lit "code-file-mirror") host] else []) ++ [Internal upgradeSuccessorFlag].

Lemma added_readable server codeFile host :
  server ∉ internal_flags → codeFile ∉ internal_flags → host ∉ internal_flags →
  Forall (readable share_flags) (added server codeFile host).
Proof.
  intros Hs Hc Hh. unfold added. repeat apply Forall_cons_2; [..|destruct (bool_decide _); repeat apply Forall_cons_2; try apply Forall_nil];
    cbn [readable]; try (split; [by vm_compute|split; [by vm_compute|split; [by_compute|done]]]); by_compute.
Qed.

Lemma written_plain ws n v : Forall (λ w, allowed w = true) ws → value n (flat_map setting_of ws) = Some v → v ∉ internal_flags ∨ kind old_flags n = Some true.
Proof.
  intros Hf. induction Hf as [|w ws Ha _ IH]; [done|]. cbn [flat_map]. rewrite value_app.
  destruct (value n (flat_map setting_of ws)) as [u|]; [exact IH|]. clear IH.
  destruct w as [m u|m u|m|a]; cbn [setting_of value]; [..|intros H; discriminate H]; destruct (decide (m = n)) as [->|Hne];
    first [rewrite bool_decide_eq_true_2 by done|rewrite bool_decide_eq_false_2 by done]; try (intros H; discriminate H); intros [= <-]; cbn [allowed] in Ha.
  - destruct (kind old_flags n) as [[]|]; [by right|left; by apply bool_decide_eq_true in Ha|done].
  - left. apply andb_true_iff in Ha as [_ Hs%negb_true_iff]. by apply not_special in Hs as [? _].
  - right. by apply andb_true_iff in Ha as [?%bool_decide_eq_true _].
Qed.

Lemma upgraded_share exe args server codeFile :
  upgradedShareArgs (exe :: lit "share" :: args) server codeFile =
    match RejectStandaloneNoAuth (lit "share" :: args) with
    | Err e => Err e
    | Ok _ =>
        match kept_args args with
        | Err e => Err e
        | Ok out =>
            if bool_decide (server = []) then Err EmptyServer
            else let host := HostCodeFile (lit "share" :: args) in
              Ok (lit "share" :: out ++ [lit "--server"; server; lit "--code-file"; codeFile] ++
                (if bool_decide (host ≠ []) then [lit "--code-file-mirror"; host] else []) ++ [upgradeSuccessorFlag])
        end
    end.
Proof. reflexivity. Qed.

Lemma kept_managed_none ws n : Forall (λ w, allowed w = true) ws → n ∈ managed_names → value n (flat_map setting_of (flat_map kept ws)) = None.
Proof.
  intros Hf Hn. induction Hf as [|w ws Ha _ IH]; [done|]. cbn [flat_map]. rewrite flat_map_app, value_app, IH.
  assert (lit "unsafe-exec" ≠ n) as He by (intros <-; revert Hn; by_compute).
  destruct w as [m v|m v|m|a]; cbn [kept].
  - destruct (decide (m ∈ managed_names)); [by rewrite bool_decide_eq_true_2|rewrite bool_decide_eq_false_2 by done].
    destruct (bool_decide (m = full_system)); [|cbn; by rewrite bool_decide_eq_false_2 by congruence].
    destruct (bool_decide _); [|done]. cbn [flat_map setting_of app value]. by rewrite bool_decide_eq_false_2.
  - destruct (decide (m ∈ managed_names)); [by rewrite bool_decide_eq_true_2|rewrite bool_decide_eq_false_2 by done].
    cbn. by rewrite bool_decide_eq_false_2 by congruence.
  - cbn [allowed] in Ha. apply andb_true_iff in Ha as [Hk%bool_decide_eq_true _]. pose proof (managed_strings n Hn) as Hs.
    destruct (bool_decide _); cbn [flat_map setting_of app value]; rewrite bool_decide_eq_false_2; congruence.
  - by destruct (bool_decide _).
Qed.


(** ** Where the upgrade may put its files *)

Lemma stage_scans args acc :
  stage_root_value acc args = Ok (flag_value_from acc (lit "--root") args) ∨ last args = Some (lit "--root").
Proof.
  revert acc. induction args as [args IH] using (induction_ltof1 _ length); unfold ltof in IH. intros acc.
  destruct args as [|a args]; [by left|]. cbn [stage_root_value flag_value_from].
  destruct (decide (a = lit "--root")) as [->|Hne].
  - rewrite !bool_decide_eq_true_2 by done. destruct args as [|v args]; [by right|].
    destruct (IH args ltac:(cbn; lia) v) as [?|Hl]; [by left|right]. destruct args; [done|exact Hl].
  - rewrite !bool_decide_eq_false_2 by done.
    destruct (IH args ltac:(cbn; lia) (if HasValuePrefix a (lit "--root") then TrimPrefix (lit "--root=") a else acc)) as [?|Hl]; [by left|right].
    destruct args; [done|exact Hl].
Qed.

Lemma written_end ws : Forall (λ w, allowed w = true) ws → last (flat_map argv_of ws) ≠ Some (lit "--root").
Proof.
  induction ws as [|w ws IH] using rev_ind; intros Hf; [done|]. apply Forall_app in Hf as [_ Ha]. apply Forall_inv in Ha.
  rewrite flat_map_app, last_app. cbn [flat_map]. rewrite app_nil_r. change (lit "--root") with (dashed (lit "root")).
  destruct w as [n v|n v|n|a]; cbn [argv_of last]; intros H; apply (inj Some) in H.
  - symmetry in H. by apply dashed_assigned in H; [|apply plain_word; vm_compute].
  - subst v. cbn [allowed] in Ha. apply andb_true_iff in Ha as [_ Hs%negb_true_iff]. apply not_special in Hs as [_ Hs].
    by destruct (Hs (lit "root")); [by_compute|].
  - assert (n = lit "root") as -> by (by injection H). by vm_compute in Ha.
  - subst a. by vm_compute in Ha.
Qed.

(** The upgrade takes for the root of the old share the one the share itself
    reads, and knows whether there is one: a root that is set and not empty is
    explicit, made absolute in the share's directory and cleaned by the rules of
    its system; otherwise the directory itself. *)
Theorem StageRoot_reads_root exe remoteOS ws cwd :
  Forall (λ w, allowed w = true) ws →
  ∃ old, share_settings old_flags (flat_map argv_of ws) = Some old ∧
    let root := or_else (value (lit "root") old) [] in
    StageRoot remoteOS (exe :: lit "share" :: flat_map argv_of ws) cwd =
      match RejectStandaloneNoAuth [exe] with
      | Err e => Err e
      | Ok _ =>
          Ok (if bool_decide (root = []) then (cleanPath remoteOS cwd, false)
              else (cleanPath remoteOS (if isAbsPath remoteOS root then root else joinPath remoteOS cwd root), true))
      end.
Proof.
  intros Hf. exists (flat_map setting_of ws). split; [apply parse_written; eapply Forall_impl; [exact Hf|apply allowed_readable]|].
  cbv zeta. unfold StageRoot. change (stage_root_value [] (tail (exe :: lit "share" :: flat_map argv_of ws))) with (stage_root_value [] (flat_map argv_of ws)).
  assert (RejectStandaloneNoAuth (exe :: lit "share" :: flat_map argv_of ws) = RejectStandaloneNoAuth [exe]) as ->.
  { cbn [RejectStandaloneNoAuth]. destruct (reject_names exe _); [by apply reject_written|done]. }
  destruct (RejectStandaloneNoAuth [exe]); [|done].
  assert (∀ acc, stage_root_value acc (flat_map argv_of ws) = Ok (or_else (value (lit "root") (flat_map setting_of ws)) acc)) as ->.
  { intros acc. destruct (stage_scans (flat_map argv_of ws) acc) as [->|H]; [|by destruct (written_end ws Hf)].
    change (lit "--root") with (dashed (lit "root")). by rewrite flag_value_written by first [done|by_compute|by vm_compute]. }
  by destruct (bool_decide _).
Qed.

(** ** Paths *)

(** A name that is no step of its own. *)
Definition proper_name (s : gostring) : Prop := s ≠ [] ∧ s ≠ lit "." ∧ s ≠ lit "..".

Lemma clean_segments_proper segs : ∀ out,
  Forall proper_name out → Forall proper_name (clean_segments true out segs).
Proof.
  induction segs as [|seg segs IH]; intros out Ho; [done|]. cbn [clean_segments]. apply IH.
  destruct (decide (seg = [])) as [->|H1]; [done|]. destruct (decide (seg = lit ".")) as [->|H2]; [by vm_compute|].
  rewrite !bool_decide_eq_false_2 by done. cbn [orb]. destruct (decide (seg = lit "..")) as [->|H3].
  - rewrite bool_decide_eq_true_2 by done. destruct (last out) as [s|] eqn:El; [|done].
    assert (proper_name s) as (_ & _ & Hs) by (rewrite Forall_forall in Ho; apply Ho; by eapply last_Some_elem_of).
    rewrite bool_decide_eq_true_2 by done. apply last_Some in El as [l ->]. rewrite removelast_last. by apply Forall_app in Ho as [? _].
  - rewrite bool_decide_eq_false_2 by done. apply Forall_app. split; [done|by apply Forall_singleton].
Qed.

(** A rooted path is cleaned to its volume, its root, and names that never lead
    up: whatever steps it holds, it stays on its volume. *)
Theorem clean_stays_below sep vol rest :
  has_prefix [sep] rest = true →
  ∃ names, clean_rest sep vol rest = vol ++ sep :: join_with sep names ∧ Forall proper_name names.
Proof.
  intros H. exists (clean_segments true [] (split_byte sep rest)). split; [|by apply clean_segments_proper].
  unfold clean_rest. rewrite H. by rewrite bool_decide_eq_false_2 by (by destruct vol).
Qed.

(** ** Where the checks look past a flag *)

(** [flag] takes [-standalone] for [--standalone]; the refusal does not, and the
    new share is started as a relay of its own. *)
Theorem one_dash_passes :
  ∃ out new, upgradedShareArgs (map bytes_of ["remote"; "share"; "-standalone"; "-root=/data"]%string) (lit "r:8443") (lit "/tmp/c") = Ok (lit "share" :: out) ∧
    share_settings share_flags out = Some new ∧ value (lit "standalone") new = Some (lit "true") ∧
    StageRoot (lit "linux") (map bytes_of ["remote"; "share"; "-standalone"; "-root=/data"]%string) (lit "/srv") = Ok (lit "/srv", false).
Proof. eexists _, _. split_and!; by vm_compute. Qed.

(** ** The theorems at work *)

Definition a_share : list written :=
  [Eq (lit "root") (lit "/data"); Bare (lit "plain"); Sep (lit "server") (lit "old:8443"); Sep (lit "code-file") (lit "/run/code.json"); Eq (lit "no-auth") (lit "false")].


Lemma StageRoot_reads_root_witness :
  ∃ old, share_settings old_flags (flat_map argv_of a_share) = Some old ∧
    let root := or_else (value (lit "root") old) [] in
    StageRoot (lit "linux") (lit "remote" :: lit "share" :: flat_map argv_of a_share) (lit "/srv") =
      match RejectStandaloneNoAuth [lit "remote"] with
      | Err e => Err e
      | Ok _ =>
          Ok (if bool_decide (root = []) then (cleanPath (lit "linux") (lit "/srv"), false)
              else (cleanPath (lit "linux") (if isAbsPath (lit "linux") root then root else joinPath (lit "linux") (lit "/srv") root), true))
      end.
Proof.
  apply (StageRoot_reads_root (lit "remote") (lit "linux") a_share (lit "/srv")).
  by repeat (apply Forall_cons; split; [by vm_compute|]).
Defined.
