(* ===== verification/GuiUpgradeText.v ===== *)
(** * What an upgrade reads (src/internal/gui/upgrade.go)

    Versions, executables, paths on the remote system and the answer of the probe
    of an old share.  Text is a list of bytes. *)

From S2P Require Import Prelude GoNet GoText GoFields GoBase64 Update UpgradeFlags.

Open Scope Z_scope.

(** ** [strconv.Atoi] with a sign, and what it returns beside a range error *)

Definition Atoi_signed (l : gostring) : option Z :=
  match l with
  | 43 :: (_ :: _) as l => match digits_value 0 (tail l) with Some n => if n <? 2 ^ 63 then Some n else None | None => None end
  | 45 :: (_ :: _) as l => match digits_value 0 (tail l) with Some n => if n <=? 2 ^ 63 then Some (- n) else None | None => None end
  | _ => Atoi l
  end.

Definition Atoi_clamped (l : gostring) : Z :=
  match digits_value 0 l with Some n => Z.min n (2 ^ 63 - 1) | None => 0 end.

(** ** Versions

    [buildVersionRE], after the start of the text or a white space: a "v" or
    none, three numbers, and the distance and the mark of [git describe].  At
    every choice the character that follows decides, so that trying the longer
    form first, as the regular expression does, needs no way back. *)

Definition re_space (b : Z) : bool := bool_decide (b ∈ [9; 10; 12; 13; 32]).
Definition hex_fold (b : Z) : bool := is_digit b || between 97 b 102 || between 65 b 70.
Definition fold_char (c b : Z) : bool := (b =? c) || (b =? c - 32).

Definition or_try {A} (a b : option A) : option A := match a with Some _ => a | None => b end.

Definition some_digits (l : gostring) : option (gostring * gostring) :=
  match span is_digit l with ([], _) => None | r => Some r end.

Definition re_end (l : gostring) : option gostring :=
  match l with [] => Some [] | b :: l => if re_space b then Some l else None end.

Definition re_dirty (l : gostring) : option gostring :=
  or_try (match l with
          | 45 :: l =>
              let word := take 5 l in
              if (length word =? 5)%nat && forallb (fun p => fold_char p.1 p.2) (combine (lit "dirty") word) then re_end (drop 5 l) else None
          | _ => None
          end) (re_end l).

Definition re_distance (l : gostring) : option (gostring * gostring) :=
  or_try (match l with
          | 45 :: l =>
              match some_digits l with
              | Some (n, 45 :: g :: l) =>
                  if fold_char 103 g then
                    match span hex_fold l with
                    | ([], _) => None
                    | (_, l) => pair n <$> re_dirty l
                    end
                  else None
              | _ => None
              end
          | _ => None
          end) (pair [] <$> re_dirty l).

Definition re_numbers (l : gostring) : option (list gostring * gostring) :=
  let l := match l with b :: l' => if fold_char 118 b then l' else l | [] => l end in
  match some_digits l with
  | Some (major, 46 :: l) =>
      match some_digits l with
      | Some (minor, 46 :: l) =>
          match some_digits l with
          | Some (patch, l) =>
              match re_distance l with Some (distance, l) => Some ([major; minor; patch; distance], l) | None => None end
          | None => None
          end
      | _ => None
      end
  | _ => None
  end.

(** The text of a match, and its groups. *)
Definition matched (l : gostring) (r : option (list gostring * gostring)) : option (gostring * list gostring) :=
  match r with Some (groups, rest) => Some (take (length l - length rest) l, groups) | None => None end.

Fixpoint find_spaced (l : gostring) : option (gostring * list gostring) :=
  match l with
  | [] => None
  | b :: l' => or_try (if re_space b then matched l (re_numbers l') else None) (find_spaced l')
  end.
Definition FindVersion (l : gostring) : option (gostring * list gostring) :=
  or_try (matched l (re_numbers l)) (find_spaced l).

(** A version: major, minor, patch and distance. *)
Definition buildVersion : Type := list Z.

Definition parseBuildVersion (s : gostring) : option buildVersion :=
  match FindVersion (TrimSpace s) with
  | Some (_, groups) => Some (map (fun g => if bool_decide (g ≠ []) then Atoi_clamped g else 0) groups)
  | None => None
  end.

Definition extractVersion (s : gostring) : gostring :=
  match FindVersion (TrimSpace s) with
  | None => TrimSpace (TrimPrefix (lit "remote-assist ") (TrimSpace s))
  | Some (m, _) => TrimSpace m
  end.

Fixpoint compare_parts (c o : list Z) : bool :=
  match c, o with
  | x :: c, y :: o => if x =? y then compare_parts c o else y <? x
  | _, _ => false
  end.

(** [(newer, known)] *)
Definition newerBuild (candidate current : gostring) : bool * bool :=
  match parseBuildVersion candidate, parseBuildVersion current with
  | Some c, Some o => (compare_parts c o, true)
  | _, _ => (false, false)
  end.

(** [candidateVersionLDFlagRE] *)
Definition ldflag_char (b : Z) : bool := negb (re_space b || (b =? 34) || (b =? 39)).
Fixpoint ldflag_version (l : gostring) : option gostring :=
  match l with
  | [] => None
  | _ :: l' =>
      let name := lit "/internal/version.Version=" in
      or_try (if has_prefix name l then match span ldflag_char (drop (length name) l) with ([], _) => None | (v, _) => Some v end else None)
             (ldflag_version l')
  end.

(** The settings are those [debug/buildinfo] reads from the file, if it can. *)
Fixpoint first_ldflags (settings : list (gostring * gostring)) : gostring :=
  match settings with
  | [] => []
  | (key, value) :: settings =>
      if bool_decide (key ≠ lit "-ldflags") then first_ldflags settings
      else match ldflag_version value with Some v => v | None => first_ldflags settings end
  end.
Definition localCandidateVersion (info : option (list (gostring * gostring))) : gostring :=
  match info with None => [] | Some settings => first_ldflags settings end.

Example versions_read :
  (map parseBuildVersion (map bytes_of ["remote-assist v0.3.1-12-gab12CD-dirty"; "V1.2.3"; "1.2"; "x1.2.3"; "1.2.3-rc1"; "a 1.2.3 b"; "99999999999999999999.0.1"]%string),
   map extractVersion (map bytes_of ["remote-assist v0.3.1 (linux)"; "remote-assist dev"]%string))
  = ([Some [0; 3; 1; 12]; Some [1; 2; 3; 0]; None; None; None; Some [1; 2; 3; 0]; Some [9223372036854775807; 0; 1; 0]],
     map bytes_of ["v0.3.1"; "dev"]%string).
Proof. by vm_compute. Qed.
Example builds_compared :
  (newerBuild (lit "v1.2.3-4-gabc") (lit "v1.2.3"), newerBuild (lit "v1.2.3") (lit "1.2.3-dirty"), newerBuild (lit "dev") (lit "v1.0.0"))
  = ((true, true), (false, true), (false, false)).
Proof. by vm_compute. Qed.

(** ** Executables *)

Definition le16 (l : list Z) : Z := match l with a :: b :: _ => a + 2 ^ 8 * b | _ => 0 end.
Definition le32 (l : list Z) : Z := le16 l + 2 ^ 16 * le16 (drop 2 l).

Inductive BinaryError :=
| ShortHeader
| NotELF
| ELFMachine (m : Z)
| NotPE
| PEOffset
| PEMachineUnread
| PESignature
| PEMachine (m : Z)
| UnsupportedOS (os : gostring).

(** [file] is the content of the file at the path. *)
Definition inspectLinuxELF (file : list Z) : result BinaryError gostring :=
  if (length file <? 20)%nat then Err ShortHeader
  else
    let header := take 20 file in
    if bool_decide (take 4 header ≠ [127; 69; 76; 70]) || negb (nth 5 header 0 =? 1) then Err NotELF
    else
      let machine := le16 (drop 18 header) in
      if machine =? 62 then Ok (lit "amd64")
      else if machine =? 183 then Ok (lit "arm64")
      else Err (ELFMachine machine).

Definition inspectWindowsPE (file : list Z) : result BinaryError gostring :=
  if (length file <? 64)%nat then Err ShortHeader
  else
    let header := take 64 file in
    if bool_decide (take 2 header ≠ lit "MZ") then Err NotPE
    else
      let peOffset := le32 (drop 0x3c header) in
      if (peOffset <? 0x40) || (Z.shiftl 64 20 <? peOffset) then Err PEOffset
      else
        let peHeader := take 6 (drop (Z.to_nat peOffset) file) in
        if (length peHeader <? 6)%nat then Err PEMachineUnread
        else if bool_decide (take 4 peHeader ≠ [80; 69; 0; 0]) then Err PESignature
        else
          let machine := le16 (drop 4 peHeader) in
          if machine =? 0x8664 then Ok (lit "amd64")
          else if machine =? 0xaa64 then Ok (lit "arm64")
          else Err (PEMachine machine).

Definition inspectUpgradeBinary (file : list Z) (remoteOS : gostring) : result BinaryError gostring :=
  if bool_decide (remoteOS = lit "linux") then inspectLinuxELF file
  else if bool_decide (remoteOS = lit "windows") then inspectWindowsPE file
  else Err (UnsupportedOS remoteOS).

Definition normalizeArch (arch : gostring) : gostring :=
  let arch := ToLower (TrimSpace arch) in
  if bool_decide (arch ∈ [lit "x86_64"; lit "amd64"]) then lit "amd64"
  else if bool_decide (arch ∈ [lit "aarch64"; lit "arm64"]) then lit "arm64"
  else [].

(** ** Paths on the remote system *)

Definition trim_right (p : Z → bool) (l : list Z) : list Z := rev (drop_while p (rev l)).
Definition trim_both (p : Z → bool) (l : list Z) : list Z := trim_right p (drop_while p l).

Definition remoteJoin (remoteOS base : gostring) (names : list gostring) : gostring :=
  if bool_decide (remoteOS = lit "windows") then
    trim_right is_separator base ++ concat (map (fun name => backslash :: trim_both is_separator name) names)
  else
    (* [path.Join] *)
    match filter (fun e => e ≠ []) (base :: names) with
    | [] => []
    | l => path_Clean (join_with 47 l)
    end.

(** ** The probe *)

Record remoteProcessProbe := mkProbe {
  pb_PID : Z;
  pb_Exe : gostring;
  pb_CWD : gostring;
  pb_OS : gostring;
  pb_Arch : gostring;
  pb_Version : gostring;
  pb_Argv : list gostring;
  pb_StageRoot : gostring;
  pb_RootExplicit : bool;
  pb_TempDir : gostring
}.

Inductive ProbeError :=
| ProbeLines (n : nat)
| ProbePID (line : gostring)
| ProbeTarget (os arch : gostring)
| ProbeNoArgv
| ProbeFlags (e : UpgradeError).

Definition peerHostIsWindows (peerHost : gostring) : bool :=
  match PlatformFromHost peerHost with Some (goos, _) => bool_decide (goos = lit "windows") | None => false end.

Definition probeOrder (peerHost : gostring) : list gostring :=
  if peerHostIsWindows peerHost then [lit "windows"; lit "linux"] else [lit "linux"; lit "windows"].

(** The arguments of a process from its [cmdline]. *)
Definition cmdline_argv (cmdline : gostring) : list gostring := split_byte 0 (trim_right (Z.eqb 0) cmdline).

Definition parseLinuxProbeOutput (stdout fallbackVersion : gostring) : result ProbeError remoteProcessProbe :=
  let lines := split_byte 10 (filter (fun b => b ≠ 13) (TrimSpace stdout)) in
  match lines with
  | l0 :: l1 :: l2 :: l3 :: l4 :: l5 :: more =>
      match Atoi_signed (TrimSpace l0) with
      | None => Err (ProbePID l0)
      | Some pid =>
          if pid <=? 1 then Err (ProbePID l0)
          else
            let exe := TrimSpace l1 in
            let cwd := TrimSpace l2 in
            let os := ToLower (TrimSpace l3) in
            let arch := normalizeArch (TrimSpace l4) in
            if bool_decide (os ≠ lit "linux") || bool_decide (exe = []) || bool_decide (cwd = []) || bool_decide (arch = [])
            then Err (ProbeTarget os l4)
            else
              let argv :=
                match more with
                | l6 :: _ =>
                    if bool_decide (TrimSpace l6 ≠ []) then
                      match b64_decode (TrimSpace l6) with Some cmdline => cmdline_argv cmdline | None => [] end
                    else []
                | [] => []
                end in
              if bool_decide (argv = []) then Err ProbeNoArgv
              else match StageRoot os argv cwd with
                   | Err e => Err (ProbeFlags e)
                   | Ok (root, explicit) => Ok (mkProbe pid exe cwd os arch fallbackVersion argv root explicit (TrimSpace l5))
                   end
      end
  | _ => Err (ProbeLines (length lines))
  end.

(** What PowerShell reports, once its JSON is decoded. *)
Record WindowsReport := mkWindowsReport {
  wr_PID : Z; wr_Exe : gostring; wr_CWD : gostring; wr_OS : gostring; wr_Arch : gostring; wr_Argv : list gostring; wr_TempDir : gostring
}.

Definition windowsProbeResult (raw : WindowsReport) (fallbackVersion : gostring) : result ProbeError remoteProcessProbe :=
  let arch := normalizeArch (wr_Arch raw) in
  if (wr_PID raw <=? 1) || bool_decide (wr_OS raw ≠ lit "windows") || bool_decide (wr_Exe raw = []) || bool_decide (wr_CWD raw = [])
     || bool_decide (arch = []) || bool_decide (wr_Argv raw = [])
  then Err (ProbeTarget (wr_OS raw) (wr_Arch raw))
  else match StageRoot (wr_OS raw) (wr_Argv raw) (wr_CWD raw) with
       | Err e => Err (ProbeFlags e)
       | Ok (root, explicit) =>
           Ok (mkProbe (wr_PID raw) (wr_Exe raw) (wr_CWD raw) (wr_OS raw) arch fallbackVersion (wr_Argv raw) root explicit (wr_TempDir raw))
       end.

Definition upgradeStageParent (probe : remoteProcessProbe) : gostring :=
  if negb (pb_RootExplicit probe) && bool_decide (pb_TempDir probe ≠ []) then pb_TempDir probe else pb_StageRoot probe.

Definition parseUpgradePID (raw : gostring) : option Z :=
  match Atoi_signed (TrimSpace raw) with Some pid => if pid <=? 1 then None else Some pid | None => None end.

(** ** Errors *)

Definition upgradeTransportLost (msg : gostring) : bool :=
  contains (lit "tunnel_lost") msg || contains (lit "not_connected") msg || contains (lit "peer_gone") msg.

Definition windowsUpgradeRecoveryHint (probe : remoteProcessProbe) (backupPath codePath : gostring) : gostring :=
  lit "；远端原文件可能已被改名为 " ++ backupPath ++ lit "。若 " ++ pb_Exe probe ++
  lit " 缺失或不是旧版，请在远端结束候选 share 进程（如有），把 " ++ pb_Exe probe ++ lit " 改名移开，再把 " ++ backupPath ++
  lit " 改回 " ++ pb_Exe probe ++
  (if bool_decide (codePath ≠ []) then lit "；若新 share 其实已启动，它的协助码在 " ++ codePath else []) ++
  lit "。若进程或文件被 Windows Defender 拦截，请在“保护历史记录”中还原，并为该目录添加排除项".

Example elf_and_pe :
  (inspectLinuxELF ([127; 69; 76; 70; 2; 1] ++ replicate 12 0 ++ [183; 0]), inspectLinuxELF ([127; 69; 76; 70; 2; 2] ++ replicate 14 0),
   inspectWindowsPE (lit "MZ" ++ replicate 58 0 ++ [64; 0; 0; 0; 80; 69; 0; 0; 0x64; 0x86]),
   inspectWindowsPE (lit "MZ" ++ replicate 58 0 ++ [63; 0; 0; 0; 80; 69; 0; 0; 0x64; 0x86]))
  = (Ok (lit "arm64"), Err NotELF, Ok (lit "amd64"), Err PEOffset).
Proof. by vm_compute. Qed.
Example joined :
  (remoteJoin (lit "windows") (lit "C:\tmp\") [lit "x"; lit "/code.json"], remoteJoin (lit "linux") (lit "/tmp/") [lit "x"; lit "code.json"])
  = (lit "C:\tmp\x\code.json", lit "/tmp/x/code.json").
Proof. by vm_compute. Qed.
Example probe_read :
  parseLinuxProbeOutput (lit "4711
/opt/remote
/srv
Linux
x86_64
/tmp
cmVtb3RlAHNoYXJlAC0tcm9vdABkYXRhAA==
") (lit "v1.0.0")
  = Ok (mkProbe 4711 (lit "/opt/remote") (lit "/srv") (lit "linux") (lit "amd64") (lit "v1.0.0")
         (map bytes_of ["remote"; "share"; "--root"; "data"]%string) (lit "/srv/data") true (lit "/tmp")).
Proof. by vm_compute. Qed.

(** ** Lines and numbers read back *)

(** A visible ASCII character. *)
Definition ink (b : Z) : Prop := 0 ≤ b < 0x80 ∧ is_space b = false.

Lemma segments_start x m : 0 ≤ x < 0x80 → segments (x :: m) = ([x], x) :: segments m.
Proof. intros H. apply (segments_ascii [] x m H). Qed.
Lemma segments_end n y : 0 ≤ y < 0x80 → segments (n ++ [y]) = segments n ++ [([y], y)].
Proof. intros H. apply (segments_ascii n y [] H). Qed.

Lemma TrimSpace_inked x m n y : x :: m = n ++ [y] → ink x → ink y → TrimSpace (x :: m) = x :: m.
Proof.
  intros E [Hx Sx] [Hy Sy]. unfold TrimSpace, trim_segments.
  assert (drop_while (λ s : list Z * Z, is_space s.2) (segments (x :: m)) = segments (x :: m)) as -> by (apply drop_while_head; by rewrite segments_start).
  assert (drop_while (λ s : list Z * Z, is_space s.2) (rev (segments (x :: m))) = rev (segments (x :: m))) as ->.
  { apply drop_while_head. by rewrite E, segments_end, rev_app_distr. }
  by rewrite rev_involutive, segments_concat.
Qed.

Lemma TrimSpace_line x m n y : x :: m = n ++ [y] → ink x → ink y → TrimSpace ((x :: m) ++ [10]) = x :: m.
Proof.
  intros E [Hx Sx] [Hy Sy]. unfold TrimSpace, trim_segments. rewrite segments_end by done.
  assert (drop_while (λ s : list Z * Z, is_space s.2) (segments (x :: m) ++ [([10], 10)]) = segments (x :: m) ++ [([10], 10)]) as ->.
  { apply drop_while_head. by rewrite segments_start. }
  rewrite rev_app_distr, E, segments_end, rev_app_distr by done. cbn [rev app].
  change (drop_while (λ s : list Z * Z, is_space s.2) (([10], 10) :: ([y], y) :: rev (segments n))) with
    (if is_space y then drop_while (λ s : list Z * Z, is_space s.2) (rev (segments n)) else ([y], y) :: rev (segments n)).
  rewrite Sy. cbn [rev]. by rewrite rev_involutive, <- segments_end, segments_concat.
Qed.

Lemma digits_decimal fuel : ∀ n acc, 0 ≤ n < 10 ^ Z.of_nat (S fuel) →
  digits_value 0 (decimal_fuel (S fuel) n acc) = digits_value n acc.
Proof.
  induction fuel as [|fuel IH]; intros n acc Hn; cbn [decimal_fuel].
  - rewrite (proj2 (Z.ltb_lt n 10)) by (cbn in Hn; lia). cbn [digits_value]. unfold is_digit.
    rewrite Z.mod_small by (cbn in Hn; lia). rewrite between_true by (cbn in Hn; lia). f_equal. lia.
  - destruct (n <? 10) eqn:E.
    + apply Z.ltb_lt in E. cbn [digits_value]. unfold is_digit. rewrite Z.mod_small by lia. rewrite between_true by lia. f_equal. lia.
    + apply Z.ltb_ge in E. rewrite (Nat2Z.inj_succ (S fuel)), Z.pow_succ_r in Hn by lia.
      change (digits_value 0 (decimal_fuel (S fuel) (n / 10) ((48 + n mod 10) :: acc)) = digits_value n acc).
      rewrite IH by (zdiv). cbn [digits_value]. unfold is_digit. rewrite between_true by zdiv. f_equal. zdiv.
Qed.

Lemma decimal_digit fuel : ∀ n acc, 0 ≤ n → Forall (λ b, is_digit b = true) acc → Forall (λ b, is_digit b = true) (decimal_fuel fuel n acc).
Proof.
  induction fuel as [|fuel IH]; intros n acc Hn Ha; cbn [decimal_fuel]; [done|].
  assert (Forall (λ b, is_digit b = true) ((48 + n mod 10) :: acc)) as H by (constructor; [apply between_true; zdiv|done]).
  destruct (_ <? _); [done|]. apply IH; [zdiv|done].
Qed.

Lemma digit_ink b : is_digit b = true → ink b.
Proof.
  unfold is_digit, between. intros [H1%Z.leb_le H2%Z.leb_le]%andb_true_iff. split; [lia|].
  assert (b ∈ [48; 49; 50; 51; 52; 53; 54; 55; 56; 57]) as Hin by (rewrite !elem_of_cons; lia).
  repeat (apply elem_of_cons in Hin as [->|Hin]; [done|]). by apply elem_of_nil in Hin.
Qed.

(** A decimal number starts and ends with a digit. *)
Lemma decimal_shape n : 0 ≤ n → ∃ x m p y, decimal n = x :: m ∧ decimal n = p ++ [y] ∧ ink x ∧ ink y.
Proof.
  intros Hn. pose proof (decimal_digit 20 n [] Hn ltac:(constructor)) as Hd. fold (decimal n) in Hd.
  assert (∀ fuel n acc, acc ≠ [] → decimal_fuel fuel n acc ≠ []) as Hne.
  { induction fuel as [|fuel IH]; intros k acc H; cbn [decimal_fuel]; [done|]. destruct (_ <? _); [done|]. by apply IH. }
  assert (decimal n ≠ []) as H.
  { unfold decimal. change (decimal_fuel 20 n []) with (let acc := [48 + n mod 10] in if n <? 10 then acc else decimal_fuel 19 (n / 10) acc).
    cbv zeta. destruct (_ <? _); [done|]. by apply Hne. }
  destruct (decimal n) as [|x m] eqn:E; [done|]. destruct (exists_last H) as (p & y & E').
  exists x, m, p, y. rewrite Forall_forall in Hd. split_and!; [done|done|apply digit_ink, Hd; by constructor|].
  apply digit_ink, Hd. rewrite E'. apply elem_of_app. right. by constructor.
Qed.

Lemma Atoi_decimal n : 0 ≤ n < 2 ^ 63 → Atoi_signed (decimal n) = Some n.
Proof.
  intros Hn. pose proof (digits_decimal 19 n [] ltac:(cbn in *; lia)) as Hv. fold (decimal n) in Hv. cbn [digits_value] in Hv.
  pose proof (decimal_digit 20 n [] ltac:(lia) ltac:(constructor)) as Hd. fold (decimal n) in Hd.
  destruct (decimal_shape n ltac:(lia)) as (x & m & _ & _ & E & _). rewrite E in *. inv Hd.
  unfold Atoi_signed. assert (Atoi (x :: m) = Some n) as HA.
  { unfold Atoi. rewrite Hv. by rewrite (proj2 (Z.ltb_lt _ _)) by lia. }
  unfold is_digit, between in H1. apply andb_true_iff in H1 as [H1%Z.leb_le _].
  assert (x ≠ 43 ∧ x ≠ 45) as [? ?] by lia.
  destruct x as [|x|x]; [lia| |lia]. do 6 (destruct x as [x|x|]; try exact HA; try lia).
Qed.

Lemma parse_pid n : 1 < n < 2 ^ 63 → parseUpgradePID (decimal n ++ [10]) = Some n.
Proof.
  intros Hn. unfold parseUpgradePID. destruct (decimal_shape n ltac:(lia)) as (x & m & p & y & E & E' & Hx & Hy).
  rewrite E, (TrimSpace_line x m p y) by (congruence || done). rewrite <- E, Atoi_decimal by lia.
  by rewrite (proj2 (Z.leb_gt _ _)) by lia.
Qed.
