(* ===== verification/UpgradeWorld.v ===== *)
(** * The remote system of an upgrade
    (src/cmd/remote/upgrade_windows.go and src/cmd/remote/upgrade_linux.go)

    The files, the running shares and the relay's codes of the machine that is
    upgraded, and the two commands of the new binary that act on it,
    [upgrade-stage] and [upgrade-finalize], step by step.

    Every call of the operating system is given its [fate]: it works, fails, or
    the process that makes it is killed; before it, whatever else happens on the
    machine happens ([Event]). *)

From S2P Require Import Prelude GoNet GoText StunCandidates UpgradeFlags GuiUpgradeText.

Open Scope Z_scope.

(** ** State *)

Record upgradeCodeFile := mkCode { uc_Code : gostring; uc_Server : gostring }.

Record World := mkWorld {
  w_files : gmap gostring gostring;
  w_procs : gset Z;              (* the shares that run, by process id *)
  w_ended : gset Z;              (* those that ended by themselves *)
  w_relay : gmap gostring Z;     (* the share of a code *)
  w_conn : option Z              (* the share the helper is connected to *)
}.
#[export] Instance Eta_World : Eta World := fun r => mkWorld (w_files r) (w_procs r) (w_ended r) (w_relay r) (w_conn r).

(** The connection, as long as the share at its other end runs. *)
Definition linked (w : World) : option Z :=
  match w_conn w with Some p => if decide (p ∈ w_procs w) then Some p else None | None => None end.

Inductive Event :=
| EExits (pid : Z)
| ELost
| EWrites (path data : gostring)
| ERemoves (path : gostring)
| EQuarantines (path : gostring)    (* a virus scanner takes a file away *)
| EPublishes (pid : Z) (code : upgradeCodeFile) (paths : list gostring).  (* a share registers, and writes its code files *)

Inductive outcome := Works | Fails | Dies.
Record fate := mkFate { f_events : list Event; f_out : outcome; f_num : Z; f_text : gostring }.

(** Errors of the operating system. *)
Inductive oserr := NotExist (text : gostring) | OtherErr (text : gostring).
Definition os_text (e : oserr) : gostring := match e with NotExist t | OtherErr t => t end.

(** The name [os.CreateTemp] makes: the directory of a path, a prefix, what is
    drawn, and a suffix. *)
Definition temp_path (remoteOS beside prefix drawn suffix : gostring) : gostring :=
  let sep := if bool_decide (remoteOS = lit "windows") then backslash else 47 in
  let stem := trim_right (fun b => negb (is_separator b)) beside in
  let dir := cleanPath remoteOS stem in
  (if has_suffix [sep] dir then dir else dir ++ [sep]) ++ prefix ++ drawn ++ suffix.

(** What [read_file] gives of a file when asked for 64 KiB of it. *)
Definition clip (data : gostring) : gostring := take (Z.to_nat 65536) data.
#[global] Arguments clip : simpl never.

Section world.
Context (remoteOS candidate : gostring).
(** The JSON of a code file, written by the share and read by the helper's GUI. *)
Context (code_json : upgradeCodeFile → gostring).

Definition apply_event (e : Event) (w : World) : World :=
  match e with
  | EExits pid =>
      if decide (pid ∈ w_procs w) then w <| w_procs := w_procs w ∖ {[pid]} |> <| w_ended := w_ended w ∪ {[pid]} |> else w
  | ELost => w <| w_conn := None |>
  | EWrites path data => w <| w_files := <[path := data]> (w_files w) |>
  | ERemoves path => w <| w_files := delete path (w_files w) |>
  | EQuarantines path =>
      if decide (w_files w !! path = Some candidate) then w <| w_files := delete path (w_files w) |> else w
  | EPublishes pid code paths =>
      if decide (pid ∈ w_procs w ∧ default pid (w_relay w !! uc_Code code) = pid) then
        w <| w_relay := <[uc_Code code := pid]> (w_relay w) |>
          <| w_files := foldr (fun path => <[path := code_json code]>) (w_files w) paths |>
      else w
  end.
Definition apply_events (l : list Event) (w : World) : World := fold_left (fun w e => apply_event e w) l w.

(** ** Actions: [None] when the process that acts was killed *)

Definition act (A : Type) : Type := list fate → World → option A * list fate * World.

Definition ret {A} (a : A) : act A := fun fs w => (Some a, fs, w).
Definition bind {A B} (m : act A) (k : A → act B) : act B :=
  fun fs w => match m fs w with
              | (Some a, fs, w) => k a fs w
              | (None, fs, w) => (None, fs, w)
              end.

Notation "x <- m ;; k" := (bind m (fun x => k)) (at level 98, m at next level, right associativity).
Notation "m1 ;;; m2" := (bind m1 (fun _ => m2)) (at level 98, right associativity).

(** A system call: what it does when it works, and what it has done when it fails. *)
Definition syscall {A} (works : fate → World → result oserr A * World) (fails : fate → World → World) : act (result oserr A) :=
  fun fs w =>
    let '(f, fs) := match fs with f :: fs => (f, fs) | [] => (mkFate [] Works 0 [], []) end in
    let w := apply_events (f_events f) w in
    match f_out f with
    | Works => let '(r, w) := works f w in (Some r, fs, w)
    | Fails => (Some (Err (OtherErr (f_text f))), fs, fails f w)
    | Dies => (None, fs, w)
    end.
Definition simple_call {A} (works : World → result oserr A * World) : act (result oserr A) := syscall (fun _ => works) (fun _ w => w).

Definition no_file {A} (path : gostring) : result oserr A := Err (NotExist (path ++ lit ": file does not exist")).

(** A call that only answers. *)
Definition os_ok : act (result oserr ()) := simple_call (fun w => (Ok (), w)).
Definition os_Stat (path : gostring) : act (result oserr ()) :=
  simple_call (fun w => (match w_files w !! path with Some _ => Ok () | None => no_file path end, w)).
Definition os_ReadFile (path : gostring) : act (result oserr gostring) :=
  simple_call (fun w => (match w_files w !! path with Some data => Ok data | None => no_file path end, w)).
Definition os_Remove (path : gostring) : act (result oserr ()) :=
  simple_call (fun w => match w_files w !! path with
                        | Some _ => (Ok (), w <| w_files := delete path (w_files w) |>)
                        | None => (no_file path, w)
                        end).
Definition os_Rename (from to : gostring) : act (result oserr ()) :=
  simple_call (fun w => match w_files w !! from with
                        | Some data => (Ok (), w <| w_files := <[to := data]> (delete from (w_files w)) |>)
                        | None => (no_file from, w)
                        end).
(** A file is created or made empty. *)
Definition os_Create (path : gostring) : act (result oserr ()) :=
  simple_call (fun w => (Ok (), w <| w_files := <[path := []]> (w_files w) |>)).
(** The name is one no file has. *)
Definition os_CreateTemp (beside prefix suffix : gostring) : act (result oserr gostring) :=
  syscall (fun f w => let path := temp_path remoteOS beside prefix (f_text f) suffix in
                      match w_files w !! path with
                      | Some _ => (Err (OtherErr (lit "exists")), w)
                      | None => (Ok path, w <| w_files := <[path := []]> (w_files w) |>)
                      end) (fun _ w => w).
(** Writing may stop in the middle. *)
Definition os_Write (path data : gostring) : act (result oserr ()) :=
  syscall (fun _ w => (Ok (), w <| w_files := <[path := data]> (w_files w) |>))
          (fun f w => w <| w_files := <[path := take (Z.to_nat (f_num f)) data]> (w_files w) |>).
(** The process id is one that is not in use. *)
Definition os_Start (path : gostring) : act (result oserr Z) :=
  syscall (fun f w => match w_files w !! path with
                      | None => (no_file path, w)
                      | Some _ =>
                          if decide (f_num f ≤ 1 ∨ 2 ^ 31 ≤ f_num f ∨ f_num f ∈ w_procs w ∪ w_ended w) then (Err (OtherErr (lit "no process")), w)
                          else (Ok (f_num f), w <| w_procs := w_procs w ∪ {[f_num f]} |>)
                      end) (fun _ w => w).
(** A process may end although the call reports an error. *)
Definition os_Kill (pid : Z) : act (result oserr ()) :=
  let killed w := w <| w_procs := w_procs w ∖ {[pid]} |> in
  syscall (fun _ w => (Ok (), killed w)) (fun f w => if f_num f =? 1 then killed w else w).

(** [if err != nil { return fmt.Errorf(what + ": %w", err) }] *)
Definition checked {A B} (m : act (result oserr A)) (what : gostring) (k : A → act (result gostring B)) : act (result gostring B) :=
  bind m (fun r => match r with
                   | Ok a => k a
                   | Err e => ret (Err ((if bool_decide (what = []) then [] else what ++ lit ": ") ++ os_text e))
                   end).
Notation "x <-- m 'or' what ;; k" := (checked m what (fun x => k)) (at level 98, m at next level, what at next level, right associativity).

Definition writeFileAtomic (path data : gostring) : act (result gostring ()) :=
  _ <-- os_ok or [] ;; (* MkdirAll *)
  tmp <-- os_CreateTemp path (lit ".upgrade-write-") [] or [] ;;
  r <- (_ <-- (if bool_decide (remoteOS = lit "windows") then ret (Ok ()) else os_ok) or [] ;; (* Chmod *)
        _ <-- os_Write tmp data or [] ;;
        _ <-- os_ok or [] ;; (* Close *)
        _ <-- os_Rename tmp path or [] ;;
        ret (Ok ())) ;;
  os_Remove tmp ;;; ret r.

(** ** upgrade_windows.go *)

Record StageArgs := mkStageArgs {
  sa_oldPID : Z;
  sa_home : gostring;
  sa_codeFile : gostring;
  sa_pidFile : gostring;
  sa_logFile : gostring;
  sa_server : gostring;
  sa_target : gostring;
  sa_backup : gostring;
  sa_oldArgv : list gostring
}.

Definition upgrade_error_text (e : UpgradeError) : gostring :=
  match e with
  | InvalidValue name v => lit "invalid value for " ++ name ++ lit ": " ++ v
  | StandaloneNoAuth => lit "standalone/no-auth share cannot use make-before-break upgrade"
  | MissingValue name => name ++ lit " is missing its value"
  | EmptyCommandLine => lit "old process command line is empty"
  | NotShareMode => lit "old process is not in share mode"
  | EmptyServer => lit "effective relay server is empty"
  end.

Definition copyExecutableBeside (source target : gostring) : act (result gostring gostring) :=
  data <-- os_ReadFile source or lit "open candidate" ;;
  path <-- os_CreateTemp target (lit ".remote-assist-new-") (lit ".exe") or lit "create candidate beside target" ;;
  r <- (_ <-- os_Write path data or lit "copy candidate beside target" ;;
        _ <-- os_ok or lit "sync candidate" ;;
        _ <-- os_ok or [] ;; (* Close *)
        ret (Ok path)) ;;
  match r with
  | Ok path => ret (Ok path)
  | Err e => os_Remove path ;;; ret (Err e)
  end.

Definition rollbackInstalledCandidate (target backup : gostring) : act (result gostring ()) :=
  r <- os_Remove target ;;
  match r with
  | Err (OtherErr e) => ret (Err e)
  | _ => _ <-- os_Rename backup target or [] ;; ret (Ok ())
  end.

(** What the deferred calls of the stage look at: the result, [keepAdjacent] and
    [restoreOld]. *)
Definition stage_end : Type := result gostring () * bool * bool.

Definition give_back (what e target backup : gostring) : act stage_end :=
  r <- rollbackInstalledCandidate target backup ;;
  match r with
  | Err rollback => ret (Err (what ++ lit ": " ++ e ++ lit "; restore old executable: " ++ rollback), true, true)
  | Ok _ => ret (Err (what ++ lit ": " ++ e), true, false)
  end.

(** The candidate is put in place and started. *)
Definition stage_placed (a : StageArgs) (adjacent : gostring) : act stage_end :=
  r <- os_Rename adjacent (sa_target a) ;;
  match r with
  | Err e => ret (Err (lit "place candidate at original path: " ++ os_text e), false, true)
  | Ok _ =>
      r <- os_Create (sa_logFile a) ;;
      match r with
      | Err e => give_back (lit "open log") (os_text e) (sa_target a) (sa_backup a)
      | Ok _ =>
          r <- os_Start (sa_target a) ;;
          match r with
          | Err e => give_back (lit "start new share") (os_text e) (sa_target a) (sa_backup a)
          | Ok pid =>
              r <- writeFileAtomic (sa_pidFile a) (decimal pid ++ [10]) ;;
              match r with
              | Err e =>
                  os_Kill pid ;;;
                  give_back (lit "write pid file") e (sa_target a) (sa_backup a)
              | Ok _ => ret (Ok (), true, false)
              end
          end
      end
  end.

Definition stage_windows (self : gostring) (a : StageArgs) : act (result gostring ()) :=
  if (sa_oldPID a <=? 1) || bool_decide ([] ∈ [sa_home a; sa_codeFile a; sa_pidFile a; sa_logFile a; sa_target a; sa_backup a])
  then ret (Err (lit "old-pid, home, code-file, pid-file, log-file, target and backup are required"))
  else if bool_decide (sa_oldArgv a = []) then ret (Err (lit "old share argv is required after --"))
  else
    match upgradedShareArgs (sa_oldArgv a) (sa_server a) (sa_codeFile a) with
    | Err e => ret (Err (upgrade_error_text e))
    | Ok _ =>
        _ <-- os_ok or lit "create isolated user profile" ;;
        _ <-- os_ok or lit "create upgrade directory" ;;
        r <- os_Stat (sa_backup a) ;;
        match r with
        | Ok _ => ret (Err (lit "backup path already exists: " ++ sa_backup a))
        | Err (OtherErr e) => ret (Err (lit "check backup path: " ++ e))
        | Err (NotExist _) =>
            _ <-- os_ok or [] ;; (* os.Executable *)
            r <- copyExecutableBeside self (sa_target a) ;;
            match r with
            | Err e => ret (Err e)
            | Ok adjacent =>
                r <- os_Rename (sa_target a) (sa_backup a) ;;
                match r with
                | Err e => os_Remove adjacent ;;; ret (Err (lit "rename running old executable to backup: " ++ os_text e))
                | Ok _ =>
                    e <- stage_placed a adjacent ;;
                    let '(r, keepAdjacent, restoreOld) := e in
                    (if restoreOld : bool then os_Rename (sa_backup a) (sa_target a) ;;; ret () else ret ()) ;;;
                    (if keepAdjacent : bool then ret () else os_Remove adjacent ;;; ret ()) ;;;
                    ret r
                end
            end
        end
    end.

(** A process that cannot be opened because it is not there is no error. *)
Definition terminateProcessAndWait (pid : Z) : act (result oserr ()) :=
  fun fs w => if decide (pid ∈ w_procs w) then os_Kill pid fs w else ret (Ok ()) fs w.

(** The retries, as many as the oracle is asked for. *)
Fixpoint removeWithRetry (tries : nat) (path : gostring) : act (result gostring ()) :=
  r <- os_Remove path ;;
  match r with
  | Ok _ | Err (NotExist _) => ret (Ok ())
  | Err (OtherErr e) => match tries with O => ret (Err e) | S tries => removeWithRetry tries path end
  end.

Definition finalize_commit (oldPID : Z) (backup : gostring) : act (result gostring ()) :=
  if (oldPID <=? 1) || bool_decide (backup = []) then ret (Err (lit "old-pid and backup are required for commit"))
  else
    _ <-- terminateProcessAndWait oldPID or lit "terminate old share" ;;
    (* every 100 ms for five seconds *)
    r <- removeWithRetry 50 backup ;;
    match r with Ok _ => ret (Ok ()) | Err e => ret (Err (lit "remove old executable backup: " ++ e)) end.

(** Moving the backup back. *)
Definition rollback_restore (target backup failed : gostring) (movedAside : bool) : act (result gostring ()) :=
  r <- os_Rename backup target ;;
  match r with
  | Err e =>
      (if movedAside then os_Rename failed target ;;; ret () else ret ()) ;;;
      ret (Err (lit "restore old executable: " ++ os_text e))
  | Ok _ => os_Remove failed ;;; ret (Ok ())
  end.

Definition finalize_rollback (oldPID newPID : Z) (pidFile target backup failed : gostring) : act (result gostring ()) :=
  if bool_decide ([] ∈ [target; backup; failed]) then ret (Err (lit "target, backup and failed are required for rollback"))
  else
    pid <- (if (newPID <=? 1) && bool_decide (pidFile ≠ []) then
              r <- os_ReadFile pidFile ;;
              ret (match r with Ok raw => default 0 (Atoi_signed (TrimSpace raw)) | Err _ => newPID end)
            else ret newPID) ;;
    (if (1 <? pid) && negb (pid =? oldPID) then terminateProcessAndWait pid ;;; ret () else ret ()) ;;;
    r <- os_Stat backup ;;
    match r with
    | Err (NotExist _) => ret (Ok ())
    | Err (OtherErr e) => ret (Err (lit "check old executable backup: " ++ e))
    | Ok _ =>
        os_Remove failed ;;;
        r <- os_Stat target ;;
        match r with
        | Ok _ =>
            r <- os_Rename target failed ;;
            match r with
            | Err e => ret (Err (lit "move failed candidate aside: " ++ os_text e))
            | Ok _ => rollback_restore target backup failed true
            end
        | Err (OtherErr e) => ret (Err (lit "check failed candidate: " ++ e))
        | Err (NotExist _) => rollback_restore target backup failed false
        end
    end.

(** ** upgrade_linux.go *)

Definition stage_linux (self : gostring) (cmdline : option gostring) (a : StageArgs) : act (result gostring ()) :=
  if (sa_oldPID a <=? 1) || bool_decide ([] ∈ [sa_home a; sa_codeFile a; sa_pidFile a; sa_logFile a])
  then ret (Err (lit "old-pid, home, code-file, pid-file and log-file are required"))
  else
    raw <-- simple_call (fun w => (match cmdline with Some l => Ok l | None => no_file (lit "cmdline") end, w)) or lit "read old command line" ;;
    match upgradedShareArgs (cmdline_argv raw) (sa_server a) (sa_codeFile a) with
    | Err e => ret (Err (upgrade_error_text e))
    | Ok _ =>
        _ <-- os_ok or lit "create isolated HOME" ;;
        _ <-- os_ok or lit "create upgrade directory" ;;
        _ <-- os_Create (sa_logFile a) or lit "open log" ;;
        _ <-- os_ok or [] ;; (* os.Executable *)
        pid <-- os_Start self or lit "start new share" ;;
        r <- writeFileAtomic (sa_pidFile a) (decimal pid ++ [10]) ;;
        match r with
        | Err e => os_Kill pid ;;; ret (Err (lit "write pid file: " ++ e))
        | Ok _ => _ <-- os_ok or [] ;; ret (Ok ()) (* logOut.Close *)
        end
    end.

Definition replaceExecutable (source target : gostring) : act (result gostring ()) :=
  data <-- os_ReadFile source or lit "open source" ;;
  os_Stat target ;;; (* the mode of the old file *)
  tmp <-- os_CreateTemp target (lit ".remote-assist-replace-") [] or lit "create replacement beside target" ;;
  r <- (_ <-- os_Write tmp data or lit "copy replacement" ;;
        _ <-- os_ok or lit "preserve executable mode" ;;
        _ <-- os_ok or lit "sync replacement" ;;
        _ <-- os_ok or [] ;; (* Close *)
        _ <-- os_Rename tmp target or lit "atomic replace" ;;
        (if bool_decide (path_Clean source ≠ path_Clean target) then os_Remove source ;;; ret () else ret ()) ;;;
        ret (Ok ())) ;;
  match r with
  | Ok _ => ret (Ok ())
  | Err e => os_Remove tmp ;;; ret (Err e)
  end.

Definition finalize_linux (source target : gostring) : act (result gostring ()) :=
  if bool_decide (source = []) || bool_decide (target = []) then ret (Err (lit "source and target are required"))
  else replaceExecutable source target.

End world.
