(* ===== verification/GuiUpgrade.v ===== *)
(** * The upgrade of a share through the channel it serves
    (src/internal/gui/upgrade.go)

    [handleUpgrade] uploads a new binary, starts it beside the old share, connects
    to it, checks it, and only then ends the old share.  It works on the remote
    system of [UpgradeWorld] through a connection that can be lost at any call,
    before or after the call has done its work. *)

From S2P Require Import Prelude GoNet GoText UpgradeFlags GuiUpgradeText UpgradeWorld.

Open Scope Z_scope.

Notation "x <- m ;; k" := (bind m (fun x => k)) (at level 98, m at next level, right associativity).
Notation "m1 ;;; m2" := (bind m1 (fun _ => m2)) (at level 98, right associativity).

(** What the GUI remembers of its connection. *)
Record Gui := mkGui {
  g_connected : bool;
  g_upgrading : bool;
  g_lastCode : gostring;
  g_lastServer : gostring;
  g_lastNoAuth : bool;
  g_lastMinProto : gostring;
  g_peerVersion : gostring;
  g_peerHost : gostring;
  g_effectiveSrv : gostring;
  g_defaultServer : gostring
}.
#[export] Instance Eta_Gui : Eta Gui := fun r => mkGui (g_connected r) (g_upgrading r) (g_lastCode r) (g_lastServer r)
  (g_lastNoAuth r) (g_lastMinProto r) (g_peerVersion r) (g_peerHost r) (g_effectiveSrv r) (g_defaultServer r).

Record connectMetadata := mkMeta { cm_PeerVersion : gostring; cm_PeerHost : gostring; cm_Server : gostring }.

Definition recordConnectMetadata (meta : connectMetadata) (code server : gostring) (noAuth : bool) (minProto : gostring) (g : Gui) : Gui :=
  g <| g_lastCode := code |> <| g_lastServer := server |> <| g_lastNoAuth := noAuth |> <| g_lastMinProto := minProto |>
    <| g_peerVersion := cm_PeerVersion meta |> <| g_peerHost := cm_PeerHost meta |> <| g_effectiveSrv := cm_Server meta |>.

Definition markConnectionLost (g : Gui) : Gui :=
  g <| g_connected := false |> <| g_peerVersion := [] |> <| g_peerHost := [] |> <| g_effectiveSrv := [] |>.

Inductive response :=
| Bad (status : Z) (error : gostring)
| NotNeeded (current candidate : gostring)
| Done (current new peer replaced : gostring) (warning : option gostring).

Definition is_done (r : response) : bool := match r with Done _ _ _ _ _ => true | _ => false end.
Definition error_text (r : response) : gostring := match r with Bad _ e => e | _ => [] end.

Record connectRequest := mkConnectRequest { ca_no_auth : bool; ca_code : option gostring; ca_server : option gostring; ca_min_proto : option gostring }.

Definition connectToolArgs (code server : gostring) (noAuth : bool) (minProto : gostring) : connectRequest :=
  mkConnectRequest noAuth (if noAuth then None else Some code) (if bool_decide (server ≠ []) then Some server else None)
    (if bool_decide (minProto ≠ []) then Some minProto else None).

(** The files of an upgrade. *)
Section names.
Context (probe : remoteProcessProbe) (id : gostring).
Definition up_dir : gostring := remoteJoin (pb_OS probe) (upgradeStageParent probe) [lit ".remote-assist-upgrade-" ++ id].
Definition up_binary : gostring :=
  remoteJoin (pb_OS probe) up_dir [if bool_decide (pb_OS probe = lit "windows") then lit "remote-assist-new.exe" else lit "remote-assist-new"].
Definition up_code : gostring := remoteJoin (pb_OS probe) up_dir [lit "code.json"].
Definition up_pid : gostring := remoteJoin (pb_OS probe) up_dir [lit "new.pid"].
Definition up_log : gostring := remoteJoin (pb_OS probe) up_dir [lit "new.log"].
Definition up_home : gostring := remoteJoin (pb_OS probe) up_dir [lit "home"].
Definition up_backup : gostring := pb_Exe probe ++ lit ".old-" ++ id.
Definition up_failed : gostring := pb_Exe probe ++ lit ".failed-" ++ id.
End names.

(** Files below a directory. *)
Definition below (remoteOS dir path : gostring) : bool :=
  has_prefix (dir ++ [if bool_decide (remoteOS = lit "windows") then backslash else 47]) path.

Record remoteExecResult := mkExec { er_ExitCode : Z; er_Stdout : gostring; er_Stderr : gostring; er_Error : gostring }.

Section upgrade.
(** The binary that is uploaded, the code files of its shares and how they are
    read, what a binary prints for its version, and what the probe of a system
    prints ([None]: it cannot be run). *)
Context (candidate : gostring).
Context (code_json : upgradeCodeFile → gostring) (unmarshal_code : gostring → option upgradeCodeFile).
Context (version_output : gostring → option gostring).
Context (probe_output : gostring → option gostring) (unmarshal_report : gostring → option WindowsReport).

Local Notation syscall := (syscall candidate code_json).
Local Notation apply_events := (apply_events candidate code_json).
Local Notation os_ok := (os_ok candidate code_json).
Local Notation os_ReadFile := (os_ReadFile candidate code_json).
Local Notation os_Write := (os_Write candidate code_json).

(** ** Calls through the connection *)

Definition pop (fs : list fate) : fate * list fate := match fs with f :: fs => (f, fs) | [] => (mkFate [] Works 0 [], []) end.

Definition lost_text : gostring := lit "tunnel_lost".

(** The call is lost with the connection before or after the body has run, or
    fails on the side of the caller; a body whose process is killed fails. *)
Definition remote_call {A} (body : act (result gostring A)) : act (result gostring A) := fun fs w =>
  let '(f, fs) := pop fs in
  let w := apply_events (f_events f) w in
  match f_out f with
  | Dies => (None, fs, w)
  | Fails => (Some (Err (f_text f)), fs, w)
  | Works =>
      match linked w with
      | None => (Some (Err lost_text), fs, w)
      | Some _ =>
          let '(r, fs, w) := body fs w in
          let '(f, fs) := pop fs in
          let w := apply_events (f_events f) w in
          match f_out f, linked w, r with
          | Dies, _, _ => (None, fs, w)
          | _, None, _ => (Some (Err lost_text), fs, w)
          | Fails, _, _ | _, _, None => (Some (Err (f_text f)), fs, w)
          | Works, _, Some r => (Some r, fs, w)
          end
      end
  end.

(** A command of the system, as a body. *)
Definition as_text {A} (m : act (result oserr A)) : act (result gostring A) :=
  r <- m ;; ret (match r with Ok a => Ok a | Err e => Err (os_text e) end).

(** ** [exec] *)

Definition command_result (r : result gostring gostring) : remoteExecResult :=
  match r with Ok out => mkExec 0 out [] [] | Err e => mkExec 1 [] e [] end.

Definition execRemoteTimeout (command : act (result gostring gostring)) : act (result gostring remoteExecResult) :=
  r <- remote_call (r <- command ;; ret (Ok (command_result r))) ;;
  ret (match r with
       | Err e => Err e
       | Ok res =>
           if er_ExitCode res =? 0 then Ok res
           else
             let detail := TrimSpace (er_Error res) in
             let detail := if bool_decide (detail = []) then TrimSpace (er_Stderr res) else detail in
             Err (if bool_decide (detail = []) then lit "exit code " ++ decimal (er_ExitCode res) else detail)
       end).
Definition execRemote := execRemoteTimeout.

(** Commands that print nothing. *)
Definition silent {A} (m : act (result gostring A)) : act (result gostring gostring) :=
  r <- m ;; ret (match r with Ok _ => Ok [] | Err e => Err e end).

Definition run_version (path : gostring) : act (result gostring gostring) :=
  r <- os_ReadFile path ;;
  ret (match r with
       | Ok image => match version_output image with Some out => Ok out | None => Err (lit "cannot run") end
       | Err e => Err (os_text e)
       end).

Definition run_probe (remoteOS : gostring) : act (result gostring gostring) :=
  r <- os_ok ;;
  ret (match r, probe_output remoteOS with Ok _, Some out => Ok out | Ok _, None => Err (lit "cannot run") | Err e, _ => Err (os_text e) end).

Definition run_kill (pid : Z) : act (result gostring gostring) := fun fs w =>
  if decide (pid ∈ w_procs w) then silent (as_text (os_Kill candidate code_json pid)) fs w
  else silent (A:=()) (r <- os_ok ;; ret (Err (lit "No such process"))) fs w.

Definition run_remove_all (remoteOS dir : gostring) : act (result gostring gostring) :=
  let removed w := w <| w_files := filter (fun p => below remoteOS dir p.1 = false) (w_files w) |> in
  silent (as_text (syscall (fun _ w => (Ok (), removed w)) (fun f w => if f_num f =? 1 then removed w else w))).

(** ** The other tools *)

Definition readRemoteText (path : gostring) : act (result gostring gostring) :=
  r <- remote_call (as_text (os_ReadFile path)) ;;
  ret (match r with
       | Err e => Err e
       | Ok data => let text := clip data in if bool_decide (text = []) then Err (lit "remote file is empty or not text") else Ok text
       end).

Definition writeRemoteFile (path data : gostring) : act (result gostring ()) := remote_call (as_text (os_Write path data)).

Definition upload_file (path : gostring) : act (result gostring ()) := remote_call (as_text (os_Write path candidate)).

(** The [connect] tool leaves the connection it had, unless it refuses its
    arguments; a share answers for its code, and reports its version. *)
Definition reconnectPeer (a : connectRequest) : act (result gostring connectMetadata) := fun fs w =>
  let '(f, fs) := pop fs in
  let w := apply_events (f_events f) w in
  match f_out f with
  | Dies => (None, fs, w)
  | Fails => (Some (Err (f_text f)), fs, if f_num f =? 1 then w else w <| w_conn := None |>)
  | Works =>
      let peer := match ca_code a with Some code => w_relay w !! code | None => None end in
      match peer with
      | Some p =>
          if decide (p ∈ w_procs w) then (Some (Ok (mkMeta (f_text f) [] (default [] (ca_server a)))), fs, w <| w_conn := Some p |>)
          else (Some (Err (lit "peer_gone")), fs, w <| w_conn := None |>)
      | None => (Some (Err (lit "invalid code")), fs, w <| w_conn := None |>)
      end
  end.

(** ** Probing *)

Definition with_version (probe : remoteProcessProbe) : act remoteProcessProbe :=
  if bool_decide (pb_Version probe = []) then
    r <- execRemote (run_version (pb_Exe probe)) ;;
    ret (match r with
         | Ok res => mkProbe (pb_PID probe) (pb_Exe probe) (pb_CWD probe) (pb_OS probe) (pb_Arch probe) (extractVersion (er_Stdout res))
                       (pb_Argv probe) (pb_StageRoot probe) (pb_RootExplicit probe) (pb_TempDir probe)
         | Err _ => probe
         end)
  else ret probe.

Definition read_probe (remoteOS stdout fallbackVersion : gostring) : option remoteProcessProbe :=
  if bool_decide (remoteOS = lit "windows") then
    match unmarshal_report (TrimSpace stdout) with
    | Some raw => match windowsProbeResult raw fallbackVersion with Ok probe => Some probe | Err _ => None end
    | None => None
    end
  else match parseLinuxProbeOutput stdout fallbackVersion with Ok probe => Some probe | Err _ => None end.

(** [probeLinuxShare] and [probeWindowsShare]. *)
Definition probeShare (remoteOS fallbackVersion : gostring) : act (option remoteProcessProbe) :=
  r <- execRemote (run_probe remoteOS) ;;
  match r with
  | Err _ => ret None
  | Ok res =>
      match read_probe remoteOS (er_Stdout res) fallbackVersion with
      | Some probe => p <- with_version probe ;; ret (Some p)
      | None => ret None
      end
  end.

Fixpoint probe_each (oses : list gostring) (fallbackVersion : gostring) : act (option remoteProcessProbe) :=
  match oses with
  | [] => ret None
  | remoteOS :: oses =>
      r <- probeShare remoteOS fallbackVersion ;;
      match r with Some probe => ret (Some probe) | None => probe_each oses fallbackVersion end
  end.
Definition probeRemoteShare (fallbackVersion peerHost : gostring) : act (option remoteProcessProbe) :=
  probe_each (probeOrder peerHost) fallbackVersion.

(** ** Waiting for the new share *)

(** The code and the process id, or the error and the process id seen last. *)
Fixpoint wait_polls (polls : nat) (codePath pidPath : gostring) (observedPID : Z) : act (result (gostring * Z) (upgradeCodeFile * Z)) :=
  codeRaw <- readRemoteText codePath ;;
  pidRaw <- readRemoteText pidPath ;;
  let observedPID := match pidRaw with Ok raw => default observedPID (parseUpgradePID raw) | Err _ => observedPID end in
  let complete :=
    match codeRaw, pidRaw with
    | Ok raw, Ok _ =>
        match unmarshal_code raw with
        | Some code => if bool_decide (uc_Code code ≠ []) && bool_decide (uc_Server code ≠ []) && (1 <? observedPID) then Some code else None
        | None => None
        end
    | _, _ => None
    end in
  let lastErr := match codeRaw, pidRaw with Ok _, Ok _ => lit "upgrade files are not complete yet" | Err e, _ => e | _, Err e => e end in
  let timeout := lit "new share did not publish its code: context deadline exceeded (last error: " ++ lastErr ++ lit ")" in
  match complete with
  | Some code => ret (Ok (code, observedPID))
  | None =>
      r <- os_ok ;; (* the ticker, or the end of the context *)
      match r, polls with
      | Ok _, S polls => wait_polls polls codePath pidPath observedPID
      | _, _ => ret (Err (timeout, observedPID))
      end
  end.
(** 45 seconds, every half second. *)
Definition waitForUpgradeFiles (codePath pidPath : gostring) := wait_polls 90 codePath pidPath 0.

(** ** The upgrade *)

(** What the deferred calls look at as well: [staged] and [committed]. *)
Definition upgrade_outcome : Type := response * Gui * bool * bool.

Section transaction.
(** The old share: its probe, and how the GUI was connected to it. *)
Context (probe : remoteProcessProbe) (id : gostring).
Context (oldCode oldServer : gostring) (oldNoAuth : bool) (oldMinProto : gostring) (effectiveServer : gostring).

Let windows : bool := bool_decide (pb_OS probe = lit "windows").
Let backupPath : gostring := up_backup probe id.
Let codePath : gostring := up_code probe id.

(** A command of the candidate needs its binary. *)
Definition run_candidate {A} (m : act (result gostring A)) : act (result gostring gostring) :=
  r <- os_ReadFile (up_binary probe id) ;;
  match r with
  | Ok image => if bool_decide (image = candidate) then silent m else ret (Err (lit "cannot run"))
  | Err e => ret (Err (os_text e))
  end.

Definition rollbackWindowsUpgrade (newPID : Z) : act (result gostring ()) :=
  r <- execRemote (run_candidate (finalize_rollback candidate code_json (pb_PID probe) newPID (up_pid probe id) (pb_Exe probe) backupPath (up_failed probe id))) ;;
  ret (match r with Ok _ => Ok () | Err e => Err e end).

Definition hint (code : gostring) : gostring := windowsUpgradeRecoveryHint probe backupPath code.

Definition reconnect_old : act (result gostring connectMetadata) := reconnectPeer (connectToolArgs oldCode oldServer oldNoAuth oldMinProto).

Definition stage_args : StageArgs :=
  mkStageArgs (pb_PID probe) (up_home probe id) codePath (up_pid probe id) (up_log probe id) effectiveServer (pb_Exe probe) backupPath (pb_Argv probe).

(** On Linux the command line is read again from /proc. *)
Definition run_stage (cmdline : option gostring) : act (result gostring gostring) :=
  run_candidate (if windows then stage_windows (pb_OS probe) candidate code_json (up_binary probe id) stage_args
                 else stage_linux (pb_OS probe) candidate code_json (up_binary probe id) cmdline stage_args).

(** The stage reported an error. *)
Definition stage_failed (g : Gui) (err : gostring) : act upgrade_outcome :=
  let msg := lit "启动新 share 失败，old 通道仍保留: " ++ err in
  if upgradeTransportLost err then
    let msg := lit "启动新 share 时与 old 通道失联，远端状态未知: " ++ err in
    let msg := if windows then msg ++ hint codePath else msg in
    ret (Bad 502 msg, markConnectionLost g, false, false)
  else if windows then
    r <- rollbackWindowsUpgrade 0 ;;
    ret (match r with
         | Err rollbackErr =>
             (Bad 502 (msg ++ lit "；恢复旧文件失败: " ++ rollbackErr ++ hint []),
              (if upgradeTransportLost rollbackErr then markConnectionLost g else g), false, false)
         | Ok _ =>
             (Bad 502 (if contains (lit "deadline_exceeded") err
                       then msg ++ lit "；原文件已恢复，但远端可能残留一个候选 share 进程（" ++ up_binary probe id ++ lit "），如有请手动结束"
                       else msg), g, false, false)
         end)
  else ret (Bad 502 msg, g, false, false).

(** The new share did not publish its code. *)
Definition wait_failed (g : Gui) (err : gostring) (newPID : Z) : act upgrade_outcome :=
  let msg := err ++ lit "；old 通道仍保留，可查看 " ++ up_log probe id in
  if windows then
    r <- rollbackWindowsUpgrade newPID ;;
    ret (match r with
         | Err rollbackErr =>
             let lost := upgradeTransportLost rollbackErr in
             let msg := if lost then err ++ lit "；old 通道已失联，可在远端查看 " ++ up_log probe id else msg in
             (Bad 502 (msg ++ lit "；恢复旧文件失败: " ++ rollbackErr ++ hint (if lost then codePath else [])),
              (if lost then markConnectionLost g else g), true, false)
         | Ok _ => (Bad 502 msg, g, true, false)
         end)
  else if 1 <? newPID then
    r <- execRemote (run_kill newPID) ;;
    ret (Bad 502 (match r with Err e => msg ++ lit "；终止候选 share 失败: " ++ e | Ok _ => msg end), g, true, false)
  else ret (Bad 502 msg, g, true, false).

(** What is said of a failed return to the old share. *)
Definition after_return {A} (g : Gui) (msg reconnectWhat cleanupWhat : gostring) (reconnected : result gostring A) (cleanup : result gostring ()) : upgrade_outcome :=
  let msg := match reconnected, cleanup with
             | Err e, _ => msg ++ reconnectWhat ++ e
             | Ok _, Err e => msg ++ cleanupWhat ++ e
             | Ok _, Ok _ => msg
             end in
  let failed := negb (is_ok reconnected && is_ok cleanup) in
  (Bad 502 (if windows && failed then msg ++ hint [] else msg), (if is_ok reconnected then g else markConnectionLost g), true, false).

(** The new share does not answer. *)
Definition connect_failed (g : Gui) (err : gostring) (newPID : Z) : act upgrade_outcome :=
  reconnected <- reconnect_old ;;
  cleanup <- match reconnected with
             | Ok _ =>
                 if windows then rollbackWindowsUpgrade newPID
                 else r <- execRemote (run_kill newPID) ;; ret (match r with Ok _ => Ok () | Err e => Err e end)
             | Err _ => ret (Ok ())
             end ;;
  ret (after_return g (lit "连接新 share 失败，已保留 old share: " ++ err) (lit "；自动回连 old 也失败: ") (lit "；清理候选 share 失败: ") reconnected cleanup).

(** It answers with another version. *)
Definition version_differs (g : Gui) (candidateVersion peerVersion : gostring) (newPID : Z) : act upgrade_outcome :=
  let msg := lit "新通道版本校验失败：期望 " ++ candidateVersion ++ lit "，实际 " ++ peerVersion in
  if windows then
    reconnected <- reconnect_old ;;
    cleanup <- match reconnected with Ok _ => rollbackWindowsUpgrade newPID | Err _ => ret (Ok ()) end ;;
    ret (after_return g msg (lit "；自动回连 old 失败: ") (lit "；恢复旧文件失败: ") reconnected cleanup)
  else
    execRemote (run_kill newPID) ;;;
    reconnected <- reconnect_old ;;
    ret (after_return g msg (lit "；自动回连 old 失败: ") [] reconnected (Ok ())).

Definition committed_end (g : Gui) (meta : connectMetadata) (newCode : upgradeCodeFile) (candidateVersion : gostring) (killErr : option gostring) : upgrade_outcome :=
  let g := recordConnectMetadata meta (uc_Code newCode) (uc_Server newCode) false [] (g <| g_connected := true |>) in
  let warning :=
    match killErr with
    | Some e => Some (lit "新通道已接管且文件已替换，但终止 old PID 失败: " ++ e ++
                      (if windows then lit "；旧文件备份 " ++ backupPath ++ lit " 可能未删除，确认 old 已退出后可手动删除" else []))
    | None => None
    end in
  (Done (pb_Version probe) candidateVersion (cm_PeerVersion meta) (pb_Exe probe) warning, g <| g_upgrading := false |>, true, true).

Definition error_of {A} (r : result gostring A) : option gostring := match r with Ok _ => None | Err e => Some e end.

(** The new share is connected and checked. *)
Definition commit (g : Gui) (meta : connectMetadata) (newCode : upgradeCodeFile) (candidateVersion : gostring) (newPID : Z) : act upgrade_outcome :=
  if windows then
    r <- execRemote (run_candidate (finalize_commit candidate code_json (pb_PID probe) backupPath)) ;;
    ret (committed_end g meta newCode candidateVersion (error_of r))
  else
    r <- execRemote (run_candidate (finalize_linux (pb_OS probe) candidate code_json (up_binary probe id) (pb_Exe probe))) ;;
    match r with
    | Err e =>
        execRemote (run_kill newPID) ;;;
        reconnected <- reconnect_old ;;
        let msg := lit "替换原文件失败，old 尚未终止: " ++ e in
        ret (match reconnected with
             | Err e => (Bad 502 (msg ++ lit "；自动回连 old 失败: " ++ e), markConnectionLost g, true, false)
             | Ok _ => (Bad 502 msg, g, true, false)
             end)
    | Ok _ =>
        r <- execRemote (run_kill (pb_PID probe)) ;;
        ret (committed_end g meta newCode candidateVersion (error_of r))
    end.

(** From the published code on. *)
Definition switch (g : Gui) (candidateVersion : gostring) (newCode : upgradeCodeFile) (newPID : Z) : act upgrade_outcome :=
  r <- reconnectPeer (connectToolArgs (uc_Code newCode) (uc_Server newCode) false []) ;;
  match r with
  | Err e => connect_failed g e newPID
  | Ok meta =>
      if bool_decide (cm_PeerVersion meta ≠ []) && bool_decide (extractVersion (cm_PeerVersion meta) ≠ extractVersion candidateVersion)
      then version_differs g candidateVersion (cm_PeerVersion meta) newPID
      else commit g meta newCode candidateVersion newPID
  end.

(** From the upload on. *)
Definition upgrade_body (g : Gui) (cmdline : option gostring) : act upgrade_outcome :=
  let stop status msg := ret (Bad status msg, g, false, false) in
  r <- upload_file (up_binary probe id) ;;
  match r with
  | Err e => stop 502 (lit "上传升级包失败，old 通道仍保留: " ++ e)
  | Ok _ =>
      r <- (if bool_decide (pb_OS probe = lit "linux") then execRemote (silent (as_text os_ok)) (* chmod *)
            else ret (Ok (mkExec 0 [] [] []))) ;;
      match r with
      | Err e => stop 502 (lit "设置升级包执行权限失败: " ++ e)
      | Ok _ =>
          r <- execRemote (run_version (up_binary probe id)) ;;
          match r with
          | Err e => stop 400 (lit "候选二进制无法在远端运行: " ++ e)
          | Ok res =>
              let candidateVersion := extractVersion (er_Stdout res) in
              if bool_decide (candidateVersion = []) then stop 400 (lit "无法读取候选二进制版本")
              else
                let '(newer, known) := newerBuild candidateVersion (pb_Version probe) in
                if known && negb newer then ret (NotNeeded (pb_Version probe) candidateVersion, g, false, false)
                else
                  r <- execRemoteTimeout (run_stage cmdline) ;;
                  match r with
                  | Err e => stage_failed g e
                  | Ok _ =>
                      r <- waitForUpgradeFiles codePath (up_pid probe id) ;;
                      match r with
                      | Err (e, newPID) => wait_failed g e newPID
                      | Ok (newCode, newPID) => switch g candidateVersion newCode newPID
                      end
                  end
          end
      end
  end.

(** The body with its deferred calls: the directory is removed, then the code
    file of the host restored. *)
Definition transaction (g : Gui) (cmdline : option gostring) : act (response * Gui) :=
  let originalCodeFile := HostCodeFile (pb_Argv probe) in
  snapshot <- (if bool_decide (originalCodeFile ≠ []) then
                 r <- readRemoteText originalCodeFile ;; ret (match r with Ok snap => Some snap | Err _ => None end)
               else ret None) ;;
  r <- execRemote (silent (as_text os_ok)) ;; (* prepareRemoteUpgradeDir *)
  match r with
  | Err e => ret (Bad 502 (lit "创建远端升级目录失败: " ++ e), g)
  | Ok _ =>
      e <- upgrade_body g cmdline ;;
      let '(resp, g, staged, committed) := e in
      (if committed : bool then ret () else execRemote (run_remove_all (pb_OS probe) (up_dir probe id)) ;;; ret ()) ;;;
      (match snapshot with
       | Some snap => if committed || negb staged then ret () else writeRemoteFile originalCodeFile snap ;;; ret ()
       | None => ret ()
       end) ;;;
      ret (resp, g)
  end.

End transaction.

(** The answers of the checks before the probe's success carry no more than their
    first words.  The browser uploads the candidate, or nothing; [buildinfo] is what
    [debug/buildinfo] reads from it. *)
Definition handleUpgrade (g : Gui) (uploaded : bool) (buildinfo : option (list (gostring * gostring))) (id : gostring)
    (cmdline : option gostring) : act (response * Gui) :=
  let stop status msg := ret (Bad status msg, g) in
  if g_upgrading g then stop 409 (lit "另一个升级任务正在运行")
  else
    let effectiveServer :=
      if bool_decide (g_effectiveSrv g = []) then
        if bool_decide (g_lastServer g ≠ []) then g_lastServer g else g_defaultServer g
      else g_effectiveSrv g in
    if negb (g_connected g) then stop 400 (lit "当前未连接 share")
    else if g_lastNoAuth g then stop 400 (lit "standalone/no-auth 暂不支持通道内升级")
    else
      if negb uploaded then stop 400 (lit "请选择升级二进制")
      else
          r <- probeRemoteShare (g_peerVersion g) (g_peerHost g) ;;
          match r with
          | None => stop 400 (lit "无法探测远端 share")
          | Some probe =>
              match inspectUpgradeBinary candidate (pb_OS probe) with
              | Err _ => stop 400 (lit "unsupported binary")
              | Ok packageArch =>
                  if bool_decide (packageArch ≠ pb_Arch probe) then stop 400 (lit "升级包架构为 " ++ packageArch)
                  else
                    let localVersion := localCandidateVersion buildinfo in
                    let '(newer, known) := newerBuild localVersion (pb_Version probe) in
                    if bool_decide (localVersion ≠ []) && known && negb newer then ret (NotNeeded (pb_Version probe) localVersion, g)
                    else transaction probe id (g_lastCode g) (g_lastServer g) (g_lastNoAuth g) (g_lastMinProto g) effectiveServer g cmdline
              end
          end.

End upgrade.
