(* ===== verification/UpgradeWorldThms.v ===== *)
(** * What the remote commands of an upgrade leave behind

    [rel] is how the protected part of the machine may change while an upgrade
    runs: the old share keeps running, the executables and the upgrade's own
    files are only taken away, never written, and every code found in the code
    file is one of a new share.  Other processes ([tame] events) and the harmless
    steps of the commands respect it; the steps that move executables are followed
    one by one ([wp]). *)

From S2P Require Import Prelude GoNet GoText UpdateThms UpgradeFlags GuiUpgradeText UpgradeWorld.

Open Scope Z_scope.

#[local] Arguments decimal : simpl never.

Notation "x <- m ;; k" := (bind m (fun x => k)) (at level 98, m at next level, right associativity).
Notation "m1 ;;; m2" := (bind m1 (fun _ => m2)) (at level 98, right associativity).

Section theory.
Context (remoteOS candidate : gostring) (code_json : upgradeCodeFile → gostring) (unmarshal_code : gostring → option upgradeCodeFile).
(** The old share, its executable, the backup of it, the uploaded binary, the code
    file and the file of the process id. *)
Context (old : Z) (oldexe target backup binary code_file pid_file : gostring).

(** A new share that is not to be ended, once there is one. *)
Context (spare : option Z).

Notation windows := (remoteOS = lit "windows").

(** Temporary files beside the executable. *)
Definition beside (p : gostring) : Prop :=
  (∃ drawn, p = temp_path remoteOS target (lit ".remote-assist-new-") drawn (lit ".exe")) ∨
  (∃ drawn, p = temp_path remoteOS target (lit ".remote-assist-replace-") drawn []).

(** And beside the file of the process id. *)
Definition pid_temp (p : gostring) : Prop := ∃ drawn, p = temp_path remoteOS pid_file (lit ".upgrade-write-") drawn [].

Definition protected (p : gostring) : Prop := p = target ∨ p = backup ∨ p = binary ∨ beside p ∨ pid_temp p.

(** A code in the code file belongs to a share that is not the old one. *)
Definition codes_new (w : World) : Prop :=
  ∀ data c, w_files w !! code_file = Some data → unmarshal_code (clip data) = Some c →
    ∃ p, w_relay w !! uc_Code c = Some p ∧ p ≠ old.
(** A process id in its file is not that of the old share. *)
Definition pids_new (w : World) : Prop :=
  ∀ data pid, w_files w !! pid_file = Some data → parseUpgradePID (clip data) = Some pid → pid ≠ old.

Record rel (w w' : World) : Prop := {
  rel_old : old ∈ w_procs w → old ∈ w_procs w';
  rel_codes : codes_new w → codes_new w';
  rel_pids : pids_new w → pids_new w';
  rel_spared : ∀ p, spare = Some p → p ∈ w_procs w ∪ w_ended w → p ∈ w_procs w' ∪ w_ended w';
  rel_relay : ∀ k p, w_relay w !! k = Some p → w_relay w' !! k = Some p;
  rel_files : ∀ p, protected p → w_files w' !! p = w_files w !! p ∨
    (w_files w' !! p = None ∧ (p ≠ target ∧ p ≠ backup ∨ windows ∧ w_files w !! p = Some candidate))
}.

(** What else may happen: the old share does not end by itself, nobody else
    writes the protected files or that of the process id, a virus scanner may take the candidate away on
    Windows, and a new share may publish its code in the code file, which is read back as
    it was written. *)
Definition tame (e : Event) : Prop :=
  match e with
  | EExits pid => pid ≠ old
  | ELost => True
  | EWrites path _ => ¬ protected path ∧ path ≠ code_file ∧ path ≠ pid_file
  | ERemoves path => path ≠ target ∧ path ≠ backup
  | EQuarantines path => windows ∨ path ≠ target ∧ path ≠ backup
  | EPublishes pid c paths => unmarshal_code (clip (code_json c)) = Some c ∧ Forall (λ path, ¬ protected path ∧ path ≠ pid_file) paths ∧ (pid = old → code_file ∉ paths)
  end.
Definition tame_fates (fs : list fate) : Prop := Forall (λ f, Forall tame (f_events f)) fs.

Hypothesis code_apart : ¬ protected code_file.
Hypothesis pid_apart : ¬ protected pid_file.
Hypothesis code_pid : code_file ≠ pid_file.

Lemma rel_refl w : rel w w.
Proof. split; auto. Qed.

Lemma rel_trans w1 w2 w3 : rel w1 w2 → rel w2 w3 → rel w1 w3.
Proof.
  intros H1 H2. split; [by intros ?%(rel_old _ _ H1)%(rel_old _ _ H2)|by intros ?%(rel_codes _ _ H1)%(rel_codes _ _ H2)|
    by intros ?%(rel_pids _ _ H1)%(rel_pids _ _ H2)|
    by intros p Hs ?%(rel_spared _ _ H1 _ Hs)%(rel_spared _ _ H2 _ Hs)|by intros k p ?%(rel_relay _ _ H1)%(rel_relay _ _ H2)|].
  intros p Hp. destruct (rel_files _ _ H1 p Hp) as [E1|[E1 W1]], (rel_files _ _ H2 p Hp) as [E2|[E2 W2]].
  - left. congruence.
  - right. rewrite <- E1. auto.
  - right. split; [congruence|done].
  - right. split; [done|]. destruct W2 as [?|[??]]; [by left|congruence].
Qed.

(** Changes that only touch files that are not protected. *)
Lemma rel_same w w' :
  (old ∈ w_procs w → old ∈ w_procs w') → (∀ p, spare = Some p → p ∈ w_procs w ∪ w_ended w → p ∈ w_procs w' ∪ w_ended w') → w_relay w' = w_relay w →
  (∀ p, protected p ∨ p = code_file ∨ p = pid_file → w_files w' !! p = w_files w !! p ∨ (w_files w' !! p = None ∧ p ≠ target ∧ p ≠ backup)) → rel w w'.
Proof.
  intros Ho Hs Hr Hf. split; [done| | |done|by rewrite Hr|].
  - intros HC data c Hd Hc. rewrite Hr. destruct (Hf code_file (or_intror (or_introl eq_refl))) as [E|[E _]]; [|congruence].
    rewrite E in Hd. by eapply HC.
  - intros HC data c Hd Hc. destruct (Hf pid_file (or_intror (or_intror eq_refl))) as [E|[E _]]; [|congruence].
    rewrite E in Hd. by eapply HC.
  - intros p Hp. destruct (Hf p (or_introl Hp)) as [?|(?&?&?)]; auto.
Qed.

Lemma lookup_published (p : gostring) (paths : list gostring) (data : gostring) (m : gmap gostring gostring) :
  foldr (λ path, <[path := data]>) m paths !! p = if bool_decide (p ∈ paths) then Some data else m !! p.
Proof.
  induction paths as [|q paths IH]; cbn [foldr].
  - by rewrite bool_decide_eq_false_2 by apply not_elem_of_nil.
  - destruct (decide (p = q)) as [->|Hn].
    + rewrite lookup_insert_eq, bool_decide_eq_true_2; [done|by constructor].
    + rewrite lookup_insert_ne, IH by done. rewrite (bool_decide_ext (p ∈ q :: paths) (p ∈ paths)); [done|]. rewrite elem_of_cons. naive_solver.
Qed.

Lemma rel_event e w : tame e → rel w (apply_event candidate code_json e w).
Proof.
  destruct e as [pid| |path data|path|path|pid c paths]; cbn [tame apply_event]; intros He.
  - destruct (decide _); [|apply rel_refl]. apply rel_same; cbn; [set_solver| |done|auto].
    intros p _ Hp. destruct (decide (p = pid)) as [->|]; set_solver.
  - by apply rel_same; cbn; auto.
  - destruct He as (Hp & Hc & Hpf). apply rel_same; cbn; [done|done|done|]. intros p Hpp. left. apply lookup_insert_ne. naive_solver.
  - apply rel_same; cbn; [done|done|done|]. intros p Hpp. destruct (decide (path = p)) as [<-|Hn].
    + right. by rewrite lookup_delete_eq.
    + left. by rewrite lookup_delete_ne.
  - destruct (decide _) as [E|]; [|apply rel_refl]. split; cbn; [done| | |done|done|].
    + intros HC data c Hd Hc. cbn in Hd. destruct (decide (path = code_file)) as [->|Hn]; [by rewrite lookup_delete_eq in Hd|].
      rewrite lookup_delete_ne in Hd by done. by eapply HC.
    + intros HC data c Hd Hc. cbn in Hd. destruct (decide (path = pid_file)) as [->|Hn]; [by rewrite lookup_delete_eq in Hd|].
      rewrite lookup_delete_ne in Hd by done. by eapply HC.
    + intros p Hp. destruct (decide (path = p)) as [<-|Hn]; [|left; by rewrite lookup_delete_ne].
      right. rewrite lookup_delete_eq. split; [done|]. destruct He as [?|He]; [right|left]; done.
  - destruct He as (Hj & Hp & Ho). destruct (decide _) as [[Hin Hd]|]; [|apply rel_refl].
    assert (∀ k q, w_relay w !! k = Some q → <[uc_Code c := pid]> (w_relay w) !! k = Some q) as Hm.
    { intros k q Hk. destruct (decide (uc_Code c = k)) as [<-|]; [|by rewrite lookup_insert_ne].
      rewrite Hk in Hd. cbn in Hd. subst. by rewrite lookup_insert_eq. }
    split; cbn; [done| | |done|done|].
    + intros HC data c' Hf Hc'. cbn in Hf. rewrite lookup_published in Hf. destruct (bool_decide _) eqn:Eb.
      * injection Hf as <-. apply bool_decide_eq_true in Eb. rewrite Hj in Hc'. injection Hc' as <-.
        exists pid. cbn. rewrite lookup_insert_eq. split; [done|]. intros ->. by apply Ho.
      * destruct (HC data c' Hf Hc') as (q & Hq & ?). exists q. auto.
    + intros HC data pid' Hf. cbn in Hf. rewrite lookup_published, bool_decide_eq_false_2 in Hf; [by apply HC|]. intros Hin'.
      rewrite Forall_forall in Hp. by destruct (Hp pid_file Hin').
    + intros p Hpp. left. rewrite lookup_published, bool_decide_eq_false_2; [done|]. intros Hin'.
      rewrite Forall_forall in Hp. by destruct (Hp p Hin').
Qed.

Lemma rel_events l w : Forall tame l → rel w (apply_events candidate code_json l w).
Proof.
  revert w. induction l as [|e l IH]; intros w Hl; [apply rel_refl|]. inv Hl. cbn.
  eapply rel_trans; [by apply rel_event|by apply IH].
Qed.

(** ** Harmless actions *)

Definition after {A} (m : act A) (P : World → World → Prop) : Prop :=
  ∀ fs w, tame_fates fs → tame_fates (m fs w).1.2 ∧ P w (m fs w).2.

Definition harmless {A} (m : act A) : Prop := after m rel.

Lemma harmless_ret {A} (a : A) : harmless (ret a).
Proof. intros fs w Hfs. split; [done|apply rel_refl]. Qed.

Lemma harmless_bind {A B} (m : act A) (k : A → act B) : harmless m → (∀ a, harmless (k a)) → harmless (bind m k).
Proof.
  intros Hm Hk fs w Hfs. unfold bind. specialize (Hm fs w Hfs). destruct (m fs w) as [[[a|] fs'] w']; cbn in *; [|done].
  destruct Hm as [Ht Hr]. destruct (Hk a fs' w' Ht) as [? ?]. split; [done|by eapply rel_trans].
Qed.

Lemma harmless_syscall {A} (works : fate → World → result oserr A * World) fails :
  (∀ f w, rel w (works f w).2) → (∀ f w, rel w (fails f w)) → harmless (syscall candidate code_json works fails).
Proof.
  intros Hw Hf fs w Hfs. unfold syscall.
  assert (∃ f fs', match fs with f :: fs => (f, fs) | [] => (mkFate [] Works 0 [], []) end = (f, fs') ∧ Forall tame (f_events f) ∧ tame_fates fs') as (f & fs' & -> & He & Ht).
  { destruct fs as [|f fs]; [by exists (mkFate [] Works 0 []), []|]. inv Hfs. by exists f, fs. }
  pose proof (rel_events (f_events f) w He) as Hr. destruct (f_out f).
  - pose proof (Hw f (apply_events candidate code_json (f_events f) w)) as H. destruct (works _ _) as [r w']. cbn in *. split; [done|by eapply rel_trans].
  - cbn. split; [done|by eapply rel_trans].
  - done.
Qed.

Lemma harmless_simple {A} (works : World → result oserr A * World) :
  (∀ w, rel w (works w).2) → harmless (simple_call candidate code_json works).
Proof. intros H. apply harmless_syscall; [auto|intros; apply rel_refl]. Qed.

Lemma harmless_checked {A B} (m : act (result oserr A)) what (k : A → act (result gostring B)) :
  harmless m → (∀ a, harmless (k a)) → harmless (checked m what k).
Proof. intros Hm Hk. apply harmless_bind; [done|]. intros [a|e]; [done|apply harmless_ret]. Qed.

(** Writing the process id of a new share to its file. *)
Lemma clip_pid pid : 0 ≤ pid → clip (decimal pid ++ [10]) = decimal pid ++ [10].
Proof.
  intros Hp. unfold clip. apply take_ge. rewrite length_app. pose proof (proj2 (decimal_plain pid Hp)). cbn [length].
  assert (21 ≤ 65536) as Hz by lia. apply Z2Nat.inj_le in Hz; lia.
Qed.

Lemma rel_write_pid pid w :
  pid ≠ old → 1 < pid < 2 ^ 63 → rel w (w <| w_files := <[pid_file := decimal pid ++ [10]]> (w_files w) |>).
Proof.
  intros Ho Hp. split; cbn; [done| | |done|done|].
  - intros Hc d c. cbn. rewrite lookup_insert_ne by done. apply Hc.
  - intros _ d q. cbn. rewrite lookup_insert_eq. intros [= <-]. rewrite clip_pid, parse_pid by lia. by intros [= <-].
  - intros p Hpp. left. apply lookup_insert_ne. intros <-. by apply pid_apart.
Qed.

(** A file that may be written, and one that may be taken away. *)
Definition free (p : gostring) : Prop := ¬ protected p ∧ p ≠ code_file ∧ p ≠ pid_file.
Definition movable (p : gostring) : Prop := p ≠ target ∧ p ≠ backup.

Lemma free_movable p : free p → movable p.
Proof. intros [H _]. split; intros ->; apply H; unfold protected; auto. Qed.

Lemma rel_write p data w : free p → rel w (w <| w_files := <[p := data]> (w_files w) |>).
Proof. intros (Hp & Hc & Hpf). apply rel_same; cbn; [done|done|done|]. intros q Hq. left. apply lookup_insert_ne. naive_solver. Qed.

Lemma rel_delete p w : movable p → rel w (w <| w_files := delete p (w_files w) |>).
Proof.
  intros [Ht Hb]. apply rel_same; cbn; [done|done|done|]. intros q Hq. destruct (decide (p = q)) as [<-|Hn].
  - right. by rewrite lookup_delete_eq.
  - left. by rewrite lookup_delete_ne.
Qed.

Lemma harmless_ok : harmless (os_ok candidate code_json).
Proof. apply harmless_simple. intros. apply rel_refl. Qed.
Lemma harmless_stat p : harmless (os_Stat candidate code_json p).
Proof. apply harmless_simple. intros. apply rel_refl. Qed.
Lemma harmless_read p : harmless (os_ReadFile candidate code_json p).
Proof. apply harmless_simple. intros. apply rel_refl. Qed.
Lemma harmless_remove p : movable p → harmless (os_Remove candidate code_json p).
Proof. intros Hp. apply harmless_simple. intros w. destruct (w_files w !! p); [by apply rel_delete|apply rel_refl]. Qed.
Lemma harmless_create p : free p → harmless (os_Create candidate code_json p).
Proof. intros Hp. apply harmless_simple. intros w. by apply rel_write. Qed.
Lemma harmless_write p data : free p → harmless (os_Write candidate code_json p data).
Proof. intros Hp. apply harmless_syscall; intros; by apply rel_write. Qed.
Lemma harmless_rename p q : movable p → free q → harmless (os_Rename candidate code_json p q).
Proof.
  intros Hp Hq. apply harmless_simple. intros w. destruct (w_files w !! p) as [data|]; [|apply rel_refl]. cbn.
  eapply rel_trans; [by apply (rel_delete p)|]. exact (rel_write q data (w <| w_files := delete p (w_files w) |>) Hq).
Qed.
Lemma rel_kill pid w : pid ≠ old → spare ≠ Some pid → rel w (w <| w_procs := w_procs w ∖ {[pid]} |>).
Proof. intros H Hs. apply rel_same; cbn; [set_solver| |done|auto]. intros p -> . set_unfold. naive_solver. Qed.
Lemma harmless_kill pid : pid ≠ old → spare ≠ Some pid → harmless (os_Kill candidate code_json pid).
Proof. intros H Hs. apply harmless_syscall; intros f w; [by apply rel_kill|]. destruct (_ =? _); [by apply rel_kill|apply rel_refl]. Qed.
Lemma harmless_start p : harmless (os_Start candidate code_json p).
Proof.
  apply harmless_syscall; intros f w; [|apply rel_refl]. destruct (w_files w !! p); [|apply rel_refl].
  destruct (decide _); [apply rel_refl|]. apply rel_same; cbn; [set_solver|set_solver|done|auto].
Qed.
(** ** Steps one by one *)

(** Of every run: what holds at its end, and what holds when the process that acts
    is killed. *)
Definition wp {A} (m : act A) (D : World → Prop) (Q : A → World → Prop) (w : World) : Prop :=
  ∀ fs, tame_fates fs → tame_fates (m fs w).1.2 ∧ match (m fs w).1.1 with Some a => Q a (m fs w).2 | None => D (m fs w).2 end.

Definition stable (J : World → Prop) : Prop := ∀ w w', rel w w' → J w → J w'.

Lemma wp_ret {A} (a : A) D (Q : A → World → Prop) w : Q a w → wp (ret a) D Q w.
Proof. intros H fs Hfs. by split. Qed.

Lemma wp_bind {A B} (m : act A) (k : A → act B) D Q w : wp m D (λ a w', wp (k a) D Q w') w → wp (bind m k) D Q w.
Proof.
  intros Hm fs Hfs. specialize (Hm fs Hfs). unfold bind. destruct (m fs w) as [[[a|] fs'] w']; cbn in *; [|done].
  destruct Hm as [Ht Hk]. by apply Hk.
Qed.

Lemma wp_mono {A} (m : act A) (D D' : World → Prop) (Q Q' : A → World → Prop) w :
  wp m D Q w → (∀ w', D w' → D' w') → (∀ a w', Q a w' → Q' a w') → wp m D' Q' w.
Proof. intros H HD HQ fs Hfs. destruct (H fs Hfs) as [Ht Hm]. split; [done|]. destruct (m fs w) as [[[a|] fs'] w']; cbn in *; auto. Qed.

Lemma wp_harmless {A} (m : act A) (J D : World → Prop) w : harmless m → stable J → J w → (∀ w', J w' → D w') → wp m D (λ _, J) w.
Proof.
  intros Hm HJ Hw HD fs Hfs. destruct (Hm fs w Hfs) as [Ht Hr]. split; [done|]. pose proof (HJ _ _ Hr Hw).
  destruct (m fs w) as [[[a|] fs'] w']; cbn in *; auto.
Qed.

(** A harmless step first. *)
Lemma wp_step {A B} (J : World → Prop) (m : act A) (k : A → act B) (D : World → Prop) Q w :
  harmless m → stable J → J w → (∀ w', J w' → D w') → (∀ a w', J w' → wp (k a) D Q w') → wp (bind m k) D Q w.
Proof. intros Hm HJ Hw HD Hk. apply wp_bind. eapply wp_mono; [by apply (wp_harmless m J D)|done|]. intros a w' ?. by apply Hk. Qed.

Lemma wp_syscall {A} (J : World → Prop) (works : fate → World → result oserr A * World) fails (D : World → Prop) (Q : result oserr A → World → Prop) w :
  stable J → J w → (∀ w', J w' → D w') →
  (∀ f w', J w' → Q (works f w').1 (works f w').2) → (∀ f w', J w' → Q (Err (OtherErr (f_text f))) (fails f w')) →
  wp (syscall candidate code_json works fails) D Q w.
Proof.
  intros HJ Hw HD Hok Herr fs Hfs. unfold syscall.
  assert (∃ f fs', match fs with f :: fs => (f, fs) | [] => (mkFate [] Works 0 [], []) end = (f, fs') ∧ Forall tame (f_events f) ∧ tame_fates fs') as (f & fs' & -> & He & Ht).
  { destruct fs as [|f fs]; [by exists (mkFate [] Works 0 []), []|]. inv Hfs. by exists f, fs. }
  pose proof (HJ _ _ (rel_events (f_events f) w He) Hw) as Hj. destruct (f_out f).
  - pose proof (Hok f _ Hj) as H. destruct (works _ _) as [r w'] eqn:E. cbn in *. by split.
  - cbn. split; [done|]. by apply Herr.
  - cbn. split; [done|]. by apply HD.
Qed.

Lemma wp_simple {A} (J : World → Prop) (works : World → result oserr A * World) (D : World → Prop) (Q : result oserr A → World → Prop) w :
  stable J → J w → (∀ w', J w' → D w') →
  (∀ w', J w' → Q (works w').1 (works w').2) → (∀ e w', J w' → Q (Err (OtherErr e)) w') → wp (simple_call candidate code_json works) D Q w.
Proof. intros. apply (wp_syscall J); auto. Qed.

Lemma wp_checked {A B} (m : act (result oserr A)) what (k : A → act (result gostring B)) D (Q : result gostring B → World → Prop) w :
  wp m D (λ r w', match r with Ok a => wp (k a) D Q w' | Err _ => ∀ e, Q (Err e) w' end) w → wp (checked m what k) D Q w.
Proof. intros H. apply wp_bind. eapply wp_mono; [exact H|done|]. intros [a|e] w' Hq; [done|]. by apply wp_ret. Qed.

(** The same for a harmless step whose error ends the action. *)
Lemma wp_checked_step {A B} (J : World → Prop) (m : act (result oserr A)) what (k : A → act (result gostring B)) (D : World → Prop) (Q : result gostring B → World → Prop) w :
  harmless m → stable J → J w → (∀ w', J w' → D w') → (∀ a w', J w' → wp (k a) D Q w') → (∀ e w', J w' → Q (Err e) w') → wp (checked m what k) D Q w.
Proof.
  intros Hm HJ Hw HD Hk He. apply wp_checked. eapply wp_mono; [by apply (wp_harmless m J D)|done|].
  intros [a|e] w' Hj; [by apply Hk|intros e'; by apply He].
Qed.

(** ** Where the executables are *)

Definition base (w : World) : Prop := old ∈ w_procs w ∧ codes_new w ∧ pids_new w.
Definition intact (w : World) : Prop := base w ∧ w_files w !! target = Some oldexe ∧ w_files w !! backup = None.
Definition aside (w : World) : Prop := base w ∧ w_files w !! backup = Some oldexe.
(** The old executable is in its place or in the backup. *)
Definition kept_exe (w : World) : Prop := intact w ∨ aside w.
(** The candidate is in its place, unless it was taken away. *)
Definition placed (w : World) : Prop := aside w ∧ (w_files w !! target = Some candidate ∨ w_files w !! target = None).
(** A file that holds this if it is there. *)
Definition holds (p content : gostring) (w : World) : Prop := ∀ data, w_files w !! p = Some data → data = content.

Hypothesis exes_differ : oldexe ≠ candidate.
Hypothesis target_backup : target ≠ backup.

Lemma stable_and (J K : World → Prop) : stable J → stable K → stable (λ w, J w ∧ K w).
Proof. intros HJ HK w w' Hr [? ?]. split; eauto. Qed.
Lemma stable_or (J K : World → Prop) : stable J → stable K → stable (λ w, J w ∨ K w).
Proof. intros HJ HK w w' Hr [?|?]; eauto. Qed.
Lemma stable_base : stable base.
Proof. intros w w' Hr (Ho & Hc & Hp). split_and!; [by apply (rel_old _ _ Hr)|by apply (rel_codes _ _ Hr)|by apply (rel_pids _ _ Hr)]. Qed.

(** Changes of other files keep [base]. *)
Lemma base_files (w : World) (m : gmap gostring gostring) :
  base w → (∀ p, p = code_file ∨ p = pid_file → m !! p = w_files w !! p ∨ m !! p = None) → base (w <| w_files := m |>).
Proof.
  intros (Ho & Hc & Hp) Hm. split_and!; [done| |].
  - intros d c. cbn. destruct (Hm code_file (or_introl eq_refl)) as [-> | ->]; [apply Hc|done].
  - intros d c. cbn. destruct (Hm pid_file (or_intror eq_refl)) as [-> | ->]; [apply Hp|done].
Qed.
Lemma base_write p data w : base w → p ≠ code_file → p ≠ pid_file → base (w <| w_files := <[p := data]> (w_files w) |>).
Proof. intros Hb H1 H2. apply base_files; [done|]. intros q [->| ->]; left; by apply lookup_insert_ne. Qed.
Lemma base_delete p w : base w → base (w <| w_files := delete p (w_files w) |>).
Proof. intros Hb. apply base_files; [done|]. intros q _. destruct (decide (p = q)) as [->|]; [right; apply lookup_delete_eq|left; by apply lookup_delete_ne]. Qed.
Lemma base_move p q data w : base w → q ≠ code_file → q ≠ pid_file → base (w <| w_files := <[q := data]> (delete p (w_files w)) |>).
Proof. intros Hb H1 H2. exact (base_write q data _ (base_delete p w Hb) H1 H2). Qed.
Lemma apart_files p : protected p → p ≠ code_file ∧ p ≠ pid_file.
Proof. intros H. split; intros ->; [by apply code_apart|by apply pid_apart]. Qed.
Lemma stable_old_at p : protected p → stable (λ w, w_files w !! p = Some oldexe ∧ (p = target ∨ p = backup)).
Proof.
  intros Hp w w' Hr [Hf Hin]. split; [|done]. destruct (rel_files _ _ Hr p Hp) as [E|[E [[Ht Hb]|[_ Hc]]]]; [congruence| |congruence].
  by destruct Hin.
Qed.
Lemma stable_none p : protected p → stable (λ w, w_files w !! p = None).
Proof. intros Hp w w' Hr Hf. destruct (rel_files _ _ Hr p Hp) as [E|[E _]]; congruence. Qed.
Lemma stable_holds p content : protected p → stable (holds p content).
Proof. intros Hp w w' Hr Hh data Hd. destruct (rel_files _ _ Hr p Hp) as [E|[E _]]; [|congruence]. apply Hh. congruence. Qed.

Lemma protected_target : protected target. Proof. by left. Qed.
Lemma protected_backup : protected backup. Proof. by right; left. Qed.
Lemma protected_binary : protected binary. Proof. by right; right; left. Qed.
Lemma protected_beside p : beside p → protected p. Proof. intros ?. by do 3 right; left. Qed.
Lemma protected_temp p : pid_temp p → protected p. Proof. intros ?. by do 4 right. Qed.

Lemma stable_intact : stable intact.
Proof.
  intros w w' Hr (Hb & Ht & Hk). split; [by eapply stable_base|]. split.
  - by apply (stable_old_at target protected_target _ _ Hr); auto.
  - by apply (stable_none backup protected_backup _ _ Hr).
Qed.
Lemma stable_aside : stable aside.
Proof. intros w w' Hr (Hb & Hk). split; [by eapply stable_base|]. by apply (stable_old_at backup protected_backup _ _ Hr); auto. Qed.
Lemma stable_kept : stable kept_exe.
Proof. apply stable_or; [apply stable_intact|apply stable_aside]. Qed.
Lemma stable_placed : stable placed.
Proof.
  intros w w' Hr [Ha Ht]. split; [by eapply stable_aside|].
  destruct (rel_files _ _ Hr target protected_target) as [E|[E _]]; rewrite E; auto.
Qed.

(** ** The stage on Windows *)

Hypothesis backup_beside : ¬ beside backup.
Hypothesis temps_movable : ∀ p, pid_temp p → movable p.
Hypothesis binary_apart : binary ≠ target ∧ binary ≠ backup ∧ ¬ beside binary.

Lemma beside_movable p : beside p → p ≠ target → movable p.
Proof. intros Hp Ht. split; [done|]. intros ->. by apply backup_beside. Qed.

Lemma wp_rename_back w :
  kept_exe w → wp (os_Rename candidate code_json backup target) kept_exe (λ r, match r with Ok _ => intact | Err _ => kept_exe end) w.
Proof.
  intros Hw. apply (wp_simple kept_exe); [apply stable_kept|done|auto| |auto].
  intros w' Hk. destruct (w_files w' !! backup) as [data|] eqn:E; [|done]. cbn.
  destruct Hk as [(_ & _ & Hn)|[Hb Hk]]; [congruence|]. rewrite E in Hk. injection Hk as ->.
  split_and!; [|cbn; by rewrite lookup_insert_eq|cbn; by rewrite lookup_insert_ne, lookup_delete_eq by done].
  apply base_move; [done|apply (apart_files target), protected_target..].
Qed.

(** Removing the target while the old executable is in the backup. *)
Lemma wp_remove_target w : aside w → wp (os_Remove candidate code_json target) aside (λ _, aside) w.
Proof.
  intros Hw. apply (wp_simple aside); [apply stable_aside|done|auto| |auto].
  intros w' Ha. destruct (w_files w' !! target) eqn:E; [|done]. destruct Ha as [Hb Hk]. split; [by apply base_delete|].
  cbn. by rewrite lookup_delete_ne.
Qed.

Lemma wp_rollback_installed w :
  aside w → wp (rollbackInstalledCandidate candidate code_json target backup) kept_exe (λ r, match r with Ok _ => intact | Err _ => kept_exe end) w.
Proof.
  intros Hw. apply wp_bind. eapply wp_mono; [by apply wp_remove_target|by right|]. intros r w' Ha.
  assert (∀ w', aside w' → wp (checked (os_Rename candidate code_json backup target) [] (λ _, ret (Ok ()))) kept_exe
    (λ r, match r with Ok _ => intact | Err _ => kept_exe end) w') as Hr.
  { intros w2 H2. apply wp_checked. eapply wp_mono; [by apply wp_rename_back; right|done|]. intros [[]|e] w3 H3; [by apply wp_ret|done]. }
  destruct r as [[]|[e|e]]; [by apply Hr|by apply Hr|]. apply wp_ret. by right.
Qed.

(** What the end of the stage means for the executables. *)
Definition stage_end_ok (e : stage_end) (w : World) : Prop :=
  let '(r, keepAdjacent, restoreOld) := e in
  match r with Ok _ => keepAdjacent = true ∧ restoreOld = false ∧ placed w | Err _ => kept_exe w end.

Lemma wp_give_back what e w : aside w → wp (give_back candidate code_json what e target backup) kept_exe stage_end_ok w.
Proof.
  intros Hw. apply wp_bind. eapply wp_mono; [by apply wp_rollback_installed|done|]. intros [[]|e'] w' H; apply wp_ret; [by left|done].
Qed.

(** A temporary file is where the pattern says. *)
Lemma wp_create_temp {B} (J : World → Prop) p prefix suffix what (k : gostring → act (result gostring B)) (D : World → Prop) (Q : result gostring B → World → Prop) w :
  stable J → J w → (∀ w', J w' → D w') →
  (∀ drawn w', let path := temp_path remoteOS p prefix drawn suffix in
     J w' → w_files w' !! path = None → wp (k path) D Q (w' <| w_files := <[path := []]> (w_files w') |>)) →
  (∀ e w', J w' → Q (Err e) w') → wp (checked (os_CreateTemp remoteOS candidate code_json p prefix suffix) what k) D Q w.
Proof.
  intros HJ Hw HD Hk He. apply wp_checked. apply (wp_syscall J); [done|done|done| |].
  - intros f w' Hj. cbv zeta. destruct (w_files w' !! _) eqn:E; cbn; [|by apply Hk]. intros e. by apply He.
  - intros f w' Hj e. by apply He.
Qed.

(** [writeFileAtomic] on the file of the process id, whatever part of it gets
    done: of the new process. *)
Lemma wp_write_pid (J : World → Prop) pid w :
  stable J → (∀ path data w, pid_temp path → J w → J (w <| w_files := <[path := data]> (w_files w) |>)) →
  J w → pid ≠ old → 1 < pid < 2 ^ 63 →
  wp (writeFileAtomic remoteOS candidate code_json pid_file (decimal pid ++ [10])) J (λ _, J) w.
Proof.
  intros HJ Hset Hw Hpid Hr. apply (wp_checked_step J); [apply harmless_ok|done|done|done| |done]. intros [] w1 H1.
  apply (wp_create_temp J); [done|done|done| |done]. intros drawn w2 path H2 _.
  assert (pid_temp path) as Hp by by exists drawn. clearbody path.
  pose proof (temps_movable path Hp) as Hpm.
  set (content := decimal pid ++ [10]). set (K w := J w ∧ holds path content w).
  assert (stable K) as HK by (apply stable_and; [done|by apply stable_holds, protected_temp]).
  assert (∀ w', K w' → J w') as HKJ by (by intros ? [? _]).
  apply wp_bind. eapply (wp_mono _ J J (λ _, J)); [|done|].
  2:{ intros r w3 H3. apply (wp_step J); [by apply harmless_remove|done|done|done|]. intros ? ? ?. by apply wp_ret. }
  apply (wp_checked_step J); [destruct (bool_decide _); [apply harmless_ret|apply harmless_ok]|done|by apply Hset|done| |done]. intros [] w3 H3.
  apply wp_checked. apply (wp_syscall J); [done|done|done| |intros; by apply Hset].
  intros f w4 H4. cbn [fst snd].
  assert (K (w4 <| w_files := <[path := content]> (w_files w4) |>)) as H5.
  { split; [by apply Hset|]. intros d. cbn. rewrite lookup_insert_eq. congruence. }
  apply (wp_checked_step K); [apply harmless_ok|done|done|done| |by intros ? ? [? _]]. intros [] w6 H6.
  apply wp_checked. apply (wp_simple K); [done|done|done| |by intros ? ? [? _]].
  intros w7 [H7 Hd]. destruct (w_files w7 !! path) as [data|] eqn:E; cbn [fst snd]; [|by intros ?].
  rewrite (Hd data E). apply wp_ret. eapply HJ; [|exact H7].
  eapply rel_trans; [by apply (rel_delete path)|]. exact (rel_write_pid pid (w7 <| w_files := delete path (w_files w7) |>) Hpid Hr).
Qed.

(** A new process is not the old share. *)
Lemma wp_start (J : World → Prop) p w :
  stable J → J w → (∀ w', J w' → base w') → wp (os_Start candidate code_json p) J (λ r w', J w' ∧ match r with Ok pid => pid ≠ old ∧ 1 < pid < 2 ^ 63 | Err _ => True end) w.
Proof.
  intros HJ Hw Hb. apply (wp_syscall J); [done|done|auto| |auto].
  intros f w' Hj. destruct (w_files w' !! p); [|done]. destruct (decide _) as [|Hn]; [done|]. cbn. split.
  - eapply HJ; [|exact Hj]. apply rel_same; cbn; [set_solver|set_solver|done|auto].
  - split; [|lia]. intros E. apply Hn. do 2 right. rewrite E. apply elem_of_union_l. by apply Hb.
Qed.

Context (a : StageArgs).
Hypothesis a_target : sa_target a = target.
Hypothesis a_backup : sa_backup a = backup.
Hypothesis a_pid : sa_pidFile a = pid_file.
Hypothesis a_log : free (sa_logFile a).

Lemma aside_base w : aside w → base w. Proof. by intros [? _]. Qed.
Lemma placed_aside w : placed w → aside w. Proof. by intros [? _]. Qed.
Lemma placed_kept w : placed w → kept_exe w. Proof. intros [? _]. by right. Qed.
Hint Resolve stable_intact stable_aside stable_kept stable_placed stable_base : core.

Lemma wp_stage_placed adjacent w :
  spare = None → beside adjacent → adjacent ≠ target → aside w → w_files w !! target = None → holds adjacent candidate w →
  wp (stage_placed remoteOS candidate code_json a adjacent) kept_exe stage_end_ok w.
Proof.
  intros none_spared Had Hne Hw Ht Hh. unfold stage_placed. rewrite a_target, a_backup, a_pid. apply wp_bind.
  set (J w := (aside w ∧ w_files w !! target = None) ∧ holds adjacent candidate w).
  assert (∀ w', J w' → kept_exe w') as HJk by (intros w' [[? _] _]; by right).
  assert (stable J) as HJ.
  { apply stable_and; [apply stable_and; [auto|apply stable_none, protected_target]|]. by apply stable_holds, protected_beside. }
  apply (wp_simple J); [done|done|done| |].
  2:{ intros e w' Hj. apply wp_ret. by apply HJk. }
  intros w' [[[Hb Hk] Hn] Hd]. destruct (w_files w' !! adjacent) as [data|] eqn:E; cbn [fst snd].
  2:{ apply wp_ret. right. by split. }
  rewrite (Hd data E). clear E Hd. set (w2 := w' <| w_files := _ |>).
  assert (placed w2) as Hp.
  { assert (adjacent ≠ backup) as Hab by (intros ->; by apply backup_beside).
    split; [split; [apply base_move; [done|apply (apart_files target), protected_target..]|]|].
    - cbn. by rewrite lookup_insert_ne, lookup_delete_ne.
    - left. cbn. by rewrite lookup_insert_eq. }
  clearbody w2. clear w' Hb Hk Hn.
  apply (wp_step placed); [by apply harmless_create|apply stable_placed|done|apply placed_kept|]. intros [[]|e] w3 H3; [|apply wp_give_back; by apply placed_aside].
  apply wp_bind. eapply wp_mono; [apply (wp_start placed); [apply stable_placed|done|by intros ? [? _]%placed_aside]|apply placed_kept|].
  intros [pid|e] w4 [H4 Hpid]; [|apply wp_give_back; by apply placed_aside].
  destruct Hpid as [Hpid Hrange]. apply wp_bind.
  eapply wp_mono; [apply (wp_write_pid placed); [apply stable_placed| |done..]|apply placed_kept|].
  { intros p d w5 Htp [[Hb5 Hk5] Ht5]. destruct (temps_movable p Htp), (apart_files p (protected_temp p Htp)).
    split; [split; [by apply base_write|cbn; by rewrite lookup_insert_ne]|cbn; by rewrite lookup_insert_ne]. }
  intros [[]|e] w5 H5; [by apply wp_ret|].
  apply (wp_step placed); [apply harmless_kill; [done|by rewrite none_spared]|apply stable_placed|done|apply placed_kept|]. intros _ w6 H6. apply wp_give_back. by apply placed_aside.
Qed.

(** The copy of the uploaded binary beside the executable. *)
Lemma wp_copy_beside w :
  intact w → holds binary candidate w → windows →
  wp (copyExecutableBeside remoteOS candidate code_json binary target) intact
    (λ r w', intact w' ∧ match r with Ok adjacent => beside adjacent ∧ adjacent ≠ target ∧ holds adjacent candidate w' | Err _ => True end) w.
Proof.
  intros Hw Hh Hwin. set (J w := intact w ∧ holds binary candidate w).
  assert (stable J) as HJ by (apply stable_and; [apply stable_intact|apply stable_holds, protected_binary]).
  assert (∀ w', J w' → intact w') as HJi by (by intros ? [? _]).
  apply wp_checked. apply (wp_simple J); [done|done|done| |].
  2:{ intros e w' [Hi _] e'. done. }
  intros w1 [Hi1 Hh1]. cbn [fst snd]. destruct (w_files w1 !! binary) as [data|] eqn:E; [|by intros e].
  rewrite (Hh1 data E). clear data E Hh1 HJ HJi J Hh.
  apply (wp_create_temp intact); [apply stable_intact|done|done| |done].
  intros drawn w2 path Hi2 Hn. assert (beside path) as Hb by (by left; exists drawn).
  assert (path ≠ target) as Hpt by (intros ->; destruct Hi2 as (_ & Ht & _); congruence).
  assert (path ≠ backup) as Hpb by (intros ->; by apply backup_beside).
  pose proof (apart_files path (protected_beside path Hb)) as [Hpc Hpp].
  clearbody path. clear Hn.
  assert (∀ data w', intact w' → intact (w' <| w_files := <[path := data]> (w_files w') |>)) as Hset.
  { intros data w' (Hbs & Ht & Hk). split; [by apply base_write|cbn; by rewrite !lookup_insert_ne by done]. }
  apply wp_bind.
  eapply (wp_mono _ intact intact (λ r w', intact w' ∧ match r with Ok p => p = path ∧ holds path candidate w' | Err _ => True end)).
  - apply wp_checked. apply (wp_syscall intact); [apply stable_intact|by apply Hset|done| |].
    2:{ intros f w3 H3 e. split; [by apply Hset|done]. }
    intros f w3 H3. cbn [fst snd]. set (J w := intact w ∧ holds path candidate w).
    assert (stable J) as HJ by (apply stable_and; [apply stable_intact|by apply stable_holds, protected_beside]).
    assert (∀ w', J w' → intact w') as HJi by (by intros ? [? _]).
    assert (J (w3 <| w_files := <[path := candidate]> (w_files w3) |>)) as H4.
    { split; [by apply Hset|]. intros d. cbn. rewrite lookup_insert_eq. congruence. }
    apply (wp_checked_step J); [apply harmless_ok|done|done|done| |by intros ? ? [? _]]. intros [] w5 H5.
    apply (wp_checked_step J); [apply harmless_ok|done|done|done| |by intros ? ? [? _]]. intros [] w6 [H6 H6'].
    by apply wp_ret.
  - done.
  - intros [p'|e] w3 [H3 H3'].
    + destruct H3' as [-> Hh]. by apply wp_ret.
    + apply (wp_step intact); [by apply harmless_remove, beside_movable|apply stable_intact|done|done|]. intros _ w4 H4. by apply wp_ret.
Qed.

(** The stage leaves the candidate in place and the old executable in the backup,
    or fails with the old executable in one of the two. *)
Lemma wp_stage_windows w :
  intact w → holds binary candidate w → windows → spare = None →
  wp (stage_windows remoteOS candidate code_json binary a) kept_exe (λ r, match r with Ok _ => placed | Err _ => kept_exe end) w.
Proof.
  intros Hw Hh Hwin Hs. assert (kept_exe w) as Hk by (by left). unfold stage_windows. rewrite a_target, a_backup.
  destruct (_ || _); [by apply wp_ret|]. destruct (bool_decide _); [by apply wp_ret|].
  destruct (upgradedShareArgs _ _ _); [|by apply wp_ret]. clear Hk.
  set (J w := intact w ∧ holds binary candidate w).
  assert (stable J) as HJ by (apply stable_and; [apply stable_intact|apply stable_holds, protected_binary]).
  assert (∀ w', J w' → kept_exe w') as HJk by (intros ? [? _]; by left).
  apply (wp_checked_step J); [apply harmless_ok|done|done|done| |intros; by apply HJk]. intros [] w1 H1.
  apply (wp_checked_step J); [apply harmless_ok|done|done|done| |intros; by apply HJk]. intros [] w2 H2.
  apply (wp_step J); [apply harmless_stat|done|done|done|]. intros [[]|[e|e]] w3 H3; [apply wp_ret; by apply HJk| |apply wp_ret; by apply HJk].
  apply (wp_checked_step J); [apply harmless_ok|done|done|done| |intros; by apply HJk]. intros [] w4 [H4 H4'].
  apply wp_bind. eapply wp_mono; [by apply wp_copy_beside|by left|]. intros [adjacent|e'] w5 [H5 H5']; [|apply wp_ret; by left].
  destruct H5' as (Had & Hne & Hadj). clear H1 w1 H2 w2 H3 w3 H4 H4' w4 HJ HJk J.
  assert (adjacent ≠ backup) as Hab by (intros ->; by apply backup_beside).
  set (J w := intact w ∧ holds adjacent candidate w).
  assert (stable J) as HJ by (apply stable_and; [apply stable_intact|by apply stable_holds, protected_beside]).
  apply wp_bind. apply (wp_simple J); [done|done|intros ? [? _]; by left| |].
  2:{ intros e' w' [Hi _]. apply (wp_step intact); [by apply harmless_remove, beside_movable|apply stable_intact|done|by left|].
      intros _ w'' ?. apply wp_ret. by left. }
  intros w6 [(Hbs & Ht & Hb) Hadj6]. rewrite Ht. cbn [fst snd]. set (w7 := w6 <| w_files := _ |>).
  assert (aside w7 ∧ w_files w7 !! target = None ∧ holds adjacent candidate w7) as (H7 & H7t & H7a).
  { split_and!.
    - split; [|cbn; by rewrite lookup_insert_eq]. apply base_move; [done|apply (apart_files backup), protected_backup..].
    - cbn. by rewrite lookup_insert_ne, lookup_delete_eq.
    - intros d. cbn. rewrite lookup_insert_ne, lookup_delete_ne by congruence. apply Hadj6. }
  clearbody w7. clear Hbs Ht Hb Hadj6 w6 Hadj HJ J. apply wp_bind.
  eapply wp_mono; [by apply wp_stage_placed|done|]. intros [[r keep] restore] w8 H8. cbn [stage_end_ok] in H8.
  destruct r as [[]|e'].
  - destruct H8 as (-> & -> & Hp). apply wp_bind, wp_ret, wp_bind, wp_ret, wp_ret. done.
  - apply wp_bind. eapply (wp_mono _ kept_exe kept_exe (λ _, kept_exe)); [|done|].
    { destruct restore; [|by apply wp_ret]. apply wp_bind. eapply wp_mono; [by apply wp_rename_back|done|].
      intros [[]|e2] w9 H9; apply wp_ret; [by left|done]. }
    intros _ w9 H9. apply wp_bind. eapply (wp_mono _ kept_exe kept_exe (λ _, kept_exe)); [|done|intros _ w10 H10; by apply wp_ret].
    destruct keep; [by apply wp_ret|]. apply (wp_step kept_exe); [by apply harmless_remove, beside_movable|apply stable_kept|done|done|].
    intros _ w10 H10. by apply wp_ret.
Qed.

(** ** The finalization on Windows *)

Context (failed : gostring).
Hypothesis failed_free : free failed.

Lemma harmless_terminate pid : pid ≠ old → spare ≠ Some pid → harmless (terminateProcessAndWait candidate code_json pid).
Proof.
  intros H Hs fs w Hfs. unfold terminateProcessAndWait. destruct (decide _); [by apply harmless_kill|by apply harmless_ret].
Qed.

(** Changes of files other than the backup and the code file keep [aside]. *)
Lemma aside_files (w : World) (m : gmap gostring gostring) :
  aside w → m !! backup = w_files w !! backup →
  (∀ p, p = code_file ∨ p = pid_file → m !! p = w_files w !! p ∨ m !! p = None) → aside (w <| w_files := m |>).
Proof. intros [Hbs Hb] Em Ec. split; [by apply base_files|cbn; congruence]. Qed.


Lemma wp_rename_target_failed w : aside w → wp (os_Rename candidate code_json target failed) aside (λ _, aside) w.
Proof.
  intros Hw. apply (wp_simple aside); [apply stable_aside|done|auto| |auto].
  intros w' Ha. destruct (w_files w' !! target) eqn:E; [|done]. cbn. destruct (free_movable _ failed_free) as [Hft Hfb].
  destruct failed_free as (_ & Hfc & Hfp). destruct (apart_files target protected_target).
  apply aside_files; [done|by rewrite lookup_insert_ne, lookup_delete_ne by done|].
  intros p [->| ->]; left; by rewrite lookup_insert_ne, lookup_delete_ne by done.
Qed.

Lemma wp_rename_failed_target w : aside w → wp (os_Rename candidate code_json failed target) aside (λ _, aside) w.
Proof.
  intros Hw. apply (wp_simple aside); [apply stable_aside|done|auto| |auto].
  intros w' Ha. destruct (w_files w' !! failed) eqn:E; [|done]. cbn. destruct (free_movable _ failed_free) as [Hft Hfb].
  destruct failed_free as (_ & Hfc & Hfp). destruct (apart_files target protected_target).
  apply aside_files; [done|by rewrite lookup_insert_ne, lookup_delete_ne by done|].
  intros p [->| ->]; left; by rewrite lookup_insert_ne, lookup_delete_ne by done.
Qed.

Definition restored (r : result gostring ()) : World → Prop := match r with Ok _ => intact | Err _ => kept_exe end.

Lemma wp_rollback_restore moved w : aside w → wp (rollback_restore candidate code_json target backup failed moved) kept_exe restored w.
Proof.
  intros Hw. apply wp_bind. apply (wp_simple aside); [apply stable_aside|done|by right| |].
  - intros w' Ha. pose proof (wp_rename_back w' (or_intror Ha) [mkFate [] Works 0 []]) as [_ H]; [by repeat constructor|].
    destruct Ha as [_ Hb]. rewrite Hb. cbn in H |- *. rewrite Hb in H.
    apply (wp_step intact); [by apply harmless_remove, free_movable|apply stable_intact|exact H|by left|]. intros ? w2 H2. by apply wp_ret.
  - intros e w' Ha. apply wp_bind. eapply (wp_mono _ aside _ (λ _, aside)); [|by right|intros ? w2 H2; apply wp_ret; by right].
    destruct moved; [|by apply wp_ret]. apply wp_bind. eapply wp_mono; [by apply wp_rename_failed_target|done|]. intros ? w2 H2. by apply wp_ret.
Qed.

(** A rollback that reports success has put the old executable back. *)
Lemma wp_rollback newPID pidFile w :
  kept_exe w → spare = None → wp (finalize_rollback candidate code_json old newPID pidFile target backup failed) kept_exe restored w.
Proof.
  intros Hw Hs. unfold finalize_rollback. destruct (bool_decide _); [by apply wp_ret|].
  apply (wp_step kept_exe); [|apply stable_kept|done|done|].
  { destruct (_ && _); [|apply harmless_ret]. apply harmless_bind; [apply harmless_read|]. intros r. apply harmless_ret. }
  intros pid w1 H1. apply (wp_step kept_exe); [|apply stable_kept|done|done|].
  { destruct ((1 <? pid) && negb (pid =? old)) eqn:E; [|apply harmless_ret]. apply andb_true_iff in E as [_ E%negb_true_iff%Z.eqb_neq].
    apply harmless_bind; [apply harmless_terminate; [done|by rewrite Hs]|]. intros _. apply harmless_ret. }
  intros ? w2 H2. apply wp_bind. apply (wp_simple kept_exe); [apply stable_kept|done|done| |].
  2:{ intros e w3 H3. by apply wp_ret. }
  intros w3 H3. destruct (w_files w3 !! backup) as [data|] eqn:Eb; cbn [fst snd].
  2:{ apply wp_ret. destruct H3 as [H3|[_ H3]]; [done|congruence]. }
  assert (aside w3) as H4 by (destruct H3 as [(_ & _ & ?)|?]; [congruence|done]). clear H3 Eb data.
  apply (wp_step aside); [by apply harmless_remove, free_movable|apply stable_aside|done|by right|]. intros ? w5 H5.
  apply (wp_step aside); [apply harmless_stat|apply stable_aside|done|by right|]. intros [[]|[e|e]] w6 H6.
  - apply wp_bind. eapply wp_mono; [by apply wp_rename_target_failed|by right|]. intros [[]|e] w7 H7; [by apply wp_rollback_restore|].
    apply wp_ret. by right.
  - by apply wp_rollback_restore.
  - apply wp_ret. by right.
Qed.

(** The candidate is in its place or taken away, and the new share serves unless
    it has ended by itself. *)
Definition served (p : Z) (c : gostring) (w : World) : Prop := w_relay w !! c = Some p ∧ p ≠ old ∧ p ∈ w_procs w ∪ w_ended w.
Definition replaced (w : World) : Prop := w_files w !! target = Some candidate ∨ w_files w !! target = None.

Lemma stable_served p c : spare = Some p → stable (served p c).
Proof. intros Hs w w' Hr (H1 & H2 & H3). split_and!; [by apply (rel_relay _ _ Hr)|done|by apply (rel_spared _ _ Hr)]. Qed.
Lemma stable_replaced : stable replaced.
Proof. intros w w' Hr H. unfold replaced. destruct (rel_files _ _ Hr target protected_target) as [E|[E _]]; rewrite E; auto. Qed.

(** Ending the old share. *)
Lemma wp_kill_old (J : World → Prop) p c w :
  stable J → (∀ w w' : World, w_files w' = w_files w → J w → J w') → spare = Some p → J w ∧ served p c w →
  wp (os_Kill candidate code_json old) (λ w, J w ∧ served p c w) (λ _ w, J w ∧ served p c w) w.
Proof.
  intros HJ Hf Hs Hw.
  assert (∀ w', J w' ∧ served p c w' → J (w' <| w_procs := w_procs w' ∖ {[old]} |>) ∧ served p c (w' <| w_procs := w_procs w' ∖ {[old]} |>)) as Hk.
  { intros w' [Hj (H1 & H2 & H3)]. split; [by eapply Hf; [|exact Hj]|]. split_and!; [done|done|]. cbn. set_solver. }
  apply (wp_syscall (λ w, J w ∧ served p c w)); [apply stable_and; [done|by apply stable_served]|done|done| |].
  - intros f w' Hw'. by apply Hk.
  - intros f w' Hw'. destruct (_ =? _); [by apply Hk|done].
Qed.

Lemma wp_commit p c w :
  spare = Some p → replaced w ∧ served p c w →
  wp (finalize_commit candidate code_json old backup) (λ w, replaced w ∧ served p c w) (λ _ w, replaced w ∧ served p c w) w.
Proof.
  intros Hs Hw. set (J w := replaced w ∧ served p c w). unfold finalize_commit. destruct (_ || _); [by apply wp_ret|].
  assert (stable J) as HJ by (apply stable_and; [apply stable_replaced|by apply stable_served]).
  apply wp_checked. eapply (wp_mono _ J J (λ _, J)); [|done|].
  { intros fs. unfold terminateProcessAndWait. destruct (decide _); [|by apply wp_ret].
    apply (wp_kill_old replaced p c w); [apply stable_replaced|intros w1 w2 E; unfold replaced; by rewrite E|done|done]. }
  intros [[]|e] w1 H1; [|done]. apply wp_bind.
  assert (∀ tries w, J w → wp (removeWithRetry candidate code_json tries backup) J (λ _, J) w) as Hr.
  { induction tries as [|tries IH]; intros w2 H2; apply wp_bind.
    all: eapply (wp_mono _ J J (λ _, J)); [apply (wp_simple J); [done|done|done| |done]|done|].
    1,3: intros w3 [H3 H3']; destruct (w_files w3 !! backup); [|done]; cbn; split; [|done]; unfold replaced; cbn; by rewrite lookup_delete_ne.
    all: intros [[]|[e|e]] w3 H3; try by apply wp_ret. by apply IH. }
  eapply wp_mono; [by apply Hr|done|]. intros [[]|e] w2 H2; by apply wp_ret.
Qed.

(** ** Linux *)

Hypothesis not_windows : ¬ windows.

(** The executable is the old one, or the candidate. *)
Definition old_there (w : World) : Prop := base w ∧ w_files w !! target = Some oldexe.
Definition whole (w : World) : Prop := base w ∧ (w_files w !! target = Some oldexe ∨ w_files w !! target = Some candidate).
Definition new_there (w : World) : Prop := w_files w !! target = Some candidate.

Lemma stable_target d : stable (λ w, w_files w !! target = Some d).
Proof. intros w w' Hr H. destruct (rel_files _ _ Hr target protected_target) as [E|[E [[? _]|[? _]]]]; [congruence|done|done]. Qed.
Lemma stable_old_there : stable old_there.
Proof. apply stable_and; [apply stable_base|apply stable_target]. Qed.
Lemma stable_whole : stable whole.
Proof. apply stable_and; [apply stable_base|apply stable_or; apply stable_target]. Qed.
Lemma stable_new_there : stable new_there. Proof. apply stable_target. Qed.

Lemma harmless_stage_linux cmdline w :
  old_there w → spare = None →
  wp (stage_linux remoteOS candidate code_json binary cmdline a) old_there (λ _, old_there) w.
Proof.
  intros Hw Hs. unfold stage_linux. rewrite a_pid. destruct (_ || _); [by apply wp_ret|].
  apply (wp_checked_step old_there); [apply harmless_simple; intros; apply rel_refl|apply stable_old_there|done|done| |done]. intros raw w1 H1.
  destruct (upgradedShareArgs _ _ _); [|by apply wp_ret].
  do 2 (apply (wp_checked_step old_there); [apply harmless_ok|apply stable_old_there|done|done| |done]; intros [] ? ?).
  apply (wp_checked_step old_there); [by apply harmless_create|apply stable_old_there|done|done| |done]. intros [] ? ?.
  apply (wp_checked_step old_there); [apply harmless_ok|apply stable_old_there|done|done| |done]. intros [] ? ?.
  apply wp_checked. eapply wp_mono; [apply (wp_start old_there); [apply stable_old_there|done|by intros ? [? _]]|done|].
  intros [pid|e] w9 [H9 Hpid]; [|done].
  destruct Hpid as [Hpid Hrange]. apply wp_bind.
  eapply wp_mono; [apply (wp_write_pid old_there); [apply stable_old_there| |done..]|done|].
  { intros p d w5 Htp [Hb5 Ht5]. destruct (temps_movable p Htp), (apart_files p (protected_temp p Htp)).
    split; [by apply base_write|cbn; by rewrite lookup_insert_ne]. }
  intros [[]|e] w10 H10.
  - apply (wp_checked_step old_there); [apply harmless_ok|apply stable_old_there|done|done| |done]. intros [] ? ?. by apply wp_ret.
  - apply (wp_step old_there); [apply harmless_kill; [done|by rewrite Hs]|apply stable_old_there|done|done|]. intros ? ? ?. by apply wp_ret.
Qed.

(** The executable is replaced in one step. *)
Lemma wp_replace p c w :
  spare = Some p → old_there w → served p c w → holds binary candidate w →
  wp (replaceExecutable remoteOS candidate code_json binary target) (λ w, whole w ∧ served p c w)
    (λ r w, whole w ∧ served p c w ∧ match r with Ok _ => new_there w | Err _ => True end) w.
Proof.
  intros Hs Hw Hp Hh. set (J w := (old_there w ∧ served p c w) ∧ holds binary candidate w).
  set (K w := whole w ∧ served p c w).
  assert (stable (λ w, old_there w ∧ served p c w)) as HJ0 by (apply stable_and; [apply stable_old_there|by apply stable_served]).
  assert (stable J) as HJ by (apply stable_and; [done|apply stable_holds, protected_binary]).
  assert (stable K) as HK by (apply stable_and; [apply stable_whole|by apply stable_served]).
  assert (∀ w', old_there w' ∧ served p c w' → K w') as H0 by (intros w' [[? ?] ?]; split; [split; [done|by left]|done]).
  assert (∀ w', J w' → K w') as H1 by (intros w' [? _]; by apply H0).
  assert (∀ w', K w' → whole w' ∧ served p c w' ∧ True) as H2 by (intros w' [? ?]; done).
  apply wp_checked. apply (wp_simple J); [done|done|done| |].
  2:{ intros e w' Hj e'. by apply H2, H1. }
  intros w1 [H3 Hh1]. cbn [fst snd]. destruct (w_files w1 !! binary) as [data|] eqn:E; [|intros e; by apply H2, H0].
  rewrite (Hh1 data E). clear E Hh1 data.
  apply (wp_step (λ w, old_there w ∧ served p c w)); [apply harmless_stat|done|done|done|]. intros ? w2 H4.
  apply (wp_create_temp (λ w, old_there w ∧ served p c w)); [done|done|done| |intros e w' Hj; by apply H2, H0].
  intros drawn w3 path H5 Hn. assert (beside path) as Hb by (by right; exists drawn).
  assert (path ≠ target) as Hpt by (intros ->; destruct H5 as [[_ Ht] _]; congruence).
  assert (path ≠ backup) as Hpb by (intros ->; by apply backup_beside).
  pose proof (apart_files path (protected_beside path Hb)) as [Hpc Hpp].
  clearbody path. clear Hn.
  assert (∀ data w', old_there w' ∧ served p c w' → old_there (w' <| w_files := <[path := data]> (w_files w') |>) ∧ served p c (w' <| w_files := <[path := data]> (w_files w') |>)) as Hset.
  { intros data w' [[Hbs Ht] Hv]. split; [|done]. split; [by apply base_write|cbn; by rewrite lookup_insert_ne]. }
  apply wp_bind. eapply (wp_mono _ K K (λ r w', K w' ∧ match r with Ok _ => new_there w' | Err _ => True end)); [|done|].
  2:{ intros [[]|e] w' [Hk Hr]; [apply wp_ret; by destruct Hk|]. apply (wp_step K); [by apply harmless_remove, beside_movable|done|done|done|].
      intros ? w'' Hk'. by apply wp_ret, H2. }
  apply wp_checked. apply (wp_syscall (λ w, old_there w ∧ served p c w)); [done|by apply Hset|done| |].
  2:{ intros f w' Hj e. split; [by apply H0, Hset|done]. }
  intros f w4 H6. cbn [fst snd]. set (L w := (old_there w ∧ served p c w) ∧ holds path candidate w).
  assert (stable L) as HL by (apply stable_and; [done|by apply stable_holds, protected_beside]).
  assert (∀ w', L w' → K w') as HLK by (intros w' [? _]; by apply H0).
  assert (L (w4 <| w_files := <[path := candidate]> (w_files w4) |>)) as H7.
  { split; [by apply Hset|]. intros d. cbn. rewrite lookup_insert_eq. congruence. }
  do 3 (apply (wp_checked_step L); [apply harmless_ok|done|done|done| |intros ? ? ?; split; [by apply HLK|done]]; intros [] ? ?).
  apply wp_checked. apply (wp_simple L); [done|done|done| |intros e w9 Hj e'; split; [by apply HLK|done]].
  intros w5 [[[Hbs Ht] Hv] Hd]. destruct (w_files w5 !! path) as [data|] eqn:E; cbn [fst snd].
  2:{ intros e. split; [apply H0; split; [by split|done]|done]. }
  rewrite (Hd data E). set (M w := K w ∧ new_there w).
  assert (stable M) as HM by (apply stable_and; [done|apply stable_new_there]).
  apply (wp_step M); [| exact HM| |by intros wm [? _]|intros ? wm [? ?]; by apply wp_ret].
  { destruct (bool_decide _); [|apply harmless_ret]. apply harmless_bind; [|intros; apply harmless_ret]. apply harmless_remove. split; apply binary_apart. }
  assert (new_there (w5 <| w_files := <[target := candidate]> (delete path (w_files w5)) |>)) as Hnew by (unfold new_there; cbn; by rewrite lookup_insert_eq).
  split; [|done]. split; [split; [|by right]|done]. apply base_move; [done|apply (apart_files target), protected_target..].
Qed.
End theory.
