(* ===== verification/GuiUpgradeRuns.v ===== *)
(** * Upgrades that go through, and one that does not

    Concrete runs of [handleUpgrade] on a Linux and on a Windows machine, and the
    theorems of [GuiUpgradeThms] on them. *)

From S2P Require Import Prelude GoNet GoText StunCandidates UpdateThms UpgradeFlags UpgradeFlagsThms GuiUpgradeText UpgradeWorld GuiUpgrade UpgradeWorldThms GuiUpgradeThms.

Open Scope Z_scope.

(** ** A check of the names *)

Lemma temp_path_stem os p prefix drawn suffix : temp_path os p prefix drawn suffix = temp_path os p prefix [] [] ++ drawn ++ suffix.
Proof. unfold temp_path. cbv zeta. destruct (has_suffix _ _); by rewrite !app_nil_r, <- !app_assoc. Qed.

Lemma stem_prefix os p prefix drawn suffix : has_prefix (temp_path os p prefix [] []) (temp_path os p prefix drawn suffix) = true.
Proof. apply has_prefix_spec. exists (drawn ++ suffix). apply temp_path_stem. Qed.

Section check.
Context (probe : remoteProcessProbe) (id : gostring).

Definition not_beside (p : gostring) : bool :=
  negb (has_prefix (temp_path (pb_OS probe) (pb_Exe probe) (lit ".remote-assist-new-") [] []) p) &&
  negb (has_prefix (temp_path (pb_OS probe) (pb_Exe probe) (lit ".remote-assist-replace-") [] []) p).
Definition not_pid_temp (p : gostring) : bool := negb (has_prefix (temp_path (pb_OS probe) (up_pid probe id) (lit ".upgrade-write-") [] []) p).
Definition not_protected (p : gostring) : bool :=
  bool_decide (p ∉ [pb_Exe probe; up_backup probe id; up_binary probe id]) && not_beside p && not_pid_temp p.
Definition is_free (p : gostring) : bool := not_protected p && bool_decide (p ∉ [up_code probe id; up_pid probe id]).

Definition apart_check : bool :=
  not_protected (up_code probe id) && not_protected (up_pid probe id) && bool_decide (up_code probe id ≠ up_pid probe id) &&
  not_beside (up_backup probe id) && (not_pid_temp (pb_Exe probe) && not_pid_temp (up_backup probe id)) &&
  (bool_decide (up_binary probe id ∉ [pb_Exe probe; up_backup probe id]) && not_beside (up_binary probe id)) &&
  is_free (up_log probe id) && is_free (up_failed probe id) &&
  (negb (below (pb_OS probe) (up_dir probe id) (pb_Exe probe)) && negb (below (pb_OS probe) (up_dir probe id) (up_backup probe id))) &&
  (bool_decide (HostCodeFile (pb_Argv probe) = []) || is_free (HostCodeFile (pb_Argv probe))).

Lemma not_beside_spec p : not_beside p = true → ¬ beside (pb_OS probe) (pb_Exe probe) p.
Proof.
  intros [H1%negb_true_iff H2%negb_true_iff]%andb_true_iff [[drawn ->]|[drawn ->]]; [rewrite stem_prefix in H1|rewrite stem_prefix in H2]; done.
Qed.
Lemma not_pid_temp_spec p : not_pid_temp p = true → ¬ pid_temp (pb_OS probe) (up_pid probe id) p.
Proof. intros H%negb_true_iff [drawn ->]. by rewrite stem_prefix in H. Qed.
Lemma not_protected_spec p :
  not_protected p = true → ¬ protected (pb_OS probe) (pb_Exe probe) (up_backup probe id) (up_binary probe id) (up_pid probe id) p.
Proof.
  intros [[H1%bool_decide_eq_true H2%not_beside_spec]%andb_true_iff H3%not_pid_temp_spec]%andb_true_iff.
  rewrite !not_elem_of_cons in H1. unfold protected. naive_solver.
Qed.
Lemma is_free_spec p :
  is_free p = true → free (pb_OS probe) (pb_Exe probe) (up_backup probe id) (up_binary probe id) (up_code probe id) (up_pid probe id) p.
Proof.
  intros [H1%not_protected_spec H2%bool_decide_eq_true]%andb_true_iff. rewrite !not_elem_of_cons in H2. split; [done|]. naive_solver.
Qed.

Lemma apart_check_sound : apart_check = true → upgrade_apart probe id.
Proof.
  unfold apart_check. rewrite !andb_true_iff.
  intros [[[[[[[[[H1 H2] H3] H4] [H5 H5']] [H6 H6']] H7] H8] [H9 H9']] H10].
  apply bool_decide_eq_true in H3, H6. rewrite !not_elem_of_cons in H6. destruct H6 as (H6a & H6b & _).
  apply not_pid_temp_spec in H5, H5'. apply negb_true_iff in H9, H9'.
  constructor; auto using not_protected_spec, not_beside_spec, is_free_spec.
  - intros p Hp. split; intros ->; [by apply H5|by apply H5'].
  - apply orb_true_iff in H10 as [H10%bool_decide_eq_true|H10]; [by left|right; by apply is_free_spec].
Qed.
End check.

(** ** Machines *)

Definition new_image : gostring := [127; 69; 76; 70; 2; 1] ++ replicate 12 0 ++ [62; 0].
Definition new_pe : gostring := lit "MZ" ++ replicate 58 0 ++ [64; 0; 0; 0; 80; 69; 0; 0; 0x64; 0x86].
Definition old_image : gostring := lit "the old executable".
Definition an_id : gostring := lit "00112233445566aa".

(** A code file: the code, a line end, the server. *)
Definition toy_json (c : upgradeCodeFile) : gostring := uc_Code c ++ 10 :: uc_Server c.
Definition toy_unmarshal (l : gostring) : option upgradeCodeFile :=
  match split_byte 10 l with [c; s] => Some (mkCode c s) | _ => None end.
Definition toy_version (image : gostring) : option gostring :=
  Some (if bool_decide (image = old_image) then lit "remote-assist v1.0.0" else lit "remote-assist v2.0.0").

Definition linux_out : gostring := lit "4711
/opt/remote
/srv
Linux
x86_64
/tmp
cmVtb3RlAHNoYXJlAC0tcm9vdABkYXRhAA==
".
Definition linux_probe : remoteProcessProbe :=
  mkProbe 4711 (lit "/opt/remote") (lit "/srv") (lit "linux") (lit "amd64") (lit "v1.0.0")
    (map bytes_of ["remote"; "share"; "--root"; "data"]%string) (lit "/srv/data") true (lit "/tmp").
Definition linux_output (os : gostring) : option gostring := if bool_decide (os = lit "linux") then Some linux_out else None.

Definition windows_report : WindowsReport :=
  mkWindowsReport 4711 (lit "C:\opt\remote.exe") (lit "C:\srv") (lit "windows") (lit "AMD64") (map bytes_of ["remote"; "share"]%string) (lit "C:\tmp\").
Definition windows_probe : remoteProcessProbe :=
  mkProbe 4711 (lit "C:\opt\remote.exe") (lit "C:\srv") (lit "windows") (lit "amd64") (lit "v1.0.0")
    (map bytes_of ["remote"; "share"]%string) (lit "C:\srv") false (lit "C:\tmp\").
Definition windows_out : gostring := lit "{}".
Definition windows_output (os : gostring) : option gostring := if bool_decide (os = lit "windows") then Some windows_out else None.

Definition a_gui : Gui := mkGui true false (lit "OLD") (lit "r:8443") false [] (lit "v1.0.0") [] (lit "r:8443") [].
Definition a_code : upgradeCodeFile := mkCode (lit "NEW") (lit "r:8443").

Definition at_start (probe : remoteProcessProbe) : World :=
  mkWorld {[ pb_Exe probe := old_image ]} {[ 4711 ]} ∅ {[ lit "OLD" := 4711 ]} (Some 4711).

(** Everything works, and the new share publishes its code once it runs. *)
Definition good (probe : remoteProcessProbe) : fate :=
  mkFate [EPublishes 4800 a_code [up_code probe an_id]] Works 4800 (lit "v2.0.0").
(** The answer to the call is lost. *)
Definition lost_here : fate := mkFate [ELost] Works 0 [].

Definition run_linux (fs : list fate) :=
  handleUpgrade new_image toy_json toy_unmarshal toy_version linux_output (λ _, None) a_gui true None an_id (Some (lit "remote" ++ 0 :: lit "share")) fs (at_start linux_probe).
Definition run_windows (fs : list fate) :=
  handleUpgrade new_pe toy_json toy_unmarshal toy_version windows_output (λ _, Some windows_report) a_gui true None an_id None fs (at_start windows_probe).

Example linux_goes_through :
  let '(r, _, w) := run_linux (replicate 200 (good linux_probe)) in
  (match r with Some (Done cur new peer path warning, g) => Some (cur, new, peer, path, warning, g_lastCode g) | _ => None end,
   w_files w !! lit "/opt/remote", elements (w_procs w), w_conn w)
  = (Some (lit "v1.0.0", lit "v2.0.0", lit "v2.0.0", lit "/opt/remote", None, lit "NEW"), Some new_image, [4800], Some 4800).
Proof. by vm_compute. Qed.
Example windows_goes_through :
  let '(r, _, w) := run_windows (replicate 200 (good windows_probe)) in
  (match r with Some (Done cur new peer path warning, g) => Some (cur, new, peer, path, warning, g_lastCode g) | _ => None end,
   w_files w !! lit "C:\opt\remote.exe", w_files w !! up_backup windows_probe an_id, elements (w_procs w), w_conn w)
  = (Some (lit "v1.0.0", lit "v2.0.0", lit "v2.0.0", lit "C:\opt\remote.exe", None, lit "NEW"), Some new_pe, None, [4800], Some 4800).
Proof. by vm_compute. Qed.
(** The connection is lost after the candidate was started. *)
Example windows_cut_short :
  let '(r, _, w) := run_windows (replicate 33 (good windows_probe) ++ lost_here :: replicate 100 (good windows_probe)) in
  (match r with Some (Bad 502 _, g) => Some (g_connected g) | _ => None end,
   w_files w !! lit "C:\opt\remote.exe", w_files w !! up_backup windows_probe an_id, elements (w_procs w))
  = (Some false, Some new_pe, Some old_image, [4711; 4800]).
Proof. by vm_compute. Qed.

(** ** The theorems at work *)

Lemma linux_reports : reports linux_output (λ _, None) linux_probe.
Proof.
  intros os out v p Ho Hr. unfold linux_output in Ho. case_bool_decide as E; [|done]. injection Ho as <-. subst os.
  assert (read_probe (λ _, None) (lit "linux") linux_out v = Some (with_v linux_probe v)) as H by by vm_compute. rewrite H in Hr. by injection Hr as <-.
Qed.

Lemma windows_reports : reports windows_output (λ _, Some windows_report) windows_probe.
Proof.
  intros os out v p Ho Hr. unfold windows_output in Ho. case_bool_decide as E; [|done]. injection Ho as <-. subst os.
  assert (read_probe (λ _, Some windows_report) (lit "windows") windows_out v = Some (with_v windows_probe v)) as H by by vm_compute. rewrite H in Hr. by injection Hr as <-.
Qed.

Notation tame_run probe := (tame_fates (pb_OS probe) toy_json toy_unmarshal (pb_PID probe) (pb_Exe probe) (up_backup probe an_id) (up_binary probe an_id)
  (up_code probe an_id) (up_pid probe an_id)).

Lemma good_tame probe n : upgrade_apart probe an_id → pb_PID probe = 4711 → tame_run probe (replicate n (good probe)).
Proof.
  intros Ha Hp. apply Forall_replicate. constructor; [|constructor]. cbn [UpgradeWorldThms.tame]. split_and!; [by vm_compute| |].
  - constructor; [|constructor]. split; apply Ha.
  - rewrite Hp. lia.
Qed.

Lemma linux_apart : upgrade_apart linux_probe an_id. Proof. by apply apart_check_sound; vm_compute. Qed.
Lemma windows_apart : upgrade_apart windows_probe an_id. Proof. by apply apart_check_sound; vm_compute. Qed.

Lemma linux_ready : ready old_image linux_probe an_id (at_start linux_probe).
Proof. split; [change (4711 ∈ ({[4711]} : gset Z)); set_solver|by vm_compute]. Qed.
Lemma windows_ready : ready old_image windows_probe an_id (at_start windows_probe).
Proof. split; [change (4711 ∈ ({[4711]} : gset Z)); set_solver|by vm_compute]. Qed.

(** The run of the Windows machine that goes through, and those that are cut short. *)
Definition windows_fates : list fate := replicate 200 (good windows_probe).
Definition cut_fates : list fate := replicate 33 (good windows_probe) ++ lost_here :: replicate 100 (good windows_probe).

Lemma cut_tame : tame_run windows_probe cut_fates.
Proof.
  apply Forall_app; split; [by apply good_tame; [apply windows_apart|]|]. constructor; [by repeat constructor|].
  by apply good_tame; [apply windows_apart|].
Qed.

Lemma images_differ : old_image ≠ new_pe ∧ old_image ≠ new_image.
Proof. split; by_compute. Qed.


Lemma windows_exe_recoverable_witness :
  let run := run_windows cut_fates in
  let at_place := w_files run.2 !! lit "C:\opt\remote.exe" in
  let at_backup := w_files run.2 !! up_backup windows_probe an_id in
  match run.1.1 with
  | Some (resp, _) =>
      if is_done resp then at_place = Some new_pe ∨ at_place = None
      else at_place = Some old_image ∨ (at_backup = Some old_image ∧ ∃ code, ends_in (hint windows_probe an_id code) (error_text resp))
  | None => at_place = Some old_image ∨ at_backup = Some old_image ∨ ∃ p c, served 4711 p c run.2
  end.
Proof.
  apply (windows_exe_recoverable new_pe toy_json toy_unmarshal toy_version windows_output (λ _, Some windows_report) old_image windows_probe an_id);
    [apply windows_apart|apply images_differ|by vm_compute|apply windows_reports|done|apply windows_ready|apply cut_tame].
Defined.

Lemma linux_exe_whole_witness :
  let run := run_linux (replicate 200 (good linux_probe)) in
  let at_place := w_files run.2 !! lit "/opt/remote" in
  match run.1.1 with
  | Some (resp, _) => if is_done resp then at_place = Some new_image else at_place = Some old_image ∨ at_place = Some new_image
  | None => at_place = Some old_image ∨ at_place = Some new_image
  end.
Proof.
  apply (linux_exe_whole new_image toy_json toy_unmarshal toy_version linux_output (λ _, None) old_image linux_probe an_id);
    [apply linux_apart|apply images_differ|by vm_compute|apply linux_reports|by_compute|apply linux_ready|apply good_tame; [apply linux_apart|done]].
Defined.

(** ** Where a new share is left behind *)

(** On Linux the replacement is lost with the connection to the new share; the
    order to end the new share goes over the same connection, before the return
    to the old one.  The old share is connected again, the new one still runs,
    its directory is gone, and nothing is said of it. *)
Theorem new_share_left_behind :
  let '(r, _, w) := run_linux (replicate 40 (good linux_probe) ++ lost_here :: replicate 100 (good linux_probe)) in
  (match r with Some (Bad 502 msg, g) => Some (bool_decide (msg = lit "替换原文件失败，old 尚未终止: tunnel_lost"), g_connected g) | _ => None end,
   elements (w_procs w), w_conn w, w_files w !! up_log linux_probe an_id)
  = (Some (true, true), [4711; 4800], Some 4711, None).
Proof. by vm_compute. Qed.

(** On Linux a connection that is lost while the new share is waited for is not
    noticed: the GUI goes on as connected, and says that the old channel is kept. *)
Theorem lost_unnoticed :
  let '(r, _, w) := run_linux (replicate 34 (good linux_probe) ++ lost_here :: replicate 300 (good linux_probe)) in
  (match r with Some (Bad 502 msg, g) => Some (contains (lit "old 通道仍保留") msg, g_connected g) | _ => None end,
   elements (w_procs w), linked w)
  = (Some (true, true), [4711; 4800], None).
Proof. by vm_compute. Qed.
