(* ===== verification/GuiProbeThms.v ===== *)
(** * What the probe of a Linux share reads

    The script prints the process id, the executable, the working directory, the
    system, the machine and the directory for temporary files, a line each, and
    the arguments of the process in base64.  [parseLinuxProbeOutput] reads back
    what they are ([probe_reads_process]), an empty last argument excepted
    ([empty_last_argument]). *)

From S2P Require Import Prelude GoNet GoText GoFields GoBase64 UpdateThms UpgradeFlags GuiUpgradeText.

Open Scope Z_scope.

#[local] Arguments decimal : simpl never.

(** What /proc shows of the arguments. *)
Definition cmdline_of (argv : list gostring) : gostring := concat (map (λ a, a ++ [0]) argv).

Definition script_output (pid : Z) (exe cwd sys machine tmp : gostring) (argv : list gostring) : gostring :=
  join_with 10 [decimal pid; exe; cwd; sys; machine; tmp; b64_encode true (cmdline_of argv)] ++ [10].

(** A line that shows a value as it is. *)
Definition plain_line (s : gostring) : Prop := TrimSpace s = s ∧ 10 ∉ s ∧ 13 ∉ s.

(** An argument of a process. *)
Definition arg_bytes (a : gostring) : Prop := Forall is_byte a ∧ 0 ∉ a.

Lemma trim_right_keep p l y : p y = false → trim_right p (l ++ [y]) = l ++ [y].
Proof. intros H. unfold trim_right. rewrite rev_app_distr. cbn [rev app drop_while]. rewrite H. cbn [rev]. by rewrite rev_involutive. Qed.

Lemma split_last sep l : sep ∉ l → split_byte sep l = [l].
Proof.
  induction l as [|b l IH]; intros H; [done|]. apply not_elem_of_cons in H as [Hb H]. cbn [split_byte]. rewrite IH by done.
  by rewrite (proj2 (Z.eqb_neq b sep)) by congruence.
Qed.

Lemma split_joined sep ls : ls ≠ [] → Forall (λ l, sep ∉ l) ls → split_byte sep (join_with sep ls) = ls.
Proof.
  intros Hne H. induction ls as [|l ls IH]; [done|]. inv H. destruct ls as [|l' ls]; [by apply split_last|].
  change (split_byte sep (l ++ sep :: join_with sep (l' :: ls)) = l :: l' :: ls). rewrite split_byte_app by done. by rewrite IH.
Qed.

Lemma cmdline_joined argv : argv ≠ [] → cmdline_of argv = join_with 0 argv ++ [0].
Proof.
  intros Hne. induction argv as [|a argv IH]; [done|]. destruct argv as [|b argv].
  - unfold cmdline_of. cbn. by rewrite app_nil_r.
  - change (a ++ [0] ++ cmdline_of (b :: argv) = (a ++ 0 :: join_with 0 (b :: argv)) ++ [0]) || idtac.
    unfold cmdline_of in *. cbn [map concat]. cbn [map concat] in IH. rewrite IH by done.
    change (join_with 0 (a :: b :: argv)) with (a ++ 0 :: join_with 0 (b :: argv)). by rewrite <- !app_assoc.
Qed.

Lemma joined_last sep argv a : last argv = Some a → ∃ before, join_with sep argv = before ++ a.
Proof.
  induction argv as [|b argv IH]; [done|]. destruct argv as [|c argv]; cbn [last]; intros H.
  - injection H as ->. by exists [].
  - destruct (IH H) as [before E]. exists (b ++ sep :: before).
    change (join_with sep (b :: c :: argv)) with (b ++ sep :: join_with sep (c :: argv)). rewrite E. by rewrite <- app_assoc.
Qed.

(** The arguments come back when the last one is not empty. *)
Lemma argv_read argv a : last argv = Some a → a ≠ [] → Forall arg_bytes argv → cmdline_argv (cmdline_of argv) = argv.
Proof.
  intros Hl Ha H. assert (argv ≠ []) as Hne by (by intros ->). unfold cmdline_argv. rewrite cmdline_joined by done.
  destruct (joined_last 0 argv a Hl) as [before E]. destruct (exists_last Ha) as (a' & y & Ea).
  assert (0 ∉ a) as H0 by (rewrite Forall_forall in H; apply H, last_Some_elem_of, Hl).
  assert (0 =? y = false) as Hy. { apply Z.eqb_neq. intros <-. apply H0. rewrite Ea. apply elem_of_app. right. by constructor. }
  assert (trim_right (Z.eqb 0) (join_with 0 argv ++ [0]) = join_with 0 argv) as ->.
  { rewrite E, Ea. rewrite (app_assoc before). unfold trim_right. rewrite rev_app_distr. cbn [rev app drop_while].
    change (0 =? 0) with true. cbv iota. fold (trim_right (Z.eqb 0) ((before ++ a') ++ [y])). by apply trim_right_keep. }
  apply split_joined; [done|]. eapply Forall_impl; [exact H|]. by intros x [_ ?].
Qed.

Lemma cmdline_bytes argv : Forall arg_bytes argv → Forall is_byte (cmdline_of argv).
Proof.
  intros H. unfold cmdline_of. apply Forall_concat, Forall_map. eapply Forall_impl; [exact H|].
  intros a [Ha _]. cbn. apply Forall_app. split; [done|]. by repeat constructor.
Qed.

(** base64 is in visible characters. *)
Lemma b64_ink l : Forall is_byte l → Forall ink (b64_encode true l).
Proof.
  assert (∀ i, 0 ≤ i < 64 → ink (b64_char i)) as Hc.
  { intros i Hi. assert (Forall (λ i, 0 ≤ b64_char i < 0x80 ∧ is_space (b64_char i) = false) (map Z.of_nat (seq 0 64))) as Hall by by_compute.
    rewrite Forall_forall in Hall. apply Hall. apply list_elem_of_fmap. exists (Z.to_nat i). split; [lia|]. apply elem_of_seq. lia. }
  assert (ink b64_pad) as Hp by by vm_compute.
  unfold is_byte. induction l as [|a|a b|a b c l IH] using list_ind3; intros H; cbn [b64_encode app].
  - constructor.
  - inv H. repeat constructor; try done; apply Hc; zdiv.
  - inv H. inv H3. repeat constructor; try done; apply Hc; zdiv.
  - inv H. inv H3. inv H4. repeat (constructor; [apply Hc; zdiv|]). by apply IH.
Qed.

Lemma ink_no_break b : ink b → b ≠ 10 ∧ b ≠ 13.
Proof. intros [_ H]. split; intros ->; done. Qed.

Lemma inked_line s : Forall ink s → TrimSpace s = s.
Proof.
  intros H. destruct s as [|x m]; [done|]. destruct (exists_last (l := x :: m) ltac:(done)) as (n & y & E).
  apply (TrimSpace_inked x m n y E); [by inv H|]. rewrite E in H. apply Forall_app in H as [_ H]. by inv H.
Qed.

Lemma join_ends sep ls l : ls ≠ [] → last ls = Some l → ∀ p y, l = p ++ [y] → ∃ q, join_with sep ls = q ++ [y].
Proof.
  intros _ Hl p y E. destruct (joined_last sep ls l Hl) as [before Hb]. exists (before ++ p). by rewrite Hb, E, app_assoc.
Qed.

(** The lines of the output. *)
Lemma output_lines pid lines b64 :
  1 < pid → Forall (λ s, 10 ∉ s ∧ 13 ∉ s) lines → b64 ≠ [] → Forall ink b64 →
  split_byte 10 (filter (λ b, b ≠ 13) (TrimSpace (join_with 10 (decimal pid :: lines ++ [b64]) ++ [10]))) = decimal pid :: lines ++ [b64].
Proof.
  intros Hp Hl Hne Hb. destruct (decimal_shape pid ltac:(lia)) as (x & m & _ & _ & Ed & _ & Hx & _).
  pose proof (decimal_digit 20 pid [] ltac:(lia) ltac:(constructor)) as Hd. fold (decimal pid) in Hd.
  assert (Forall (λ s, 10 ∉ s ∧ 13 ∉ s) (decimal pid :: lines ++ [b64])) as Hall.
  { assert (∀ s, Forall ink s → 10 ∉ s ∧ 13 ∉ s) as Hi.
    { intros s Hs. rewrite Forall_forall in Hs. split; intros Hin; by destruct (ink_no_break _ (Hs _ Hin)). }
    constructor; [apply Hi; eapply Forall_impl; [exact Hd|apply digit_ink]|]. apply Forall_app. split; [done|]. constructor; [by apply Hi|constructor]. }
  set (ls := decimal pid :: lines ++ [b64]) in *.
  destruct (exists_last Hne) as (p & y & Ey).
  destruct (join_ends 10 ls b64 ltac:(done) ltac:(unfold ls; rewrite app_comm_cons; apply last_snoc) p y Ey) as [q Eq].
  assert (∃ m', join_with 10 ls = x :: m') as [m' Em].
  { unfold ls. rewrite Ed. destruct (lines ++ [b64]) as [|l ls'] eqn:E; [by destruct lines|]. by exists (m ++ 10 :: join_with 10 (l :: ls')). }
  rewrite Em, (TrimSpace_line x m' q y), <- Em; [|congruence|done|rewrite Ey in Hb; apply Forall_app in Hb as [_ Hb]; by inv Hb].
  assert (13 ∉ join_with 10 ls) as H13.
  { clear -Hall. induction ls as [|l ls IH]; [by apply not_elem_of_nil|]. inv Hall. destruct H1 as [_ H1]. destruct ls as [|l' ls]; [done|].
    change (join_with 10 (l :: l' :: ls)) with (l ++ 10 :: join_with 10 (l' :: ls)). rewrite not_elem_of_app, not_elem_of_cons. auto. }
  rewrite filter_all by (apply Forall_forall; intros c Hc ->; done).
  apply split_joined; [done|]. eapply Forall_impl; [exact Hall|]. by intros s [? _].
Qed.

(** C31: from what the script prints of a Linux process, the probe reads back its
    id, its executable, its directories and its arguments exactly, whatever bytes
    they hold, as long as no line holds a line end or white space around it and
    the last argument is not empty; the root is the one [StageRoot] gives for
    them. *)
Theorem probe_reads_process pid exe cwd sys machine tmp argv a v :
  1 < pid < 2 ^ 63 → Forall plain_line [exe; cwd; sys; machine; tmp] → exe ≠ [] → cwd ≠ [] →
  ToLower sys = lit "linux" → normalizeArch machine ≠ [] → last argv = Some a → a ≠ [] → Forall arg_bytes argv →
  parseLinuxProbeOutput (script_output pid exe cwd sys machine tmp argv) v =
    match StageRoot (lit "linux") argv cwd with
    | Ok (root, explicit) => Ok (mkProbe pid exe cwd (lit "linux") (normalizeArch machine) v argv root explicit tmp)
    | Err e => Err (ProbeFlags e)
    end.
Proof.
  intros Hp Hl He Hc Hs Hm Ha Hne Hargs. unfold parseLinuxProbeOutput, script_output.
  pose proof (b64_ink _ (cmdline_bytes argv Hargs)) as Hink.
  assert (argv ≠ []) as Hargv by (by intros ->).
  assert (b64_encode true (cmdline_of argv) ≠ []) as Hb.
  { rewrite cmdline_joined by done. intros Hx. apply (f_equal length) in Hx. rewrite length_b64, length_app in Hx. cbn [length] in Hx.
    assert (1 ≤ (length (join_with 0 argv) + 1 + 2) / 3)%nat by (apply Nat.div_le_lower_bound; lia). lia. }
  pose proof (output_lines pid [exe; cwd; sys; machine; tmp] (b64_encode true (cmdline_of argv)) ltac:(lia)
    ltac:(eapply Forall_impl; [exact Hl|by intros s (_ & ? & ?)]) Hb Hink) as Elines.
  cbn [app] in Elines. rewrite Elines. clear Elines. assert (TrimSpace (decimal pid) = decimal pid) as ->.
  { apply inked_line. eapply Forall_impl; [apply (decimal_digit 20 pid []); [lia|constructor]|apply digit_ink]. }
  rewrite Atoi_decimal by lia. rewrite (proj2 (Z.leb_gt pid 1)) by lia.
  inv Hl. inv H2. inv H4. inv H5. inv H6. destruct H1 as [-> _], H3 as [-> _], H2 as [-> _], H4 as [-> _], H5 as [-> _].
  rewrite Hs. cbv zeta. rewrite (bool_decide_eq_false_2 (lit "linux" ≠ lit "linux")) by auto.
  rewrite (bool_decide_eq_false_2 (exe = [])), (bool_decide_eq_false_2 (cwd = [])), (bool_decide_eq_false_2 (normalizeArch machine = [])) by done. cbn [orb].
  rewrite (inked_line (b64_encode _ _)) by done. rewrite (bool_decide_eq_true_2 (b64_encode true (cmdline_of argv) ≠ [])) by done.
  rewrite b64_roundtrip by by apply cmdline_bytes. rewrite (argv_read argv a) by done. by rewrite bool_decide_eq_false_2.
Qed.

(** An empty last argument is lost: of a share started with an empty root, as one
    without a limit, the probe says that the value is missing. *)
Theorem empty_last_argument :
  let argv := map bytes_of ["remote"; "share"; "--root"; ""]%string in
  cmdline_argv (cmdline_of argv) = map bytes_of ["remote"; "share"; "--root"]%string ∧
  StageRoot (lit "linux") argv (lit "/srv") = Ok (lit "/srv", false) ∧
  parseLinuxProbeOutput (script_output 4711 (lit "/opt/remote") (lit "/srv") (lit "Linux") (lit "x86_64") (lit "/tmp") argv) []
    = Err (ProbeFlags (MissingValue (lit "--root"))).
Proof. by vm_compute. Qed.

Lemma probe_reads_process_witness :
  parseLinuxProbeOutput (script_output 4711 (lit "/opt/remote") (lit "/srv") (lit "Linux") (lit "aarch64") (lit "/tmp")
      (map bytes_of ["remote"; "share"; "--root=a b"]%string)) (lit "v1.0.0") =
    match StageRoot (lit "linux") (map bytes_of ["remote"; "share"; "--root=a b"]%string) (lit "/srv") with
    | Ok (root, explicit) => Ok (mkProbe 4711 (lit "/opt/remote") (lit "/srv") (lit "linux") (normalizeArch (lit "aarch64")) (lit "v1.0.0")
        (map bytes_of ["remote"; "share"; "--root=a b"]%string) root explicit (lit "/tmp"))
    | Err e => Err (ProbeFlags e)
    end.
Proof.
  apply (probe_reads_process 4711 (lit "/opt/remote") (lit "/srv") (lit "Linux") (lit "aarch64") (lit "/tmp") _ (lit "--root=a b"));
    [lia| |done|done|by vm_compute|by vm_compute|done|done|].
  - repeat constructor; by_compute.
  - unfold arg_bytes, is_byte. by_compute.
Defined.
