(* ===== verification/GuiServer.v ===== *)
(** * The server of the GUI (src/internal/gui/server.go)

    The GUI is a local web server.  It keeps one child process, the MCP server of
    [remote help], through which the pages reach the remote machine.  Requests to
    connect, to disconnect and to call tools run at the same time; a guard
    goroutine waits for the child to end and connects again; an upgrade
    ([GuiUpgrade]) may be under way.  A goroutine is a program counter, and a step
    takes it from one section under [s.mu], one call of the child or one broadcast
    to the next, so that the goroutines interleave as the code lets them. *)

From S2P Require Import Prelude GoNet GoText CryptoTofu StunCandidates UpgradeFlags GuiUpgradeText GuiUpgrade.

Open Scope Z_scope.

(** ** Who may ask *)

Definition isLoopbackName (h : gostring) : bool :=
  let h := TrimSuffix (lit "]") (TrimPrefix (lit "[") h) in
  if bool_decide (h = lit "localhost") then true
  else match ParseIP (string_of h) with Some ip => CryptoTofu.IsLoopback ip | None => false end.

Definition loopbackHost (host : gostring) : bool :=
  let h := match SplitHostPort (string_of host) with Some (h, _) => bytes_of h | None => host end in
  isLoopbackName h.

(** What the guard looks at: the Host header, the path, the headers Origin and
    X-Auth-Token and the parameter [token], empty when they are missing. *)
Record Request := mkRequest {
  rq_Host : gostring;
  rq_Path : gostring;
  rq_Origin : gostring;
  rq_AuthToken : gostring;
  rq_QueryToken : gostring
}.

Inductive Route :=
| RIndex | RConnect | RCall | RExecStream | RDisconnect | REvents | RDownload | RPreview | RStatus | RUpgrade.

(** [http.ServeMux]: the pattern / takes what no other takes. *)
Definition Routes (path : gostring) : Route :=
  if bool_decide (path = lit "/api/connect") then RConnect
  else if bool_decide (path = lit "/api/call") then RCall
  else if bool_decide (path = lit "/api/exec/stream") then RExecStream
  else if bool_decide (path = lit "/api/disconnect") then RDisconnect
  else if bool_decide (path = lit "/api/events") then REvents
  else if bool_decide (path = lit "/api/download") then RDownload
  else if bool_decide (path = lit "/api/preview") then RPreview
  else if bool_decide (path = lit "/api/status") then RStatus
  else if bool_decide (path = lit "/api/upgrade") then RUpgrade
  else RIndex.

Section guard.
(** The host name of a URL, when [url.Parse] takes it. *)
Context (Hostname : gostring → option gostring).

Definition loopbackOrigin (origin : gostring) : bool :=
  match Hostname origin with Some h => isLoopbackName h | None => false end.

Definition tokenOK (token : gostring) (r : Request) : bool :=
  let got := if bool_decide (rq_AuthToken r = []) then rq_QueryToken r else rq_AuthToken r in
  bool_decide (got = token).

(** The handler that serves a request, when it is served. *)
Definition guard (token : gostring) (r : Request) : option Route :=
  if negb (loopbackHost (rq_Host r)) then None
  else if bool_decide (rq_Origin r ≠ []) && negb (loopbackOrigin (rq_Origin r)) then None
  else if bool_decide (rq_Path r ≠ lit "/") && negb (tokenOK token r) then None
  else Some (Routes (rq_Path r)).
End guard.

Definition handleIndex (path : gostring) : Z := if bool_decide (path = lit "/") then 200 else 404.

(** ** The state *)

(** What the user asks for when connecting. *)
Record Params := mkParams { pa_Code : gostring; pa_Server : gostring; pa_NoAuth : bool; pa_MinProto : gostring }.

(** A child process: [Done] is closed once its output has ended or [Close] has
    collected it. *)
Record Child := mkChild { ch_args : list gostring; ch_done : bool; ch_closed : bool }.
#[export] Instance Eta_Child : Eta Child := fun r => mkChild (ch_args r) (ch_done r) (ch_closed r).

(** All that the result of connect says. *)
Record ServerMeta := mkServerMeta {
  sm_meta : connectMetadata;
  sm_HelpVersion : gostring;
  sm_SessionID : gostring;
  sm_P2P : bool;
  sm_ProtoVersion : gostring
}.

(** [sv_gui] has the fields that an upgrade works with too; the children are the
    processes started so far, a client is the index of one. *)
Record Server := mkServer {
  sv_gui : Gui;
  sv_client : option nat;
  sv_connGen : Z;
  sv_helpVersion : gostring;
  sv_sessionID : gostring;
  sv_p2p : bool;
  sv_protoVersion : gostring;
  sv_connectedAt : Z;
  sv_guardStarted : bool;
  sv_children : list Child;
  sv_sseSubs : gmap nat (list gostring)
}.
#[export] Instance Eta_Server : Eta Server := fun r =>
  mkServer (sv_gui r) (sv_client r) (sv_connGen r) (sv_helpVersion r) (sv_sessionID r) (sv_p2p r) (sv_protoVersion r)
    (sv_connectedAt r) (sv_guardStarted r) (sv_children r) (sv_sseSubs r).

Definition NewServer (defaultServer : gostring) : Server :=
  mkServer (mkGui false false [] [] false [] [] [] [] defaultServer) None 0 [] [] false [] time_zero false [] ∅.

Definition sv_connected (s : Server) : bool := g_connected (sv_gui s).
Definition set_connected (b : bool) (s : Server) : Server := s <| sv_gui := (sv_gui s) <| g_connected := b |> |>.
Definition last_params (s : Server) : Params :=
  mkParams (g_lastCode (sv_gui s)) (g_lastServer (sv_gui s)) (g_lastNoAuth (sv_gui s)) (g_lastMinProto (sv_gui s)).

(** [recordConnectMetadata]: [meta] is what the result of connect decodes to. *)
Definition record_metadata (meta : option ServerMeta) (p : Params) (now : Z) (s : Server) : Server :=
  match meta with
  | None =>
      s <| sv_gui := (sv_gui s) <| g_lastCode := pa_Code p |> <| g_lastServer := pa_Server p |>
                       <| g_lastNoAuth := pa_NoAuth p |> <| g_lastMinProto := pa_MinProto p |> |>
  | Some m =>
      s <| sv_gui := GuiUpgrade.recordConnectMetadata (sm_meta m) (pa_Code p) (pa_Server p) (pa_NoAuth p) (pa_MinProto p) (sv_gui s) |>
        <| sv_helpVersion := sm_HelpVersion m |> <| sv_sessionID := sm_SessionID m |> <| sv_p2p := sm_P2P m |>
        <| sv_protoVersion := sm_ProtoVersion m |> <| sv_connectedAt := now |>
  end.

(** The fields that markConnectionLost and handleDisconnect clear. *)
Definition clear_metadata (s : Server) : Server :=
  s <| sv_gui := GuiUpgrade.markConnectionLost (sv_gui s) |> <| sv_helpVersion := [] |> <| sv_sessionID := [] |>
    <| sv_p2p := false |> <| sv_protoVersion := [] |> <| sv_connectedAt := time_zero |>.

(** [client.Close]: the process is collected, [done] is closed. *)
Definition close_child (c : nat) (s : Server) : Server :=
  s <| sv_children := alter (fun ch => ch <| ch_done := true |> <| ch_closed := true |>) c (sv_children s) |>.

Definition NewMCPClient (args : list gostring) (s : Server) : nat * Server :=
  (length (sv_children s),
   s <| sv_children := sv_children s ++ [mkChild ([lit "help"; lit "--mcp-stdio"] ++ args) false false] |>).

Definition spawnArgs (server : gostring) (s : Server) : list gostring :=
  if bool_decide (server ≠ []) then [lit "--server"; server]
  else if bool_decide (g_defaultServer (sv_gui s) ≠ []) then [lit "--server"; g_defaultServer (sv_gui s)]
  else [].

Definition sse_depth : nat := 16.

(** A page that does not keep up misses the message. *)
Definition broadcast (msg : gostring) (s : Server) : Server :=
  s <| sv_sseSubs := (fun q => if (length q <? sse_depth)%nat then q ++ [msg] else q) <$> sv_sseSubs s |>.

(** The section of markConnectionLost; the broadcast is a step of its own. *)
Definition markConnectionLost (c : nat) (s : Server) : bool * Server :=
  if bool_decide (sv_client s = Some c) then (true, clear_metadata s) else (false, s).

Definition upgrading_refusal : gostring := lit "share 正在升级，请等待当前操作完成".

(** The answer, when the request is rejected. *)
Definition rejectWhileUpgrading (s : Server) : option (Z * gostring) :=
  if g_upgrading (sv_gui s) then Some (409, upgrading_refusal) else None.

(** ** Connecting *)

(** The answer to a request: a status and an error, none when it went well. *)
Definition http_answer : Type := Z * option gostring.

(** What the surroundings do in a step: an operation works, fails, or connect
    has a result; [now] is the clock. *)
Inductive Outcome :=
| OGo (now : Z)
| OErr (e : gostring)
| OResult (meta : option ServerMeta).

Inductive ConnectPc :=
| KEnter (method : gostring) (body : result gostring Params)
| KParse (method : gostring) (body : result gostring Params)
| KSection (p : Params)
| KSpawn (p : Params)
| KInit (p : Params) (c : nat)
| KInitFailed (c : nat) (e : gostring)
| KCall (p : Params) (c : nat)
| KRefused (c : nat) (e : gostring)
| KConnected (p : Params) (c : nat) (meta : option ServerMeta)
| KAnnounce
| KReplied (a : http_answer).

(** The first section of handleConnect. *)
Definition connect_section (s : Server) : Server :=
  let s := match sv_client s with
           | Some c => set_connected false (close_child c s <| sv_client := None |>)
           | None => s
           end in
  s <| sv_connGen := wrap 64 (sv_connGen s + 1) |>.

(** The last one, when connect has failed and when it has worked. *)
Definition connect_refused (c : nat) (s : Server) : Server := set_connected false (s <| sv_client := Some c |>).
Definition connect_publish (p : Params) (c : nat) (meta : option ServerMeta) (now : Z) (s : Server) : Server :=
  record_metadata meta p now (set_connected true (s <| sv_client := Some c |>)) <| sv_guardStarted := true |>.

(** A goroutine of handleConnect goes on.  The result says whether the guard is
    started. *)
Definition handleConnect (o : Outcome) (pc : ConnectPc) (s : Server) : option (ConnectPc * Server * bool) :=
  let to pc s := Some (pc, s, false) in
  match pc, o with
  | KEnter m b, OGo _ =>
      match rejectWhileUpgrading s with Some (st, e) => to (KReplied (st, Some e)) s | None => to (KParse m b) s end
  | KParse m b, OGo _ =>
      if bool_decide (m ≠ lit "POST") then to (KReplied (405, Some (lit "method not allowed"))) s
      else match b with Err e => to (KReplied (400, Some e)) s | Ok p => to (KSection p) s end
  | KSection p, OGo _ => to (KSpawn p) (connect_section s)
  | KSpawn p, OErr e => to (KReplied (500, Some e)) s
  | KSpawn p, OGo _ => let '(c, s) := NewMCPClient (spawnArgs (pa_Server p) s) s in to (KInit p c) s
  | KInit p c, OErr e => to (KInitFailed c e) s
  | KInit p c, OGo _ => to (KCall p c) s
  | KInitFailed c e, OGo _ => to (KReplied (500, Some (lit "initialize failed: " ++ e))) (close_child c s)
  | KCall p c, OErr e => to (KRefused c e) s
  | KCall p c, OResult meta => to (KConnected p c meta) s
  | KRefused c e, OGo _ => to (KReplied (400, Some (lit "connect failed: " ++ e))) (connect_refused c s)
  | KConnected p c meta, OGo now => Some (KAnnounce, connect_publish p c meta now s, negb (sv_guardStarted s))
  | KAnnounce, OGo _ => to (KReplied (200, None)) (broadcast (lit "event: connected" ++ [10]) s)
  | _, _ => None
  end.

(** ** Disconnecting *)

Inductive DisconnectPc := DEnter | DSection | DAnnounce | DReplied (a : http_answer).

Definition disconnect_section (s : Server) : Server :=
  let s := s <| sv_connGen := wrap 64 (sv_connGen s + 1) |> in
  match sv_client s with Some c => clear_metadata (close_child c s <| sv_client := None |>) | None => s end.

Definition handleDisconnect (pc : DisconnectPc) (s : Server) : option (DisconnectPc * Server) :=
  match pc with
  | DEnter => match rejectWhileUpgrading s with Some (st, e) => Some (DReplied (st, Some e), s) | None => Some (DSection, s) end
  | DSection => Some (DAnnounce, disconnect_section s)
  | DAnnounce => Some (DReplied (200, None), broadcast (lit "event: disconnected" ++ [10]) s)
  | DReplied _ => None
  end.

(** ** The guard of the child *)

(** In seconds. *)
Definition backoff : list Z := [1; 2; 3; 4; 5; 5].

(** [G...] at an attempt: its number, the parameters and the generation read
    when the child was lost. *)
Inductive GuardPc :=
| GOff
| GTop
| GWait (c : nat)
| GLock (c : nat)
| GReap (c : nat) (wasConnected : bool) (p : Params) (gen : Z)
| GGone
| GReconnecting (p : Params) (gen : Z)
| GBackoff (n : nat) (p : Params) (gen : Z)
| GTry (n : nat) (p : Params) (gen : Z)
| GSpawn (n : nat) (p : Params) (gen : Z)
| GInit (n : nat) (p : Params) (gen : Z) (c : nat)
| GCall (n : nat) (p : Params) (gen : Z) (c : nat)
| GDiscard (n : nat) (p : Params) (gen : Z) (c : nat)
| GInstall (n : nat) (p : Params) (gen : Z) (c : nat) (meta : option ServerMeta)
| GSuperseded (c : nat)
| GBack
| GFailed (n : nat) (p : Params) (gen : Z)
| GLost.

(** The section in which a lost child is given up. *)
Definition guard_section (c : nat) (s : Server) : GuardPc * Server :=
  if bool_decide (sv_client s ≠ Some c) then (GTop, s)
  else (GReap c (sv_connected s) (last_params s) (sv_connGen s), set_connected false s <| sv_client := None |>).

(** [tryReconnect]: from [GTry] to [reconnectFailed] ([GFailed]), [reconnectOK]
    ([GBack]) or [reconnectSuperseded] (the top of the guard's loop). *)
Definition tryReconnect (o : Outcome) (pc : GuardPc) (s : Server) : option (GuardPc * Server) :=
  match pc, o with
  | GTry n p gen, OGo _ => Some (if bool_decide (sv_connGen s ≠ gen) then GTop else GSpawn n p gen, s)
  | GSpawn n p gen, OErr _ => Some (GFailed n p gen, s)
  | GSpawn n p gen, OGo _ => let '(c, s) := NewMCPClient (spawnArgs (pa_Server p) s) s in Some (GInit n p gen c, s)
  | GInit n p gen c, OErr _ => Some (GDiscard n p gen c, s)
  | GInit n p gen c, OGo _ => Some (GCall n p gen c, s)
  | GCall n p gen c, OErr _ => Some (GDiscard n p gen c, s)
  | GCall n p gen c, OResult meta => Some (GInstall n p gen c meta, s)
  | GDiscard n p gen c, OGo _ => Some (GFailed n p gen, close_child c s)
  | GInstall n p gen c meta, OGo now =>
      if bool_decide (sv_connGen s ≠ gen) then Some (GSuperseded c, s)
      else Some (GBack, record_metadata meta p now (set_connected true (s <| sv_client := Some c |>)))
  | GSuperseded c, OGo _ => Some (GTop, close_child c s)
  | GBack, OGo _ => Some (GTop, broadcast (lit "event: connected" ++ [10]) s)
  | _, _ => None
  end.

Definition retry_message (n : nat) : gostring :=
  lit "event: reconnect-fail" ++ [10] ++ lit "retry " ++ decimal (Z.of_nat n + 1) ++ lit "/" ++ decimal (Z.of_nat (length backoff)) ++ [10].

Definition guardLoop (o : Outcome) (pc : GuardPc) (s : Server) : option (GuardPc * Server) :=
  match pc, o with
  | GTop, OGo _ => Some (match sv_client s with Some c => GWait c | None => GTop end, s)
  | GWait c, OGo _ =>
      match sv_children s !! c with Some ch => if ch_done ch then Some (GLock c, s) else None | None => None end
  | GLock c, OGo _ => Some (guard_section c s)
  | GReap c was p gen, OGo _ => Some (if was then GReconnecting p gen else GGone, close_child c s)
  | GGone, OGo _ => Some (GTop, broadcast (lit "event: disconnected" ++ [10]) s)
  | GReconnecting p gen, OGo _ => Some (GBackoff 0 p gen, broadcast (lit "event: reconnecting" ++ [10]) s)
  | GBackoff n p gen, OGo _ => Some (GTry n p gen, s)
  | GFailed n p gen, OGo _ =>
      Some (if (S n <? length backoff)%nat then GBackoff (S n) p gen else GLost, broadcast (retry_message n) s)
  | GLost, OGo _ => Some (GTop, broadcast (lit "event: lost" ++ [10]) s)
  | _, _ => tryReconnect o pc s
  end.

(** ** Calling *)

(** The child a request is sent to, or the answer when there is none
    (handleCall, and handleExecStream and stageRemoteFile alike). *)
Definition call_target (s : Server) : result http_answer nat :=
  match rejectWhileUpgrading s with
  | Some (st, e) => Err (st, Some e)
  | None => match sv_connected s, sv_client s with
            | true, Some c => Ok c
            | _, _ => Err (400, Some (lit "not connected; call /api/connect first"))
            end
  end.

(** What handleStatus reports without asking the remote machine, and the child
    it then asks. *)
Record Status := mkStatus {
  st_connected : bool; st_server : gostring; st_session_id : gostring; st_peer_host : gostring; st_peer_version : gostring;
  st_help_version : gostring; st_p2p : bool; st_proto_version : gostring; st_connected_seconds : option Z
}.
Definition handleStatus (now : Z) (s : Server) : Status * option nat :=
  (mkStatus (sv_connected s) (g_effectiveSrv (sv_gui s)) (sv_sessionID s) (g_peerHost (sv_gui s)) (g_peerVersion (sv_gui s))
     (sv_helpVersion s) (sv_p2p s) (sv_protoVersion s)
     (if bool_decide (sv_connectedAt s = time_zero) then None else Some (Z.quot (now - sv_connectedAt s) Second)),
   if sv_connected s then sv_client s else None).

(** ** What the pages hear *)

(** [upgradeProgress]: the message it broadcasts. *)
Definition progress_message (message : gostring) : gostring :=
  lit "event: upgrade-progress" ++ [10] ++ lit "data: " ++ map (fun b => if bool_decide (b = 13 ∨ b = 10) then 32 else b) message ++ [10].

(** handleEvents: a page subscribes, takes the messages, and leaves. *)
Definition subscribe (k : nat) (s : Server) : Server := s <| sv_sseSubs := <[k := []]> (sv_sseSubs s) |>.
Definition unsubscribe (k : nat) (s : Server) : Server := s <| sv_sseSubs := delete k (sv_sseSubs s) |>.
Definition next_message (k : nat) (s : Server) : option (gostring * Server) :=
  match sv_sseSubs s !! k with
  | Some (m :: q) => Some (m ++ [10; 10], s <| sv_sseSubs := <[k := q]> (sv_sseSubs s) |>)
  | _ => None
  end.

(** ** The whole *)

(** An upgrade, as the rest of the server sees it: it sets [upgrading], takes the
    client it finds, may mark it lost, and may go over to a new share. *)
Inductive UpgradePc := UIdle | USnapshot | URunning (c : nat) | ULost (c : nat) | UOpen | UAnnounce | UEnding.

Record System := mkSystem {
  gs_server : Server;
  gs_connects : list ConnectPc;
  gs_disconnects : list DisconnectPc;
  gs_guard : GuardPc;
  gs_upgrade : UpgradePc
}.
#[export] Instance Eta_System : Eta System := fun r =>
  mkSystem (gs_server r) (gs_connects r) (gs_disconnects r) (gs_guard r) (gs_upgrade r).

(** What handleUpgrade does next where it has a choice. *)
Inductive UpgradeAct := AGo | AMarkLost | AProgress (message : gostring) | ASwitch (p : Params) (meta : ServerMeta) (now : Z) | AReturn.

Inductive Event :=
| EConnect (method : gostring) (body : result gostring Params)
| EDisconnect
| EConnectStep (i : nat) (o : Outcome)
| EDisconnectStep (i : nat)
| EGuard (o : Outcome)
| EDie (c : nat)
| EUpgrade (a : UpgradeAct)
| ESubscribe (k : nat)
| EUnsubscribe (k : nat)
| ENextMessage (k : nat).

(** The steps of handleUpgrade that touch the server. *)
Definition upgrade_snapshot (s : Server) : UpgradePc :=
  match sv_connected s, sv_client s with
  | true, Some c => if g_lastNoAuth (sv_gui s) then UEnding else URunning c
  | _, _ => UEnding
  end.
Definition upgrade_switch (c : nat) (p : Params) (meta : ServerMeta) (now : Z) (s : Server) : Server :=
  if bool_decide (sv_client s = Some c) then record_metadata (Some meta) p now (set_connected true s) else s.
Definition set_upgrading (b : bool) (s : Server) : Server := s <| sv_gui := (sv_gui s) <| g_upgrading := b |> |>.

Definition upgrade_step (a : UpgradeAct) (pc : UpgradePc) (s : Server) : option (UpgradePc * Server) :=
  match pc, a with
  | UIdle, AGo => if g_upgrading (sv_gui s) then None else Some (USnapshot, set_upgrading true s)
  | USnapshot, AGo => Some (upgrade_snapshot s, s)
  | URunning c, AProgress m => Some (URunning c, broadcast (progress_message m) s)
  | URunning c, AMarkLost => let '(lost, s) := markConnectionLost c s in Some (if lost then ULost c else URunning c, s)
  | ULost c, AGo => Some (URunning c, broadcast (lit "event: lost" ++ [10]) s)
  | URunning c, ASwitch p meta now => Some (UOpen, upgrade_switch c p meta now s)
  | UOpen, AGo => Some (UAnnounce, set_upgrading false s)
  | UAnnounce, AGo => Some (UEnding, broadcast (lit "event: connected" ++ [10]) s)
  | URunning c, AReturn => Some (UEnding, s)
  | UEnding, AGo => Some (UIdle, set_upgrading false s)
  | _, _ => None
  end.

Definition die (c : nat) (s : Server) : Server :=
  s <| sv_children := alter (fun ch => ch <| ch_done := true |>) c (sv_children s) |>.

Definition exec (e : Event) (s : System) : option System :=
  let srv := gs_server s in
  match e with
  | EConnect m b => Some (s <| gs_connects := gs_connects s ++ [KEnter m b] |>)
  | EDisconnect => Some (s <| gs_disconnects := gs_disconnects s ++ [DEnter] |>)
  | EConnectStep i o =>
      pc ← gs_connects s !! i;
      '(pc', srv', start) ← handleConnect o pc srv;
      Some (s <| gs_server := srv' |> <| gs_connects := <[i := pc']> (gs_connects s) |>
              <| gs_guard := if start : bool then GTop else gs_guard s |>)
  | EDisconnectStep i =>
      pc ← gs_disconnects s !! i;
      '(pc', srv') ← handleDisconnect pc srv;
      Some (s <| gs_server := srv' |> <| gs_disconnects := <[i := pc']> (gs_disconnects s) |>)
  | EGuard o => '(pc, srv') ← guardLoop o (gs_guard s) srv; Some (s <| gs_server := srv' |> <| gs_guard := pc |>)
  | EDie c => Some (s <| gs_server := die c srv |>)
  | EUpgrade a =>
      '(u, srv') ← upgrade_step a (gs_upgrade s) srv; Some (s <| gs_server := srv' |> <| gs_upgrade := u |>)
  | ESubscribe k => match sv_sseSubs srv !! k with None => Some (s <| gs_server := subscribe k srv |>) | Some _ => None end
  | EUnsubscribe k => Some (s <| gs_server := unsubscribe k srv |>)
  | ENextMessage k => '(_, srv') ← next_message k srv; Some (s <| gs_server := srv' |>)
  end.

Fixpoint exec_all (es : list Event) (s : System) : option System :=
  match es with
  | [] => Some s
  | e :: es => match exec e s with Some s' => exec_all es s' | None => None end
  end.

Definition gui_start (defaultServer : gostring) : System := mkSystem (NewServer defaultServer) [] [] GOff UIdle.
