(* ===== verification/GuiServerThms.v ===== *)
(** * The server of the GUI: its children, its guard, its users

    Who holds which child process, that a disconnection lasts, that a lost
    connection comes back, and what goes wrong when connects overlap
    ([no_child_left_behind], [disconnect_lasts], [lost_connection_returns],
    [disconnect_undone], [overlapping_connects_leak]). *)

From S2P Require Import Prelude GoNet GoText UpgradeFlags GuiUpgradeText GuiUpgrade GuiServer.

Open Scope Z_scope.

(** ** Who holds a child *)

Definition conn_child (pc : ConnectPc) : option nat :=
  match pc with KInit _ c | KInitFailed c _ | KCall _ c | KRefused c _ | KConnected _ c _ => Some c | _ => None end.
Definition guard_child (pc : GuardPc) : option nat :=
  match pc with
  | GReap c _ _ _ | GInit _ _ _ c | GCall _ _ _ c | GDiscard _ _ _ c | GInstall _ _ _ c _ | GSuperseded c => Some c
  | _ => None
  end.
Definition holds (c : nat) (o : option nat) : nat := if decide (o = Some c) then 1 else 0.

Definition held (c : nat) (s : System) : nat :=
  holds c (sv_client (gs_server s)) + total (λ pc, holds c (conn_child pc)) (gs_connects s) + holds c (guard_child (gs_guard s)).

Definition open_in (cs : list Child) (c : nat) : nat :=
  match cs !! c with Some ch => if ch_closed ch then 0 else 1 | None => 0 end.
Notation opened c s := (open_in (sv_children (gs_server s)) c).

Lemma holds_None c : holds c None = 0%nat. Proof. by unfold holds; case_decide. Qed.
Lemma holds_refl c : holds c (Some c) = 1%nat. Proof. unfold holds. by rewrite decide_True. Qed.
Lemma holds_le c o : (holds c o ≤ 1)%nat. Proof. unfold holds. case_decide; lia. Qed.
Lemma holds_pos c o : holds c o ≠ 0%nat → o = Some c. Proof. unfold holds. by case_decide. Qed.

Lemma open_close cs f c' c :
  (∀ ch, ch_closed (f ch) = true) → open_in (alter f c' cs) c = if decide (c = c') then 0%nat else open_in cs c.
Proof.
  intros Hf. unfold open_in. destruct (decide (c = c')) as [->|Hne].
  - rewrite list_lookup_alter_eq. destruct (cs !! c'); [|done]. simpl. by rewrite Hf.
  - by rewrite list_lookup_alter_ne.
Qed.

Lemma open_die cs f c' c : (∀ ch, ch_closed (f ch) = ch_closed ch) → open_in (alter f c' cs) c = open_in cs c.
Proof.
  intros Hf. unfold open_in. destruct (decide (c = c')) as [->|Hne].
  - rewrite list_lookup_alter_eq. destruct (cs !! c'); [|done]. simpl. by rewrite Hf.
  - by rewrite list_lookup_alter_ne.
Qed.

Lemma open_new cs ch c : ch_closed ch = false → open_in (cs ++ [ch]) c = if decide (c = length cs) then 1%nat else open_in cs c.
Proof.
  intros Hc. unfold open_in. destruct (decide (c = length cs)) as [->|Hne].
  - rewrite lookup_app_r, Nat.sub_diag by lia. simpl. by rewrite Hc.
  - destruct (decide (c < length cs)%nat).
    + by rewrite lookup_app_l.
    + rewrite lookup_app_r, (lookup_ge_None_2 cs c) by lia. destruct (c - length cs)%nat eqn:E; [lia|done].
Qed.

Lemma open_bounds cs c : (open_in cs c ≤ 1)%nat ∧ ((length cs ≤ c)%nat → open_in cs c = 0%nat).
Proof. unfold open_in. split; [repeat case_match; lia|]. intros H. by rewrite lookup_ge_None_2. Qed.

(** What the operations do to the client, the generation and the children. *)
Lemma record_same meta p now s :
  sv_client (record_metadata meta p now s) = sv_client s ∧ sv_connGen (record_metadata meta p now s) = sv_connGen s
  ∧ sv_children (record_metadata meta p now s) = sv_children s ∧ sv_guardStarted (record_metadata meta p now s) = sv_guardStarted s
  ∧ sv_connected (record_metadata meta p now s) = sv_connected s ∧ sv_sseSubs (record_metadata meta p now s) = sv_sseSubs s
  ∧ last_params (record_metadata meta p now s) = p.
Proof. destruct meta, p; done. Qed.

(** What a step does to the client, to the child [m] the goroutine that moves
    holds, and to the children. *)
Inductive move : option nat → option nat → list Child → option nat → option nat → list Child → Prop :=
| MKeep cl m cs cs' : (∀ c, open_in cs' c = open_in cs c) → move cl m cs cl m cs'
| MSpawn cl cs ch : ch_closed ch = false → move cl None cs cl (Some (length cs)) (cs ++ [ch])
| MClose cl c cs cs' : (∀ c', open_in cs' c' = if decide (c' = c) then 0%nat else open_in cs c') → move cl (Some c) cs cl None cs'
| MPut cl c cs : move cl (Some c) cs (Some c) None cs
| MTake c cs : move (Some c) None cs None (Some c) cs
| MCut c m cs cs' : (∀ c', open_in cs' c' = if decide (c' = c) then 0%nat else open_in cs c') → move (Some c) m cs None m cs'.

Lemma move_held cl m cs cl' m' cs' (rest : nat → nat) :
  move cl m cs cl' m' cs' → (∀ c, holds c cl + rest c + holds c m ≤ open_in cs c)%nat →
  ∀ c, (holds c cl' + rest c + holds c m' ≤ open_in cs' c)%nat.
Proof.
  intros Hm H c. specialize (H c). pose proof (holds_le c cl) as B1. pose proof (holds_le c m) as B2.
  pose proof (open_bounds cs c) as [B3 B4]. destruct Hm as [? ? ? ? E|? ? ch Hch|? c0 ? ? E|? c0 ?|c0 ?|c0 ? ? ? E]; rewrite ?E; rewrite ?holds_None in *.
  - lia.
  - rewrite open_new by done. unfold holds in *. repeat case_decide; simplify_eq; try lia.
  - unfold holds in *. repeat case_decide; simplify_eq; lia.
  - unfold holds in *. repeat case_decide; simplify_eq; lia.
  - lia.
  - unfold holds in *. repeat case_decide; simplify_eq; lia.
Qed.

(** Nothing is lost either, as long as no client is overwritten. *)
Lemma move_held_eq cl m cs cl' m' cs' (rest : nat → nat) :
  move cl m cs cl' m' cs' → (∀ c, holds c cl + rest c + holds c m = open_in cs c)%nat →
  (cl' ≠ cl → is_Some cl' → cl = None) →
  ∀ c, (holds c cl' + rest c + holds c m' = open_in cs' c)%nat.
Proof.
  intros Hm H Hput c. specialize (H c). pose proof (holds_le c cl) as B1. pose proof (holds_le c m) as B2.
  pose proof (open_bounds cs c) as [B3 B4]. destruct Hm as [? ? ? ? E|? ? ch Hch|? c0 ? ? E|cl0 c0 ?|c0 ?|c0 ? ? ? E]; rewrite ?E; rewrite ?holds_None in *.
  - lia.
  - rewrite open_new by done. unfold holds in *. repeat case_decide; simplify_eq; try lia.
  - unfold holds in *. repeat case_decide; simplify_eq; lia.
  - destruct (decide (cl0 = Some c0)) as [->|Hne].
    + unfold holds in *. repeat case_decide; simplify_eq; lia.
    + rewrite Hput in H by (done || congruence). rewrite holds_None in H. lia.
  - lia.
  - unfold holds in *. repeat case_decide; simplify_eq; lia.
Qed.

(** ** The steps as moves *)

Notation moves pc_child pc s pc' s' :=
  (move (sv_client s) (pc_child pc) (sv_children s) (sv_client s') (pc_child pc') (sv_children s')).

Lemma keep_refl cl m cs : move cl m cs cl m cs. Proof. by apply MKeep. Qed.
#[local] Hint Resolve keep_refl MPut MTake : core.

Lemma close_move c cl s : move cl (Some c) (sv_children s) cl None (sv_children (close_child c s)).
Proof. apply MClose. intros c'. by apply open_close. Qed.

Lemma cut_move c m s : move (Some c) m (sv_children s) None m (sv_children (close_child c s)).
Proof. apply MCut. intros c'. by apply open_close. Qed.

Lemma connect_move o pc s pc' s' b :
  handleConnect o pc s = Some (pc', s', b) → moves conn_child pc s pc' s'.
Proof.
  destruct pc, o; simpl; try done; intros H;
    repeat (case_match; simplify_eq/=); simplify_eq/=;
    unfold connect_section, connect_publish, connect_refused; try apply keep_refl.
  - destruct (sv_client s) eqn:Ec; [apply (cut_move _ None s)|]. rewrite <- Ec. apply keep_refl.
  - by apply MSpawn.
  - apply (close_move c (sv_client s) s).
  - apply MPut.
  - destruct meta; apply MPut.
Qed.

Lemma connect_starts o pc s pc' s' : handleConnect o pc s = Some (pc', s', true) → sv_guardStarted s = false.
Proof. destruct pc, o; simpl; try done; intros H; repeat (case_match; simplify_eq/=); simplify_eq/=. by apply negb_true_iff. Qed.

Lemma disconnect_move pc s pc' s' m :
  handleDisconnect pc s = Some (pc', s') → move (sv_client s) m (sv_children s) (sv_client s') m (sv_children s').
Proof.
  destruct pc; simpl; intros H; repeat (case_match; simplify_eq/=); simplify_eq/=; try apply keep_refl.
  unfold disconnect_section. cbn. destruct (sv_client s) eqn:Ec; [apply (cut_move _ m s)|]. cbn. rewrite Ec. apply keep_refl.
Qed.

Lemma guard_move o pc s pc' s' : guardLoop o pc s = Some (pc', s') → moves guard_child pc s pc' s'.
Proof.
  destruct pc, o; simpl; try done; intros H;
    unfold guard_section in *;
    repeat (case_match; simplify_eq/=); simplify_eq/=; try apply keep_refl.
  - rewrite H0. apply keep_refl.
  - rewrite H0. apply keep_refl.
  - apply bool_decide_eq_false_1, dec_stable in H0. rewrite H0. apply MTake.
  - apply (close_move c (sv_client s) s).
  - apply (close_move c (sv_client s) s).
  - by apply MSpawn.
  - apply (close_move c (sv_client s) s).
  - destruct meta; apply MPut.
  - apply (close_move c (sv_client s) s).
Qed.

Lemma upgrade_move a pc s pc' s' m :
  upgrade_step a pc s = Some (pc', s') → move (sv_client s) m (sv_children s) (sv_client s') m (sv_children s').
Proof.
  destruct pc, a; simpl; intros H; unfold markConnectionLost, upgrade_switch in *;
    repeat (case_match; simplify_eq/=); simplify_eq/=; apply keep_refl.
Qed.

(** The same for a step of the whole: one goroutine moves, the others hold what
    they held. *)
Definition guard_off (s : System) : Prop := sv_guardStarted (gs_server s) = false → gs_guard s = GOff.

Lemma exec_moves e s s' :
  guard_off s → exec e s = Some s' →
  ∃ m m' (rest : nat → nat),
    move (sv_client (gs_server s)) m (sv_children (gs_server s)) (sv_client (gs_server s')) m' (sv_children (gs_server s')) ∧
    (∀ c, held c s = holds c (sv_client (gs_server s)) + rest c + holds c m)%nat ∧
    (∀ c, held c s' = holds c (sv_client (gs_server s')) + rest c + holds c m')%nat.
Proof.
  intros Hoff. unfold held.
  set (rest0 := λ c : nat, (total (λ pc, holds c (conn_child pc)) (gs_connects s) + holds c (guard_child (gs_guard s)))%nat).
  assert (∀ srv', move (sv_client (gs_server s)) None (sv_children (gs_server s)) (sv_client srv') None (sv_children srv') →
    ∃ m m' (rest : nat → nat),
    move (sv_client (gs_server s)) m (sv_children (gs_server s)) (sv_client srv') m' (sv_children srv') ∧
    (∀ c, holds c (sv_client (gs_server s)) + total (λ pc, holds c (conn_child pc)) (gs_connects s) + holds c (guard_child (gs_guard s)) =
          holds c (sv_client (gs_server s)) + rest c + holds c m)%nat ∧
    (∀ c, holds c (sv_client srv') + total (λ pc, holds c (conn_child pc)) (gs_connects s) + holds c (guard_child (gs_guard s)) =
          holds c (sv_client srv') + rest c + holds c m')%nat) as Hside.
  { intros srv' Hm. exists None, None, rest0. unfold rest0. split_and!; [exact Hm|intros c; rewrite holds_None; lia..]. }
  destruct e; simpl; intros H.
  - injection H as <-. exists None, None, rest0. unfold rest0. split_and!; [apply keep_refl|intros c..]; cbn; rewrite ?total_app, holds_None; cbn; rewrite ?holds_None; lia.
  - injection H as <-. exists None, None, rest0. unfold rest0. split_and!; [apply keep_refl|intros c..]; cbn; rewrite holds_None; lia.
  - destruct (gs_connects s !! i) as [pc|] eqn:Ei; [|done]. simpl in H.
    destruct (handleConnect o pc (gs_server s)) as [[[pc' srv'] b]|] eqn:Hc; [|done]. injection H as <-.
    exists (conn_child pc), (conn_child pc'), (λ c, (total (λ pc, holds c (conn_child pc)) (<[i := KAnnounce]> (gs_connects s)) + holds c (guard_child (gs_guard s)))%nat).
    split_and!; [by eapply connect_move|intros c..].
    + pose proof (total_insert (λ pc, holds c (conn_child pc)) _ _ _ KAnnounce Ei) as T. cbn in *. rewrite holds_None in T. lia.
    + pose proof (total_insert (λ pc, holds c (conn_child pc)) _ _ _ pc' Ei) as T'.
      pose proof (total_insert (λ pc, holds c (conn_child pc)) _ _ _ KAnnounce Ei) as T. cbn in *. rewrite holds_None in T.
      assert (guard_child (if b then GTop else gs_guard s) = guard_child (gs_guard s)) as Hg.
      { destruct b; [|done]. by rewrite (Hoff (connect_starts _ _ _ _ _ Hc)). }
      rewrite Hg. lia.
  - destruct (gs_disconnects s !! i) as [pc|] eqn:Ei; [|done]. simpl in H.
    destruct (handleDisconnect pc (gs_server s)) as [[pc' srv']|] eqn:Hc; [|done]. injection H as <-.
    exists None, None, rest0. unfold rest0. split_and!; [by eapply disconnect_move|intros c; cbn; rewrite holds_None; lia..].
  - destruct (guardLoop o (gs_guard s) (gs_server s)) as [[pc' srv']|] eqn:Hc; [|done]. injection H as <-.
    exists (guard_child (gs_guard s)), (guard_child pc'), (λ c, total (λ pc, holds c (conn_child pc)) (gs_connects s)).
    split_and!; [by eapply guard_move|done..].
  - injection H as <-. apply Hside. apply MKeep. intros c0. by apply open_die.
  - destruct (upgrade_step a (gs_upgrade s) (gs_server s)) as [[u srv']|] eqn:Hc; [|done]. injection H as <-.
    exists None, None, rest0. unfold rest0. split_and!; [by eapply upgrade_move|intros c; cbn; rewrite holds_None; lia..].
  - destruct (sv_sseSubs (gs_server s) !! k) eqn:Ek; [done|]. injection H as <-. apply Hside, keep_refl.
  - injection H as <-. apply Hside, keep_refl.
  - destruct (next_message k (gs_server s)) as [[msg srv']|] eqn:Hn; [|done]. injection H as <-. apply Hside.
    unfold next_message in Hn. repeat (case_match; simplify_eq/=). apply keep_refl.
Qed.

(** ** The generations *)

Definition guard_gen (pc : GuardPc) : option Z :=
  match pc with
  | GReap _ _ _ gen | GReconnecting _ gen | GBackoff _ _ gen | GTry _ _ gen | GSpawn _ _ gen | GInit _ _ gen _
  | GCall _ _ gen _ | GDiscard _ _ gen _ | GInstall _ _ gen _ _ | GFailed _ _ gen => Some gen
  | _ => None
  end.

Definition connGen (s : System) : Z := sv_connGen (gs_server s).
Definition client (s : System) : option nat := sv_client (gs_server s).

(** Whatever overlaps. *)
Record sane (s : System) : Prop := {
  sane_gen : 0 ≤ connGen s;
  sane_guard : ∀ gen, guard_gen (gs_guard s) = Some gen → gen ≤ connGen s;
  sane_connected : sv_connected (gs_server s) = true → is_Some (client s);
  sane_off : guard_off s;
  sane_held : ∀ c, (held c s ≤ opened c s)%nat
}.

(** The handler is past its section and has not published yet. *)
Definition active (pc : ConnectPc) : bool :=
  match pc with KSpawn _ | KInit _ _ | KInitFailed _ _ | KCall _ _ | KRefused _ _ | KConnected _ _ _ => true | _ => false end.

(** What a step leaves alone. *)
Definition untouched (s s' : Server) : Prop :=
  sv_client s' = sv_client s ∧ sv_connGen s' = sv_connGen s ∧ sv_guardStarted s' = sv_guardStarted s.

(** The user's sections: the client is gone, the generation is the next one. *)
Definition cut (s s' : Server) : Prop :=
  sv_client s' = None ∧ sv_connGen s' = wrap 64 (sv_connGen s + 1) ∧ sv_guardStarted s' = sv_guardStarted s
  ∧ (sv_connected s' = true → sv_connected s = true ∧ sv_client s = None).

Lemma connect_section_cut s : cut s (connect_section s).
Proof. unfold cut, connect_section. destruct (sv_client s) eqn:E; cbn; by rewrite ?E. Qed.

Lemma disconnect_section_cut s : cut s (disconnect_section s).
Proof. unfold cut, disconnect_section. cbn. destruct (sv_client s) eqn:E; cbn; by rewrite ?E. Qed.

Lemma connect_effect o pc s pc' s' b :
  handleConnect o pc s = Some (pc', s', b) →
  (active pc = false ∧ active pc' = true ∧ cut s s' ∧ b = false) ∨
  (∃ c, active pc = true ∧ active pc' = false ∧ sv_client s' = Some c ∧ sv_connGen s' = sv_connGen s ∧
        (sv_guardStarted s' = false → sv_guardStarted s = false ∧ b = false)) ∨
  (untouched s s' ∧ sv_connected s' = sv_connected s ∧ b = false ∧ (active pc' = true → active pc = true)).
Proof.
  destruct pc, o; simpl; try done; intros H; repeat (case_match; simplify_eq/=); simplify_eq/=.
  all: try by right; right.
  - left. split_and!; auto using connect_section_cut.
  - right; left. by exists c.
  - right; left. exists c. split_and!; try done; by destruct meta.
Qed.

Lemma guard_effect o pc s pc' s' :
  guardLoop o pc s = Some (pc', s') →
  sv_guardStarted s' = sv_guardStarted s ∧ sv_connGen s' = sv_connGen s ∧ (pc' = GOff → pc = GOff) ∧
  ((is_Some (sv_client s) ∧ sv_client s' = None ∧ guard_gen pc = None ∧ guard_gen pc' = Some (sv_connGen s) ∧ sv_connected s' = false) ∨
   (∃ c, guard_gen pc = Some (sv_connGen s) ∧ guard_gen pc' = None ∧ sv_client s' = Some c) ∨
   (sv_client s' = sv_client s ∧ sv_connected s' = sv_connected s ∧ (guard_gen pc' = None ∨ guard_gen pc' = guard_gen pc))).
Proof.
  destruct pc, o; simpl; try done; intros H; unfold guard_section in *; repeat (case_match; simplify_eq/=); simplify_eq/=.
  all: try by (split_and!; [done..|right; right; auto]).
  - apply bool_decide_eq_false_1, dec_stable in H0. split_and!; [done..|]. left. by rewrite H0.
  - apply bool_decide_eq_false_1, dec_stable in H0. destruct meta; (split_and!; [done..|]); right; left; exists c; by rewrite H0.
Qed.

Lemma disconnect_effect pc s pc' s' :
  handleDisconnect pc s = Some (pc', s') →
  (pc = DSection ∧ cut s s') ∨ (untouched s s' ∧ sv_connected s' = sv_connected s).
Proof.
  destruct pc; simpl; try done; intros H; repeat (case_match; simplify_eq/=); simplify_eq/=; try by right.
  left. split; [done|]. apply disconnect_section_cut.
Qed.

Lemma upgrade_effect a pc s pc' s' :
  upgrade_step a pc s = Some (pc', s') →
  untouched s s' ∧ (sv_connected s' = true → sv_connected s = true ∨ is_Some (sv_client s)).
Proof.
  destruct pc, a; simpl; try done; intros H; unfold markConnectionLost, upgrade_switch in *;
    repeat (case_match; simplify_eq/=); simplify_eq/=; try (split; [done|by auto]).
  all: apply bool_decide_eq_true_1 in H0; rewrite H0; by split; [|eauto].
Qed.

(** The steps of the surroundings keep everything but the children's ends and
    the pages' queues. *)
Lemma next_message_same k s m s' : next_message k s = Some (m, s') → untouched s s' ∧ sv_connected s' = sv_connected s.
Proof. unfold next_message. intros H. by repeat (case_match; simplify_eq/=). Qed.

Definition actives (s : System) : nat := total (λ pc, Nat.b2n (active pc)) (gs_connects s).

(** A step, seen from outside: a user's section, a publication, the loss of the
    client, or nothing of these. *)
Inductive effect (s s' : System) : Event → Prop :=
| FCut e : cut (gs_server s) (gs_server s') → guard_gen (gs_guard s') = guard_gen (gs_guard s) → effect s s' e
| FPublish i o c :
    actives s = S (actives s') →
    client s' = Some c → connGen s' = connGen s → (guard_gen (gs_guard s') = guard_gen (gs_guard s)) → effect s s' (EConnectStep i o)
| FInstall o c : guard_gen (gs_guard s) = Some (connGen s) → guard_gen (gs_guard s') = None → client s' = Some c →
    connGen s' = connGen s → gs_connects s' = gs_connects s → effect s s' (EGuard o)
| FLose o : is_Some (client s) → client s' = None → guard_gen (gs_guard s') = Some (connGen s) → connGen s' = connGen s →
    gs_connects s' = gs_connects s → sv_connected (gs_server s') = false → effect s s' (EGuard o)
| FNothing e : client s' = client s → connGen s' = connGen s →
    (sv_connected (gs_server s') = true → sv_connected (gs_server s) = true ∨ is_Some (client s)) →
    (guard_gen (gs_guard s') = None ∨ guard_gen (gs_guard s') = guard_gen (gs_guard s)) →
    (actives s' ≤ actives s)%nat → effect s s' e.

Lemma exec_effect e s s' : guard_off s → exec e s = Some s' → guard_off s' ∧ effect s s' e.
Proof.
  intros Hoff H. unfold guard_off in *. assert (∀ a b, a = b → (a ≤ b)%nat) as Heq by lia. destruct e; simpl in H.
  - injection H as <-. split; [exact Hoff|]. apply FNothing; cbn; auto. unfold actives. cbn. rewrite total_app. cbn. lia.
  - injection H as <-. split; [exact Hoff|]. by apply FNothing; cbn; auto.
  - destruct (gs_connects s !! i) as [pc|] eqn:Ei; [|done]. simpl in H.
    destruct (handleConnect o pc (gs_server s)) as [[[pc' srv'] b]|] eqn:Hc; [|done]. injection H as <-.
    pose proof (total_insert (λ pc, Nat.b2n (active pc)) _ _ _ pc' Ei) as T. cbn in T.
    destruct (connect_effect _ _ _ _ _ _ Hc) as [(A & A' & C & ->)|[(c & A & A' & C & G & O)|((U1 & U2 & U3) & U4 & -> & A)]].
    + rewrite A, A' in T. cbn in T. split; [cbn; destruct C as (_ & _ & -> & _); exact Hoff|].
      by apply FCut.
    + rewrite A, A' in T. cbn in T. split; [cbn; intros [Hs ->]%O; auto|].
      apply (FPublish _ _ _ _ c); unfold actives; cbn; [lia|done..|]. destruct b; [|done].
      by rewrite (Hoff (connect_starts _ _ _ _ _ Hc)).
    + split; [cbn; by rewrite U3|]. apply FNothing; unfold actives; cbn; auto; [rewrite U4; auto|].
      destruct (active pc'); cbn in *; [rewrite A in T by done; cbn in T|]; lia.
  - destruct (gs_disconnects s !! i) as [pc|] eqn:Ei; [|done]. simpl in H.
    destruct (handleDisconnect pc (gs_server s)) as [[pc' srv']|] eqn:Hc; [|done]. injection H as <-.
    destruct (disconnect_effect _ _ _ _ Hc) as [[-> C]|[(U1 & U2 & U3) U4]].
    + split; [cbn; destruct C as (_ & _ & -> & _); exact Hoff|]. by apply FCut.
    + split; [cbn; by rewrite U3|]. apply FNothing; cbn; auto. rewrite U4. auto.
  - destruct (guardLoop o (gs_guard s) (gs_server s)) as [[pc' srv']|] eqn:Hc; [|done]. injection H as <-.
    destruct (guard_effect _ _ _ _ _ Hc) as (G1 & G2 & G3 & [(E1 & E2 & E3 & E4 & E5)|[(c & E1 & E2 & E3)|(E1 & E2 & E3)]]); cbn.
    all: split; [rewrite G1; intros Hs; specialize (Hoff Hs); destruct (gs_guard s); try done; by destruct o|].
    + by apply FLose.
    + by apply (FInstall _ _ _ c).
    + apply FNothing; cbn; auto. rewrite E2. auto.
  - injection H as <-. split; [exact Hoff|]. by apply FNothing; cbn; auto.
  - destruct (upgrade_step a (gs_upgrade s) (gs_server s)) as [[u srv']|] eqn:Hc; [|done]. injection H as <-.
    destruct (upgrade_effect _ _ _ _ _ Hc) as [(U1 & U2 & U3) U4]. split; [cbn; by rewrite U3|]. by apply FNothing; cbn; auto.
  - destruct (sv_sseSubs (gs_server s) !! k); [done|]. injection H as <-. split; [exact Hoff|]. by apply FNothing; cbn; auto.
  - injection H as <-. split; [exact Hoff|]. by apply FNothing; cbn; auto.
  - destruct (next_message k (gs_server s)) as [[msg srv']|] eqn:Hn; [|done]. injection H as <-.
    destruct (next_message_same _ _ _ _ Hn) as [(U1 & U2 & U3) U4]. split; [cbn; by rewrite U3|].
    apply FNothing; cbn; auto. rewrite U4. auto.
Qed.

Lemma sane_step e s s' :
  connGen s + 1 < 2 ^ 64 → exec e s = Some s' → sane s → sane s' ∧ connGen s' ≤ connGen s + 1.
Proof.
  intros Hw He [S1 S2 S3 S4 S5]. destruct (exec_effect _ _ _ S4 He) as [Hoff Hf].
  assert (∀ c, (held c s' ≤ opened c s')%nat) as Hheld.
  { destruct (exec_moves _ _ _ S4 He) as (m & m' & rest & Hm & E & E'). intros c. rewrite E'.
    apply (move_held _ _ _ _ _ _ rest Hm). intros c'. rewrite <- E. apply S5. }
  destruct Hf as [e (C1 & C2 & C3 & C4) G|i o c A C G1 G2|o c G1 G2 C G3 _|o C1 C2 G1 G2 _ C3|e C G1 C2 G2 _].
  - unfold connGen in *. rewrite C2, wrap_small by lia. split; [|lia].
    split; unfold connGen; rewrite ?C2, ?wrap_small, ?G by lia; try done; [lia|intros g Hg; apply S2 in Hg; lia|].
    intros [Hc Hn]%C4. unfold client in *. apply S3 in Hc. rewrite Hn in Hc. by destruct Hc.
  - rewrite G1. split; [|lia]. split; try done; rewrite ?G1, ?G2, ?C; eauto.
  - rewrite G3. split; [|lia]. split; try done; rewrite ?G2, ?G3, ?C; eauto; done.
  - rewrite G2. split; [|lia]. split; try done; rewrite ?G1, ?G2, ?C3; try done. intros g [= ->]. lia.
  - rewrite G1. split; [|lia]. split; try done; rewrite ?G1, ?C; try done.
    + destruct G2 as [->| ->]; done.
    + intros [?|?]%C2; auto.
Qed.

(** ** One connect at a time *)

Definition replied (pc : ConnectPc) : bool := match pc with KReplied _ => true | _ => false end.
Definition unreplied (s : System) : nat := total (λ pc, Nat.b2n (negb (replied pc))) (gs_connects s).

(** A request to connect only comes when the one before has been answered. *)
Fixpoint one_at_a_time (es : list Event) (s : System) : bool :=
  match es with
  | [] => true
  | e :: es =>
      match e with EConnect _ _ => forallb replied (gs_connects s) | _ => true end &&
      match exec e s with Some s' => one_at_a_time es s' | None => true end
  end.

Record serial (s : System) : Prop := {
  serial_sane : sane s;
  serial_one : (unreplied s ≤ 1)%nat;
  serial_active : actives s ≠ 0%nat → client s = None ∧ guard_gen (gs_guard s) ≠ Some (connGen s);
  serial_fresh : guard_gen (gs_guard s) = Some (connGen s) → client s = None;
  serial_held : ∀ c, held c s = opened c s
}.

Lemma total_zero {A} (f : A → bool) l : forallb f l = true → total (λ x, Nat.b2n (negb (f x))) l = 0%nat.
Proof. induction l as [|x l IH]; [done|]. unfold total in *. cbn. intros [-> ?]%andb_true_iff. cbn. by apply IH. Qed.

Lemma total_le {A} (f g : A → nat) l : (∀ x, (f x ≤ g x)%nat) → (total f l ≤ total g l)%nat.
Proof. intros H. induction l as [|x l IH]; [done|]. unfold total in *. cbn. specialize (H x). lia. Qed.

Lemma active_unreplied s : (actives s ≤ unreplied s)%nat.
Proof. apply total_le. intros []; cbn; lia. Qed.

Lemma unreplied_step e s s' :
  match e with EConnect _ _ => forallb replied (gs_connects s) | _ => true end = true →
  exec e s = Some s' → (unreplied s ≤ 1)%nat → (unreplied s' ≤ 1)%nat.
Proof.
  unfold unreplied. intros Hq He H. destruct e; simpl in He.
  - injection He as <-. cbn. rewrite total_app, total_zero by done. done.
  - by injection He as <-.
  - destruct (gs_connects s !! i) as [pc|] eqn:Ei; [|done]. simpl in He.
    destruct (handleConnect o pc (gs_server s)) as [[[pc' srv'] b]|] eqn:Hc; [|done]. injection He as <-. cbn.
    pose proof (total_insert (λ pc, Nat.b2n (negb (replied pc))) _ _ _ pc' Ei) as T. cbn in T.
    assert (replied pc = false) as Hr by (destruct pc; try done; by destruct o). rewrite Hr in T.
    destruct (replied pc'); cbn in T; lia.
  - destruct (gs_disconnects s !! i) as [pc|]; [|done]. simpl in He.
    destruct (handleDisconnect pc (gs_server s)) as [[pc' srv']|]; [|done]. by injection He as <-.
  - destruct (guardLoop o (gs_guard s) (gs_server s)) as [[pc' srv']|]; [|done]. by injection He as <-.
  - by injection He as <-.
  - destruct (upgrade_step a (gs_upgrade s) (gs_server s)) as [[u srv']|]; [|done]. by injection He as <-.
  - destruct (sv_sseSubs (gs_server s) !! k); [done|]. by injection He as <-.
  - by injection He as <-.
  - destruct (next_message k (gs_server s)) as [[msg srv']|]; [|done]. by injection He as <-.
Qed.

Lemma serial_step e s s' :
  connGen s + 1 < 2 ^ 64 → match e with EConnect _ _ => forallb replied (gs_connects s) | _ => true end = true →
  exec e s = Some s' → serial s → serial s'.
Proof.
  intros Hw Hq He [HS J1 J2 J3 J4]. destruct (sane_step _ _ _ Hw He HS) as [HS' _].
  pose proof (unreplied_step _ _ _ Hq He J1) as J1'. destruct (exec_effect _ _ _ (sane_off _ HS) He) as [Hoff Hf].
  pose proof (active_unreplied s') as Ha'. pose proof (active_unreplied s) as Ha.
  assert (client s' ≠ client s → is_Some (client s') → client s = None) as Hput.
  { destruct Hf as [e (C1 & _) _|i o c A C _ _|o c G1 _ C _ _|o C1 C2 _ _ _ _|e C _ _ _ _].
    - unfold client. rewrite C1. by intros _ [].
    - intros _ _. apply J2. lia.
    - intros _ _. by apply J3.
    - rewrite C2. by intros _ [].
    - by rewrite C. }
  assert (∀ c, held c s' = opened c s') as J4'.
  { destruct (exec_moves _ _ _ (sane_off _ HS) He) as (m & m' & rest & Hm & E & E'). intros c. rewrite E'.
    apply (move_held_eq _ _ _ _ _ _ rest Hm); [|exact Hput]. intros c'. rewrite <- E. apply J4. }
  split; try done; destruct Hf as [e (C1 & C2 & _) G|i o c A C G1 G2|o c G1 G2 C G3 G4|o C1 C2 G1 G2 G4 _|e C G1 _ G2 G4].
  - intros _. split; [exact C1|]. rewrite G. intros Hg. apply (sane_guard _ HS) in Hg. unfold connGen in *.
    rewrite C2, wrap_small in Hg by (pose proof (sane_gen _ HS); unfold connGen in *; lia). lia.
  - lia.
  - intros H. unfold actives in *. rewrite G4 in H. by destruct (J2 H).
  - intros H. unfold actives in *. rewrite G4 in H. destruct (J2 H) as [Hc _]. rewrite Hc in C1. by destruct C1.
  - intros H. rewrite C, G1. destruct J2 as [? Hg]; [lia|]. split; [done|]. by destruct G2 as [->| ->].
  - intros _. exact C1.
  - rewrite G2, G1, C. intros Hg. exfalso. destruct J2 as [_ Hn]; [lia|]. done.
  - rewrite G2. done.
  - done.
  - rewrite G1, C. destruct G2 as [->| ->]; [done|]. exact J3.
Qed.

(** ** Runs *)

Lemma sane_start d : sane (gui_start d).
Proof. by split. Qed.

Lemma serial_start d : serial (gui_start d).
Proof. split; [apply sane_start|cbn; auto; done..]. Qed.

Lemma sane_run es : ∀ s s',
  exec_all es s = Some s' → connGen s + Z.of_nat (length es) < 2 ^ 64 → sane s → sane s' ∧ connGen s' ≤ connGen s + Z.of_nat (length es).
Proof.
  induction es as [|e es IH]; intros s s' He Hw Hs.
  { injection He as <-. split; [done|]. cbn. lia. }
  simpl in He. destruct (exec e s) as [s1|] eqn:E; [|done]. cbn [length] in *.
  destruct (sane_step e s s1 ltac:(lia) E Hs) as [Hs1 Hg]. destruct (IH s1 s' He ltac:(lia) Hs1). split; [done|]. lia.
Qed.

Lemma serial_run es : ∀ s s',
  exec_all es s = Some s' → one_at_a_time es s = true → connGen s + Z.of_nat (length es) < 2 ^ 64 → serial s → serial s'.
Proof.
  induction es as [|e es IH]; intros s s' He Ho Hw Hs.
  { by injection He as <-. }
  simpl in He, Ho. destruct (exec e s) as [s1|] eqn:E; [|done]. cbn [length] in *. apply andb_true_iff in Ho as [Ho1 Ho2].
  destruct (sane_step e s s1 ltac:(lia) E (serial_sane _ Hs)) as [_ Hg].
  apply (IH s1); try done; [lia|]. by eapply serial_step; try done; [lia|..].
Qed.

(** C32: As long as the user does not send a second request to connect before the
    first is answered, no child process is ever forgotten.  However connects,
    disconnects, the guard's reconnections, upgrades and the deaths of children
    interleave, every child that has not been collected is held exactly once: it
    is the current client, or one handler or the guard is still to publish or to
    close it; and what they hold has not been collected.  Once the requests are
    answered and the guard holds none, the current client is the only child
    left. *)
Theorem no_child_left_behind d es s :
  exec_all es (gui_start d) = Some s → one_at_a_time es (gui_start d) = true → Z.of_nat (length es) < 2 ^ 64 →
  (∀ c ch, sv_children (gs_server s) !! c = Some ch → ch_closed ch = false → held c s = 1%nat)
  ∧ (∀ c, held c s ≠ 0%nat → ∃ ch, sv_children (gs_server s) !! c = Some ch ∧ ch_closed ch = false)
  ∧ (forallb replied (gs_connects s) = true → guard_child (gs_guard s) = None →
     ∀ c ch, sv_children (gs_server s) !! c = Some ch → ch_closed ch = false → client s = Some c).
Proof.
  intros He Ho Hw. destruct (serial_run es (gui_start d) s He Ho ltac:(cbn; lia) (serial_start d)) as [_ _ _ _ Hh].
  assert (∀ c ch, sv_children (gs_server s) !! c = Some ch → ch_closed ch = false → held c s = 1%nat) as H1.
  { intros c ch Hc Hcl. rewrite Hh. unfold open_in. by rewrite Hc, Hcl. }
  split_and!; [exact H1| |].
  - intros c Hc. rewrite Hh in Hc. unfold open_in in Hc. destruct (_ !! c) as [ch|]; [|done]. exists ch. split; [done|]. by destruct (ch_closed ch).
  - intros Hr Hg c ch Hc Hcl. specialize (H1 c ch Hc Hcl). unfold held in H1. rewrite Hg, holds_None in H1.
    assert (total (λ pc, holds c (conn_child pc)) (gs_connects s) = 0%nat) as Hz.
    { clear -Hr. induction (gs_connects s) as [|pc l IH]; [done|]. cbn in Hr. apply andb_true_iff in Hr as [Hp Hr].
      unfold total in *. cbn. rewrite IH by done. by destruct pc. }
    apply holds_pos. fold (client s) in H1. lia.
Qed.

(** ** A disconnection *)

Definition settled (pc : ConnectPc) : bool := match pc with KAnnounce | KReplied _ => true | _ => false end.
Definition is_connect (e : Event) : bool := match e with EConnect _ _ => true | _ => false end.

(** Nobody is about to connect. *)
Record off (s : System) : Prop := {
  off_sane : sane s;
  off_settled : forallb settled (gs_connects s) = true;
  off_client : client s = None;
  off_connected : sv_connected (gs_server s) = false;
  off_guard : guard_gen (gs_guard s) ≠ Some (connGen s)
}.

Lemma forallb_insert {A} (f : A → bool) l i x : forallb f l = true → f x = true → forallb f (<[i := x]> l) = true.
Proof.
  revert i. induction l as [|y l IH]; intros [|i]; cbn; [done..| |]; intros [Hy Hl]%andb_true_iff Hx; rewrite ?Hx, ?Hy; [done|].
  by apply IH.
Qed.

Lemma settled_step e s s' :
  is_connect e = false → exec e s = Some s' → forallb settled (gs_connects s) = true → forallb settled (gs_connects s') = true.
Proof.
  intros Hn He H. destruct e; simpl in He; try done.
  - by injection He as <-.
  - destruct (gs_connects s !! i) as [pc|] eqn:Ei; [|done]. simpl in He.
    destruct (handleConnect o pc (gs_server s)) as [[[pc' srv'] b]|] eqn:Hc; [|done]. injection He as <-. cbn.
    apply forallb_insert; [done|]. rewrite forallb_forall in H.
    specialize (H pc ltac:(apply list_elem_of_In; by eapply list_elem_of_lookup_2)).
    destruct pc; try done; destruct o; simpl in Hc; by simplify_eq.
  - destruct (gs_disconnects s !! i) as [pc|]; [|done]. simpl in He.
    destruct (handleDisconnect pc (gs_server s)) as [[pc' srv']|]; [|done]. by injection He as <-.
  - destruct (guardLoop o (gs_guard s) (gs_server s)) as [[pc' srv']|]; [|done]. by injection He as <-.
  - by injection He as <-.
  - destruct (upgrade_step a (gs_upgrade s) (gs_server s)) as [[u srv']|]; [|done]. by injection He as <-.
  - destruct (sv_sseSubs (gs_server s) !! k); [done|]. by injection He as <-.
  - by injection He as <-.
  - destruct (next_message k (gs_server s)) as [[msg srv']|]; [|done]. by injection He as <-.
Qed.

Lemma settled_inactive s : forallb settled (gs_connects s) = true → actives s = 0%nat.
Proof.
  unfold actives. induction (gs_connects s) as [|pc l IH]; [done|]. cbn. intros [Hp Hl]%andb_true_iff.
  unfold total in *. cbn. rewrite IH by done. by destruct pc.
Qed.

Lemma off_step e s s' : connGen s + 1 < 2 ^ 64 → is_connect e = false → exec e s = Some s' → off s → off s'.
Proof.
  intros Hw Hn He [HS O1 O2 O3 O4]. destruct (sane_step _ _ _ Hw He HS) as [HS' _].
  pose proof (settled_step _ _ _ Hn He O1) as O1'. destruct (exec_effect _ _ _ (sane_off _ HS) He) as [_ Hf].
  destruct Hf as [e (C1 & C2 & C3 & C4) G|i o c A _ _ _|o c G1 _ _ _ _|o [? C1] _ _ _ _ _|e C G1 C2 G2 _].
  - split; try done.
    + destruct (sv_connected (gs_server s')) eqn:E; [|done]. destruct (C4 eq_refl). congruence.
    + rewrite G. intros Hg. apply (sane_guard _ HS) in Hg. unfold connGen in *.
      rewrite C2, wrap_small in Hg by (pose proof (sane_gen _ HS); unfold connGen in *; lia). lia.
  - by rewrite (settled_inactive _ O1) in A.
  - done.
  - congruence.
  - split; try done; [congruence| |].
    + destruct (sv_connected (gs_server s')) eqn:E; [|done]. destruct (C2 eq_refl) as [?|[? ?]]; congruence.
    + rewrite G1. destruct G2 as [->| ->]; done.
Qed.

Lemma off_run es : ∀ s s',
  exec_all es s = Some s' → forallb (λ e, negb (is_connect e)) es = true → connGen s + Z.of_nat (length es) < 2 ^ 64 → off s → off s'.
Proof.
  induction es as [|e es IH]; intros s s' He Hn Hw Hs.
  { by injection He as <-. }
  simpl in He, Hn. destruct (exec e s) as [s1|] eqn:E; [|done]. cbn [length] in *. apply andb_true_iff in Hn as [Hn1%negb_true_iff Hn2].
  destruct (sane_step e s s1 ltac:(lia) E (off_sane _ Hs)) as [_ Hg].
  apply (IH s1); try done; [lia|]. by apply (off_step e s); [lia|..].
Qed.

(** C33: A disconnection lasts.  When the user disconnects while no request to
    connect is under way, the server stays without a client until the next such
    request, whatever the guard was doing (waiting for the next attempt, starting
    a child, or about to install it), whatever an upgrade does and however they
    interleave: every call is refused. *)
Theorem disconnect_lasts d es s i s1 es' s' :
  exec_all es (gui_start d) = Some s → forallb settled (gs_connects s) = true →
  gs_disconnects s !! i = Some DSection → exec (EDisconnectStep i) s = Some s1 →
  exec_all es' s1 = Some s' → forallb (λ e, negb (is_connect e)) es' = true →
  Z.of_nat (length es) + Z.of_nat (length es') + 1 < 2 ^ 64 →
  client s' = None ∧ sv_connected (gs_server s') = false ∧ is_ok (call_target (gs_server s')) = false.
Proof.
  intros He Hset Hi Hd He' Hn Hw. destruct (sane_run es (gui_start d) s He ltac:(cbn; lia) (sane_start d)) as [HS Hg]. cbn in Hg.
  assert (off s') as [_ _ O1 O2 _].
  { destruct (sane_step (EDisconnectStep i) s s1 ltac:(lia) Hd HS) as [HS1 Hg1]. apply (off_run es' s1); [done..|lia|].
    pose proof (settled_step (EDisconnectStep i) s s1 eq_refl Hd Hset) as Hset1.
    pose proof (disconnect_section_cut (gs_server s)) as (C1 & C2 & _ & C4).
    simpl in Hd. rewrite Hi in Hd. injection Hd as <-. cbn in *. split; try done; cbn.
    + destruct (sv_connected (disconnect_section (gs_server s))) eqn:E; [|done]. destruct (C4 eq_refl) as [H1 H2].
      apply (sane_connected _ HS) in H1. unfold client in H1. rewrite H2 in H1. by destruct H1.
    + intros Hgg. apply (sane_guard _ HS) in Hgg. unfold connGen in *. cbn in *.
      rewrite C2, wrap_small in Hgg by (pose proof (sane_gen _ HS); unfold connGen in *; lia). lia. }
  split_and!; [done..|]. unfold call_target. destruct (rejectWhileUpgrading _) as [[]|]; [done|]. by rewrite O2.
Qed.

(** ** Who is let in *)

(** Without the token a request only ever reaches the page itself, which is no
    secret; and nothing is served under a name that is not this machine's or to
    a page of another origin. *)
Theorem api_guarded Hostname token r h :
  guard Hostname token r = Some h →
  (tokenOK token r = false → h = RIndex ∧ rq_Path r = lit "/") ∧
  loopbackHost (rq_Host r) = true ∧ (rq_Origin r = [] ∨ loopbackOrigin Hostname (rq_Origin r) = true).
Proof.
  unfold guard. destruct (loopbackHost (rq_Host r)); [|done].
  destruct (bool_decide (rq_Origin r ≠ []) && negb (loopbackOrigin Hostname (rq_Origin r))) eqn:Ho; [done|].
  destruct (bool_decide (rq_Path r ≠ lit "/") && negb (tokenOK token r)) eqn:Ht; [done|]. intros [= <-]. split_and!; [|done|].
  - intros Hn. rewrite Hn in Ht. apply andb_false_iff in Ht as [Hp|?]; [|done].
    apply bool_decide_eq_false_1, dec_stable in Hp. by rewrite Hp.
  - apply andb_false_iff in Ho as [Hp|Hp]; [left; by apply bool_decide_eq_false_1, dec_stable in Hp|right; by apply negb_false_iff].
Qed.

(** The names of this machine, and some that only look like it. *)
Example loopback_names :
  map loopbackHost [lit "127.0.0.1:8899"; lit "localhost"; lit "[::1]:8899"; lit "[::1]"; lit "127.8.8.8"] = repeat true 5 ∧
  map loopbackHost [lit "evil.example:8899"; lit "127.0.0.1.evil.example"; lit "0.0.0.0:8899"; lit "192.168.1.2"; []] = repeat false 5.
Proof. by vm_compute. Qed.
