(* ===== verification/GuiServerRuns.v ===== *)
(** * Runs of the server of the GUI

    How the guard brings a lost connection back ([lost_connection_returns]), runs
    in which the server does not do what the user asked for ([disconnect_undone],
    [overlapping_connects_leak]), and concrete instances of the theorems of
    [GuiServerThms]. *)

From S2P Require Import Prelude GoNet GoText UpgradeFlags GuiUpgradeText GuiUpgrade GuiServer GuiServerThms.

Open Scope Z_scope.

(** ** The guard at work *)

(** How an attempt to connect again fails: the child does not start, does not
    answer, or cannot reach the share. *)
Inductive Failure := FSpawn (e : gostring) | FInit (e : gostring) | FCall (e : gostring).

Definition guard_go : Event := EGuard (OGo 0).

(** An attempt that fails, from the wait before it to the message after it. *)
Definition attempt (f : Failure) : list Event :=
  match f with
  | FSpawn e => [guard_go; guard_go; EGuard (OErr e); guard_go]
  | FInit e => [guard_go; guard_go; guard_go; EGuard (OErr e); guard_go; guard_go]
  | FCall e => [guard_go; guard_go; guard_go; guard_go; EGuard (OErr e); guard_go; guard_go]
  end.

(** An attempt that works, and the message. *)
Definition attempt_ok (meta : option ServerMeta) (now : Z) : list Event :=
  [guard_go; guard_go; guard_go; guard_go; EGuard (OResult meta); EGuard (OGo now); guard_go].

(** The guard notices that the child has ended and gives it up. *)
Definition lose : list Event := [guard_go; guard_go; guard_go; guard_go].

Lemma exec_all_app es es' s s1 : exec_all es s = Some s1 → exec_all (es ++ es') s = exec_all es' s1.
Proof.
  revert s. induction es as [|e es IH]; intros s; simpl; [by intros [= ->]|]. destruct (exec e s); [apply IH|done].
Qed.

(** What an attempt leaves as it was. *)
Record kept (s s' : System) : Prop := {
  kept_gui : sv_gui (gs_server s') = sv_gui (gs_server s);
  kept_gen : connGen s' = connGen s;
  kept_client : client s' = client s;
  kept_children : ∀ c ch, sv_children (gs_server s) !! c = Some ch → sv_children (gs_server s') !! c = Some ch;
  kept_connects : gs_connects s' = gs_connects s
}.

Lemma kept_trans s1 s2 s3 : kept s1 s2 → kept s2 s3 → kept s1 s3.
Proof. intros [] []. split; [congruence..|eauto|congruence]. Qed.

Lemma close_fresh (cs : list Child) ch ch' f c :
  cs !! c = Some ch' → alter f (length cs) (cs ++ [ch]) !! c = Some ch'.
Proof.
  intros H. pose proof (lookup_lt_Some _ _ _ H). rewrite list_lookup_alter_ne by lia. by rewrite lookup_app_l.
Qed.

Lemma attempt_run f n p s :
  gs_guard s = GBackoff n p (connGen s) →
  ∃ s', exec_all (attempt f) s = Some s' ∧ kept s s' ∧
    gs_guard s' = if (S n <? length backoff)%nat then GBackoff (S n) p (connGen s) else GuiServer.GLost.
Proof.
  intros Hg. unfold connGen in *. destruct f; unfold attempt, guard_go; cbn [exec_all exec];
    rewrite Hg; cbn; rewrite ?bool_decide_false by (intros H; by apply H); cbn.
  all: eexists; split; [reflexivity|]; cbn; split; [split; try reflexivity|case_match; reflexivity].
  - intros c ch. auto.
  - intros c ch. apply close_fresh.
  - intros c ch. apply close_fresh.
Qed.

Lemma attempts_run fs : ∀ n p s,
  gs_guard s = GBackoff n p (connGen s) → (n + length fs < length backoff)%nat →
  ∃ s', exec_all (concat (map attempt fs)) s = Some s' ∧ kept s s' ∧ gs_guard s' = GBackoff (n + length fs) p (connGen s').
Proof.
  induction fs as [|f fs IH]; intros n p s Hg Hn; cbn [map concat length] in *.
  { exists s. split_and!; [done|by split|]. by rewrite Nat.add_0_r. }
  destruct (attempt_run f n p s Hg) as (s1 & E1 & K1 & G1). rewrite (proj2 (Nat.ltb_lt _ _)) in G1 by lia.
  rewrite <- (kept_gen _ _ K1) in G1. destruct (IH (S n) p s1 G1 ltac:(lia)) as (s' & E' & K' & G').
  exists s'. rewrite (exec_all_app _ _ _ _ E1). split_and!; [done|by eapply kept_trans|]. rewrite G'. f_equal. lia.
Qed.

Lemma lose_run c ch s :
  gs_guard s = GWait c → client s = Some c → sv_connected (gs_server s) = true →
  sv_children (gs_server s) !! c = Some ch → ch_done ch = true →
  ∃ s', exec_all lose s = Some s' ∧ gs_guard s' = GBackoff 0 (last_params (gs_server s)) (connGen s') ∧
    connGen s' = connGen s ∧ client s' = None ∧ sv_connected (gs_server s') = false ∧
    spawnArgs (pa_Server (last_params (gs_server s))) (gs_server s') = spawnArgs (pa_Server (last_params (gs_server s))) (gs_server s) ∧
    sv_children (gs_server s') !! c = Some (mkChild (ch_args ch) true true) ∧ gs_connects s' = gs_connects s.
Proof.
  intros Hg Hc Hconn Hch Hd. unfold connGen, client in *. unfold lose, guard_go; cbn [exec_all exec].
  rewrite Hg. cbn. rewrite Hch. cbn. rewrite Hd. cbn. unfold guard_section.
  rewrite bool_decide_false by (intros H; by apply H). cbn. rewrite Hconn. cbn.
  eexists. split; [reflexivity|]. cbn. split_and!; try reflexivity. rewrite list_lookup_alter_eq, Hch. reflexivity.
Qed.

Lemma attempt_ok_run n p s meta now :
  gs_guard s = GBackoff n p (connGen s) →
  ∃ s' c', exec_all (attempt_ok meta now) s = Some s' ∧ gs_guard s' = GTop ∧ client s' = Some c' ∧
    sv_children (gs_server s') !! c' = Some (mkChild ([lit "help"; lit "--mcp-stdio"] ++ spawnArgs (pa_Server p) (gs_server s)) false false) ∧
    sv_connected (gs_server s') = true ∧ last_params (gs_server s') = p ∧ connGen s' = connGen s ∧
    (∀ c ch, sv_children (gs_server s) !! c = Some ch → sv_children (gs_server s') !! c = Some ch).
Proof.
  intros Hg. unfold connGen, client in *. unfold attempt_ok, guard_go; cbn [exec_all exec].
  rewrite Hg. cbn. rewrite !bool_decide_false by (intros H; by apply H). cbn.
  rewrite !bool_decide_false by (intros H; by apply H). cbn. eexists _, _. split; [reflexivity|]. cbn.
  destruct meta, p; cbn; split_and!; try reflexivity.
  all: try (rewrite lookup_app_r, Nat.sub_diag by lia; reflexivity).
  all: intros c ch H; rewrite lookup_app_l; [done|by eapply lookup_lt_Some].
Qed.

(** C34: A lost connection comes back.  When the child of a connection ends, the
    guard collects it and connects again with the parameters of that connection,
    through a new child started the same way; it does so at the first attempt
    that can, however the ones before failed, if it is among the first six.  When
    all six fail it says so and leaves the server disconnected, with the guard
    ready for the next connection. *)
Theorem lost_connection_returns c ch s fs meta now :
  gs_guard s = GWait c → client s = Some c → sv_connected (gs_server s) = true →
  sv_children (gs_server s) !! c = Some ch → ch_done ch = true →
  ((length fs < length backoff)%nat →
   ∃ s' c', exec_all (lose ++ concat (map attempt fs) ++ attempt_ok meta now) s = Some s' ∧ gs_guard s' = GTop ∧
     (rejectWhileUpgrading (gs_server s') = None → call_target (gs_server s') = Ok c') ∧
     client s' = Some c' ∧ sv_connected (gs_server s') = true ∧ c' ≠ c ∧
     sv_children (gs_server s') !! c' = Some (mkChild ([lit "help"; lit "--mcp-stdio"] ++ spawnArgs (pa_Server (last_params (gs_server s))) (gs_server s)) false false) ∧
     sv_children (gs_server s') !! c = Some (mkChild (ch_args ch) true true) ∧
     last_params (gs_server s') = last_params (gs_server s)) ∧
  (length fs = length backoff →
   ∃ s', exec_all (lose ++ concat (map attempt fs) ++ [guard_go]) s = Some s' ∧ gs_guard s' = GTop ∧
     client s' = None ∧ sv_connected (gs_server s') = false ∧ sv_children (gs_server s') !! c = Some (mkChild (ch_args ch) true true)).
Proof.
  intros Hg Hc Hconn Hch Hd. destruct (lose_run c ch s Hg Hc Hconn Hch Hd) as (s1 & E1 & G1 & _ & C1 & N1 & A1 & O1 & _).
  split.
  - intros Hn. destruct (attempts_run fs 0 _ s1 G1 Hn) as (s2 & E2 & [K1 K2 K3 K4 K5] & G2).
    destruct (attempt_ok_run _ _ s2 meta now G2) as (s3 & c' & E3 & G3 & C3 & O3 & N3 & L3 & _ & P3).
    exists s3, c'. rewrite (exec_all_app _ _ _ _ E1), (exec_all_app _ _ _ _ E2). apply K4, P3 in O1.
    assert (c' ≠ c) as Hne by (intros ->; rewrite O1 in O3; discriminate).
    split_and!; try done.
    + intros Hr. unfold call_target. unfold client in C3. by rewrite Hr, N3, C3.
    + rewrite O3. unfold spawnArgs. rewrite K1. unfold spawnArgs in A1. by rewrite A1.
  - intros Hn. destruct fs as [|f fs _] using rev_ind; [done|]. rewrite length_app in Hn. cbn in Hn.
    destruct (attempts_run fs 0 _ s1 G1 ltac:(cbn; lia)) as (s2 & E2 & [K1 K2 K3 K4 K5] & G2).
    destruct (attempt_run f _ _ s2 G2) as (s3 & E3 & [M1 M2 M3 M4 M5] & G3).
    rewrite (proj2 (Nat.ltb_ge _ _)) in G3 by (cbn; lia).
    eexists. rewrite (exec_all_app _ _ _ _ E1), map_app, concat_app, <- app_assoc, (exec_all_app _ _ _ _ E2). cbn [map concat].
    rewrite app_nil_r, (exec_all_app _ _ _ _ E3). unfold guard_go. cbn [exec_all exec]. rewrite G3. split; [reflexivity|]. cbn.
    unfold client, sv_connected in *. cbn. rewrite M1, M3, K1, K3. split_and!; auto.
Qed.

(** ** Concrete runs *)

Definition a_code : Params := mkParams (lit "K7M2Q9X4") [] false [].
Definition a_meta : option ServerMeta :=
  Some (mkServerMeta (mkMeta (lit "0.2.0") (lit "studio-pc") (lit "relay.example:8443")) (lit "0.2.0") (lit "s-1") true (lit "2")).

(** The handler of the [i]th request to connect, up to the call of connect, and
    from its result on. *)
Definition connecting (i : nat) : list Event := repeat (EConnectStep i (OGo 0)) 5.
Definition connect_done (i : nat) : list Event :=
  [EConnectStep i (OResult a_meta); EConnectStep i (OGo 100); EConnectStep i (OGo 0)].
Definition connect_request : Event := EConnect (lit "POST") (Ok a_code).

Definition after (es : list Event) : System := default (gui_start []) (exec_all es (gui_start [])).

(** The connection is made, the guard waits, the child ends. *)
Definition lost_run : list Event :=
  [ESubscribe 0; connect_request] ++ connecting 0 ++ connect_done 0 ++ [guard_go; EDie 0].
Definition returning_run : list Event :=
  lost_run ++ lose ++ concat (map attempt [FSpawn (lit "start remote"); FCall (lit "timeout")]) ++ attempt_ok a_meta 200.

Lemma no_child_left_behind_witness :
  exec_all returning_run (gui_start []) = Some (after returning_run) ∧
  length (sv_children (gs_server (after returning_run))) = 3%nat ∧
  ∀ c ch, sv_children (gs_server (after returning_run)) !! c = Some ch → ch_closed ch = false → client (after returning_run) = Some c.
Proof.
  split; [vm_compute; reflexivity|]. split; [vm_compute; reflexivity|].
  apply (no_child_left_behind [] returning_run (after returning_run)); vm_compute; reflexivity.
Defined.

Lemma lost_connection_returns_witness :
  ∃ s' c', exec_all (lose ++ concat (map attempt [FInit (lit "timeout")]) ++ attempt_ok a_meta 200) (after lost_run) = Some s' ∧
    gs_guard s' = GTop ∧ client s' = Some c' ∧ last_params (gs_server s') = a_code.
Proof.
  destruct (proj1 (lost_connection_returns 0 (mkChild [lit "help"; lit "--mcp-stdio"] true false) (after lost_run) [FInit (lit "timeout")] a_meta 200
    ltac:(vm_compute; reflexivity) ltac:(vm_compute; reflexivity) ltac:(vm_compute; reflexivity) ltac:(vm_compute; reflexivity) eq_refl)
    ltac:(cbn; lia)) as (s' & c' & H1 & H2 & _ & H3 & _ & _ & _ & _ & H4).
  exists s', c'. split; [exact H1|]. split; [exact H2|]. split; [exact H3|]. rewrite H4. vm_compute. reflexivity.
Defined.

(** The user disconnects while the guard is about to install the child of a
    reconnection. *)
Definition racing_run : list Event :=
  lost_run ++ lose ++ [guard_go; guard_go; guard_go; guard_go; EGuard (OResult a_meta); EDisconnect; EDisconnectStep 0].
Definition race_rest : list Event := [EGuard (OGo 300); EDisconnectStep 0; guard_go; guard_go].

Lemma disconnect_lasts_witness :
  let s' := after (racing_run ++ [EDisconnectStep 0] ++ race_rest) in
  gs_guard (after racing_run) = GInstall 0 a_code 1 1 a_meta ∧
  client s' = None ∧ sv_connected (gs_server s') = false ∧ is_ok (call_target (gs_server s')) = false.
Proof.
  split; [vm_compute; reflexivity|].
  apply (disconnect_lasts [] racing_run (after racing_run) 0 (after (racing_run ++ [EDisconnectStep 0])) race_rest);
    vm_compute; reflexivity.
Defined.

(** ** What goes wrong *)

(** A disconnection during a connect does not last: the handler of connect does
    not look at the generation again before it publishes, unlike the guard.  The
    user, told that the server is disconnected, is connected. *)
Theorem disconnect_undone :
  let before := [connect_request] ++ connecting 0 ++ [EDisconnect; EDisconnectStep 0; EDisconnectStep 0; EDisconnectStep 0] in
  exec_all before (gui_start []) = Some (after before) ∧
  gs_disconnects (after before) = [DReplied (200, None)] ∧ client (after before) = None ∧
  exec_all (connect_done 0) (after before) = Some (after (before ++ connect_done 0)) ∧
  client (after (before ++ connect_done 0)) = Some 0%nat ∧ sv_connected (gs_server (after (before ++ connect_done 0))) = true.
Proof. vm_compute. tauto. Qed.

(** Of two connects at the same time the first child is forgotten: it runs and
    keeps its connection, and neither the server, a handler nor the guard will
    ever close it. *)
Theorem overlapping_connects_leak :
  let es := [connect_request; connect_request] ++ connecting 0 ++ connecting 1 ++ connect_done 0 ++ connect_done 1 in
  exec_all es (gui_start []) = Some (after es) ∧
  gs_connects (after es) = [KReplied (200, None); KReplied (200, None)] ∧
  client (after es) = Some 1%nat ∧
  sv_children (gs_server (after es)) !! 0%nat = Some (mkChild [lit "help"; lit "--mcp-stdio"] false false) ∧
  held 0 (after es) = 0%nat.
Proof. vm_compute. tauto. Qed.
