(* ===== verification/GuiEvents.v ===== *)
(** * What the pages of the GUI hear of its server

    The server broadcasts messages to the pages, which listen with an EventSource.
    [eventsource] is the interpretation of an event stream in the HTML standard
    (section 9.2.6, server-sent events): an event without data is not dispatched.
    So a page hears of the progress of an upgrade ([progress_dispatched]) but of no
    connection that is made, lost or made again ([states_not_dispatched]). *)

From S2P Require Import Prelude GoNet GoText UpgradeFlags GuiUpgradeText GuiUpgrade GuiServer.

Open Scope Z_scope.

(** ** The interpretation of a stream *)

(** The lines of a stream that end; the messages have no carriage return. *)
Fixpoint stream_lines (line s : gostring) : list gostring :=
  match s with
  | [] => []
  | b :: s => if bool_decide (b = 10) then line :: stream_lines [] s else stream_lines (line ++ [b]) s
  end.

(** The name of a field, and its value without the space after the colon. *)
Fixpoint field_of (name line : gostring) : gostring * gostring :=
  match line with
  | [] => (name, [])
  | b :: rest =>
      if bool_decide (b = 58) then (name, match rest with 32 :: v => v | _ => rest end) else field_of (name ++ [b]) rest
  end.

(** The event type and the data collected so far, and what has been
    dispatched. *)
Record EventSource := mkEventSource { es_type : gostring; es_data : gostring; es_events : list (gostring * gostring) }.

Definition dispatch (st : EventSource) : EventSource :=
  match es_data st with
  | [] => mkEventSource [] [] (es_events st)
  | _ => mkEventSource [] [] (es_events st ++
           [(if bool_decide (es_type st = []) then lit "message" else es_type st, removelast (es_data st))])
  end.

Definition take_line (st : EventSource) (line : gostring) : EventSource :=
  match line with
  | [] => dispatch st
  | 58 :: _ => st
  | _ =>
      let '(name, value) := field_of [] line in
      if bool_decide (name = lit "event") then mkEventSource value (es_data st) (es_events st)
      else if bool_decide (name = lit "data") then mkEventSource (es_type st) (es_data st ++ value ++ [10]) (es_events st)
      else st
  end.

Definition eventsource (stream : gostring) : list (gostring * gostring) :=
  es_events (fold_left take_line (stream_lines [] stream) (mkEventSource [] [] [])).

(** ** Messages one after the other *)

Definition ends_line (s : gostring) : Prop := ∃ s', s = s' ++ [10].

Lemma stream_lines_app s t : ∀ line, ends_line s → stream_lines line (s ++ t) = stream_lines line s ++ stream_lines [] t.
Proof.
  induction s as [|b s IH]; intros line [s' Hs]; [by destruct s'|]. cbn [app stream_lines].
  destruct s' as [|b' s'].
  - injection Hs as -> ->. by rewrite bool_decide_true.
  - injection Hs as -> Hs. case_bool_decide; cbn; rewrite IH by (by exists s'); done.
Qed.

Lemma stream_lines_one line rest : ∀ pre, 10 ∉ line → stream_lines pre (line ++ [10] ++ rest) = (pre ++ line) :: stream_lines [] rest.
Proof.
  induction line as [|b line IH]; intros pre Hn; cbn.
  - by rewrite app_nil_r.
  - rewrite bool_decide_false by (intros ->; apply Hn; by left).
    change (stream_lines (pre ++ [b]) (line ++ [10] ++ rest) = (pre ++ b :: line) :: stream_lines [] rest).
    rewrite IH by (intros ?; apply Hn; by right). by rewrite <- app_assoc.
Qed.

(** What handleEvents writes of messages. *)
Definition written (ms : list gostring) : gostring := concat (map (λ m, m ++ [10; 10]) ms).

(** From one message to the next the state is the initial one again. *)
Lemma written_fold {A} (msg : A → gostring) (heard : A → list (gostring * gostring)) xs :
  (∀ x evs, x ∈ xs →
    fold_left take_line (stream_lines [] (msg x ++ [10; 10])) (mkEventSource [] [] evs) = mkEventSource [] [] (evs ++ heard x)) →
  eventsource (written (map msg xs)) = concat (map heard xs).
Proof.
  unfold eventsource, written. intros H.
  assert (∀ evs, fold_left take_line (stream_lines [] (concat (map (λ m, m ++ [10; 10]) (map msg xs)))) (mkEventSource [] [] evs)
    = mkEventSource [] [] (evs ++ concat (map heard xs))) as ->; [|done].
  induction xs as [|x xs IH]; intros evs; cbn [map concat]; [by rewrite app_nil_r|].
  rewrite stream_lines_app by (exists (msg x ++ [10]); by rewrite <- app_assoc).
  rewrite fold_left_app, H by (by left). rewrite IH by (intros; apply H; by right). by rewrite app_assoc.
Qed.

(** ** Progress *)

Definition clean (message : gostring) : gostring := map (fun b => if bool_decide (b = 13 ∨ b = 10) then 32 else b) message.

Lemma clean_one_line message : 10 ∉ clean message.
Proof.
  unfold clean. rewrite list_elem_of_In, in_map_iff. intros (b & Hb & _). case_bool_decide; [done|]. subst. naive_solver.
Qed.

Lemma progress_lines message :
  stream_lines [] (progress_message message ++ [10; 10]) = [lit "event: upgrade-progress"; lit "data: " ++ clean message; []; []].
Proof.
  unfold progress_message. fold (clean message).
  change (stream_lines [] (lit "event: upgrade-progress" ++ [10] ++ (lit "data: " ++ clean message ++ [10]) ++ [10; 10])
    = [lit "event: upgrade-progress"; lit "data: " ++ clean message; []; []]).
  rewrite stream_lines_one by by_compute. f_equal. rewrite <- !app_assoc, (app_assoc (lit "data: ")).
  change ([10] ++ [10; 10]) with ([10] ++ [10] ++ [10] ++ []). rewrite stream_lines_one; [done|].
  intros [H|H]%elem_of_app; [by revert H; by_compute|]. by apply (clean_one_line message).
Qed.

(** The progress of an upgrade reaches the page, message by message, each on one
    line. *)
Theorem progress_dispatched messages :
  eventsource (written (map progress_message messages)) = map (λ m, (lit "upgrade-progress", clean m)) messages.
Proof.
  rewrite (written_fold _ (λ m, [(lit "upgrade-progress", clean m)])).
  - induction messages as [|m ms IH]; [done|]. cbn [map concat app]. by rewrite IH.
  - intros m evs _. rewrite progress_lines. cbn [fold_left].
    change (fold_left take_line [[]; []] (mkEventSource (lit "upgrade-progress") (clean m ++ [10]) evs)
      = mkEventSource [] [] (evs ++ [(lit "upgrade-progress", clean m)])).
    cbn [fold_left take_line]. unfold dispatch at 2. cbn [es_data es_type es_events].
    destruct (clean m ++ [10]) as [|b l] eqn:E; [by destruct (clean m)|]. rewrite <- E, removelast_last. done.
Qed.

(** ** The state of the connection *)

(** All other messages of the server, its pings too. *)
Definition state_messages : list gostring :=
  lit "event: ping" :: map (λ name, lit "event: " ++ name ++ [10]) [lit "connected"; lit "disconnected"; lit "reconnecting"; lit "lost"]
  ++ map retry_message (seq 0 (length backoff)).

(** The page never hears that a connection was made, lost or ended: these
    messages have no data.  Its listeners for them (assets/assets.go:158) never
    run. *)
Theorem states_not_dispatched messages : Forall (.∈ state_messages) messages → eventsource (written messages) = [].
Proof.
  intros H. rewrite <- (map_id messages), (written_fold _ (λ _, [])).
  - clear H. induction messages as [|m ms IH]; [done|]. cbn. done.
  - intros m evs Hm. rewrite Forall_forall in H. specialize (H m Hm). clear Hm. rewrite app_nil_r.
    unfold state_messages in H. cbn [map seq length backoff app] in H.
    repeat (apply elem_of_cons in H as [->|H]; [reflexivity|]). by apply not_elem_of_nil in H.
Qed.
