(* ===== verification/GuiMcp.v ===== *)
(** * The client of the MCP child process (src/internal/gui/mcpclient.go)

    The GUI talks JSON-RPC with its child over the child's standard input and
    output.  Calls run at the same time; one goroutine, readLoop, reads what the
    child writes and hands every response and every block of streamed output to the
    call it is for.  A streamed call has a queue of its own, which a goroutine of
    the call, the pump, empties into [onChunk]. *)

From S2P Require Import Prelude GoNet GoText.

Open Scope Z_scope.

(** ** The data *)

(** The stream's name and the bytes. *)
Definition chunkMsg : Type := gostring * gostring.

(** [rpcResponse] with a result or an error's message. *)
Definition rpcResponse : Type := result gostring gostring.

(** A line of the child: a response, a block of a stream, or anything that is
    ignored (empty lines, no JSON, other notifications). *)
Inductive Frame :=
| FrResponse (id : Z) (r : rpcResponse)
| FrStream (id : Z) (m : chunkMsg)
| FrOther.

Definition streamQueueDepth : nat := 256.

Definition process_exited : rpcResponse := Err (lit "mcp process exited").

(** How a call ends: the request could not be written, its context has ended, or
    a response came. *)
Inductive Ending := EndWrite (e : gostring) | EndCancelled (e : gostring) | EndResponse (r : rpcResponse).

Definition ending_result (e : Ending) : result gostring gostring :=
  match e with EndWrite e => Err (lit "write to mcp: " ++ e) | EndCancelled e => Err e | EndResponse r => r end.

(** The next action of a call. *)
Inductive RpcPc :=
| CWrite
| CSelect
| CCloseQueue (e : Ending)
| CAwaitPump (e : Ending)
| CForget (e : Ending)
| CReturned (e : Ending).

(** A call: its channel of one response, its queue, whether that is closed, the
    blocks [onChunk] has been called with, and whether the pump has ended.
    [cl_since], [cl_until] and [cl_lost] are not in the code: how many lines had
    been read when the call was registered and when its queue was closed, and how
    many blocks found the queue full. *)
Record RpcCall := mkRpcCall {
  cl_id : Z;
  cl_stream : bool;
  cl_ch : option rpcResponse;
  cl_queue : list chunkMsg;
  cl_closed : bool;
  cl_heard : list chunkMsg;
  cl_pumped : bool;
  cl_pc : RpcPc;
  cl_since : nat;
  cl_until : option nat;
  cl_lost : nat
}.
#[export] Instance Eta_RpcCall : Eta RpcCall := fun r =>
  mkRpcCall (cl_id r) (cl_stream r) (cl_ch r) (cl_queue r) (cl_closed r) (cl_heard r) (cl_pumped r) (cl_pc r) (cl_since r) (cl_until r) (cl_lost r).

(** readLoop: at the scanner, about to send a response on a call's channel, in
    the section that wakes all calls at the end (with [c.mu] held), about to close
    [done], and gone. *)
Inductive ReaderPc := RScan | RSend (i : nat) (r : rpcResponse) | RWake | RMark | RDone.

(** [mc_pending] and [mc_streamQs] give the call whose channel or queue the map
    holds.  [mc_panic]: a block was sent on a closed queue, which ends the
    process.  [mc_seen] are the lines read so far. *)
Record MCPClient := mkMCPClient {
  mc_nextID : Z;
  mc_pending : gmap Z nat;
  mc_streamQs : gmap Z nat;
  mc_calls : list RpcCall;
  mc_reader : ReaderPc;
  mc_done : bool;
  mc_cancelled : list Z;
  mc_panic : bool;
  mc_seen : list Frame
}.
#[export] Instance Eta_MCPClient : Eta MCPClient := fun r =>
  mkMCPClient (mc_nextID r) (mc_pending r) (mc_streamQs r) (mc_calls r) (mc_reader r) (mc_done r) (mc_cancelled r) (mc_panic r) (mc_seen r).

Definition fresh_client : MCPClient := mkMCPClient 1 ∅ ∅ [] RScan false [] false [].

(** [c.mu] is free: only readLoop keeps it over several steps. *)
Definition lock_free (c : MCPClient) : bool := match mc_reader c with RWake => false | _ => true end.

Definition update_call (i : nat) (f : RpcCall → RpcCall) (c : MCPClient) : MCPClient := c <| mc_calls := alter f i (mc_calls c) |>.

(** ** A call *)

(** The first section of callStream. *)
Definition register_call (stream : bool) (c : MCPClient) : MCPClient :=
  let id := mc_nextID c in
  let i := length (mc_calls c) in
  c <| mc_nextID := id + 1 |> <| mc_pending := <[id := i]> (mc_pending c) |>
    <| mc_streamQs := if stream then <[id := i]> (mc_streamQs c) else mc_streamQs c |>
    <| mc_calls := mc_calls c ++ [mkRpcCall id stream None [] false [] false CWrite (length (mc_seen c)) None 0] |>.

(** What is left to do when a call ends: the deferred functions, the last one
    first. *)
Definition unwind (cl : RpcCall) (e : Ending) : RpcPc := if cl_stream cl then CCloseQueue e else CForget e.

Definition write_request (i : nat) (err : option gostring) (cl : RpcCall) (c : MCPClient) : option MCPClient :=
  match cl_pc cl with
  | CWrite => Some (update_call i (fun cl => cl <| cl_pc := match err with Some e => unwind cl (EndWrite e) | None => CSelect end |>) c)
  | _ => None
  end.

(** The two branches of the select. *)
Definition context_ends (i : nat) (e : gostring) (cl : RpcCall) (c : MCPClient) : option MCPClient :=
  match cl_pc cl with
  | CSelect =>
      Some (update_call i (fun cl => cl <| cl_pc := unwind cl (EndCancelled e) |>) c <| mc_cancelled := mc_cancelled c ++ [cl_id cl] |>)
  | _ => None
  end.
Definition receive (i : nat) (cl : RpcCall) (c : MCPClient) : option MCPClient :=
  match cl_pc cl, cl_ch cl with
  | CSelect, Some r => Some (update_call i (fun cl => cl <| cl_ch := None |> <| cl_pc := unwind cl (EndResponse r) |>) c)
  | _, _ => None
  end.

(** The deferred functions. *)
Definition close_queue (i : nat) (cl : RpcCall) (c : MCPClient) : option MCPClient :=
  match cl_pc cl with
  | CCloseQueue e =>
      if lock_free c
      then Some (update_call i (fun cl => cl <| cl_closed := true |> <| cl_until := Some (length (mc_seen c)) |> <| cl_pc := CAwaitPump e |>) c
                   <| mc_streamQs := delete (cl_id cl) (mc_streamQs c) |>)
      else None
  | _ => None
  end.
Definition await_pump (i : nat) (cl : RpcCall) (c : MCPClient) : option MCPClient :=
  match cl_pc cl with
  | CAwaitPump e => if cl_pumped cl then Some (update_call i (fun cl => cl <| cl_pc := CForget e |>) c) else None
  | _ => None
  end.
Definition forget_call (i : nat) (cl : RpcCall) (c : MCPClient) : option MCPClient :=
  match cl_pc cl with
  | CForget e =>
      if lock_free c
      then Some (update_call i (fun cl => cl <| cl_pc := CReturned e |>) c <| mc_pending := delete (cl_id cl) (mc_pending c) |>)
      else None
  | _ => None
  end.

(** The pump: one block, and its end. *)
Definition pump (i : nat) (cl : RpcCall) (c : MCPClient) : option MCPClient :=
  if negb (cl_stream cl) || cl_pumped cl then None
  else match cl_queue cl with
       | m :: q => Some (update_call i (fun cl => cl <| cl_queue := q |> <| cl_heard := cl_heard cl ++ [m] |>) c)
       | [] => if cl_closed cl then Some (update_call i (fun cl => cl <| cl_pumped := true |>) c) else None
       end.

(** ** readLoop *)

(** A block is put in the queue of its call, or dropped when that is full. *)
Definition enqueue (m : chunkMsg) (cl : RpcCall) : RpcCall :=
  if (length (cl_queue cl) <? streamQueueDepth)%nat then cl <| cl_queue := cl_queue cl ++ [m] |>
  else cl <| cl_lost := S (cl_lost cl) |>.

Definition handleNotify (id : Z) (m : chunkMsg) (c : MCPClient) : MCPClient :=
  match mc_streamQs c !! id with
  | None => c
  | Some i =>
      match mc_calls c !! i with
      | Some cl => if cl_closed cl then c <| mc_panic := true |> else update_call i (enqueue m) c
      | None => c
      end
  end.

Definition read_frame (f : Frame) (c : MCPClient) : MCPClient :=
  let c := c <| mc_seen := mc_seen c ++ [f] |> in
  match f with
  | FrStream id m => handleNotify id m c
  | FrResponse id r =>
      if bool_decide (id = 0) then c
      else match mc_pending c !! id with
           | Some i => c <| mc_pending := delete id (mc_pending c) |> <| mc_reader := RSend i r |>
           | None => c
           end
  | FrOther => c
  end.

(** A send on a channel of capacity one waits until it is empty. *)
Definition send (i : nat) (r : rpcResponse) (c : MCPClient) : option MCPClient :=
  match mc_calls c !! i with
  | Some cl => match cl_ch cl with None => Some (update_call i (fun cl => cl <| cl_ch := Some r |>) c) | Some _ => None end
  | None => None
  end.

(** ** Runs *)

Inductive Event :=
| ECall (stream : bool)
| EWrite (i : nat) (err : option gostring)
| EContext (i : nat) (e : gostring)
| EReceive (i : nat)
| ECloseQueue (i : nat)
| EAwaitPump (i : nat)
| EForget (i : nat)
| EPump (i : nat)
| EFrame (f : Frame)
| EEof
| EReader (id : Z)
| EClose.

(** The next step of readLoop, away from the scanner; [id] is the entry that the
    iteration over [pending] takes. *)
Definition reader_step (id : Z) (c : MCPClient) : option MCPClient :=
  match mc_reader c with
  | RSend i r => (fun c => c <| mc_reader := RScan |>) <$> send i r c
  | RWake =>
      if bool_decide (mc_pending c = ∅) then Some (c <| mc_reader := RMark |>)
      else i ← mc_pending c !! id; send i process_exited (c <| mc_pending := delete id (mc_pending c) |>)
  | RMark => Some (c <| mc_reader := RDone |> <| mc_done := true |>)
  | RScan | RDone => None
  end.

Definition exec (e : Event) (c : MCPClient) : option MCPClient :=
  let on i f := cl ← mc_calls c !! i; f i cl c in
  match e with
  | ECall stream => if lock_free c then Some (register_call stream c) else None
  | EWrite i err => on i (fun i => write_request i err)
  | EContext i e => on i (fun i => context_ends i e)
  | EReceive i => on i receive
  | ECloseQueue i => on i close_queue
  | EAwaitPump i => on i await_pump
  | EForget i => on i forget_call
  | EPump i => on i pump
  | EFrame f => match mc_reader c with RScan => Some (read_frame f c) | _ => None end
  | EEof => match mc_reader c with RScan => Some (c <| mc_reader := RWake |>) | _ => None end
  | EReader id => reader_step id c
  | EClose => Some (c <| mc_done := true |>)
  end.

Fixpoint exec_all (es : list Event) (c : MCPClient) : option MCPClient :=
  match es with
  | [] => Some c
  | e :: es => match exec e c with Some c' => exec_all es c' | None => None end
  end.

(** The blocks for a call among lines of the child. *)
Definition stream_chunks (id : Z) (fs : list Frame) : list chunkMsg :=
  omap (fun f => match f with FrStream id' m => if bool_decide (id' = id) then Some m else None | _ => None end) fs.
