(* ===== verification/GuiMcpThms.v ===== *)
(** * The client of the MCP child: what its calls get

    A call that returns a response returns one to its own request, after all the
    blocks of its stream ([response_after_stream]); readLoop never waits for a
    call and never sends on a closed queue ([reader_never_stuck]); when the child
    ends every call under way is woken ([exit_wakes_calls]). *)

From S2P Require Import Prelude GoNet GoText GuiMcp.

Open Scope Z_scope.

(** ** Blocks *)

#[local] Arguments stream_chunks : simpl never.

Lemma chunks_app id fs gs : stream_chunks id (fs ++ gs) = stream_chunks id fs ++ stream_chunks id gs.
Proof. apply omap_app. Qed.

Definition ended (r : ReaderPc) : bool := match r with RScan | RSend _ _ => false | _ => true end.

(** The lines of a call: from its registration to the end of its queue. *)
Definition window (seen : list Frame) (cl : RpcCall) : list Frame :=
  drop (cl_since cl) (take (default (length seen) (cl_until cl)) seen).

(** Where a response in the channel, and the response of a call, comes from. *)
Definition arrived (seen : list Frame) (fin : bool) (cl : RpcCall) (r : rpcResponse) : Prop :=
  (fin = true ∧ r = process_exited) ∨ ∃ k, (cl_since cl ≤ k)%nat ∧ seen !! k = Some (FrResponse (cl_id cl) r).
Definition answered (seen : list Frame) (fin : bool) (cl : RpcCall) (r : rpcResponse) : Prop :=
  (fin = true ∧ r = process_exited) ∨
  ∃ k, (cl_since cl ≤ k < default (length seen) (cl_until cl))%nat ∧ seen !! k = Some (FrResponse (cl_id cl) r).

Definition ending (pc : RpcPc) : option Ending :=
  match pc with CCloseQueue e | CAwaitPump e | CForget e | CReturned e => Some e | _ => None end.
Definition before_close (pc : RpcPc) : bool := match pc with CWrite | CSelect | CCloseQueue _ => true | _ => false end.
Definition after_pump (pc : RpcPc) : bool := match pc with CForget _ | CReturned _ => true | _ => false end.

Record call_ok (seen : list Frame) (fin : bool) (cl : RpcCall) : Prop := {
  ok_since : (cl_since cl ≤ default (length seen) (cl_until cl) ≤ length seen)%nat;
  ok_ch : ∀ r, cl_ch cl = Some r → arrived seen fin cl r;
  ok_ending : ∀ r, ending (cl_pc cl) = Some (EndResponse r) → answered seen fin cl r;
  ok_closed : cl_closed cl = bool_decide (is_Some (cl_until cl));
  ok_open : before_close (cl_pc cl) = true → cl_closed cl = false;
  ok_pumped : cl_pumped cl = true → cl_closed cl = true ∧ cl_queue cl = [];
  ok_end : after_pump (cl_pc cl) = true → cl_stream cl = true → cl_pumped cl = true;
  ok_blocks : cl_stream cl = true → cl_lost cl = 0%nat → cl_heard cl ++ cl_queue cl = stream_chunks (cl_id cl) (window seen cl)
}.

Lemma ok_unclosed seen fin cl : call_ok seen fin cl → cl_closed cl = false → cl_until cl = None.
Proof. intros Hok Hc. pose proof (ok_closed _ _ _ Hok) as H. rewrite Hc in H. symmetry in H. apply bool_decide_eq_false in H. by apply eq_None_not_Some. Qed.

Lemma open_arrived seen fin cl r : cl_until cl = None → arrived seen fin cl r → answered seen fin cl r.
Proof.
  unfold answered. intros -> [?|(k & Hk & H)]; [by left|]. right. exists k. split; [|done]. cbn. apply lookup_lt_Some in H. lia.
Qed.

Record inv (c : MCPClient) : Prop := {
  inv_next : mc_nextID c = Z.of_nat (length (mc_calls c)) + 1;
  inv_ids : ∀ i cl, mc_calls c !! i = Some cl → cl_id cl = Z.of_nat i + 1;
  inv_pending : ∀ id i, mc_pending c !! id = Some i → id = Z.of_nat i + 1 ∧ ∃ cl, mc_calls c !! i = Some cl ∧ cl_ch cl = None;
  inv_send : ∀ i r, mc_reader c = RSend i r →
    mc_pending c !! (Z.of_nat i + 1) = None ∧ ∃ cl, mc_calls c !! i = Some cl ∧ cl_ch cl = None ∧ arrived (mc_seen c) false cl r;
  inv_queues : ∀ id i, mc_streamQs c !! id = Some i →
    id = Z.of_nat i + 1 ∧ ∃ cl, mc_calls c !! i = Some cl ∧ cl_stream cl = true ∧ cl_closed cl = false;
  inv_open : ∀ i cl, mc_calls c !! i = Some cl → cl_stream cl = true → cl_closed cl = false → mc_streamQs c !! (Z.of_nat i + 1) = Some i;
  inv_calls : ∀ i cl, mc_calls c !! i = Some cl → call_ok (mc_seen c) (ended (mc_reader c)) cl;
  inv_panic : mc_panic c = false
}.

Lemma new_client_inv : inv fresh_client.
Proof. split; try done. Qed.

(** ** Steps of one call *)

Lemma mcp_update_lookup i f c j : mc_calls (update_call i f c) !! j = if decide (j = i) then f <$> mc_calls c !! i else mc_calls c !! j.
Proof.
  unfold update_call. cbn. destruct (decide (j = i)) as [->|Hne]; [apply list_lookup_alter_eq|by apply list_lookup_alter_ne].
Qed.

(** A step of a call that leaves the maps, the queue's end and the lines
    alone. *)
Lemma mcp_inv_update i f cl c :
  inv c → mc_calls c !! i = Some cl →
  cl_id (f cl) = cl_id cl → cl_stream (f cl) = cl_stream cl → cl_closed (f cl) = cl_closed cl →
  cl_since (f cl) = cl_since cl → cl_until (f cl) = cl_until cl → (cl_ch (f cl) = cl_ch cl ∨ cl_ch (f cl) = None) →
  call_ok (mc_seen c) (ended (mc_reader c)) (f cl) → inv (update_call i f c).
Proof.
  intros [I1 I2 I3 I4 I5 I6 I7 I8] Hi E1 E2 E3 E4 E5 E6 Hok. split; try done.
  - unfold update_call. cbn. by rewrite length_alter.
  - intros j cl' H. rewrite mcp_update_lookup, Hi in H. case_decide; [simplify_eq/=; rewrite E1|]; eauto.
  - intros id j Hj. destruct (I3 id j Hj) as (-> & cl' & H1 & H2). split; [done|]. rewrite mcp_update_lookup, Hi.
    case_decide; subst; [|eauto]. simplify_eq/=. eexists; split; [done|]. destruct E6 as [->| ->]; done.
  - intros j r Hr. destruct (I4 j r Hr) as (H0 & cl' & H1 & H2 & H3). split; [done|]. rewrite mcp_update_lookup, Hi.
    case_decide; subst; [|eauto]. simplify_eq/=. eexists; split; [done|]. split; [destruct E6 as [->| ->]; done|].
    unfold arrived in *. by rewrite E1, E4.
  - intros id j Hj. destruct (I5 id j Hj) as (-> & cl' & H1 & H2 & H3). split; [done|]. rewrite mcp_update_lookup, Hi.
    case_decide; subst; [|eauto]. simplify_eq/=. eexists; split; [done|]. by rewrite E2, E3.
  - intros j cl' H. rewrite mcp_update_lookup, Hi in H. case_decide; [simplify_eq/=; rewrite E2, E3|]; eauto.
  - intros j cl' H. rewrite mcp_update_lookup, Hi in H. case_decide; [by simplify_eq/=|eauto].
Qed.

(** A call that only moves on. *)
Lemma ok_pc seen fin cl pc :
  call_ok seen fin cl → (∀ r, ending pc = Some (EndResponse r) → answered seen fin cl r) →
  (before_close pc = true → before_close (cl_pc cl) = true) →
  (after_pump pc = true → cl_stream cl = true → cl_pumped cl = true) → call_ok seen fin (cl <| cl_pc := pc |>).
Proof. intros [] H1 H2 H3. split; cbn; auto. Qed.

Lemma unwind_ending cl e : ending (unwind cl e) = Some e. Proof. unfold unwind. by destruct (cl_stream cl). Qed.
Lemma unwind_after cl e : after_pump (unwind cl e) = true → cl_stream cl = true → cl_pumped cl = true.
Proof. unfold unwind. by destruct (cl_stream cl). Qed.
#[local] Hint Resolve unwind_after : core.

Lemma mcp_write_inv i err cl c c' : inv c → mc_calls c !! i = Some cl → write_request i err cl c = Some c' → inv c'.
Proof.
  unfold write_request. intros HI Hi H. destruct (cl_pc cl) eqn:Epc; simplify_eq.
  pose proof (inv_calls _ HI _ _ Hi) as Hok. apply (mcp_inv_update i _ cl); auto. apply ok_pc; [done|..].
  - intros r. destruct err; [rewrite unwind_ending|]; done.
  - by rewrite Epc.
  - destruct err; [|done]. apply unwind_after.
Qed.

Lemma context_inv i e cl c c' : inv c → mc_calls c !! i = Some cl → context_ends i e cl c = Some c' → inv c'.
Proof.
  unfold context_ends. intros HI Hi H. destruct (cl_pc cl) eqn:Epc; simplify_eq.
  pose proof (inv_calls _ HI _ _ Hi) as Hok. apply (mcp_inv_update i _ cl); auto.
  - by destruct HI.
  - apply ok_pc; [done|..]; [intros r; by rewrite unwind_ending|by rewrite Epc|apply unwind_after].
Qed.

Lemma receive_inv i cl c c' : inv c → mc_calls c !! i = Some cl → receive i cl c = Some c' → inv c'.
Proof.
  unfold receive. intros HI Hi H. destruct (cl_pc cl) eqn:Epc, (cl_ch cl) as [r|] eqn:Ech; simplify_eq.
  pose proof (inv_calls _ HI _ _ Hi) as Hok. apply (mcp_inv_update i _ cl); auto.
  assert (call_ok (mc_seen c) (ended (mc_reader c)) (cl <| cl_ch := None |>)) as Hok' by (destruct Hok; by split).
  apply (ok_pc _ _ _ _ Hok'); [|by cbn; rewrite Epc|apply (unwind_after cl)].
  intros r'. rewrite unwind_ending. intros [= <-]. apply open_arrived; [|by apply (ok_ch _ _ _ Hok)].
  apply (ok_unclosed _ _ _ Hok), (ok_open _ _ _ Hok). by rewrite Epc.
Qed.

Lemma await_inv i cl c c' : inv c → mc_calls c !! i = Some cl → await_pump i cl c = Some c' → inv c'.
Proof.
  unfold await_pump. intros HI Hi H. destruct (cl_pc cl) eqn:Epc, (cl_pumped cl) eqn:Ep; simplify_eq.
  pose proof (inv_calls _ HI _ _ Hi) as Hok. apply (mcp_inv_update i _ cl); auto. apply ok_pc; auto; [|done].
  intros r Hr. apply (ok_ending _ _ _ Hok). by rewrite Epc.
Qed.

Lemma pump_inv i cl c c' : inv c → mc_calls c !! i = Some cl → pump i cl c = Some c' → inv c'.
Proof.
  unfold pump. intros HI Hi H. pose proof (inv_calls _ HI _ _ Hi) as Hok.
  destruct (cl_stream cl) eqn:Es, (cl_pumped cl) eqn:Ep; try done. cbn in H.
  destruct (cl_queue cl) as [|m q] eqn:Eq; [destruct (cl_closed cl) eqn:Ecl|]; simplify_eq; apply (mcp_inv_update i _ cl); auto.
  - destruct Hok. by split.
  - destruct Hok as [O1 O2 O3 O4 O5 O6 O7 O8]. split; cbn; auto; [congruence|].
    intros H1 H2. rewrite <- app_assoc. specialize (O8 H1 H2). rewrite Eq in O8. exact O8.
Qed.

(** Taking an entry out of [pending] does no harm. *)
Lemma inv_forget_pending id c : inv c → inv (c <| mc_pending := delete id (mc_pending c) |>).
Proof.
  intros [I1 I2 I3 I4 I5 I6 I7 I8]. split; try done; cbn.
  - intros id' j [_ H]%lookup_delete_Some. eauto.
  - intros j r Hr. destruct (I4 j r Hr) as [H0 H]. split; [|done]. rewrite lookup_delete_None. by right.
Qed.

Lemma forget_inv i cl c c' : inv c → mc_calls c !! i = Some cl → forget_call i cl c = Some c' → inv c'.
Proof.
  unfold forget_call. intros HI Hi H. destruct (cl_pc cl) eqn:Epc, (lock_free c); simplify_eq.
  pose proof (inv_calls _ HI _ _ Hi) as Hok. apply (inv_forget_pending _ (update_call i (λ cl, cl <| cl_pc := CReturned e |>) c)).
  apply (mcp_inv_update i _ cl); auto. apply ok_pc; auto; [|done|].
  - intros r Hr. apply (ok_ending _ _ _ Hok). by rewrite Epc.
  - intros _ Hs. apply (ok_end _ _ _ Hok); [by rewrite Epc|done].
Qed.

Lemma close_inv i cl c c' : inv c → mc_calls c !! i = Some cl → close_queue i cl c = Some c' → inv c'.
Proof.
  unfold close_queue. intros [I1 I2 I3 I4 I5 I6 I7 I8] Hi H. destruct (cl_pc cl) eqn:Epc, (lock_free c) eqn:El; simplify_eq.
  pose proof (I7 _ _ Hi) as Hok. pose proof (ok_open _ _ _ Hok) as Ho. rewrite Epc in Ho. specialize (Ho eq_refl).
  pose proof (ok_unclosed _ _ _ Hok Ho) as Hu.
  set (f := λ cl : RpcCall, cl <| cl_closed := true |> <| cl_until := Some (length (mc_seen c)) |> <| cl_pc := CAwaitPump e |>).
  set (c0 := c <| mc_streamQs := delete (cl_id cl) (mc_streamQs c) |>).
  assert (∀ r fin, answered (mc_seen c) fin cl r → answered (mc_seen c) fin (f cl) r) as Ha.
  { unfold answered. rewrite Hu. auto. }
  pose proof (I2 _ _ Hi) as Hid. change (mc_calls c !! i) with (mc_calls c0 !! i) in Hi.
  split; try done; change (mc_calls c) with (mc_calls c0) in *.
  - unfold update_call. cbn. by rewrite length_alter.
  - intros j cl' Hj. rewrite mcp_update_lookup, Hi in Hj. case_decide; [by simplify_eq/=|eauto].
  - intros id j Hj. destruct (I3 id j Hj) as (-> & cl' & H1 & H2). split; [done|]. rewrite mcp_update_lookup, Hi.
    case_decide; subst; [|eauto]. simplify_eq. by exists (f cl).
  - intros j r Hr. destruct (I4 j r Hr) as (H0 & cl' & H1 & H2 & H3). split; [done|]. rewrite mcp_update_lookup, Hi.
    case_decide; subst; [|eauto]. simplify_eq. exists (f cl). split_and!; auto.
  - intros id j Hj. cbn in Hj. apply lookup_delete_Some in Hj as [Hne Hj]. destruct (I5 id j Hj) as (-> & cl' & H1 & H2 & H3).
    split; [done|]. rewrite mcp_update_lookup, Hi. case_decide; subst; [congruence|eauto].
  - intros j cl' Hj Hs Hc. rewrite mcp_update_lookup, Hi in Hj. case_decide; [by simplify_eq/=|]. cbn.
    rewrite lookup_delete_ne by (rewrite Hid; intros ?; assert (i = j) by lia; congruence). eauto.
  - intros j cl' Hj. rewrite mcp_update_lookup, Hi in Hj. case_decide; [|eauto]. simplify_eq/=.
    destruct Hok as [O1 O2 O3 O4 O5 O6 O7 O8]. rewrite Hu in O1. cbn in O1. split; cbn; auto; try done.
    + intros r [= ->]. apply (Ha r). apply O3. by rewrite Epc.
    + intros Hp. apply O6 in Hp. split; [done|]. by destruct Hp.
    + intros H1 H2. rewrite O8 by done. unfold window. by rewrite Hu.
Qed.

(** ** Registration *)

Lemma register_inv stream c : inv c → inv (register_call stream c).
Proof.
  intros [I1 I2 I3 I4 I5 I6 I7 I8]. unfold register_call.
  assert (mc_pending c !! mc_nextID c = None ∧ mc_streamQs c !! mc_nextID c = None) as [Hp Hq].
  { split; apply eq_None_not_Some; intros [i Hi]; [destruct (I3 _ _ Hi) as (E & cl & H & _)|destruct (I5 _ _ Hi) as (E & cl & H & _)];
      apply lookup_lt_Some in H; lia. }
  assert (∀ j cl, mc_calls c !! j = Some cl → (mc_calls c ++ [mkRpcCall (mc_nextID c) stream None [] false [] false CWrite (length (mc_seen c)) None 0]) !! j = Some cl) as Hold.
  { intros j cl H. rewrite lookup_app_l; [done|]. by eapply lookup_lt_Some. }
  assert ((mc_calls c ++ [mkRpcCall (mc_nextID c) stream None [] false [] false CWrite (length (mc_seen c)) None 0]) !! length (mc_calls c)
    = Some (mkRpcCall (mc_nextID c) stream None [] false [] false CWrite (length (mc_seen c)) None 0)) as Hnew.
  { by rewrite lookup_app_r, Nat.sub_diag by lia. }
  split; cbn; try done.
  - rewrite length_app, I1. cbn. lia.
  - intros j cl [H|[Hl H]]%lookup_app_Some; [eauto|]. apply list_lookup_singleton_Some in H as [Hj0 <-]. cbn. lia.
  - intros id j [[<- <-]|[Hne Hj]]%lookup_insert_Some; [split; [lia|eauto]|]. destruct (I3 _ _ Hj) as (-> & cl & H & ?). eauto.
  - intros j r Hr. destruct (I4 _ _ Hr) as (H0 & cl & H & ? & ?). split; [|eauto]. apply lookup_insert_None. split; [done|].
    apply lookup_lt_Some in H. lia.
  - intros id j Hj.
    assert ((id = mc_nextID c ∧ j = length (mc_calls c) ∧ stream = true) ∨ mc_streamQs c !! id = Some j) as [(-> & -> & ->)|Hj'].
    { destruct stream; [apply lookup_insert_Some in Hj|]; naive_solver. }
    + split; [lia|]. eexists. split; [exact Hnew|]. done.
    + destruct (I5 _ _ Hj') as (-> & cl & H & Hs & Hc). split; [done|]. exists cl. auto.
  - intros j cl [H|[Hl H]]%lookup_app_Some Hs Hc.
    + pose proof (lookup_lt_Some _ _ _ H). destruct stream; [rewrite lookup_insert_ne by lia|]; eauto.
    + apply list_lookup_singleton_Some in H as [Hj0 <-]. cbn in Hs. subst stream. apply lookup_insert_Some. left. lia.
  - intros j cl [H|[Hl H]]%lookup_app_Some; [eauto|]. apply list_lookup_singleton_Some in H as [Hj0 <-].
    split; cbn; try done. intros _ _. unfold window. cbn. rewrite take_ge, drop_ge by lia. done.
Qed.

(** ** Lines *)

Lemma window_app seen f cl :
  (cl_since cl ≤ default (length seen) (cl_until cl) ≤ length seen)%nat →
  window (seen ++ [f]) cl = window seen cl ++ (if cl_until cl then [] else [f]).
Proof.
  unfold window. intros H. destruct (cl_until cl) as [u|]; cbn in *.
  - by rewrite take_app_le, app_nil_r by lia.
  - rewrite !take_ge by (rewrite ?length_app; cbn; lia). by rewrite drop_app_le by lia.
Qed.

Lemma answered_app seen f fin cl r :
  (cl_since cl ≤ default (length seen) (cl_until cl) ≤ length seen)%nat →
  answered seen fin cl r → answered (seen ++ [f]) fin cl r.
Proof.
  intros H [?|(k & Hk & Hf)]; [by left|]. right. exists k. split; [|by apply lookup_app_l_Some].
  destruct (cl_until cl); cbn in *; [done|]. rewrite length_app. cbn. lia.
Qed.

Lemma arrived_app seen f fin cl r : arrived seen fin cl r → arrived (seen ++ [f]) fin cl r.
Proof. intros [?|(k & Hk & Hf)]; [by left|]. right. exists k. split; [done|]. by apply lookup_app_l_Some. Qed.

(** A line without a block for the call. *)
Lemma ok_frame seen f fin cl :
  call_ok seen fin cl → (cl_closed cl = false → cl_stream cl = true → stream_chunks (cl_id cl) [f] = []) → call_ok (seen ++ [f]) fin cl.
Proof.
  intros [O1 O2 O3 O4 O5 O6 O7 O8] Hf. split; auto using answered_app, arrived_app.
  - rewrite length_app. cbn. destruct (cl_until cl); cbn in *; lia.
  - intros H1 H2. rewrite O8, window_app, chunks_app by done. destruct (cl_until cl); [by rewrite app_nil_r|].
    rewrite Hf, app_nil_r; [done..|]. done.
Qed.

(** A block that is for the call. *)
Lemma ok_chunk seen m fin cl :
  call_ok seen fin cl → cl_closed cl = false → call_ok (seen ++ [FrStream (cl_id cl) m]) fin (enqueue m cl).
Proof.
  intros Hok0 Hc. pose proof (ok_unclosed _ _ _ Hok0 Hc) as Hu. destruct Hok0 as [O1 O2 O3 O4 O5 O6 O7 O8].
  assert (call_ok (seen ++ [FrStream (cl_id cl) m]) fin (cl <| cl_lost := 1%nat |>)) as Hok.
  { split; cbn; eauto using answered_app, arrived_app; try done. rewrite length_app. cbn. rewrite Hu in *. cbn in *. lia. }
  unfold enqueue. case_match; destruct Hok as [Q1 Q2 Q3 Q4 Q5 Q6 Q7 Q8]; split; try done.
  - cbn. intros Hp. apply O6 in Hp as [? _]. congruence.
  - cbn. intros H1 H2. rewrite app_assoc, O8 by done.
    fold (window (seen ++ [FrStream (cl_id cl) m]) cl).
    rewrite window_app, Hu, chunks_app by done. f_equal. unfold stream_chunks. cbn. by rewrite bool_decide_true.
Qed.

(** The calls as a line leaves them that is no block for an open call. *)
Lemma inv_frame f c :
  inv c → mc_reader c = RScan →
  (∀ i cl, mc_calls c !! i = Some cl → cl_closed cl = false → cl_stream cl = true → stream_chunks (cl_id cl) [f] = []) →
  inv (c <| mc_seen := mc_seen c ++ [f] |>).
Proof.
  intros [I1 I2 I3 I4 I5 I6 I7 I8] Hr Hf. split; try done; cbn.
  - intros i r H. congruence.
  - intros i cl H. apply ok_frame; eauto.
Qed.

Lemma chunks_other id id' m : id' ≠ id → stream_chunks id [FrStream id' m] = [].
Proof. intros H. unfold stream_chunks. cbn. by rewrite bool_decide_false. Qed.

Lemma notify_inv id m c : inv c → mc_reader c = RScan → inv (handleNotify id m (c <| mc_seen := mc_seen c ++ [FrStream id m] |>)).
Proof.
  intros HI Hr. unfold handleNotify. cbn. destruct (mc_streamQs c !! id) as [i|] eqn:Eq.
  - destruct (inv_queues _ HI _ _ Eq) as (-> & cl & Hi & Hs & Hc). rewrite Hi, Hc.
    destruct HI as [I1 I2 I3 I4 I5 I6 I7 I8]. pose proof (I2 _ _ Hi) as Hid.
    set (c0 := c <| mc_seen := mc_seen c ++ [FrStream (Z.of_nat i + 1) m] |>).
    change (mc_calls c) with (mc_calls c0) in *.
    assert (∀ x, cl_id (enqueue m x) = cl_id x ∧ cl_stream (enqueue m x) = cl_stream x ∧ cl_closed (enqueue m x) = cl_closed x ∧ cl_ch (enqueue m x) = cl_ch x) as He.
    { intros x. unfold enqueue. by case_match. }
    destruct (He cl) as (E1 & E2 & E3 & E4). split; try done.
    + unfold update_call. cbn. by rewrite length_alter.
    + intros j cl' H. rewrite mcp_update_lookup, Hi in H. case_decide; [simplify_eq/=; rewrite E1|]; eauto.
    + intros id' j Hj. destruct (I3 id' j Hj) as (-> & cl' & H1 & H2). split; [done|]. rewrite mcp_update_lookup, Hi.
      case_decide; subst; [|eauto]. simplify_eq/=. eexists; split; [done|]. by rewrite E4.
    + intros j r H. cbn in H. congruence.
    + intros id' j Hj. destruct (I5 id' j Hj) as (-> & cl' & H1 & H2 & H3). split; [done|]. rewrite mcp_update_lookup, Hi.
      case_decide; subst; [|eauto]. simplify_eq/=. eexists; split; [done|]. by rewrite E2, E3.
    + intros j cl' H. rewrite mcp_update_lookup, Hi in H. case_decide; [simplify_eq/=; rewrite E2, E3|]; eauto.
    + intros j cl' H. rewrite mcp_update_lookup, Hi in H. case_decide as Hji.
      * simplify_eq/=. rewrite <- Hid. apply ok_chunk; [by eapply I7|done].
      * apply ok_frame; [by eapply I7|]. intros _ _. apply chunks_other. rewrite (I2 _ _ H). intros ?. apply Hji. lia.
  - apply (inv_frame (FrStream id m)); [done..|]. intros i cl Hi Hc Hs. apply chunks_other. intros E. rewrite E in Eq.
    assert (mc_streamQs c !! cl_id cl = Some i) as H; [|congruence].
    rewrite (inv_ids _ HI _ _ Hi). by apply (inv_open _ HI i cl).
Qed.

Lemma frame_inv f c : inv c → mc_reader c = RScan → inv (read_frame f c).
Proof.
  intros HI Hr. destruct f as [id r|id m|]; [|by apply notify_inv|by apply inv_frame].
  pose proof (inv_frame (FrResponse id r) c HI Hr ltac:(done)) as HI'. cbn [read_frame]. case_bool_decide as Hid; [done|].
  change (mc_pending (c <| mc_seen := mc_seen c ++ [FrResponse id r] |>)) with (mc_pending c).
  destruct (mc_pending c !! id) as [i|] eqn:Ei; [|done]. destruct (inv_pending _ HI _ _ Ei) as (-> & cl & Hi & Hch).
  pose proof (inv_calls _ HI _ _ Hi) as Hok. apply (inv_forget_pending (Z.of_nat i + 1)) in HI'.
  destruct HI' as [I1 I2 I3 I4 I5 I6 I7 I8]. split; try done.
  - cbn. intros j r' [= <- <-]. split; [apply lookup_delete_eq|]. exists cl. split_and!; [done..|]. right.
    exists (length (mc_seen c)). rewrite (inv_ids _ HI _ _ Hi). split; [|by rewrite lookup_app_r, Nat.sub_diag by lia].
    pose proof (ok_since _ _ _ Hok). lia.
  - cbn. intros j cl' H. specialize (I7 j cl' H). cbn in I7. by rewrite Hr in I7.
Qed.

(** ** readLoop away from the scanner *)

Lemma arrived_fin seen cl r fin : arrived seen false cl r → arrived seen fin cl r.
Proof. intros [[? _]|?]; [done|by right]. Qed.
Lemma answered_fin seen cl r fin : answered seen false cl r → answered seen fin cl r.
Proof. intros [[? _]|?]; [done|by right]. Qed.
Lemma ok_fin seen cl fin : call_ok seen false cl → call_ok seen fin cl.
Proof. intros []. split; eauto using arrived_fin, answered_fin. Qed.

(** readLoop goes on to a place where it has nothing to send. *)
Lemma inv_reader rd c :
  inv c → (∀ i r, rd ≠ RSend i r) → (ended (mc_reader c) = true → ended rd = true) → inv (c <| mc_reader := rd |>).
Proof.
  intros [I1 I2 I3 I4 I5 I6 I7 I8] Hs Hf. split; try done; cbn.
  - intros i r H. by destruct (Hs i r).
  - intros i cl H. specialize (I7 i cl H). destruct (ended (mc_reader c)); [by rewrite Hf|by apply ok_fin].
Qed.

Lemma send_inv i r c c' :
  inv c → (∀ j r', mc_reader c ≠ RSend j r') → mc_pending c !! (Z.of_nat i + 1) = None →
  (∀ cl, mc_calls c !! i = Some cl → arrived (mc_seen c) (ended (mc_reader c)) cl r) → send i r c = Some c' → inv c'.
Proof.
  intros [I1 I2 I3 I4 I5 I6 I7 I8] Hrd Hp Ha H. unfold send in H. destruct (mc_calls c !! i) as [cl|] eqn:Hi; [|done].
  destruct (cl_ch cl) eqn:Ech; [done|]. injection H as <-. specialize (Ha cl eq_refl). split; try done.
  - unfold update_call. cbn. by rewrite length_alter.
  - intros j cl' H. rewrite mcp_update_lookup, Hi in H. case_decide; [simplify_eq/=|]; eauto.
  - intros id j Hj. destruct (I3 id j Hj) as (-> & cl' & H1 & H2). split; [done|]. rewrite mcp_update_lookup.
    case_decide; [|eauto]. subst. cbn in Hj. congruence.
  - intros j r' H. by destruct (Hrd j r').
  - intros id j Hj. destruct (I5 id j Hj) as (-> & cl' & H1 & H2 & H3). split; [done|]. rewrite mcp_update_lookup, Hi.
    case_decide; subst; [|eauto]. simplify_eq/=. eexists; split; [done|]. done.
  - intros j cl' H. rewrite mcp_update_lookup, Hi in H. case_decide; [simplify_eq/=|]; eauto.
  - intros j cl' H. rewrite mcp_update_lookup, Hi in H. case_decide; [|by eauto]. simplify_eq/=.
    destruct (I7 _ _ Hi). split; try done. cbn. by intros r' [= <-].
Qed.

Lemma reader_inv id c c' : inv c → reader_step id c = Some c' → inv c'.
Proof.
  unfold reader_step. intros HI H. destruct (mc_reader c) as [|i r| | |] eqn:Er; try done.
  - destruct (send i r c) as [c1|] eqn:Hs; [|done]. injection H as <-.
    destruct (inv_send _ HI _ _ Er) as (Hp & cl & Hi & Hch & Ha).
    assert (send i r (c <| mc_reader := RScan |>) = Some (c1 <| mc_reader := RScan |>)) as Hs'.
    { unfold send in *. cbn. rewrite Hi, Hch in *. by injection Hs as <-. }
    eapply send_inv; [| | | |exact Hs']; [apply inv_reader; [done..|by rewrite Er]|done|done|].
    cbn. intros cl' Hi'. by simplify_eq.
  - case_bool_decide as Hp; [injection H as <-; apply inv_reader; done|].
    destruct (mc_pending c !! id) as [i|] eqn:Ei; [|done]. cbn in H. destruct (inv_pending _ HI _ _ Ei) as (-> & cl & Hi & _).
    eapply send_inv; [by apply (inv_forget_pending (Z.of_nat i + 1))| | | |exact H]; cbn.
    + intros j r'. by rewrite Er.
    + apply lookup_delete_eq.
    + intros cl' _. rewrite Er. by left.
  - injection H as <-. apply (inv_reader RDone c) in HI; [|done..]. by destruct HI; split.
Qed.

Lemma exec_inv e c c' : inv c → exec e c = Some c' → inv c'.
Proof.
  intros HI H. destruct e; cbn [exec] in H.
  - destruct (lock_free c); [|done]. injection H as <-. by apply register_inv.
  - apply bind_Some in H as (cl & Hi & H). by eapply mcp_write_inv.
  - apply bind_Some in H as (cl & Hi & H). by eapply context_inv.
  - apply bind_Some in H as (cl & Hi & H). by eapply receive_inv.
  - apply bind_Some in H as (cl & Hi & H). by eapply close_inv.
  - apply bind_Some in H as (cl & Hi & H). by eapply await_inv.
  - apply bind_Some in H as (cl & Hi & H). by eapply forget_inv.
  - apply bind_Some in H as (cl & Hi & H). by eapply pump_inv.
  - destruct (mc_reader c) eqn:Er; try done. injection H as <-. by apply frame_inv.
  - destruct (mc_reader c) eqn:Er; try done. injection H as <-. by apply inv_reader.
  - by eapply reader_inv.
  - injection H as <-. destruct HI; by split.
Qed.

Lemma mcp_run_inv es : ∀ c c', inv c → exec_all es c = Some c' → inv c'.
Proof.
  induction es as [|e es IH]; intros c c' HI; simpl; [by intros [= <-]|].
  destruct (exec e c) as [c1|] eqn:E; [|done]. apply IH. by apply (exec_inv e c c1).
Qed.

(** ** Nobody is forgotten *)

Definition waiting (pc : RpcPc) : bool := match pc with CWrite | CSelect => true | _ => false end.

(** A call that waits is in [pending], or its response is on its way. *)
Definition expected (c : MCPClient) : Prop :=
  ∀ i cl, mc_calls c !! i = Some cl → waiting (cl_pc cl) = true →
    mc_pending c !! (Z.of_nat i + 1) = Some i ∨ (∃ r, mc_reader c = RSend i r) ∨ is_Some (cl_ch cl).

(** A step of one call that waits no longer than before. *)
Lemma expected_update i f cl c c' :
  expected c → mc_calls c !! i = Some cl → mc_calls c' = mc_calls (update_call i f c) →
  (waiting (cl_pc (f cl)) = true → waiting (cl_pc cl) = true ∧ cl_ch (f cl) = cl_ch cl) →
  (∀ j, j ≠ i ∨ waiting (cl_pc (f cl)) = true → mc_pending c' !! (Z.of_nat j + 1) = mc_pending c !! (Z.of_nat j + 1)) →
  mc_reader c' = mc_reader c → expected c'.
Proof.
  intros He Hi Hc Hf Hp Hr j cl' Hj Hw. rewrite Hc, mcp_update_lookup, Hi in Hj. rewrite Hr. case_decide as Hji.
  - subst. simplify_eq/=. destruct (Hf Hw) as [Hw' ->]. rewrite Hp by auto. by apply He.
  - rewrite Hp by auto. by apply He.
Qed.

Lemma waiting_unwind cl e : waiting (unwind cl e) = false.
Proof. unfold unwind. by destruct (cl_stream cl). Qed.

Lemma expected_send i r c c' :
  expected c → send i r c = Some c' → (∀ cl, mc_calls c' !! i = Some cl → is_Some (cl_ch cl)) ∧
  ∀ j, j ≠ i → mc_calls c' !! j = mc_calls c !! j.
Proof.
  intros He H. unfold send in H. destruct (mc_calls c !! i) as [cl|] eqn:Hi; [|done]. destruct (cl_ch cl); [done|]. injection H as <-.
  split; [intros cl' Hc|intros j Hne]; [|by rewrite mcp_update_lookup, decide_False by done].
  rewrite mcp_update_lookup, Hi, decide_True in Hc by done. by simplify_eq/=.
Qed.

Lemma register_expected stream c : inv c → expected c → expected (register_call stream c).
Proof.
  intros HI He i cl Hi Hw. unfold register_call in *. cbn in *. apply lookup_app_Some in Hi as [Hi|[Hl Hi]].
  - destruct (He i cl Hi Hw) as [?|?]; [left|by right]. rewrite lookup_insert_ne; [done|].
    pose proof (lookup_lt_Some _ _ _ Hi). rewrite (inv_next _ HI). lia.
  - apply list_lookup_singleton_Some in Hi as [Hi _]. left. apply lookup_insert_Some. left. rewrite (inv_next _ HI). lia.
Qed.

Lemma frame_expected f c : inv c → mc_reader c = RScan → expected c → expected (read_frame f c).
Proof.
  intros HI Hr He. assert (expected (c <| mc_seen := mc_seen c ++ [f] |>)) as He' by exact He.
  destruct f as [id r|id m|]; cbn [read_frame]; [|unfold handleNotify; cbn; repeat case_match; try done|done].
  - case_bool_decide; [done|]. cbn. destruct (mc_pending c !! id) as [i|] eqn:Ei; [|done].
    destruct (inv_pending _ HI _ _ Ei) as (-> & _ & _ & _). intros j cl Hj Hw. cbn in *.
    destruct (decide (j = i)) as [->|Hne]; [by right; left; eexists|].
    destruct (He j cl Hj Hw) as [?|[[r' Hr']|?]]; [left|congruence|by right; right]. rewrite lookup_delete_ne; [done|lia].
  - match goal with H : mc_calls c !! _ = Some ?cl |- _ => apply (expected_update _ (enqueue m) cl _ _ He' H) end; try done.
    unfold enqueue. by case_match.
Qed.

Lemma reader_expected id c c' : inv c → reader_step id c = Some c' → expected c → expected c'.
Proof.
  unfold reader_step. intros HI H He. destruct (mc_reader c) as [|i r| | |] eqn:Er; try done.
  - destruct (send i r c) as [c1|] eqn:Hs; [|done]. injection H as <-. destruct (expected_send _ _ _ _ He Hs) as [H1 H2].
    intros j cl Hj Hw. cbn in *. destruct (decide (j = i)) as [->|Hne]; [right; right; by apply H1|].
    rewrite H2 in Hj by done. destruct (He j cl Hj Hw) as [?|[[r' Hr']|?]]; [left|congruence|by right; right].
    unfold send in Hs. repeat (case_match; simplify_eq/=). done.
  - case_bool_decide as Hp.
    + injection H as <-. intros j cl Hj Hw. destruct (He j cl Hj Hw) as [?|[[r' Hr']|?]]; [by left|congruence|by right; right].
    + destruct (mc_pending c !! id) as [i|] eqn:Ei; [|done]. cbn in H. destruct (inv_pending _ HI _ _ Ei) as (-> & _ & _ & _).
      set (c1 := c <| mc_pending := delete (Z.of_nat i + 1) (mc_pending c) |>) in *.
      unfold send in H. destruct (mc_calls c1 !! i) as [cl0|] eqn:Hi; [|done]. destruct (cl_ch cl0); [done|]. injection H as <-.
      intros j cl Hj Hw. rewrite mcp_update_lookup, Hi in Hj. case_decide as Hji; [right; right; by simplify_eq/=|].
      destruct (He j cl Hj Hw) as [?|[[r' Hr']|?]]; [left|congruence|by right; right]. cbn. rewrite lookup_delete_ne; [done|lia].
  - injection H as <-. intros j cl Hj Hw. destruct (He j cl Hj Hw) as [?|[[r' Hr']|?]]; [by left|congruence|by right; right].
Qed.

Lemma exec_expected e c c' : inv c → exec e c = Some c' → expected c → expected c'.
Proof.
  intros HI H He. destruct e; cbn [exec] in H.
  - destruct (lock_free c); [|done]. injection H as <-. by apply register_expected.
  - apply bind_Some in H as (cl & Hi & H). unfold write_request in H. destruct (cl_pc cl) eqn:Epc; simplify_eq.
    apply (expected_update i _ cl c _ He Hi eq_refl); [by rewrite Epc|done..].
  - apply bind_Some in H as (cl & Hi & H). unfold context_ends in H. destruct (cl_pc cl) eqn:Epc; simplify_eq.
    eapply (expected_update i _ cl c _ He Hi eq_refl); [cbn; by rewrite waiting_unwind|done..].
  - apply bind_Some in H as (cl & Hi & H). unfold receive in H. destruct (cl_pc cl) eqn:Epc, (cl_ch cl); simplify_eq.
    eapply (expected_update i _ cl c _ He Hi eq_refl); [cbn; by rewrite waiting_unwind|done..].
  - apply bind_Some in H as (cl & Hi & H). unfold close_queue in H. destruct (cl_pc cl) eqn:Epc, (lock_free c); simplify_eq.
    by eapply (expected_update i _ cl c _ He Hi eq_refl).
  - apply bind_Some in H as (cl & Hi & H). unfold await_pump in H. destruct (cl_pc cl) eqn:Epc, (cl_pumped cl); simplify_eq.
    by eapply (expected_update i _ cl c _ He Hi eq_refl).
  - apply bind_Some in H as (cl & Hi & H). unfold forget_call in H. destruct (cl_pc cl) eqn:Epc, (lock_free c); simplify_eq.
    apply (expected_update i (λ cl, cl <| cl_pc := CReturned e |>) cl c _ He Hi); [reflexivity|done| |done]. cbn. intros j [Hj|?]; [|done].
    rewrite lookup_delete_ne; [done|]. rewrite (inv_ids _ HI _ _ Hi). lia.
  - apply bind_Some in H as (cl & Hi & H). unfold pump in H.
    destruct (negb (cl_stream cl) || cl_pumped cl); [done|]. destruct (cl_queue cl), (cl_closed cl); simplify_eq.
    all: by apply (expected_update i _ cl c _ He Hi eq_refl).
  - destruct (mc_reader c) eqn:Er; try done. injection H as <-. by apply frame_expected.
  - destruct (mc_reader c) eqn:Er; try done. injection H as <-. intros j cl Hj Hw.
    destruct (He j cl Hj Hw) as [?|[[r' Hr']|?]]; [by left|congruence|by right; right].
  - by eapply reader_expected.
  - injection H as <-. exact He.
Qed.

Lemma run_expected es : ∀ c c', inv c → expected c → exec_all es c = Some c' → expected c'.
Proof.
  induction es as [|e es IH]; intros c c' HI He; simpl; [by intros [= <-]|].
  destruct (exec e c) as [c1|] eqn:E; [|done]. apply IH; [by apply (exec_inv e c c1)|by apply (exec_expected e c c1)].
Qed.

(** C35: Every call gets its own answer, after its own stream.  In every run, with
    any number of calls at a time and whatever the child writes, a call that
    returns a response returns the one of a line that carries its request's number
    and was read after the call began (or the error that the child has ended);
    and when it streams and no block found its queue full, [onChunk] has by then
    been called with all the blocks for it that were read before that line, in
    their order, and with nothing but blocks for it. *)
Theorem response_after_stream es c i cl r :
  exec_all es fresh_client = Some c → mc_calls c !! i = Some cl → cl_pc cl = CReturned (EndResponse r) →
  cl_id cl = Z.of_nat i + 1 ∧
  ((ended (mc_reader c) = true ∧ r = process_exited ∧
    (cl_stream cl = true → cl_lost cl = 0%nat → ∃ u, cl_heard cl = stream_chunks (cl_id cl) (drop (cl_since cl) (take u (mc_seen c)))))
   ∨ ∃ k, (cl_since cl ≤ k)%nat ∧ mc_seen c !! k = Some (FrResponse (cl_id cl) r) ∧
     (cl_stream cl = true → cl_lost cl = 0%nat →
      ∃ late, cl_heard cl = stream_chunks (cl_id cl) (drop (cl_since cl) (take k (mc_seen c))) ++ stream_chunks (cl_id cl) late)).
Proof.
  intros He Hi Hpc. pose proof (mcp_run_inv _ _ _ new_client_inv He) as HI. split; [exact (inv_ids _ HI _ _ Hi)|].
  destruct (inv_calls _ HI _ _ Hi) as [O1 _ O3 O4 O5 O6 O7 O8]. rewrite Hpc in *.
  assert (cl_stream cl = true → cl_lost cl = 0%nat → cl_heard cl = stream_chunks (cl_id cl) (window (mc_seen c) cl)) as Hb.
  { intros Hs Hl. rewrite <- O8 by done. destruct (O6 (O7 eq_refl Hs)) as [_ ->]. by rewrite app_nil_r. }
  destruct (O3 r eq_refl) as [[Hf ->]|(k & Hk & Hline)].
  - left. split_and!; [done..|]. intros Hs Hl. eexists. by rewrite (Hb Hs Hl).
  - right. exists k. split_and!; [lia|done|]. intros Hs Hl. rewrite (Hb Hs Hl). unfold window.
    exists (drop k (take (default (length (mc_seen c)) (cl_until cl)) (mc_seen c))). rewrite <- chunks_app. f_equal.
    rewrite <- (take_drop k (take _ (mc_seen c))) at 1. rewrite take_take, Nat.min_l by lia.
    rewrite drop_app_le; [done|]. rewrite length_take. lia.
Qed.

(** A slow page holds nobody up.  In no run does readLoop wait for a call:
    the channel it is about to send a response to is empty, and so is the channel
    of every call it wakes at the end, so that it always has a next step.  And it
    never sends on a queue that a call has closed, which would end the process,
    however the cancellation of the call races with the blocks of its stream. *)
Theorem reader_never_stuck es c :
  exec_all es fresh_client = Some c →
  mc_panic c = false ∧
  match mc_reader c with
  | RDone => True
  | RScan => ∀ f, is_Some (exec (EFrame f) c)
  | _ => ∃ id, is_Some (exec (EReader id) c)
  end.
Proof.
  intros He. pose proof (mcp_run_inv _ _ _ new_client_inv He) as HI. split; [by apply inv_panic|].
  destruct (mc_reader c) as [|i r| | |] eqn:Er; cbn [exec]; unfold reader_step; rewrite ?Er; try done.
  - exists 0. destruct (inv_send _ HI _ _ Er) as (_ & cl & Hi & Hch & _). unfold send. by rewrite Hi, Hch.
  - case_bool_decide as Hp; [by exists 0|]. apply map_choose in Hp as (id & i & Hid). exists id. rewrite Hid. cbn.
    destruct (inv_pending _ HI _ _ Hid) as (_ & cl & Hi & Hch). unfold send. cbn. by rewrite Hi, Hch.
  - by exists 0.
Qed.

(** When the child ends, readLoop wakes the calls: as it leaves the section that
    does so, every call that waits, for whatever, has its response in its
    channel. *)
Theorem exit_wakes_calls es c id c' i cl :
  exec_all es fresh_client = Some c → mc_reader c = RWake → exec (EReader id) c = Some c' → mc_reader c' = RMark →
  mc_calls c' !! i = Some cl → waiting (cl_pc cl) = true → is_Some (cl_ch cl).
Proof.
  intros He Hr Hs Hm Hi Hw. cbn in Hs. unfold reader_step in Hs. rewrite Hr in Hs. case_bool_decide as Hp.
  - injection Hs as <-. assert (expected c) as Hx.
    { apply (run_expected es fresh_client); [apply new_client_inv|by intros ? ?|done]. }
    destruct (Hx i cl Hi Hw) as [H|[[r H]|H]]; [rewrite Hp in H; by apply lookup_empty_Some in H|congruence|done].
  - destruct (mc_pending c !! id); [|done]. cbn in Hs. unfold send in Hs. repeat (case_match; simplify_eq/=). congruence.
Qed.

(** ** A streamed call beside a plain one *)

Definition two_calls : list Event :=
  [ECall true; EWrite 0 None; ECall false; EWrite 1 None; EFrame (FrStream 1 (lit "stdout", lit "a")); EFrame (FrResponse 2 (Ok (lit "{}")));
   EReader 0; EFrame FrOther; EFrame (FrStream 1 (lit "stdout", lit "b")); EFrame (FrResponse 1 (Ok (lit "done"))); EReader 0;
   EReceive 0; ECloseQueue 0; EPump 0; EPump 0; EPump 0; EAwaitPump 0; EForget 0].
Definition after_calls : MCPClient := default fresh_client (exec_all two_calls fresh_client).
Definition first_call : RpcCall := default (mkRpcCall 0 false None [] false [] false CWrite 0 None 0) (mc_calls after_calls !! 0%nat).

Lemma response_after_stream_witness :
  cl_heard first_call = [(lit "stdout", lit "a"); (lit "stdout", lit "b")] ∧
  ∃ k, (cl_since first_call ≤ k)%nat ∧ mc_seen after_calls !! k = Some (FrResponse (cl_id first_call) (Ok (lit "done"))).
Proof.
  split; [vm_compute; reflexivity|].
  destruct (response_after_stream two_calls after_calls 0 first_call (Ok (lit "done"))) as [_ [(H & _)|(k & H1 & H2 & _)]];
    [vm_compute; reflexivity..|vm_compute in H; discriminate H|]. by exists k.
Defined.

Lemma reader_never_stuck_witness : mc_panic after_calls = false ∧ is_Some (exec (EFrame FrOther) after_calls).
Proof.
  destruct (reader_never_stuck two_calls after_calls) as [H1 H2]; [vm_compute; reflexivity|].
  split; [exact H1|]. exact (H2 FrOther).
Defined.
