(* ===== verification/GuiPreview.v ===== *)
(** * Image previews of the GUI (src/internal/gui/server.go)

    A preview is fetched through the channel once and kept in a directory under
    its MD5: [cachedPreview] and [cachePreviewDownload], which run for several
    requests at a time; and how the MD5 of a remote file is found
    ([remoteFileMD5], [parseMD5Output]). *)

From S2P Require Import Prelude GoNet GoText GuiUpgradeText.

Open Scope Z_scope.

(** ** MD5 texts *)

(** [md5TextRE] *)
Definition md5_text (s : gostring) : bool := (length s =? 32)%nat && forallb hex_fold s.

Definition normalizeMD5 (value : gostring) : gostring :=
  let value := ToLower (TrimSpace value) in if md5_text value then value else [].

(** [md5InTextRE.FindString]: the leftmost match. *)
Fixpoint find_md5 (s : gostring) : gostring :=
  if md5_text (take 32 s) then take 32 s else match s with [] => [] | _ :: s => find_md5 s end.

Definition line_md5 (line : gostring) : option gostring :=
  let digest := normalizeMD5 (TrimSpace line) in
  if bool_decide (digest ≠ []) then Some digest
  else let digest := find_md5 line in if bool_decide (digest ≠ []) then Some (ToLower digest) else None.

Fixpoint first_md5 (lines : list gostring) : option gostring :=
  match lines with
  | [] => None
  | line :: lines => match line_md5 line with Some d => Some d | None => first_md5 lines end
  end.

Definition parseMD5Output (stdout : gostring) : gostring :=
  match first_md5 (split_byte 10 (filter (fun b => b ≠ 32) stdout)) with
  | Some d => d
  | None => match Fields stdout with field :: _ => normalizeMD5 field | [] => [] end
  end.

(** What one of the commands comes to: the call fails, or ends with a code and
    its output. *)
Inductive HashReply := HashError (e : gostring) | HashResult (code : Z) (stdout error stderr : gostring).

Definition hash_reply (r : HashReply) : result gostring gostring :=
  match r with
  | HashError e => Err e
  | HashResult code stdout error stderr =>
      if code =? 0 then
        let digest := parseMD5Output stdout in
        if bool_decide (digest ≠ []) then Ok digest else Err (lit "MD5 command returned no digest")
      else Err (TrimSpace (error ++ [32] ++ stderr))
  end.

(** The commands one after the other: md5sum, PowerShell, md5, certutil. *)
Fixpoint hash_commands (lastErr : gostring) (replies : list HashReply) : result gostring gostring :=
  match replies with
  | [] => Err lastErr
  | r :: replies => match hash_reply r with Ok d => Ok d | Err e => hash_commands e replies end
  end.

(** The tool file_md5 first. *)
Definition remoteFileMD5 (tool : result gostring gostring) (replies : list HashReply) : result gostring gostring :=
  match tool with
  | Ok value => if bool_decide (normalizeMD5 value ≠ []) then Ok (normalizeMD5 value)
                else hash_commands (lit "remote MD5 is unavailable") replies
  | Err e => hash_commands e replies
  end.

(** The last segment of a path, of either system. *)
Fixpoint baseName_from (last p : gostring) : gostring :=
  match p with
  | [] => last
  | b :: p => if bool_decide (b = 47 ∨ b = 92) then baseName_from p p else baseName_from last p
  end.
Definition baseName (p : gostring) : gostring := baseName_from p p.

(** Only raster images are shown; [contentType] is what [http.DetectContentType]
    makes of the file's beginning. *)
Definition previewImageContentType (contentType : gostring) : option gostring :=
  if bool_decide (contentType ∈ [lit "image/png"; lit "image/jpeg"; lit "image/gif"; lit "image/webp"; lit "image/bmp"])
  then Some contentType else None.

(** ** The cache *)

Section cache.
Context (md5 : list Z → gostring).

(** A call of cachedPreview.  A leader has the number of its load and, once it is
    made, the name of its temporary file. *)
Inductive PreviewPc :=
| VStat
| VLock
| VWait (load : nat)
| VMkdir (load : nat)
| VCheck (load : nat)
| VTemp (load : nat)
| VDownload (load : nat) (tmp : gostring)
| VHash (load : nat) (tmp : gostring)
| VRename (load : nat) (tmp : gostring)
| VRestat (load : nat) (tmp : gostring) (e : gostring)
| VRemove (load : nat) (tmp : gostring) (err : option gostring)
| VFinish (load : nat) (err : option gostring)
| VDone (r : result gostring bool).

Record Preview := mkPreview { pv_digest : gostring; pv_pc : PreviewPc }.

(** The files of the directory; [previewLoads]; and each load with its digest
    and, once [done] is closed, its error. *)
Record Cache := mkCache {
  ca_files : gmap gostring (list Z);
  ca_loads : gmap gostring nat;
  ca_done : list (gostring * option (option gostring));
  ca_calls : list Preview
}.

(** What the surroundings do: a system call or the download works (with a name or
    a content) or fails, a context ends. *)
Inductive PreviewOutcome :=
| PGo
| PErr (e : gostring)
| PName (name : gostring)
| PContent (content : list Z)
| PCancelled (e : gostring).

(** The temporary file a call still refers to. *)
Definition tmp_of (pc : PreviewPc) : option gostring :=
  match pc with VDownload _ t | VHash _ t | VRename _ t | VRestat _ t _ | VRemove _ t _ => Some t | _ => None end.

(** [os.CreateTemp] makes a file that was not there.  Its random name is also
    taken to be none that another call still refers to. *)
Definition fresh_name (name : gostring) (s : Cache) : bool :=
  bool_decide (ca_files s !! name = None) && negb (md5_text name) &&
  forallb (fun p => negb (bool_decide (tmp_of (pv_pc p) = Some name))) (ca_calls s).

Definition preview_step (o : PreviewOutcome) (d : gostring) (pc : PreviewPc) (s : Cache) : option (PreviewPc * Cache) :=
  let files f := mkCache f (ca_loads s) (ca_done s) (ca_calls s) in
  match pc, o with
  | VStat, PGo => Some (match ca_files s !! d with Some _ => VDone (Ok true) | None => VLock end, s)
  | VLock, PGo =>
      match ca_loads s !! d with
      | Some l => Some (VWait l, s)
      | None =>
          let l := length (ca_done s) in
          Some (VMkdir l, mkCache (ca_files s) (<[d := l]> (ca_loads s)) (ca_done s ++ [(d, None)]) (ca_calls s))
      end
  | VWait l, PCancelled e => Some (VDone (Err e), s)
  | VWait l, PGo =>
      match ca_done s !! l with
      | Some (_, Some (Some e)) => Some (VDone (Err e), s)
      | Some (_, Some None) => Some (VDone (Ok true), s)
      | _ => None
      end
  | VMkdir l, PErr e => Some (VFinish l (Some e), s)
  | VMkdir l, PGo => Some (VCheck l, s)
  | VCheck l, PGo => Some (match ca_files s !! d with Some _ => VFinish l None | None => VTemp l end, s)
  | VTemp l, PErr e => Some (VFinish l (Some e), s)
  | VTemp l, PName name =>
      if fresh_name name s then Some (VDownload l name, files (<[name := []]> (ca_files s))) else None
  | VDownload l tmp, PErr e => Some (VRemove l tmp (Some (lit "download preview: " ++ e)), s)
  | VDownload l tmp, PContent c => Some (VHash l tmp, files (<[tmp := c]> (ca_files s)))
  | VHash l tmp, PErr e => Some (VRemove l tmp (Some e), s)
  | VHash l tmp, PGo =>
      match ca_files s !! tmp with
      | Some c => if bool_decide (md5 c = d) then Some (VRename l tmp, s)
                  else Some (VRemove l tmp (Some (lit "preview MD5 mismatch: remote " ++ d ++ lit ", downloaded " ++ md5 c)), s)
      | None => None
      end
  | VRename l tmp, PErr e => Some (VRestat l tmp e, s)
  | VRename l tmp, PGo =>
      match ca_files s !! tmp with
      | Some c => Some (VRemove l tmp None, files (<[d := c]> (delete tmp (ca_files s))))
      | None => None
      end
  | VRestat l tmp e, PGo =>
      Some (VRemove l tmp (match ca_files s !! d with Some _ => None | None => Some (lit "commit preview cache: " ++ e) end), s)
  | VRemove l tmp err, PGo => Some (VFinish l err, files (delete tmp (ca_files s)))
  | VFinish l err, PGo =>
      Some (VDone (match err with Some e => Err e | None => Ok false end),
            mkCache (ca_files s) (delete d (ca_loads s)) (<[l := (d, Some err)]> (ca_done s)) (ca_calls s))
  | _, _ => None
  end.

(** A request comes with the digest of its file; a call goes on. *)
Inductive PreviewEvent := PRequest (d : gostring) | PStep (i : nat) (o : PreviewOutcome).

Definition preview_exec (e : PreviewEvent) (s : Cache) : option Cache :=
  match e with
  | PRequest d =>
      if md5_text d then Some (mkCache (ca_files s) (ca_loads s) (ca_done s) (ca_calls s ++ [mkPreview d VStat])) else None
  | PStep i o =>
      p ← ca_calls s !! i;
      '(pc, s') ← preview_step o (pv_digest p) (pv_pc p) s;
      Some (mkCache (ca_files s') (ca_loads s') (ca_done s') (<[i := mkPreview (pv_digest p) pc]> (ca_calls s')))
  end.

Fixpoint preview_run (es : list PreviewEvent) (s : Cache) : option Cache :=
  match es with
  | [] => Some s
  | e :: es => match preview_exec e s with Some s' => preview_run es s' | None => None end
  end.

(** A start of the GUI: nothing under way, and what earlier runs have left. *)
Definition preview_start (files : gmap gostring (list Z)) : Cache := mkCache files ∅ [] [].
End cache.
