(* ===== verification/GuiPreviewThms.v ===== *)
(** * The previews of the GUI: what the cache holds, and where the MD5 comes from

    The cache only holds files under their own MD5, whatever requests overlap
    ([preview_cache_sound]); a request can fail because another one was given up
    ([waiter_inherits_cancellation]); and a digest can be read off a path
    ([certutil_reads_path]). *)

From S2P Require Import Prelude GoNet GoText GuiUpgradeText GuiPreview.

Open Scope Z_scope.

Section cache.
Context (md5 : list Z → gostring).

Notation preview_step := (preview_step md5).
Notation preview_exec := (preview_exec md5).
Notation preview_run := (preview_run md5).

(** The load a call leads. *)
Definition leads (pc : PreviewPc) : option nat :=
  match pc with
  | VMkdir l | VCheck l | VTemp l | VDownload l _ | VHash l _ | VRename l _ | VRestat l _ _ | VRemove l _ _ | VFinish l _ => Some l
  | _ => None
  end.

(** The call has found or made the file of its digest. *)
Definition has_file (pc : PreviewPc) : bool :=
  match pc with VRemove _ _ None | VFinish _ None | VDone (Ok _) => true | _ => false end.

Definition pc_sane (s : Cache) (d : gostring) (pc : PreviewPc) : Prop :=
  (∀ l, pc = VWait l → ∃ r, ca_done s !! l = Some (d, r)) ∧
  (∀ l, leads pc = Some l → ca_loads s !! d = Some l) ∧
  (∀ t, tmp_of pc = Some t → md5_text t = false) ∧
  (∀ l t, pc = VRename l t → ∃ c, ca_files s !! t = Some c ∧ md5 c = d) ∧
  (has_file pc = true → is_Some (ca_files s !! d)).

Record sound (s : Cache) : Prop := {
  sound_files : ∀ n c, ca_files s !! n = Some c → md5_text n = true → md5 c = n;
  sound_digests : ∀ i p, ca_calls s !! i = Some p → md5_text (pv_digest p) = true;
  sound_calls : ∀ i p, ca_calls s !! i = Some p → pc_sane s (pv_digest p) (pv_pc p);
  sound_tmps : ∀ i j p q t, ca_calls s !! i = Some p → ca_calls s !! j = Some q →
    tmp_of (pv_pc p) = Some t → tmp_of (pv_pc q) = Some t → i = j;
  sound_leaders : ∀ i j p q l, ca_calls s !! i = Some p → ca_calls s !! j = Some q →
    leads (pv_pc p) = Some l → leads (pv_pc q) = Some l → i = j;
  sound_loads : ∀ d l, ca_loads s !! d = Some l → ca_done s !! l = Some (d, None);
  sound_done : ∀ l d r, ca_done s !! l = Some (d, r) → md5_text d = true ∧ (r = Some None → is_Some (ca_files s !! d))
}.

(** What a step of a call [i] may do to what the others see: they keep their
    loads, their waits, their temporary files and the files under a digest. *)
Record harmless (d : gostring) (pc : PreviewPc) (s s' : Cache) : Prop := {
  hl_files : ∀ n c, md5_text n = true → ca_files s !! n = Some c → is_Some (ca_files s' !! n);
  hl_tmp : ∀ t c, md5_text t = false → tmp_of pc ≠ Some t → ca_files s !! t = Some c → ca_files s' !! t = Some c;
  hl_loads : ∀ d' l, leads pc ≠ Some l → ca_loads s !! d' = Some l → ca_loads s' !! d' = Some l;
  hl_done : ∀ l d' r, ca_done s !! l = Some (d', r) → ∃ r', ca_done s' !! l = Some (d', r');
  hl_calls : ca_calls s' = ca_calls s
}.

Lemma others_sane d pc s s' d' pc' :
  harmless d pc s s' → md5_text d' = true → (∀ t, tmp_of pc = Some t → tmp_of pc' ≠ Some t) → (∀ l, leads pc = Some l → leads pc' ≠ Some l) →
  pc_sane s d' pc' → pc_sane s' d' pc'.
Proof.
  intros [H1 H2 H3 H4 _] Hd Ht Hl (S1 & S2 & S3 & S4 & S5). split_and!.
  - intros l E. destruct (S1 l E) as [r Hr]. by eapply H4.
  - intros l E. apply H3; [|by apply S2]. intros E'. by apply (Hl l).
  - done.
  - intros l t E. destruct (S4 l t E) as (c & Hc & Hm). exists c. split; [|done]. subst. apply H2; [by apply S3|by intros ?%Ht|done].
  - intros E. destruct (S5 E) as [c Hc]. by eapply H1.
Qed.
Lemma harmless_same d pc s : harmless d pc s s.
Proof. split; eauto. Qed.

(** A leader ends. *)
Lemma finish_harmless d load err s :
  ca_loads s !! d = Some load → ca_done s !! load = Some (d, None) →
  harmless d (VFinish load err) s (mkCache (ca_files s) (delete d (ca_loads s)) (<[load := (d, Some err)]> (ca_done s)) (ca_calls s)).
Proof.
  intros H1 H2. split; cbn; eauto.
  - intros d' l' Hne Hl. rewrite lookup_delete_ne; [done|]. intros <-. congruence.
  - intros l' d' r Hl. destruct (decide (l' = load)) as [->|]; [|exists r; by rewrite list_lookup_insert_ne].
    simplify_eq. eexists. apply list_lookup_insert_eq. by eapply lookup_lt_Some.
Qed.

Lemma step_harmless o d pc s pc' s' :
  md5_text d = true → pc_sane s d pc → (∀ d l, ca_loads s !! d = Some l → ca_done s !! l = Some (d, None)) →
  preview_step o d pc s = Some (pc', s') → harmless d pc s s'.
Proof.
  intros Hd (S1 & S2 & S3 & S4 & S5) Hloads H.
  destruct pc, o; simpl in H; try done; repeat (case_match; simplify_eq/=); simplify_eq/=; try apply harmless_same; try (by apply finish_harmless; eauto).
  - split; cbn; eauto.
    + intros d' l' _ Hl. rewrite lookup_insert_ne; [done|]. intros <-. congruence.
    + intros l' d' r Hl. exists r. by apply lookup_app_l_Some.
  - unfold fresh_name in *. apply andb_true_iff in H0 as [[Hn%bool_decide_eq_true_1 Ht]%andb_true_iff _].
    split; cbn; eauto.
    + intros n c Hm Hc. rewrite lookup_insert_ne by congruence. eauto.
    + intros t c Hm _ Hc. rewrite lookup_insert_ne by congruence. eauto.
  - split; cbn; eauto.
    + intros n c Hm Hc. destruct (decide (n = tmp)) as [->|]; [by rewrite lookup_insert_eq|]. rewrite lookup_insert_ne by done. eauto.
    + intros t c Hm Hne Hc. rewrite lookup_insert_ne by congruence. eauto.
  - specialize (S3 tmp eq_refl). split; cbn; eauto.
    + intros n c Hm Hc. destruct (decide (n = d)) as [->|]; [by rewrite lookup_insert_eq|].
      rewrite lookup_insert_ne, lookup_delete_ne by congruence. eauto.
    + intros t c Hm Hne Hc. rewrite lookup_insert_ne, lookup_delete_ne by congruence. eauto.
  - specialize (S3 tmp eq_refl). split; cbn; eauto.
    + intros n c Hm Hc. rewrite lookup_delete_ne by congruence. eauto.
    + intros t c Hm Hne Hc. rewrite lookup_delete_ne by congruence. eauto.
Qed.

(** What a step makes of the files and the loads. *)
Lemma step_files o d pc s pc' s' :
  md5_text d = true → pc_sane s d pc → sound s → preview_step o d pc s = Some (pc', s') →
  ∀ n c, ca_files s' !! n = Some c → md5_text n = true → md5 c = n.
Proof.
  intros Hd (S1 & S2 & S3 & S4 & S5) HI H. pose proof (sound_files _ HI) as I1.
  destruct pc, o; simpl in H; try done; repeat (case_match; simplify_eq/=); simplify_eq/=; try done; intros n c Hc Hn.
  - unfold fresh_name in *. apply andb_true_iff in H0 as [[_ Ht%negb_true_iff]%andb_true_iff _].
    apply lookup_insert_Some in Hc as [[<- <-]|[_ Hc]]; [congruence|eauto].
  - specialize (S3 tmp eq_refl). apply lookup_insert_Some in Hc as [[<- <-]|[_ Hc]]; [congruence|eauto].
  - destruct (S4 _ _ eq_refl) as (c' & Hc' & Hm). simplify_eq. apply lookup_insert_Some in Hc as [[<- <-]|[_ Hc]]; [done|].
    apply lookup_delete_Some in Hc as [_ ?]. eauto.
  - apply lookup_delete_Some in Hc as [_ ?]. eauto.
Qed.

Lemma step_loads o d pc s pc' s' :
  md5_text d = true → pc_sane s d pc → sound s → preview_step o d pc s = Some (pc', s') →
  (∀ d' l, ca_loads s' !! d' = Some l → ca_done s' !! l = Some (d', None)) ∧
  (∀ l d' r, ca_done s' !! l = Some (d', r) → md5_text d' = true ∧ (r = Some None → is_Some (ca_files s' !! d'))).
Proof.
  intros Hd Hs HI H. destruct (step_harmless _ _ _ _ _ _ Hd Hs (sound_loads _ HI) H) as [F1 _ _ _ _].
  assert (∀ l d' r, ca_done s !! l = Some (d', r) → md5_text d' = true ∧ (r = Some None → is_Some (ca_files s' !! d'))) as Hold.
  { intros l d' r Hl. destruct (sound_done _ HI _ _ _ Hl) as [Hd' Hf]. split; [done|]. intros E. destruct (Hf E) as [c Hc]. by eapply F1. }
  destruct Hs as (S1 & S2 & S3 & S4 & S5). pose proof (sound_loads _ HI) as I6.
  assert (ca_loads s' = ca_loads s ∧ ca_done s' = ca_done s ∨ pc = VLock ∨ ∃ l e, pc = VFinish l e) as [[-> ->]|[->|(l & e & ->)]]; [|done|..].
  { destruct pc, o; simpl in H; try done; eauto; repeat (case_match; simplify_eq/=); simplify_eq/=; eauto. }
  - destruct o; simpl in H; try done. destruct (ca_loads s !! d) eqn:El; simplify_eq/=; [done|]. split.
    + intros d' l' [[<- <-]|[Hne Hl]]%lookup_insert_Some; [by rewrite lookup_app_r, Nat.sub_diag by lia|].
      by apply lookup_app_l_Some, I6.
    + intros l' d' r [Hl|[_ Hl]]%lookup_app_Some; [by eapply Hold|]. by apply list_lookup_singleton_Some in Hl as [_ [= <- <-]].
  - destruct o; simpl in H; try done. simplify_eq/=. specialize (S2 l eq_refl). pose proof (I6 _ _ S2) as Hl. split.
    + intros d' l' [Hne Hl']%lookup_delete_Some. rewrite list_lookup_insert_ne; [by apply I6|]. intros <-. apply I6 in Hl'. congruence.
    + intros l' d' r Hl'. destruct (decide (l' = l)) as [->|Hne]; [|rewrite list_lookup_insert_ne in Hl' by done; by eapply Hold].
      rewrite list_lookup_insert_eq in Hl' by (by eapply lookup_lt_Some). simplify_eq. split; [done|]. intros [= ->]. by apply S5.
Qed.
Lemma step_sane o d pc s pc' s' :
  md5_text d = true → pc_sane s d pc → sound s → preview_step o d pc s = Some (pc', s') → pc_sane s' d pc'.
Proof.
  intros Hd (S1 & S2 & S3 & S4 & S5) HI H. pose proof (sound_loads _ HI) as I6.
  destruct pc, o; simpl in H; try done; repeat (case_match; simplify_eq/=); simplify_eq/=.
  all: split_and!; cbn; intros; simplify_eq/=; try done; try (by eapply S2); try (by eapply S3); try (by apply S5).
  - eexists. by apply I6.
  - apply lookup_insert_eq.
  - match goal with E : ca_done s' !! _ = Some _ |- _ => destruct (S1 _ eq_refl) as [r Hr]; rewrite Hr in E; simplify_eq;
      by apply (sound_done _ HI _ _ _ Hr) end.
  - match goal with E : fresh_name _ _ = true |- _ => by apply andb_true_iff in E as [[_ Ht%negb_true_iff]%andb_true_iff _] end.
  - match goal with E : bool_decide _ = true |- _ => apply bool_decide_eq_true_1 in E end. eauto.
  - by rewrite lookup_insert_eq.
  - destruct (S5 ltac:(done)) as [c Hc]. specialize (S3 tmp eq_refl). rewrite lookup_delete_ne by congruence. eauto.
Qed.

(** A new temporary file, or a new load, is nobody else's. *)
Lemma step_tmp o d pc s pc' s' t :
  preview_step o d pc s = Some (pc', s') → tmp_of pc' = Some t → tmp_of pc = Some t ∨ fresh_name t s = true.
Proof. destruct pc, o; simpl; try done; intros H; repeat (case_match; simplify_eq/=); simplify_eq/=; auto; intros [= <-]; auto. Qed.

Lemma step_leads o d pc s pc' s' l :
  preview_step o d pc s = Some (pc', s') → leads pc' = Some l → leads pc = Some l ∨ l = length (ca_done s).
Proof. destruct pc, o; simpl; try done; intros H; repeat (case_match; simplify_eq/=); simplify_eq/=; auto; intros [= <-]; auto. Qed.

Lemma sound_step e s s' : sound s → preview_exec e s = Some s' → sound s'.
Proof.
  intros HI He. destruct e as [d|i o]; simpl in He.
  - destruct (md5_text d) eqn:Hd; [|done]. injection He as <-. destruct HI as [I1 I2 I3 I4 I5 I6 I7]. split; cbn; try done.
    + intros j p [H|[_ H]]%lookup_app_Some; [eauto|]. by apply list_lookup_singleton_Some in H as [_ <-].
    + intros j p [H|[_ H]]%lookup_app_Some; [by apply I3 in H|]. by apply list_lookup_singleton_Some in H as [_ <-].
    + intros j k p q t [Hp|[_ Hp]]%lookup_app_Some [Hq|[_ Hq]]%lookup_app_Some; [eauto|..];
        try (apply list_lookup_singleton_Some in Hp as [_ <-]; done); by apply list_lookup_singleton_Some in Hq as [_ <-].
    + intros j k p q t [Hp|[_ Hp]]%lookup_app_Some [Hq|[_ Hq]]%lookup_app_Some; [eauto|..];
        try (apply list_lookup_singleton_Some in Hp as [_ <-]; done); by apply list_lookup_singleton_Some in Hq as [_ <-].
  - destruct (ca_calls s !! i) as [p|] eqn:Hi; [|done]. simpl in He.
    destruct (preview_step o (pv_digest p) (pv_pc p) s) as [[pc s1]|] eqn:H; [|done]. injection He as <-.
    pose proof (sound_digests _ HI _ _ Hi) as Hd. pose proof (sound_calls _ HI _ _ Hi) as Hs.
    pose proof (step_files _ _ _ _ _ _ Hd Hs HI H) as G1. destruct (step_loads _ _ _ _ _ _ Hd Hs HI H) as [G2 G3].
    pose proof (step_sane _ _ _ _ _ _ Hd Hs HI H) as G4. pose proof (step_harmless _ _ _ _ _ _ Hd Hs (sound_loads _ HI) H) as G5.
    pose proof (hl_calls _ _ _ _ G5) as Ec. destruct HI as [I1 I2 I3 I4 I5 I6 I7].
    assert (∀ t j q, j ≠ i → ca_calls s !! j = Some q → tmp_of pc = Some t → tmp_of (pv_pc q) ≠ Some t) as Ht.
    { intros t j q Hne Hq E E'. destruct (step_tmp _ _ _ _ _ _ _ H E) as [E0|Hf]; [by apply Hne; eapply I4|].
      apply andb_true_iff in Hf as [_ Hf]. rewrite forallb_forall in Hf.
      specialize (Hf q ltac:(apply list_elem_of_In; by eapply list_elem_of_lookup_2)). by rewrite E', bool_decide_true in Hf. }
    assert (∀ l j q, j ≠ i → ca_calls s !! j = Some q → leads pc = Some l → leads (pv_pc q) ≠ Some l) as Hl.
    { intros l j q Hne Hq E E'. destruct (step_leads _ _ _ _ _ _ _ H E) as [E0| ->]; [by apply Hne; eapply I5|].
      destruct (I3 _ _ Hq) as (_ & S2 & _). apply S2, I6, lookup_lt_Some in E'. lia. }
    split; cbn; rewrite ?Ec; try done.
    + intros j q [(<- & <- & _)|[Hne Hq]]%list_lookup_insert_Some; [done|eauto].
    + intros j q [(<- & <- & _)|[Hne Hq]]%list_lookup_insert_Some; [exact G4|].
      apply (others_sane (pv_digest p) (pv_pc p) s s1); [done|by eapply I2| | |by apply (I3 j)].
      * intros t E E'. apply Hne. symmetry. by eapply (I4 j i).
      * intros l E E'. apply Hne. symmetry. by eapply (I5 j i).
    + intros j k q r t [(<- & <- & _)|[Hne Hq]]%list_lookup_insert_Some [(<- & <- & _)|[Hne' Hr]]%list_lookup_insert_Some Eq Er;
        [done|by destruct (Ht t k r)|by destruct (Ht t j q)|eauto].
    + intros j k q r l [(<- & <- & _)|[Hne Hq]]%list_lookup_insert_Some [(<- & <- & _)|[Hne' Hr]]%list_lookup_insert_Some Eq Er;
        [done|by destruct (Hl l k r)|by destruct (Hl l j q)|eauto].
Qed.
Lemma sound_run es : ∀ s s', sound s → preview_run es s = Some s' → sound s'.
Proof.
  induction es as [|e es IH]; intros s s' HI; simpl; [by intros [= <-]|].
  destruct (preview_exec e s) as [s1|] eqn:E; [|done]. apply IH. by apply (sound_step e s s1).
Qed.

(** The preview cache never lies.  Whatever requests overlap, fail or are
    given up, a file of the cache directory that has an MD5 for its name has that
    MD5, if this was so at the start; a request that succeeds finds the file of
    its digest there; and of the requests for one digest at most one at a time
    downloads it. *)
Theorem preview_cache_sound files es s :
  (∀ n c, files !! n = Some c → md5_text n = true → md5 c = n) → preview_run es (preview_start files) = Some s →
  (∀ n c, ca_files s !! n = Some c → md5_text n = true → md5 c = n) ∧
  (∀ i p hit, ca_calls s !! i = Some p → pv_pc p = VDone (Ok hit) →
     ∃ c, ca_files s !! pv_digest p = Some c ∧ md5 c = pv_digest p) ∧
  (∀ i j p q, ca_calls s !! i = Some p → ca_calls s !! j = Some q → pv_digest p = pv_digest q →
     is_Some (leads (pv_pc p)) → is_Some (leads (pv_pc q)) → i = j).
Proof.
  intros Hf He. assert (sound s) as [I1 I2 I3 I4 I5 I6 I7].
  { apply (sound_run es (preview_start files)); [|done]. by split. }
  split_and!; [exact I1| |].
  - intros i p hit Hi Hpc. destruct (I3 _ _ Hi) as (_ & _ & _ & _ & S5). rewrite Hpc in S5. destruct (S5 eq_refl) as [c Hc].
    exists c. split; [done|]. apply I1; [done|by eapply I2].
  - intros i j p q Hi Hj E [l Hl] [l' Hl']. destruct (I3 _ _ Hi) as (_ & S & _), (I3 _ _ Hj) as (_ & S' & _).
    specialize (S _ Hl). specialize (S' _ Hl'). rewrite E, S' in S. simplify_eq. by eapply I5.
Qed.

End cache.

(** ** Digests in outputs *)

Definition a_digest : gostring := lit "d41d8cd98f00b204e9800998ecf8427e".

(** The outputs of the commands, as the repository's test has them. *)
Theorem md5_outputs :
  parseMD5Output (a_digest ++ lit "  /tmp/a.png" ++ [10]) = a_digest ∧
  parseMD5Output (lit "MD5 (/tmp/a.png) = " ++ a_digest ++ [10]) = a_digest ∧
  parseMD5Output (lit "MD5 hash of a.png:" ++ [13; 10] ++ a_digest ++ [13; 10] ++ lit "CertUtil: command completed successfully." ++ [13; 10]) = a_digest ∧
  parseMD5Output (lit "MD5 hash:" ++ [13; 10] ++ lit "d4 1d 8c d9 8f 00 b2 04 e9 80 09 98 ec f8 42 7e" ++ [13; 10]) = a_digest.
Proof. vm_compute. tauto. Qed.

(** certutil names the file before it gives the digest: of a file whose path has
    32 hexadecimal digits in a row, as a file named after an MD5 has, these are
    taken for the digest. *)
Theorem certutil_reads_path :
  parseMD5Output (lit "MD5 hash of C:\shots\00112233445566778899aabbccddeeff.png:" ++ [13; 10] ++ a_digest ++ [13; 10])
  = lit "00112233445566778899aabbccddeeff".
Proof. by vm_compute. Qed.

(** ** Concrete requests *)

(** One request leads, the other waits; the leader's download is given up. *)
Definition given_up : list PreviewEvent :=
  [PRequest a_digest; PRequest a_digest; PStep 0 PGo; PStep 0 PGo; PStep 1 PGo; PStep 1 PGo; PStep 0 PGo; PStep 0 PGo;
   PStep 0 (PName (lit ".preview-1.part")); PStep 0 (PErr (lit "context canceled")); PStep 0 PGo; PStep 0 PGo; PStep 1 PGo].

(** A request that waits for the download of another one fails when the other
    one is given up (because its page was closed, say), though its own context
    has not ended. *)
Theorem waiter_inherits_cancellation md5 :
  map pv_pc ∘ ca_calls <$> preview_run md5 given_up (preview_start ∅)
  = Some [VDone (Err (lit "download preview: context canceled")); VDone (Err (lit "download preview: context canceled"))].
Proof. by vm_compute. Qed.

(** The download works; the second request finds the file. *)
Definition fetched : list PreviewEvent :=
  [PRequest a_digest; PRequest a_digest; PStep 0 PGo; PStep 0 PGo; PStep 0 PGo; PStep 0 PGo; PStep 0 (PName (lit ".preview-1.part"));
   PStep 0 (PContent [1; 2; 3]); PStep 0 PGo; PStep 0 PGo; PStep 0 PGo; PStep 0 PGo; PStep 1 PGo].
Definition sample_md5 (c : list Z) : gostring := if bool_decide (c = [1; 2; 3]) then a_digest else [].
Definition after_fetch : Cache := default (preview_start ∅) (preview_run sample_md5 fetched (preview_start ∅)).

Lemma preview_cache_sound_witness :
  map pv_pc (ca_calls after_fetch) = [VDone (Ok false); VDone (Ok true)] ∧
  ∀ n c, ca_files after_fetch !! n = Some c → md5_text n = true → sample_md5 c = n.
Proof.
  split; [vm_compute; reflexivity|].
  refine (proj1 (preview_cache_sound sample_md5 ∅ fetched after_fetch _ _)); [intros n c H; discriminate H|vm_compute; reflexivity].
Defined.
